(** * Conduit blueprint: tiled mesh generator, parallel partitioner, point merge

    A shallow embedding of

    - [conduit_blueprint_mesh_examples_tiled.cpp] ([Tile], [Tiler], [tiled]),
    - [conduit_blueprint_mpi_mesh_partition.cpp] ([parallel_partitioner]),
    - [pointmerge.hpp] ([point_merge]),
    - [conduit_io.cpp] ([identify_protocol], [save], [load], [about]),

    followed by the properties proved about them.

    Conventions.  Machine integers are [Z] with the conversions of the source
    written out ([to_int], [to_uint64], ...).  A [double] is an exact rational
    ([Q]): rounding of floating-point arithmetic is not modelled, and a
    division by zero, an infinity or a NaN in the source, is [0] as in [Q].
    The two arithmetics agree where every value is a whole number below
    [2^53] and no divisor is zero, so the statements about the values of
    coordinates are made for such inputs ([whole], [whole_pattern]) or
    compare values that the source copies; the statements about ids, counts
    and the order of what is emitted do not depend on the arithmetic.  A
    [std::vector] is a [list]; reading or writing outside its bounds is
    undefined in the source and is the error [OutOfRange] here.  An exception
    thrown by the conduit library is the error [ConduitError]. *)

From Stdlib Require Import ZArith QArith Qround Qminmax Qabs Lia Lqa Sorted.
From stdpp Require Import base list strings sorting.

Local Open Scope Z_scope.
Set Warnings "-register-all".

(** ** Results, machine integers, vectors *)

Module Prelude.

Inductive error : Type :=
| ConduitError (msg : string)
| OutOfRange
| NoMessage.

Inductive result (A : Type) : Type :=
| Ok (a : A)
| Err (e : error).
Arguments Ok {A} a.
Arguments Err {A} e.

#[global] Instance result_ret : MRet result := fun A a => Ok a.
#[global] Instance result_bind : MBind result := fun A B f m =>
  match m with
  | Ok a => f a
  | Err e => Err e
  end.

Definition is_ok {A} (r : result A) : bool :=
  match r with Ok _ => true | Err _ => false end.

(** [static_cast<int>]: the low 32 bits, read as a signed number. *)
Definition to_int (z : Z) : Z := (z + 2 ^ 31) mod 2 ^ 32 - 2 ^ 31.
(** [static_cast<long>] and [conduit::index_t]: 64 bits, signed. *)
Definition to_long (z : Z) : Z := (z + 2 ^ 63) mod 2 ^ 64 - 2 ^ 63.
(** [static_cast<uint64>] and arithmetic on [uint64]. *)
Definition to_uint64 (z : Z) : Z := z mod 2 ^ 64.
(** [unsigned int]. *)
Definition to_uint (z : Z) : Z := z mod 2 ^ 32.

(** [v[i]] as a read. *)
Definition vec_get {A} (v : list A) (i : Z) : result A :=
  if Z.ltb i 0 then Err OutOfRange
  else match v !! Z.to_nat i with
       | Some a => Ok a
       | None => Err OutOfRange
       end.

(** [v[i] = a]. *)
Definition vec_set {A} (v : list A) (i : Z) (a : A) : result (list A) :=
  if Z.ltb i 0 then Err OutOfRange
  else if Nat.ltb (Z.to_nat i) (length v) then Ok (<[Z.to_nat i := a]> v)
  else Err OutOfRange.

(** [for(k = lo; k < lo + n; k++) s = body(k, s)]. *)
Fixpoint for_range {S} (lo : Z) (n : nat) (body : Z -> S -> result S) (s : S)
  : result S :=
  match n with
  | O => Ok s
  | S n' => s' ← body lo s; for_range (lo + 1) n' body s'
  end.

(** [for(k = hi; k > hi - n; k--) s = body(k, s)]. *)
Fixpoint for_down {S} (hi : Z) (n : nat) (body : Z -> S -> result S) (s : S)
  : result S :=
  match n with
  | O => Ok s
  | S n' => s' ← body hi s; for_down (hi - 1) n' body s'
  end.

(** A range-based [for] over a vector. *)
Fixpoint for_each {A S} (l : list A) (body : A -> S -> result S) (s : S)
  : result S :=
  match l with
  | [] => Ok s
  | a :: l' => s' ← body a s; for_each l' body s'
  end.

(** The total reading of [v[i]] used in statements: [d] outside the bounds. *)
Definition at_ {A} (d : A) (v : list A) (i : Z) : A :=
  match vec_get v i with Ok a => a | Err _ => d end.

End Prelude.
Import Prelude.

(** ** pointmerge.hpp *)

Module PointMerge.

Inductive coord_system : Type := cartesian | cylindrical | spherical.

(** The children of a coordset's [values] node that [execute] looks for. *)
Record values_node : Type := {
  v_x : option (list Q);
  v_y : option (list Q);
  v_z : option (list Q);
  v_r : option (list Q);
  v_theta : option (list Q);
  v_phi : option (list Q)
}.

(** A coordset node: [fetch_ptr("values")] is null when [values] is absent. *)
Record coordset_node : Type := { cs_values : option values_node }.

Record record : Type := {
  orig_domains : list Z;
  orig_ids : list Z
}.

Definition tup : Type := Z * Z * Z.

(** [std::map<tup, record>]: an association list kept in increasing key
    order, the order of iteration. *)
Definition point_records_type : Type := list (tup * record).

Record point_merge : Type := {
  point_records : point_records_type;
  scale : Q;
  out_system : coord_system
}.

(** [operator<] of [std::tuple]: lexicographic. *)
Definition tup_ltb (a b : tup) : bool :=
  let '(a0, a1, a2) := a in
  let '(b0, b1, b2) := b in
  if Z.ltb a0 b0 then true
  else if Z.ltb b0 a0 then false
  else if Z.ltb a1 b1 then true
  else if Z.ltb b1 a1 then false
  else Z.ltb a2 b2.

(** The table of [determine_scale]. *)
Definition lookup : list Q :=
  [ 1%Q;
    inject_Z (Z.shiftl 2 4);
    inject_Z (Z.shiftl 2 7);
    inject_Z (Z.shiftl 2 10);
    inject_Z (Z.shiftl 2 14);
    inject_Z (Z.shiftl 2 17);
    inject_Z (Z.shiftl 2 20) ].

(** [determine_scale(double)]: the parameter has no name in the source and is
    not read; [decimal_places] is the constant [4u]. *)
Definition determine_scale (tolerance : Q) : Q :=
  let decimal_places := 4%nat in
  let retval := 0%Q in
  if Nat.ltb decimal_places (length lookup)
  then nth decimal_places lookup retval
  else nth 6%nat lookup retval.

(** [std::round]: to the nearest integer, halves away from zero. *)
Definition round (q : Q) : Z :=
  if Qle_bool 0 q then Qfloor (q + (1 # 2)) else (- Qfloor (- q + (1 # 2)))%Z.

(** [static_cast<fp_type>] of a rounded double; a value outside [int64] has
    no defined conversion. *)
Definition to_fp_type (z : Z) : result Z :=
  if Z.leb (- 2 ^ 63) z && Z.ltb z (2 ^ 63) then Ok z else Err OutOfRange.

(** [point_records.insert({key, {}})] followed by the two [push_back]s on the
    record the returned iterator points to. *)
Fixpoint insert_record (key : tup) (dom_id pid : Z) (m : point_records_type)
  : point_records_type :=
  match m with
  | [] => [(key, {| orig_domains := [dom_id]; orig_ids := [pid] |})]
  | (k, r) :: m' =>
      if tup_ltb key k
      then (key, {| orig_domains := [dom_id]; orig_ids := [pid] |}) :: m
      else if tup_ltb k key
      then (k, r) :: insert_record key dom_id pid m'
      else (k, {| orig_domains := orig_domains r ++ [dom_id];
                  orig_ids := orig_ids r ++ [pid] |}) :: m'
  end.

(** [insert]: both switches have the Cartesian case only. *)
Definition insert (pm : point_merge) (dom_id pid : Z) (system : coord_system)
    (x y z : Q) : result point_merge :=
  k0 ← to_fp_type (round (x * scale pm));
  k1 ← to_fp_type (round (y * scale pm));
  k2 ← to_fp_type (round (z * scale pm));
  Ok {| point_records := insert_record (k0, k1, k2) dom_id pid (point_records pm);
        scale := scale pm;
        out_system := out_system pm |}.

Definition iterate_coordinates (pm : point_merge) (domain_id : Z)
    (cs : coord_system) (xnode ynode znode : option (list Q))
  : result point_merge :=
  match xnode, ynode, znode with
  | Some xarray, Some yarray, Some zarray =>
      for_range 0 (length xarray) (fun i pm =>
        x ← vec_get xarray i; y ← vec_get yarray i; z ← vec_get zarray i;
        insert pm domain_id i cs x y z) pm
  | Some xarray, Some yarray, None =>
      for_range 0 (length xarray) (fun i pm =>
        x ← vec_get xarray i; y ← vec_get yarray i;
        insert pm domain_id i cs x y 0%Q) pm
  | Some xarray, None, _ =>
      for_range 0 (length xarray) (fun i pm =>
        x ← vec_get xarray i;
        insert pm domain_id i cs x 0%Q 0%Q) pm
  | None, _, _ => Ok pm
  end.

(** The body of the loop over coordsets in [execute]. *)
Definition execute_coordset (i : Z) (coordset : coordset_node) (pm : point_merge)
  : result point_merge :=
  match cs_values coordset with
  | None => Err OutOfRange
  | Some vals =>
      match v_x vals with
      | Some _ => iterate_coordinates pm i cartesian (v_x vals) (v_y vals) (v_z vals)
      | None =>
          match v_r vals with
          | Some _ =>
              match v_z vals with
              | Some _ => iterate_coordinates pm i cylindrical (v_r vals) (v_z vals) None
              | None =>
                  match v_theta vals with
                  | Some _ => iterate_coordinates pm i spherical
                                (v_r vals) (v_theta vals) (v_phi vals)
                  | None => Ok pm
                  end
              end
          | None => iterate_coordinates pm i cartesian None None None
          end
      end
  end.

(** The explicit coordset written to [output]: one [(x, y, z)] per record, in
    map order. *)
Definition emit (pm : point_merge) : list (Q * Q * Q) :=
  map (fun kr => let '(k0, k1, k2) := fst kr in
                 (inject_Z k0 / scale pm, inject_Z k1 / scale pm,
                  inject_Z k2 / scale pm)%Q)
      (point_records pm).

Definition execute (pm : point_merge) (coordsets : list coordset_node)
    (tolerance : Q) : result (point_merge * list (Q * Q * Q)) :=
  let pm0 := {| point_records := point_records pm;
                scale := determine_scale tolerance;
                out_system := cartesian |} in
  pm1 ← for_range 0 (length coordsets) (fun i pm =>
          coordset ← vec_get coordsets i;
          execute_coordset i coordset pm) pm0;
  Ok (pm1, emit pm1).

(** A freshly constructed [point_merge]. *)
Definition empty : point_merge :=
  {| point_records := []; scale := 0%Q; out_system := cartesian |}.

End PointMerge.

(** ** conduit_blueprint_mesh_examples_tiled.cpp *)

Module Tiled.

(** *** class Tile

    A tile is its vector [ptids]. *)
Module Tile.

Definition INVALID_POINT : Z := -1.

Definition reset (npts : nat) : list Z := replicate npts (-1).

(** [getPointIds(indices)]: [ptids[idx]] for every [idx], in order. *)
Fixpoint getPointIds (ptids : list Z) (indices : list Z) : result (list Z) :=
  match indices with
  | [] => Ok []
  | idx :: indices' =>
      id ← vec_get ptids idx;
      ids ← getPointIds ptids indices';
      Ok (id :: ids)
  end.

(** [setPointIds(indices, ids)]: [ptids[indices[i]] = ids[i]] for
    [i < indices.size()]. *)
Fixpoint setPointIds (ptids : list Z) (indices ids : list Z) : result (list Z) :=
  match indices with
  | [] => Ok ptids
  | idx :: indices' =>
      match ids with
      | [] => Err OutOfRange
      | id :: ids' =>
          ptids' ← vec_set ptids idx id;
          setPointIds ptids' indices' ids'
      end
  end.

End Tile.

(** *** class Tiler *)

Record Tiler : Type := {
  m_xpts : list Q;
  m_ypts : list Q;
  m_width : Q;
  m_height : Q;
  m_left : list Z;
  m_right : list Z;
  m_bottom : list Z;
  m_top : list Z;
  m_quads : list Z
}.

Definition BoundaryLeft : Z := 0.
Definition BoundaryRight : Z := 1.
Definition BoundaryBottom : Z := 2.
Definition BoundaryTop : Z := 3.
Definition BoundaryBack : Z := 4.
Definition BoundaryFront : Z := 5.

(** [bool flags[6]], by side. *)
Record boundary_flags : Type := {
  fLeft : bool;
  fRight : bool;
  fBottom : bool;
  fTop : bool;
  fBack : bool;
  fFront : bool
}.

(** [double M[3][3]]. *)
Record matrix : Type := {
  M00 : Q; M01 : Q; M02 : Q;
  M10 : Q; M11 : Q; M12 : Q;
  M20 : Q; M21 : Q; M22 : Q
}.

(** The [tile] option: the children [fetch_existing] asks for. *)
Record tile_node : Type := {
  t_x : option (list Q);
  t_y : option (list Q);
  t_quads : option (list Z);
  t_left : option (list Z);
  t_right : option (list Z);
  t_bottom : option (list Z);
  t_top : option (list Z)
}.

(** The [options] node of [generate]; [domain] and [domains] as their
    [as_int_accessor] reads them. *)
Record options_node : Type := {
  o_tile : option tile_node;
  o_reorder : option Z;
  o_datatype : option string;
  o_extents : option (list Q);
  o_domain : option (list Z);
  o_domains : option (list Z)
}.

Definition no_options : options_node :=
  {| o_tile := None; o_reorder := None; o_datatype := None;
     o_extents := None; o_domain := None; o_domains := None |}.

(** [fetch_existing(path)] throws when the path is absent. *)
Definition fetch_existing {A} (path : string) (child : option A) : result A :=
  match child with
  | Some a => Ok a
  | None => Err (ConduitError path)
  end.

(** [computeExtents]: reads [values[0]] first. *)
Definition computeExtents (values : list Q) : result Q :=
  v0 ← vec_get values 0;
  let ext := fold_left (fun ext val => (Qmin (fst ext) val, Qmax (snd ext) val))
                       values (v0, v0) in
  Ok (snd ext - fst ext)%Q.

Definition default_xpts : list Q :=
  map inject_Z
  [ 0; 3; 10; 17; 20;
    0; 3; 17; 20;
    5; 15;
    7; 10; 13;
    0; 7; 10; 13; 20;
    7; 10; 13;
    5; 15;
    0; 3; 17; 20;
    0; 3; 10; 17; 20 ].

Definition default_ypts : list Q :=
  map inject_Z
  [ 0; 0; 0; 0; 0;
    3; 3; 3; 3;
    5; 5;
    7; 7; 7;
    10; 10; 10; 10; 10;
    13; 13; 13;
    15; 15;
    17; 17; 17; 17;
    20; 20; 20; 20; 20 ].

Definition default_quads : list Z :=
  [ (* lower-left quadrant *)
    0;1;6;5;
    1;2;9;6;
    2;12;11;9;
    5;6;9;14;
    9;11;15;14;
    11;12;16;15;
    (* lower-right quadrant *)
    2;3;7;10;
    3;4;8;7;
    7;8;18;10;
    2;10;13;12;
    12;13;17;16;
    10;18;17;13;
    (* upper-left quadrant *)
    14;22;25;24;
    14;15;19;22;
    15;16;20;19;
    24;25;29;28;
    22;30;29;25;
    19;20;30;22;
    (* upper-right quadrant *)
    16;17;21;20;
    17;18;23;21;
    18;27;26;23;
    20;21;23;30;
    23;26;31;30;
    26;27;32;31 ].

(** [Tiler::initialize()]: the default pattern. *)
Definition initialize : result Tiler :=
  w ← computeExtents default_xpts;
  h ← computeExtents default_ypts;
  Ok {| m_xpts := default_xpts;
        m_ypts := default_ypts;
        m_width := w;
        m_height := h;
        m_left := [0; 5; 14; 24; 28];
        m_right := [4; 8; 18; 27; 32];
        m_bottom := [0; 1; 2; 3; 4];
        m_top := [28; 29; 30; 31; 32];
        m_quads := default_quads |}.

(** [Tiler::initialize(const conduit::Node &t)]. *)
Definition initialize_from (t : tile_node) : result Tiler :=
  xpts ← fetch_existing "x" (t_x t);
  ypts ← fetch_existing "y" (t_y t);
  quads ← fetch_existing "quads" (t_quads t);
  left ← fetch_existing "left" (t_left t);
  right ← fetch_existing "right" (t_right t);
  bottom ← fetch_existing "bottom" (t_bottom t);
  top ← fetch_existing "top" (t_top t);
  w ← computeExtents xpts;
  h ← computeExtents ypts;
  Ok {| m_xpts := xpts; m_ypts := ypts; m_width := w; m_height := h;
        m_left := left; m_right := right; m_bottom := bottom; m_top := top;
        m_quads := quads |}.

(** [addPoints]: every template point whose id is still [INVALID_POINT] gets
    the next id and its transformed coordinates. *)
Definition addPoints_body (T : Tiler) (M : matrix) (i : Z)
    (s : list Z * list Q * list Q) : result (list Z * list Q * list Q) :=
  let '(ptids, x, y) := s in
  p ← vec_get ptids i;
  if Z.eqb p Tile.INVALID_POINT then
    ptids' ← vec_set ptids i (to_int (Z.of_nat (length x)));
    xi ← vec_get (m_xpts T) i;
    yi ← vec_get (m_ypts T) i;
    let xc := (xi * M00 M + yi * M10 M + M20 M)%Q in
    let yc := (xi * M01 M + yi * M11 M + M21 M)%Q in
    let h := (xi * M02 M + yi * M12 M + M22 M)%Q in
    Ok (ptids', x ++ [(xc / h)%Q], y ++ [(yc / h)%Q])
  else Ok (ptids, x, y).

Definition addPoints (T : Tiler) (M : matrix) (ptids : list Z) (x y : list Q)
  : result (list Z * list Q * list Q) :=
  for_range 0 (length (m_xpts T)) (addPoints_body T M) (ptids, x, y).

(** [iterateFaces]: one call of [body] per quad of the pattern. *)
Definition iterateFaces {S} (T : Tiler) (ptids : list Z) (offset : Z)
    (reverse : bool) (stype : Z) (body : list Z -> Z -> Z -> S -> result S)
    (s : S) : result S :=
  let nquads := (length (m_quads T) / 4)%nat in
  let order : list Z :=
    [ if reverse then 3 else 0; if reverse then 2 else 1;
      if reverse then 1 else 2; if reverse then 0 else 3 ] in
  for_range 0 nquads (fun i s =>
    o0 ← vec_get order 0; q0 ← vec_get (m_quads T) (4 * i + o0); p0 ← vec_get ptids q0;
    o1 ← vec_get order 1; q1 ← vec_get (m_quads T) (4 * i + o1); p1 ← vec_get ptids q1;
    o2 ← vec_get order 2; q2 ← vec_get (m_quads T) (4 * i + o2); p2 ← vec_get ptids q2;
    o3 ← vec_get order 3; q3 ← vec_get (m_quads T) (4 * i + o3); p3 ← vec_get ptids q3;
    body [offset + p0; offset + p1; offset + p2; offset + p3] 4 stype s) s.

(** [addHexs]. *)
Definition addHexs (T : Tiler) (ptids : list Z) (plane1Offset plane2Offset : Z)
    (s : list Z * list Z) : result (list Z * list Z) :=
  let nquads := (length (m_quads T) / 4)%nat in
  for_range 0 nquads (fun i s =>
    let '(conn, sizes) := s in
    q0 ← vec_get (m_quads T) (4 * i + 0); p0 ← vec_get ptids q0;
    q1 ← vec_get (m_quads T) (4 * i + 1); p1 ← vec_get ptids q1;
    q2 ← vec_get (m_quads T) (4 * i + 2); p2 ← vec_get ptids q2;
    q3 ← vec_get (m_quads T) (4 * i + 3); p3 ← vec_get ptids q3;
    Ok (conn ++ [plane1Offset + p0; plane1Offset + p1; plane1Offset + p2; plane1Offset + p3;
                 plane2Offset + p0; plane2Offset + p1; plane2Offset + p2; plane2Offset + p3],
        sizes ++ [8])) s.

(** [boundaryFlags]; the product of the three [int]s is taken in [int]. *)
Definition boundaryFlags (options : options_node) : result boundary_flags :=
  let all_true := {| fLeft := true; fRight := true; fBottom := true;
                     fTop := true; fBack := true; fFront := true |} in
  match o_domain options, o_domains options with
  | Some domain, Some domains =>
      if Nat.eqb (length domain) 3 && Nat.eqb (length domain) (length domains) then
        d0 ← vec_get domain 0; d1 ← vec_get domain 1; d2 ← vec_get domain 2;
        n0 ← vec_get domains 0; n1 ← vec_get domains 1; n2 ← vec_get domains 2;
        let ndoms := to_int (to_int (n0 * n1) * n2) in
        if Z.ltb 1 ndoms then
          Ok {| fLeft := Z.eqb d0 0;
                fRight := Z.eqb d0 (to_int (n0 - 1));
                fBottom := Z.eqb d1 0;
                fTop := Z.eqb d1 (to_int (n1 - 1));
                fBack := Z.eqb d2 0;
                fFront := Z.eqb d2 (to_int (n2 - 1)) |}
        else Ok all_true
      else Ok all_true
  | _, _ => Ok all_true
  end.

(** The inner loops of [iterateBoundary2D] and [iterateBoundary3D] over an
    edge's ids.  [bi] is a [size_t]: on an empty [ids], [ids.size() - 1] is
    the largest [size_t] and the first read is outside the vector. *)
Definition edge_backward {S} (ids : list Z) (emit : Z -> Z -> S -> result S)
    (s : S) : result S :=
  match ids with
  | [] => Err OutOfRange
  | _ :: _ =>
      for_down (Z.of_nat (length ids) - 1) (length ids - 1) (fun bi s =>
        a ← vec_get ids bi; b ← vec_get ids (bi - 1); emit a b s) s
  end.

Definition edge_forward {S} (ids : list Z) (emit : Z -> Z -> S -> result S)
    (s : S) : result S :=
  match ids with
  | [] => Err OutOfRange
  | _ :: _ =>
      for_range 0 (length ids - 1) (fun bi s =>
        a ← vec_get ids bi; b ← vec_get ids (bi + 1); emit a b s) s
  end.

(** [iterateBoundary2D]. *)
Definition iterateBoundary2D {S} (T : Tiler) (tiles : list (list Z))
    (nx ny : Z) (flags : boundary_flags)
    (body : list Z -> Z -> Z -> S -> result S) (s : S) : result S :=
  s ← (if fLeft flags then
         let i := 0 in
         for_down (ny - 1) (Z.to_nat ny) (fun j s =>
           current ← vec_get tiles (j * nx + i);
           ids ← Tile.getPointIds current (m_left T);
           edge_backward ids (fun a b => body [a; b] 2 BoundaryLeft) s) s
       else Ok s);
  s ← (if fBottom flags then
         let j := 0 in
         for_range 0 (Z.to_nat nx) (fun i s =>
           current ← vec_get tiles (j * nx + i);
           ids ← Tile.getPointIds current (m_bottom T);
           edge_forward ids (fun a b => body [a; b] 2 BoundaryBottom) s) s
       else Ok s);
  s ← (if fRight flags then
         let i := nx - 1 in
         for_range 0 (Z.to_nat ny) (fun j s =>
           current ← vec_get tiles (j * nx + i);
           ids ← Tile.getPointIds current (m_right T);
           edge_forward ids (fun a b => body [a; b] 2 BoundaryRight) s) s
       else Ok s);
  (if fTop flags then
     let j := ny - 1 in
     for_down (nx - 1) (Z.to_nat nx) (fun i s =>
       current ← vec_get tiles (j * nx + i);
       ids ← Tile.getPointIds current (m_top T);
       edge_backward ids (fun a b => body [a; b] 2 BoundaryTop) s) s
   else Ok s).

(** [iterateBoundary3D]. *)
Definition side_quads {S} (T : Tiler) (offset1 offset2 : Z) (side : Z)
    (body : list Z -> Z -> Z -> S -> result S) (a b : Z) : S -> result S :=
  body [offset1 + a; offset1 + b; offset2 + b; offset2 + a] 4 side.

Definition iterateBoundary3D {S} (T : Tiler) (tiles : list (list Z))
    (nx ny nz nPtsPerPlane : Z) (flags : boundary_flags)
    (body : list Z -> Z -> Z -> S -> result S) (s : S) : result S :=
  s ← (if fLeft flags then
         for_range 0 (Z.to_nat nz) (fun k s =>
           let offset1 := k * nPtsPerPlane in
           let offset2 := (k + 1) * nPtsPerPlane in
           let i := 0 in
           for_down (ny - 1) (Z.to_nat ny) (fun j s =>
             current ← vec_get tiles (j * nx + i);
             ids ← Tile.getPointIds current (m_left T);
             edge_backward ids (side_quads T offset1 offset2 BoundaryLeft body) s) s) s
       else Ok s);
  s ← (if fRight flags then
         for_range 0 (Z.to_nat nz) (fun k s =>
           let offset1 := k * nPtsPerPlane in
           let offset2 := (k + 1) * nPtsPerPlane in
           let i := nx - 1 in
           for_range 0 (Z.to_nat ny) (fun j s =>
             current ← vec_get tiles (j * nx + i);
             ids ← Tile.getPointIds current (m_right T);
             edge_forward ids (side_quads T offset1 offset2 BoundaryRight body) s) s) s
       else Ok s);
  s ← (if fBottom flags then
         for_range 0 (Z.to_nat nz) (fun k s =>
           let offset1 := k * nPtsPerPlane in
           let offset2 := (k + 1) * nPtsPerPlane in
           let j := 0 in
           for_range 0 (Z.to_nat nx) (fun i s =>
             current ← vec_get tiles (j * nx + i);
             ids ← Tile.getPointIds current (m_bottom T);
             edge_forward ids (side_quads T offset1 offset2 BoundaryBottom body) s) s) s
       else Ok s);
  s ← (if fTop flags then
         for_range 0 (Z.to_nat nz) (fun k s =>
           let offset1 := k * nPtsPerPlane in
           let offset2 := (k + 1) * nPtsPerPlane in
           let j := ny - 1 in
           for_down (nx - 1) (Z.to_nat nx) (fun i s =>
             current ← vec_get tiles (j * nx + i);
             ids ← Tile.getPointIds current (m_top T);
             edge_backward ids (side_quads T offset1 offset2 BoundaryTop body) s) s) s
       else Ok s);
  s ← (if fBack flags then
         for_range 0 (Z.to_nat ny) (fun j s =>
           for_down (nx - 1) (Z.to_nat nx) (fun i s =>
             current ← vec_get tiles (j * nx + i);
             iterateFaces T current 0 true BoundaryBack body s) s) s
       else Ok s);
  (if fFront flags then
     for_range 0 (Z.to_nat ny) (fun j s =>
       for_range 0 (Z.to_nat nx) (fun i s =>
         current ← vec_get tiles (j * nx + i);
         iterateFaces T current (nz * nPtsPerPlane) false BoundaryFront body s) s) s
   else Ok s).

(** *** Tiler::generate *)

(** The state of the pass over the tiles: [tiles], [x], [y] and [M]. *)
Record point_state : Type := {
  ps_tiles : list (list Z);
  ps_x : list Q;
  ps_y : list Q;
  ps_M : matrix
}.

Definition set_M20 (M : matrix) (v : Q) : matrix :=
  {| M00 := M00 M; M01 := M01 M; M02 := M02 M;
     M10 := M10 M; M11 := M11 M; M12 := M12 M;
     M20 := v; M21 := M21 M; M22 := M22 M |}.

Definition set_M21 (M : matrix) (v : Q) : matrix :=
  {| M00 := M00 M; M01 := M01 M; M02 := M02 M;
     M10 := M10 M; M11 := M11 M; M12 := M12 M;
     M20 := M20 M; M21 := v; M22 := M22 M |}.

(** The body of the loop over [i] in the pass that makes the points. *)
Definition point_tile (T : Tiler) (nx : Z) (tx : Q) (j i : Z) (s : point_state)
  : result point_state :=
  let tiles := ps_tiles s in
  _ ← vec_get tiles (j * nx + i);
  let current := Tile.reset (length (m_xpts T)) in
  current ← (if Z.ltb 0 i then
               prevX ← vec_get tiles (j * nx + i - 1);
               ids ← Tile.getPointIds prevX (m_right T);
               Tile.setPointIds current (m_left T) ids
             else Ok current);
  current ← (if Z.ltb 0 j then
               prevY ← vec_get tiles ((j - 1) * nx + i);
               ids ← Tile.getPointIds prevY (m_top T);
               Tile.setPointIds current (m_bottom T) ids
             else Ok current);
  '(current, x, y) ← addPoints T (ps_M s) current (ps_x s) (ps_y s);
  tiles ← vec_set tiles (j * nx + i) current;
  Ok {| ps_tiles := tiles; ps_x := x; ps_y := y;
        ps_M := set_M20 (ps_M s) (M20 (ps_M s) + tx) |}.

(** The body of the loop over [j]. *)
Definition point_row (T : Tiler) (nx : Z) (origin0 tx ty : Q) (j : Z)
    (s : point_state) : result point_state :=
  let s := {| ps_tiles := ps_tiles s; ps_x := ps_x s; ps_y := ps_y s;
              ps_M := set_M20 (ps_M s) origin0 |} in
  s ← for_range 0 (Z.to_nat nx) (point_tile T nx tx j) s;
  Ok {| ps_tiles := ps_tiles s; ps_x := ps_x s; ps_y := ps_y s;
        ps_M := set_M21 (ps_M s) (M21 (ps_M s) + ty) |}.

(** "Make a pass where we make nx*ny tiles so we can generate their points."
    A negative [nx * ny] is no size of a vector. *)
Definition make_points (T : Tiler) (nx ny : Z) (M : matrix) (origin0 tx ty : Q)
  : result point_state :=
  if Z.ltb (nx * ny) 0 then Err (ConduitError "std::vector")
  else
    for_range 0 (Z.to_nat ny) (point_row T nx origin0 tx ty)
      {| ps_tiles := replicate (Z.to_nat (nx * ny)) [];
         ps_x := []; ps_y := []; ps_M := M |}.

Record boundary_topology : Type := {
  b_shape : string;
  b_connectivity : list Z;
  b_sizes : list Z;
  boundary_type : list Z
}.

(** The part of [res] that [generate] writes. *)
Record mesh_node : Type := {
  coords_x : list Q;
  coords_y : list Q;
  coords_z : list Q;
  elements_shape : string;
  elements_connectivity : list Z;
  elements_sizes : list Z;
  topologies_boundary : option boundary_topology
}.

(** The transformation set up before the pass: [(origin, tx, ty, z1)]. *)
Definition placement (T : Tiler) (nx ny nz : Z) (options : options_node)
  : result (Q * Q * Q * Q * Q * Q) :=
  let tx := m_width T in
  let ty := m_height T in
  let z1 := (Qmax (m_width T) (m_height T) * inject_Z nz)%Q in
  match o_extents options with
  | Some extents =>
      e0 ← vec_get extents 0; e1 ← vec_get extents 1; e2 ← vec_get extents 2;
      e3 ← vec_get extents 3; e4 ← vec_get extents 4; e5 ← vec_get extents 5;
      Ok (e0, e2, e4, ((e1 - e0) / inject_Z nx)%Q, ((e3 - e2) / inject_Z ny)%Q, e5)
  | None =>
      match o_domain options, o_domains options with
      | Some domain, Some domains =>
          if Nat.eqb (length domain) 3 && Nat.eqb (length domain) (length domains) then
            d0 ← vec_get domain 0; d1 ← vec_get domain 1; d2 ← vec_get domain 2;
            let origin2 := (inject_Z d2 * z1)%Q in
            Ok ((inject_Z (d0 * nx) * m_width T)%Q,
                (inject_Z (d1 * ny) * m_height T)%Q,
                origin2, tx, ty, (origin2 + z1)%Q)
          else Ok (0%Q, 0%Q, 0%Q, tx, ty, z1)
      | _, _ => Ok (0%Q, 0%Q, 0%Q, tx, ty, z1)
      end
  end.

(** "Make a transformation matrix for the tile points": the identity with
    the scaling [tx / width], [ty / height] and the translation to the
    origin. *)
Definition transform (T : Tiler) (origin0 origin1 tx ty : Q) : matrix :=
  {| M00 := (tx / m_width T)%Q; M01 := 0%Q; M02 := 0%Q;
     M10 := 0%Q; M11 := (ty / m_height T)%Q; M12 := 0%Q;
     M20 := origin0; M21 := origin1; M22 := 1%Q |}.

(** [tmp.to_data_type(indexDT.id(), ...)]. *)
Definition to_data_type (int32 : bool) (v : list Z) : list Z :=
  if int32 then map to_int v else v.

Definition push_element (ids : list Z) (npts : Z) (s : list Z * list Z)
  : result (list Z * list Z) :=
  Ok (fst s ++ ids, snd s ++ [npts]).

Section Generate.

(** [utils::topology::spatial_ordering] followed by
    [utils::topology::unstructured::reorder] are not among these sources:
    from the coordinates, connectivity and sizes they give the reordered
    arrays and [old2NewPoint]. *)
Variable reorder_mesh :
  list Q * list Q * list Q * list Z * list Z ->
  result (list Q * list Q * list Q * list Z * list Z * list Z).

Definition push_boundary (reorder : bool) (old2NewPoint : list Z)
    (ids : list Z) (npts : Z) (bnd : Z) (s : list Z * list Z * list Z)
  : result (list Z * list Z * list Z) :=
  let '(bconn, bsizes, btype) := s in
  ids ← (if reorder
         then for_each ids (fun id acc => n ← vec_get old2NewPoint id; Ok (acc ++ [n])) []
         else Ok ids);
  Ok (bconn ++ ids, bsizes ++ [npts], btype ++ [bnd]).

Definition generate (T : Tiler) (nx ny nz : Z) (options : options_node)
  : result mesh_node :=
  T ← match o_tile options with
      | Some t => initialize_from t
      | None => Ok T
      end;
  let reorder := match o_reorder options with
                 | Some r => Z.ltb 0 (to_int r)
                 | None => true
                 end in
  let int32 := match o_datatype options with
               | Some s => bool_decide (s = "int" \/ s = "int32" \/ s = "integer")
               | None => false
               end in
  '(origin0, origin1, origin2, tx, ty, z1) ← placement T nx ny nz options;
  let M := transform T origin0 origin1 tx ty in
  pts ← make_points T nx ny M origin0 tx ty;
  let tiles := ps_tiles pts in
  '(x, y, z, conn, sizes, ptsPerPlane) ←
    (if Z.ltb nz 1 then
       '(conn, sizes) ←
         for_range 0 (Z.to_nat ny) (fun j s =>
           for_range 0 (Z.to_nat nx) (fun i s =>
             current ← vec_get tiles (j * nx + i);
             iterateFaces T current 0 false BoundaryBack
               (fun ids npts _ => push_element ids npts) s) s) ([], []);
       Ok (ps_x pts, ps_y pts, [], conn, sizes, 0)
     else
       let ptsPerPlane := Z.of_nat (length (ps_x pts)) in
       let nplanes := nz + 1 in
       let z0 := replicate (length (ps_x pts)) origin2 in
       '(x, y, z) ←
         for_range 1 (Z.to_nat (nplanes - 1)) (fun p s =>
           let '(x, y, z) := s in
           let t := (inject_Z p / inject_Z (nplanes - 1))%Q in
           let zvalue := ((1 - t) * origin2 + t * z1)%Q in
           Ok (x ++ ps_x pts, y ++ ps_y pts,
               z ++ replicate (length (ps_x pts)) zvalue))
           (ps_x pts, ps_y pts, z0);
       '(conn, sizes) ←
         for_range 0 (Z.to_nat nz) (fun k s =>
           let offset1 := k * ptsPerPlane in
           let offset2 := offset1 + ptsPerPlane in
           for_range 0 (Z.to_nat ny) (fun j s =>
             for_range 0 (Z.to_nat nx) (fun i s =>
               current ← vec_get tiles (j * nx + i);
               addHexs T current offset1 offset2 s) s) s) ([], []);
       Ok (x, y, z, conn, sizes, ptsPerPlane));
  let shape := match z with [] => "quad" | _ => "hex" end in
  let conn := to_data_type int32 conn in
  let sizes := to_data_type int32 sizes in
  '(x, y, z, conn, sizes, old2NewPoint) ←
    (if reorder then reorder_mesh (x, y, z, conn, sizes)
     else Ok (x, y, z, conn, sizes, []));
  flags ← boundaryFlags options;
  '(bconn, bsizes, btype) ←
    (if Z.ltb nz 1
     then iterateBoundary2D T tiles nx ny flags
            (push_boundary reorder old2NewPoint) ([], [], [])
     else iterateBoundary3D T tiles nx ny nz ptsPerPlane flags
            (push_boundary reorder old2NewPoint) ([], [], []));
  let bshape := if Z.ltb nz 1 then "line" else "quad" in
  Ok {| coords_x := x; coords_y := y; coords_z := z;
        elements_shape := shape;
        elements_connectivity := conn;
        elements_sizes := sizes;
        topologies_boundary :=
          match bconn with
          | [] => None
          | _ => Some {| b_shape := bshape;
                         b_connectivity := to_data_type int32 bconn;
                         b_sizes := to_data_type int32 bsizes;
                         boundary_type := btype |}
          end |}.

(** [tiled]: a [Tiler] with the default pattern, then [generate]. *)
Definition tiled (nx ny nz : Z) (options : options_node) : result mesh_node :=
  T ← initialize;
  generate T nx ny nz options.

End Generate.

End Tiled.

(** ** conduit_blueprint_mpi_mesh_partition.cpp *)

Module Partition.

(** *** conduit::Node, as far as the partitioner reads and writes it *)

Inductive data : Type :=
| Int (z : Z)
| Float (q : Q)
| Text (s : string)
| Ints (l : list Z)
| Floats (l : list Q).

(** [External n] is a node set with [set_external_node(n)]: it describes the
    data of [n] and owns none of it. *)
Inductive Node : Type :=
| Empty
| Leaf (d : data)
| Object (children : list (string * Node))
| External (n : Node).

Fixpoint children (n : Node) : list (string * Node) :=
  match n with
  | Object cs => cs
  | External m => children m
  | _ => []
  end.

Definition number_of_children (n : Node) : nat := length (children n).

Fixpoint assoc_find (name : string) (cs : list (string * Node)) : option Node :=
  match cs with
  | [] => None
  | (k, c) :: cs' => if String.eqb k name then Some c else assoc_find name cs'
  end.

(** [fetch_ptr(path)], the path split at its slashes. *)
Fixpoint fetch_ptr (path : list string) (n : Node) : option Node :=
  match path with
  | [] => Some n
  | p :: ps =>
      match assoc_find p (children n) with
      | Some c => fetch_ptr ps c
      | None => None
      end
  end.

Definition has_path (path : list string) (n : Node) : bool :=
  match fetch_ptr path n with Some _ => true | None => false end.

(** The child [name] rewritten in place, or added after the others. *)
Fixpoint assoc_upsert (name : string) (f : option Node -> Node)
    (cs : list (string * Node)) : list (string * Node) :=
  match cs with
  | [] => [(name, f None)]
  | (k, c) :: cs' =>
      if String.eqb k name then (k, f (Some c)) :: cs'
      else (k, c) :: assoc_upsert name f cs'
  end.

(** [n[path] = v] and [n[path].set_external_node(...)]: [fetch] makes a node
    that is no object into an empty object first. *)
Fixpoint set_path (path : list string) (v : Node) (n : Node) : Node :=
  match path with
  | [] => v
  | p :: ps =>
      Object (assoc_upsert p
                (fun old => set_path ps v (match old with Some o => o | None => Empty end))
                (match n with Object cs => cs | _ => [] end))
  end.

(** A deep copy ([Node::set(const Node &)], serialization): the copy owns all
    of its data. *)
Fixpoint node_copy (n : Node) : Node :=
  match n with
  | Empty => Empty
  | Leaf d => Leaf d
  | Object cs => Object (map (fun c => (fst c, node_copy (snd c))) cs)
  | External m => node_copy m
  end.

(** *** partitioner::chunk and parallel_partitioner::chunk_info *)

Record chunk : Type := {
  mesh : Node;
  owns : bool;
  destination_rank : Z;
  destination_domain : Z
}.

(** Modelled from the spec: the constructor [chunk(mesh, owns)] of the base
    class [partitioner], whose source is not here; "destination_rank and
    destination_domain may each be -1 meaning caller has no preference". *)
Definition make_chunk (m : Node) (own : bool) : chunk :=
  {| mesh := m; owns := own; destination_rank := -1; destination_domain := -1 |}.

Record chunk_info : Type := {
  num_elements : Z;
  ci_destination_rank : Z;
  ci_destination_domain : Z
}.

Record long_int : Type := { value : Z; li_rank : Z }.

(** *** MPI collectives

    A collective is a function of what every rank contributes, listed by
    rank. *)

(** [MPI_MAXLOC] on [MPI_LONG_INT]: the larger value; on equal values the
    smaller rank. *)
Definition maxloc (a b : long_int) : long_int :=
  if Z.ltb (value b) (value a) then a
  else if Z.ltb (value a) (value b) then b
  else {| value := value a; li_rank := Z.min (li_rank a) (li_rank b) |}.

Definition MPI_Allreduce_MAXLOC (contributions : list long_int) : result long_int :=
  match contributions with
  | [] => Err NoMessage
  | c :: cs => Ok (fold_left maxloc cs c)
  end.

Definition MPI_Allreduce_MAX (contributions : list Z) : Z :=
  fold_left Z.max contributions 0.

Definition MPI_Allreduce_SUM (contributions : list Z) : Z :=
  fold_left Z.add contributions 0.

Definition MPI_Allgather {A} (contributions : list A) : list A := contributions.

(** [MPI_Allgatherv] with the gathered counts and their exclusive scan as
    displacements: the blocks follow each other in rank order. *)
Definition MPI_Allgatherv {A} (contributions : list (list A)) : list A :=
  concat contributions.

(** *** get_total_selections, get_largest_selection

    A selection is its [length()]. *)

Definition get_total_selections (all_selections : list (list Z)) : Z :=
  MPI_Allreduce_SUM (map (fun sels => to_long (Z.of_nat (length sels))) all_selections).

Definition local_sizes (selections : list Z) : list Z := map to_uint64 selections.

(** "Find largest selection locally." *)
Definition largest_selection (rank : Z) (selections : list Z) : long_int :=
  {| value := fold_left (fun v sz => if Z.ltb (to_uint64 v) sz then to_long sz else v)
                        (local_sizes selections) 0;
     li_rank := rank |}.

(** The scan for the selection of the winning size: the first match. *)
Fixpoint first_index_of (ssize : Z) (sizes : list Z) (i : Z) : Z :=
  match sizes with
  | [] => -1
  | sz :: sizes' => if Z.eqb ssize sz then to_int i else first_index_of ssize sizes' (i + 1)
  end.

(** [get_largest_selection] on rank [rank]: [(sel_rank, sel_index)]. *)
Definition get_largest_selection (all_selections : list (list Z)) (rank : Z)
  : result (Z * Z) :=
  selections ← vec_get all_selections rank;
  global_largest_selection ←
    MPI_Allreduce_MAXLOC
      (imap (fun r sels => largest_selection (Z.of_nat r) sels) all_selections);
  let sel_rank := li_rank global_largest_selection in
  let sel_index :=
    if Z.eqb sel_rank rank
    then first_index_of (to_uint64 (value global_largest_selection))
                        (local_sizes selections) 0
    else -1 in
  Ok (sel_rank, sel_index).

(** *** map_chunks *)

Section MapChunks.

(** [conduit::blueprint::mesh::topology::length], not among these sources. *)
Variable topology_length : Node -> Z.

Definition local_chunk_info (chunks : list chunk) : result (list chunk_info) :=
  for_each chunks (fun c acc =>
    n_topos ← match fetch_ptr ["topologies"] (mesh c) with
              | Some t => Ok t
              | None => Err (ConduitError "topologies")
              end;
    let len := fold_left (fun len t => to_uint64 (len + topology_length (snd t)))
                         (children n_topos) 0 in
    Ok (acc ++ [ {| num_elements := len;
                    ci_destination_rank := destination_rank c;
                    ci_destination_domain := destination_domain c |} ])) [].

(** "Compute offsets": the exclusive scan of the counts. *)
Fixpoint compute_offsets (acc : Z) (nglobal_chunks : list Z) : list Z :=
  match nglobal_chunks with
  | [] => []
  | n :: rest => acc :: compute_offsets (acc + n) rest
  end.

(** The index of the least of [next_target_element_counts]: the loop over
    [r] from 1 that moves [idx] on a strictly smaller value. *)
Definition min_index (target : Z) (next : list Z) : result Z :=
  for_range 1 (Z.to_nat target - 1) (fun r idx =>
    a ← vec_get next r;
    b ← vec_get next idx;
    Ok (if Z.ltb a b then to_int r else idx)) 0.

(** The body of the loop over the chunks when all are free to move. *)
Definition assign_chunk (target : Z) (global_chunk_info : list chunk_info) (i : Z)
    (s : list Z * list Z) : result (list Z * list Z) :=
  let '(target_element_counts, global_dest_domain) := s in
  info ← vec_get global_chunk_info i;
  let next_target_element_counts :=
    map (fun c => to_uint64 (c + num_elements info)) target_element_counts in
  idx ← min_index target next_target_element_counts;
  c ← vec_get target_element_counts idx;
  target_element_counts ← vec_set target_element_counts idx
                            (to_uint64 (c + num_elements info));
  global_dest_domain ← vec_set global_dest_domain i idx;
  Ok (target_element_counts, global_dest_domain).

(** The first [k] rounds of that loop: [(target_element_counts,
    global_dest_domain)]. *)
Definition assign_chunks (target : Z) (global_chunk_info : list chunk_info)
    (k : nat) : result (list Z * list Z) :=
  for_range 0 k (assign_chunk target global_chunk_info)
    (replicate (Z.to_nat target) 0, replicate (length global_chunk_info) 0).

(** "Spread target domains across size ranks": [rank_domain_count]. *)
Definition spread_domains (size target : Z) : result (list Z) :=
  let divsize := Z.min size (to_int target) in
  for_range 0 (Z.to_nat target) (fun i rank_domain_count =>
    let r := i mod to_uint divsize in
    c ← vec_get rank_domain_count r;
    vec_set rank_domain_count r (c + 1)) (replicate (Z.to_nat size) 0).

(** "Figure out which source chunks join which ranks": the state is
    [(target_id, global_dest_rank, left the loop)]. *)
Definition join_ranks (size : Z) (rank_domain_count global_dest_domain : list Z)
    (global_dest_rank : list Z) : result (list Z) :=
  s ← for_range 0 (Z.to_nat size) (fun r s =>
        let '(target_id, global_dest_rank, stop) := s in
        if (stop : bool) then Ok s
        else
          n ← vec_get rank_domain_count r;
          if Z.eqb n 0 then Ok (target_id, global_dest_rank, true)
          else
            '(target_id, global_dest_rank) ←
              for_range 0 (Z.to_nat n) (fun j s =>
                let '(target_id, global_dest_rank) := s in
                global_dest_rank ←
                  for_range 0 (length global_dest_domain) (fun i global_dest_rank =>
                    d ← vec_get global_dest_domain i;
                    if Z.eqb d target_id then vec_set global_dest_rank i r
                    else Ok global_dest_rank) global_dest_rank;
                Ok (target_id + 1, global_dest_rank)) (target_id, global_dest_rank);
            Ok (target_id, global_dest_rank, false)) (0, global_dest_rank, false);
  Ok (snd (fst s)).

Record mapping : Type := {
  dest_rank : list Z;
  dest_domain : list Z;
  offsets : list Z;
  warned : bool
}.

(** The number of distinct keys of [domain_sizes]. *)
Definition unique_domains (global_chunk_info : list chunk_info) : nat :=
  length (remove_dups
            (filter (fun d => 0 <= d) (map ci_destination_domain global_chunk_info))).

(** The first part of [map_chunks]: the counts of all ranks, their offsets,
    and [global_chunk_info]. *)
Definition gather_chunk_info (all_chunks : list (list chunk))
  : result (list Z * list Z * list chunk_info) :=
  let nglobal_chunks :=
    MPI_Allgather (map (fun chunks => to_int (Z.of_nat (length chunks))) all_chunks) in
  let offsets := compute_offsets 0 nglobal_chunks in
  infos ← for_each all_chunks (fun chunks acc =>
            info ← local_chunk_info chunks; Ok (acc ++ [info])) [];
  Ok (nglobal_chunks, offsets, MPI_Allgatherv infos).

(** "Compute total chunks". *)
Definition total_chunks (nglobal_chunks : list Z) : Z :=
  fold_left (fun n c => to_int (n + c)) nglobal_chunks 0.

(** The second part: from [global_chunk_info] to what [map_chunks] passes
    out. *)
Definition assign_destinations (size target : Z) (nglobal_chunks offsets : list Z)
    (global_chunk_info : list chunk_info) : result mapping :=
  let ntotal_chunks := total_chunks nglobal_chunks in
  let free_to_move :=
    Z.of_nat (length (filter (fun info => ci_destination_domain info < 0)
                             global_chunk_info)) in
  if Z.eqb free_to_move 0 then
    let ndomains := unique_domains global_chunk_info in
    Ok {| dest_rank := map ci_destination_rank global_chunk_info;
          dest_domain := map ci_destination_domain global_chunk_info;
          offsets := offsets;
          warned := negb (Nat.eqb ndomains 0) && negb (Z.eqb (Z.of_nat ndomains) target) |}
  else if Z.eqb free_to_move ntotal_chunks then
    '(target_element_counts, global_dest_domain) ←
      assign_chunks target global_chunk_info (Z.to_nat ntotal_chunks);
    rank_domain_count ← spread_domains size target;
    global_dest_rank ←
      join_ranks size rank_domain_count global_dest_domain
        (replicate (Z.to_nat ntotal_chunks) (-1));
    Ok {| dest_rank := global_dest_rank;
          dest_domain := global_dest_domain;
          offsets := offsets;
          warned := false |}
  else Err (ConduitError "Invalid mixture of destination rank/domain specifications.").

(** [map_chunks], for all the ranks' chunks; [size] and [target] are the
    members of the partitioner. *)
Definition map_chunks (size target : Z) (all_chunks : list (list chunk))
  : result mapping :=
  '(nglobal_chunks, offsets, global_chunk_info) ← gather_chunk_info all_chunks;
  assign_destinations size target nglobal_chunks offsets global_chunk_info.

End MapChunks.

(** *** communicate_chunks *)

Section CommunicateChunks.

(** [conduit::relay::mpi::recv_using_schema(node, src, tag, comm)]: the node
    the transport delivers from [src] under [tag]. *)
Variable recv_using_schema : Z -> Z -> result Node.

Definition PARTITION_TAG_BASE : Z := 12000.

(** "Use the offsets to determine the sender for each chunk." *)
Definition compute_src_rank (size : Z) (ndest : nat) (offsets : list Z)
  : result (list Z) :=
  s ← for_range 1 (length offsets - 1) (fun r s =>
        o1 ← vec_get offsets r;
        o0 ← vec_get offsets (r - 1);
        let n := o1 - o0 in
        for_range 0 (Z.to_nat n) (fun _ s =>
          let '(src_rank, idx) := s in
          src_rank ← vec_set src_rank idx (r - 1);
          Ok (src_rank, idx + 1)) s) (replicate ndest (size - 1), 0);
  Ok (fst s).

(** The node built for a chunk that stays on its rank (RENUMBER_DOMAINS is
    defined): a wrapper with its own [state]. *)
Definition wrap_local (m : Node) (i : Z) : Node :=
  let n_recv :=
    fold_left (fun n_recv c =>
                 if negb (String.eqb (fst c) "state")
                 then set_path [fst c] (External (snd c)) n_recv
                 else n_recv)
              (children m) Empty in
  let n_recv :=
    match fetch_ptr ["state"; "cycle"] m with
    | Some v => set_path ["state"; "cycle"] (node_copy v) n_recv
    | None => n_recv
    end in
  let n_recv :=
    match fetch_ptr ["state"; "time"] m with
    | Some v => set_path ["state"; "time"] (node_copy v) n_recv
    | None => n_recv
    end in
  set_path ["state"; "domain_id"] (Leaf (Int i)) n_recv.

Record exchange : Type := {
  sent : list (Z * Z * Node);
  chunks_to_assemble : list chunk;
  chunks_to_assemble_domains : list Z
}.

(** [communicate_chunks] on rank [rank]; [sent] lists the calls of
    [send_using_schema] as [(dest, tag, node)]. *)
Definition communicate_chunks (size rank : Z) (chunks : list chunk)
    (dest_rank dest_domain offsets : list Z) : result exchange :=
  src_rank ← compute_src_rank size (length dest_rank) offsets;
  sends ← for_range 0 (length chunks) (fun i sends =>
            start ← vec_get offsets rank;
            let gidx := start + i in
            let tag := PARTITION_TAG_BASE + gidx in
            dest ← vec_get dest_rank gidx;
            if negb (Z.eqb dest rank) then
              c ← vec_get chunks i;
              Ok (sends ++ [(dest, tag, node_copy (mesh c))])
            else Ok sends) [];
  received ← for_range 0 (length dest_rank) (fun i s =>
            let '(to_assemble, domains) := s in
            d ← vec_get dest_rank i;
            if Z.eqb d rank then
              let gidx := i in
              let tag := PARTITION_TAG_BASE + gidx in
              start ← vec_get offsets rank;
              let end_ := start + Z.of_nat (length chunks) in
              let this_rank_already_owns_it := Z.leb start gidx && Z.ltb gidx end_ in
              if this_rank_already_owns_it then
                let local_i := i - start in
                c ← vec_get chunks local_i;
                dom ← vec_get dest_domain i;
                Ok (to_assemble ++ [make_chunk (wrap_local (mesh c) i) true],
                    domains ++ [dom])
              else
                src ← vec_get src_rank i;
                n_recv ← recv_using_schema src tag;
                let n_recv := set_path ["state"; "domain_id"] (Leaf (Int i)) n_recv in
                dom ← vec_get dest_domain i;
                Ok (to_assemble ++ [make_chunk n_recv true], domains ++ [dom])
            else Ok s) ([], []);
  Ok {| sent := sends;
        chunks_to_assemble := fst received;
        chunks_to_assemble_domains := snd received |}.

End CommunicateChunks.

End Partition.

(** ** conduit_io.cpp *)

Module IO.

(** The library calls [save] and [load] hand the work to. *)
Inductive call (N : Type) : Type :=
| node_save (node : N) (path : string)
| silo_save (node : N) (path : string)
| silo_save_mesh (node : N) (path : string)
| node_load (path : string)
| silo_load (path : string).
Arguments node_save {N} node path.
Arguments silo_save {N} node path.
Arguments silo_save_mesh {N} node path.
Arguments node_load {N} path.
Arguments silo_load {N} path.

(** [s] between double quotes. *)
Definition quoted (s : string) : string :=
  String (Ascii.ascii_of_nat 34) (s ++ String (Ascii.ascii_of_nat 34) EmptyString).

Section ConduitIO.

(** The type of [conduit::Node]. *)
Variable N : Type.

(** [conduit::utils::split_string(str, sep, curr, next)] and
    [rsplit_string], not among these sources: [(curr, next)]. *)
Variable split_string : string -> string -> string * string.
Variable rsplit_string : string -> string -> string * string.

(** Whether [CONDUIT_IO_ENABLE_SILO] is defined. *)
Variable CONDUIT_IO_ENABLE_SILO : bool.

(** [identify_protocol(path, io_type)]. *)
Definition identify_protocol (path : string) : string :=
  let io_type := "conduit_bin" in
  let '(file_path, obj_base) := split_string path ":" in
  if negb (Nat.eqb (String.length obj_base) 0) then
    let '(file_name_base, file_name_ext) := rsplit_string file_path "." in
    if String.eqb file_name_ext "silo" then "conduit_silo" else io_type
  else io_type.

(** [save(protocol, node, path)]. *)
Definition save_protocol (protocol : string) (node : N) (path : string)
  : result (call N) :=
  if String.eqb protocol "conduit_bin" then Ok (node_save node path)
  else if String.eqb protocol "conduit_silo" then
    if CONDUIT_IO_ENABLE_SILO then Ok (silo_save node path)
    else Err (ConduitError
                ("conduit_io lacks Silo support: Failed to save conduit node to path "
                 ++ path))
  else if String.eqb protocol "conduit_silo_mesh" then
    if CONDUIT_IO_ENABLE_SILO then Ok (silo_save_mesh node path)
    else Err (ConduitError
                ("conduit_io lacks Silo support: Failed to save conduit mesh node to path "
                 ++ path))
  else Err (ConduitError ("conduit_io unknown protocol: " ++ protocol)).

(** [load(protocol, path, node)]. *)
Definition load_protocol (protocol : string) (path : string) : result (call N) :=
  if String.eqb protocol "conduit_bin" then Ok (node_load path)
  else if String.eqb protocol "conduit_silo" then
    if CONDUIT_IO_ENABLE_SILO then Ok (silo_load path)
    else Err (ConduitError
                ("conduit_io lacks Silo support: Failed to load conduit node from path "
                 ++ path))
  else if String.eqb protocol "conduit_silo_mesh" then
    Err (ConduitError
           ("the conduit_io conduit_silo_mesh protocol does not support "
            ++ quoted "load"))
  else Err (ConduitError ("conduit_io unknown protocol: " ++ protocol)).

(** [save(node, path)]. *)
Definition save (node : N) (path : string) : result (call N) :=
  let protocol := identify_protocol path in
  save_protocol protocol node path.

(** [load(path, node)]. *)
Definition load (path : string) : result (call N) :=
  let protocol := identify_protocol path in
  load_protocol protocol path.

(** [about(Node &n)]: the children of [n["protocols"]], in the order they
    are set. *)
Definition about : list (string * string) :=
  let silo := if CONDUIT_IO_ENABLE_SILO then "enabled" else "disabled" in
  [ ("conduit_bin", "enabled");
    ("rest", "enabled");
    ("conduit_silo", silo);
    ("conduit_silo_mesh", silo) ].

End ConduitIO.

End IO.

(** * Properties *)

Import PointMerge Tiled Partition.

(** [H : (x ← m; k) = Ok r]: case on [m], keeping the successful one. *)
Ltac bind_ok H :=
  lazymatch type of H with
  | mbind _ ?m = Ok _ =>
      let E := fresh "E" in
      destruct m eqn:E; [cbn [mbind result_bind] in H|discriminate H]
  end.

Tactic Notation "bind_as" hyp(H) simple_intropattern(x) ident(E) :=
  lazymatch type of H with
  | mbind _ ?m = Ok _ =>
      destruct m as [x|] eqn:E; [cbn [mbind result_bind] in H|discriminate H]
  end.

Arguments to_int : simpl never.
Arguments to_uint : simpl never.
Arguments to_long : simpl never.
Arguments to_uint64 : simpl never.

(** ** Loops *)

Section Loops.

Context {S : Type}.

(** A property kept by every round of a loop holds of its result. *)
Lemma for_range_preserves (P : S -> Prop) (body : Z -> S -> result S) :
  (forall k s s', body k s = Ok s' -> P s -> P s') ->
  forall n lo s s', for_range lo n body s = Ok s' -> P s -> P s'.
Proof.
  intros Hbody n. induction n as [|n IH]; intros lo s s' Hrun Hs; simpl in Hrun.
  - injection Hrun as <-. exact Hs.
  - destruct (body lo s) as [s1|e] eqn:Hb; simpl in Hrun; [|discriminate].
    eapply IH; [exact Hrun|]. eapply Hbody; eauto.
Qed.

(** The same, for a property kept by the rounds from [lo] on. *)
Lemma for_range_preserves_from (P : S -> Prop) (body : Z -> S -> result S) (lo0 : Z) :
  (forall k s s', lo0 <= k -> body k s = Ok s' -> P s -> P s') ->
  forall n lo s s', lo0 <= lo -> for_range lo n body s = Ok s' -> P s -> P s'.
Proof.
  intros Hbody n. induction n as [|n IH]; intros lo s s' Hlo Hrun Hs; simpl in Hrun.
  - injection Hrun as <-. exact Hs.
  - destruct (body lo s) as [s1|e] eqn:Hb; simpl in Hrun; [|discriminate].
    eapply (IH (lo + 1)); [lia|exact Hrun|]. eapply Hbody; eauto.
Qed.

(** An invariant indexed by the counter, for a loop known to succeed. *)
Lemma for_range_inv_ok (P : Z -> S -> Prop) (body : Z -> S -> result S) :
  forall n lo s s',
    P lo s ->
    (forall k s s', lo <= k < lo + Z.of_nat n -> P k s -> body k s = Ok s' ->
                    P (k + 1) s') ->
    for_range lo n body s = Ok s' -> P (lo + Z.of_nat n) s'.
Proof.
  induction n as [|n IH]; intros lo s s' Hs Hstep Hrun; simpl in Hrun.
  - injection Hrun as <-. now replace (lo + Z.of_nat 0) with lo by lia.
  - destruct (body lo s) as [s1|e] eqn:Hb; simpl in Hrun; [|discriminate].
    replace (lo + Z.of_nat (Datatypes.S n)) with (lo + 1 + Z.of_nat n) by lia.
    apply (IH (lo + 1) s1 s'); [|intros k s0 s0' Hk; apply Hstep; lia|exact Hrun].
    apply (Hstep lo s s1); [lia|exact Hs|exact Hb].
Qed.

(** Total correctness of a counted loop from an invariant indexed by the
    counter. *)
Lemma for_range_inv (P : Z -> S -> Prop) (body : Z -> S -> result S) :
  forall n lo s,
    P lo s ->
    (forall k s, lo <= k < lo + Z.of_nat n -> P k s ->
                 exists s', body k s = Ok s' /\ P (k + 1) s') ->
    exists s', for_range lo n body s = Ok s' /\ P (lo + Z.of_nat n) s'.
Proof.
  induction n as [|n IH]; intros lo s Hs Hstep.
  - exists s. split; [reflexivity|]. now replace (lo + Z.of_nat 0) with lo by lia.
  - destruct (Hstep lo s) as (s1 & Hb & Hs1); [lia|exact Hs|].
    destruct (IH (lo + 1) s1 Hs1) as (s2 & Hrun & Hs2).
    + intros k s0 Hk. apply Hstep. lia.
    + exists s2. split.
      * simpl. rewrite Hb. exact Hrun.
      * now replace (lo + Z.of_nat (Datatypes.S n)) with (lo + 1 + Z.of_nat n) by lia.
Qed.

Lemma for_down_inv (P : Z -> S -> Prop) (body : Z -> S -> result S) :
  forall n hi s,
    P hi s ->
    (forall k s, hi - Z.of_nat n < k <= hi -> P k s ->
                 exists s', body k s = Ok s' /\ P (k - 1) s') ->
    exists s', for_down hi n body s = Ok s' /\ P (hi - Z.of_nat n) s'.
Proof.
  induction n as [|n IH]; intros hi s Hs Hstep.
  - exists s. split; [reflexivity|]. now replace (hi - Z.of_nat 0) with hi by lia.
  - destruct (Hstep hi s) as (s1 & Hb & Hs1); [lia|exact Hs|].
    destruct (IH (hi - 1) s1 Hs1) as (s2 & Hrun & Hs2).
    + intros k s0 Hk. apply Hstep. lia.
    + exists s2. split.
      * simpl. rewrite Hb. exact Hrun.
      * now replace (hi - Z.of_nat (Datatypes.S n)) with (hi - 1 - Z.of_nat n) by lia.
Qed.

(** A loop split after its first [n] rounds. *)
Lemma for_range_app (body : Z -> S -> result S) :
  forall n m lo s,
    for_range lo (n + m) body s =
    (s' ← for_range lo n body s; for_range (lo + Z.of_nat n) m body s').
Proof.
  induction n as [|n IH]; intros m lo s.
  - replace (lo + Z.of_nat 0) with lo by lia. reflexivity.
  - replace (lo + Z.of_nat (Datatypes.S n)) with (lo + 1 + Z.of_nat n) by lia.
    cbn [for_range Nat.add]. destruct (body lo s) as [s1|e]; [|reflexivity].
    apply IH.
Qed.

End Loops.

(** ** Vectors *)

Section Vectors.

Context {A : Type}.

Lemma vec_get_Ok (v : list A) (i : Z) (a : A) :
  vec_get v i = Ok a <-> 0 <= i /\ v !! Z.to_nat i = Some a.
Proof.
  unfold vec_get. destruct (Z.ltb_spec i 0).
  - split; [discriminate|lia].
  - destruct (v !! Z.to_nat i) eqn:E.
    + split.
      * intros [= ->]. auto.
      * intros [_ [= ->]]. reflexivity.
    + split; [discriminate|]. intros [_ ?]; discriminate.
Qed.

Lemma vec_get_in_range (v : list A) (i : Z) :
  0 <= i < Z.of_nat (length v) -> exists a, vec_get v i = Ok a.
Proof.
  intros Hi. destruct (lookup_lt_is_Some_2 v (Z.to_nat i)) as [a Ha]; [lia|].
  exists a. apply vec_get_Ok. split; [lia|exact Ha].
Qed.

Lemma vec_get_range (v : list A) (i : Z) (a : A) :
  vec_get v i = Ok a -> 0 <= i < Z.of_nat (length v).
Proof.
  intros [Hi Hl]%vec_get_Ok. apply lookup_lt_Some in Hl. lia.
Qed.

Lemma vec_set_in_range (v : list A) (i : Z) (a : A) :
  0 <= i < Z.of_nat (length v) -> vec_set v i a = Ok (<[Z.to_nat i := a]> v).
Proof.
  intros Hi. unfold vec_set. destruct (Z.ltb_spec i 0); [lia|].
  destruct (Nat.ltb_spec (Z.to_nat i) (length v)); [reflexivity|lia].
Qed.

Lemma vec_set_Ok (v v' : list A) (i : Z) (a : A) :
  vec_set v i a = Ok v' ->
  0 <= i < Z.of_nat (length v) /\ v' = <[Z.to_nat i := a]> v.
Proof.
  unfold vec_set. destruct (Z.ltb_spec i 0); [discriminate|].
  destruct (Nat.ltb_spec (Z.to_nat i) (length v)); [|discriminate].
  intros [= <-]. split; [lia|reflexivity].
Qed.

Lemma at_get (d : A) (v : list A) (i : Z) (a : A) :
  vec_get v i = Ok a -> at_ d v i = a.
Proof. unfold at_. now intros ->. Qed.

Lemma vec_get_at (d : A) (v : list A) (i : Z) :
  0 <= i < Z.of_nat (length v) -> vec_get v i = Ok (at_ d v i).
Proof.
  intros Hi. destruct (vec_get_in_range v i Hi) as [a Ha].
  now rewrite (at_get d _ _ _ Ha).
Qed.

Lemma at_insert_eq (d : A) (v : list A) (i : Z) (a : A) :
  0 <= i < Z.of_nat (length v) -> at_ d (<[Z.to_nat i := a]> v) i = a.
Proof.
  intros Hi. apply at_get, vec_get_Ok. split; [lia|].
  apply list_lookup_insert_eq. lia.
Qed.

Lemma at_insert_ne (d : A) (v : list A) (i j : Z) (a : A) :
  0 <= i -> 0 <= j -> i <> j -> at_ d (<[Z.to_nat i := a]> v) j = at_ d v j.
Proof.
  intros Hi Hj Hne. unfold at_, vec_get.
  destruct (Z.ltb_spec j 0); [lia|].
  rewrite list_lookup_insert_ne by lia. reflexivity.
Qed.

End Vectors.
(** ** Point merge: the scale *)

Section PointMergeScale.

Lemma insert_scale pm d p sys x y z pm' :
  PointMerge.insert pm d p sys x y z = Ok pm' -> scale pm' = scale pm.
Proof.
  unfold PointMerge.insert. intros H.
  do 3 bind_ok H. now injection H as <-.
Qed.

Lemma iterate_coordinates_scale pm i cs xn yn zn pm' :
  iterate_coordinates pm i cs xn yn zn = Ok pm' -> scale pm' = scale pm.
Proof.
  unfold iterate_coordinates. intros H.
  destruct xn as [xa|]; [|now injection H as <-].
  destruct yn as [ya|]; [destruct zn as [za|]|].
  all: refine (for_range_preserves (fun p => scale p = scale pm) _ _ _ _ _ _ H eq_refl).
  all: intros k s s' Hb Hs; rewrite <- Hs.
  all: repeat bind_ok Hb.
  all: eapply insert_scale; exact Hb.
Qed.

Lemma execute_coordset_scale i c pm pm' :
  execute_coordset i c pm = Ok pm' -> scale pm' = scale pm.
Proof.
  unfold execute_coordset. intros H.
  destruct (cs_values c) as [vals|]; [|discriminate].
  destruct (v_x vals); [now apply iterate_coordinates_scale in H|].
  destruct (v_r vals); [|now apply iterate_coordinates_scale in H].
  destruct (v_z vals); [now apply iterate_coordinates_scale in H|].
  destruct (v_theta vals); [now apply iterate_coordinates_scale in H|].
  now injection H as <-.
Qed.

End PointMergeScale.

(** A derivation of a number of decimal places from the tolerance that tells
    two tolerances apart within the table. *)
Definition distinguishes (places : Q -> nat) : Prop :=
  exists t1 t2 : Q, places t1 <> places t2 /\ (places t1 <= 6)%nat /\ (places t2 <= 6)%nat.

(** C2, as stated, fails: whatever the derivation of the decimal places, the
    scale [execute] uses is not [lookup(decimal_places)] once two tolerances
    get different places; tolerances 1e-3 and 1e-2 give the same scale. *)
Lemma execute_scale_not_from_tolerance :
  (exists pm1 pm2 o1 o2,
      execute PointMerge.empty [] (1 # 1000) = Ok (pm1, o1) /\
      execute PointMerge.empty [] (1 # 100) = Ok (pm2, o2) /\
      scale pm1 = scale pm2) /\
  ~ (exists places : Q -> nat,
        distinguishes places /\
        forall tol pm' out,
          execute PointMerge.empty [] tol = Ok (pm', out) ->
          scale pm' = nth (places tol) lookup 0%Q).
Proof.
  split.
  - do 4 eexists. split; [reflexivity|]. split; reflexivity.
  - intros (places & (t1 & t2 & Hne & H1 & H2) & Hall).
    pose proof (Hall t1 _ _ eq_refl) as E1.
    pose proof (Hall t2 _ _ eq_refl) as E2.
    change (determine_scale t1 = nth (places t1) lookup 0%Q) in E1.
    change (determine_scale t2 = nth (places t2) lookup 0%Q) in E2.
    assert (Hinj : forall a b, (a <= 6)%nat -> (b <= 6)%nat ->
                               nth a lookup 0%Q = nth b lookup 0%Q -> a = b).
    { intros a b Ha Hb.
      do 7 (destruct a as [|a]; [do 7 (destruct b as [|b]; [vm_compute; first [reflexivity|discriminate]|]); lia|]).
      lia. }
    apply Hne, Hinj; [exact H1|exact H2|]. rewrite <- E1, <- E2. reflexivity.
Qed.

(** C2, amended: the scale [execute] uses is [lookup[4] = 2 << 14 = 32768]
    for every tolerance; the table holds 1, 32, 256, 2048, 32768, 262144,
    2097152 for the places 0 to 6. *)
Theorem execute_scale_is_lookup_4 :
  forall pm coordsets tolerance pm' out,
    execute pm coordsets tolerance = Ok (pm', out) ->
    scale pm' = nth 4 lookup 0%Q /\
    scale pm' = inject_Z 32768 /\
    lookup = map inject_Z [1; 32; 256; 2048; 32768; 262144; 2097152] /\
    forall tolerance', determine_scale tolerance' = determine_scale tolerance.
Proof.
  intros pm coordsets tolerance pm' out H.
  assert (Hs : scale pm' = determine_scale tolerance).
  { unfold execute in H.
    bind_ok H. injection H as <- _.
    refine (for_range_preserves (fun p => scale p = determine_scale tolerance)
              _ _ _ _ _ _ E eq_refl).
    intros k s s' Hb Hsc. bind_ok Hb.
    rewrite <- Hsc. eapply execute_coordset_scale; exact Hb. }
  repeat split; try (rewrite Hs; reflexivity). 
Qed.

(** Two unit squares sharing an edge. *)
Definition square (x0 : Z) : coordset_node :=
  {| cs_values := Some {| v_x := Some (map inject_Z [x0; x0 + 1; x0 + 1; x0]);
                          v_y := Some (map inject_Z [0; 0; 1; 1]);
                          v_z := None; v_r := None; v_theta := None; v_phi := None |} |}.

Lemma execute_scale_is_lookup_4_witness :
  exists pm' out,
    execute PointMerge.empty [square 0; square 1] (1 # 1000) = Ok (pm', out) /\
    length out = 6%nat /\
    scale pm' = inject_Z 32768.
Proof.
  eexists. eexists. split; [vm_compute; reflexivity|]. split; [reflexivity|].
  eapply proj1, proj2,
    (execute_scale_is_lookup_4 PointMerge.empty [square 0; square 1] (1 # 1000)).
  vm_compute. reflexivity.
Defined.

(** ** Tiler: the replacement pattern *)

(** The validation invariants of a tile pattern, as the specification lists
    them: [|x| = |y|], [|quads| mod 4 = 0], every index of [quads] and of the
    four edge arrays in [[0, |x|)], [|left| = |right|], [|bottom| = |top|]. *)
Definition indices_in_range (n : nat) (l : list Z) : bool :=
  forallb (fun i => Z.leb 0 i && Z.ltb i (Z.of_nat n)) l.

Definition pattern_invariants (t : tile_node) : bool :=
  match t_x t, t_y t, t_quads t, t_left t, t_right t, t_bottom t, t_top t with
  | Some x, Some y, Some quads, Some le, Some ri, Some bo, Some tp =>
      Nat.eqb (length x) (length y)
      && Nat.eqb (length quads mod 4) 0
      && indices_in_range (length x) quads
      && indices_in_range (length x) le
      && indices_in_range (length x) ri
      && indices_in_range (length x) bo
      && indices_in_range (length x) tp
      && Nat.eqb (length le) (length ri)
      && Nat.eqb (length bo) (length tp)
  | _, _, _, _, _, _, _ => false
  end.

(** A pattern that breaks every one of the invariants: five [y] for four
    [x], five entries in [quads], the index 99, one [right] for two [left],
    three [top] for two [bottom]. *)
Definition broken_tile : tile_node :=
  {| t_x := Some (map inject_Z [0; 1; 0; 1]);
     t_y := Some (map inject_Z [0; 0; 1; 1; 5]);
     t_quads := Some [0; 1; 3; 2; 99];
     t_left := Some [0; 2];
     t_right := Some [1];
     t_bottom := Some [0; 1];
     t_top := Some [2; 3; 3] |}.

Definition with_tile (t : tile_node) : options_node :=
  {| o_tile := Some t; o_reorder := Some 0; o_datatype := None;
     o_extents := None; o_domain := None; o_domains := None |}.

(** C1, as stated, fails: [generate] takes [broken_tile] without an error
    and returns a mesh of 4 points and 1 quad. *)
Lemma generate_accepts_broken_tile :
  pattern_invariants broken_tile = false /\
  forall reorder_mesh,
  exists out,
    tiled reorder_mesh 1 1 0 (with_tile broken_tile) = Ok out /\
    length (coords_x out) = 4%nat /\
    elements_connectivity out = [0; 1; 3; 2].
Proof.
  split; [reflexivity|]. intros reorder_mesh.
  eexists. split; [vm_compute; reflexivity|]. split; reflexivity.
Qed.

Lemma computeExtents_nonempty (values : list Q) :
  values <> [] -> exists e, computeExtents values = Ok e.
Proof.
  destruct values as [|v values]; [congruence|]. intros _.
  unfold computeExtents. cbn [vec_get Z.ltb Z.compare Z.to_nat lookup list_lookup mbind result_bind].
  eexists. reflexivity.
Qed.

(** C1, amended: [initialize(t)] checks none of the invariants.  With the
    seven fields present and [x], [y] not empty it succeeds and keeps the
    seven arrays as given, whether the invariants hold or not; it fails with
    conduit's error exactly when a field is absent. *)
Theorem initialize_from_does_not_validate :
  forall t x y quads left right bottom top,
    t = {| t_x := Some x; t_y := Some y; t_quads := Some quads;
           t_left := Some left; t_right := Some right;
           t_bottom := Some bottom; t_top := Some top |} ->
    x <> [] -> y <> [] ->
    exists w h,
      computeExtents x = Ok w /\ computeExtents y = Ok h /\
      initialize_from t =
      Ok {| m_xpts := x; m_ypts := y; m_width := w; m_height := h;
            m_left := left; m_right := right; m_bottom := bottom; m_top := top;
            m_quads := quads |}.
Proof.
  intros t x y quads left right bottom top -> Hx Hy.
  destruct (computeExtents_nonempty x Hx) as [w Hw].
  destruct (computeExtents_nonempty y Hy) as [h Hh].
  exists w, h. split; [exact Hw|]. split; [exact Hh|].
  unfold initialize_from. cbn [t_x t_y t_quads t_left t_right t_bottom t_top
                               fetch_existing mbind result_bind].
  rewrite Hw, Hh. reflexivity.
Qed.

Lemma initialize_from_does_not_validate_witness :
  pattern_invariants broken_tile = false /\
  exists w h,
    computeExtents (map inject_Z [0; 1; 0; 1]) = Ok w /\
    computeExtents (map inject_Z [0; 0; 1; 1; 5]) = Ok h /\
    initialize_from broken_tile =
    Ok {| m_xpts := map inject_Z [0; 1; 0; 1];
          m_ypts := map inject_Z [0; 0; 1; 1; 5];
          m_width := w; m_height := h;
          m_left := [0; 2]; m_right := [1]; m_bottom := [0; 1]; m_top := [2; 3; 3];
          m_quads := [0; 1; 3; 2; 99] |}.
Proof.
  split; [reflexivity|].
  apply (initialize_from_does_not_validate broken_tile
           (map inject_Z [0; 1; 0; 1]) (map inject_Z [0; 0; 1; 1; 5])
           [0; 1; 3; 2; 99] [0; 2] [1] [0; 1] [2; 3; 3]).
  - reflexivity.
  - discriminate.
  - discriminate.
Defined.

(** ** Tiler: one tile of the default pattern *)

Definition reorder_off : options_node :=
  {| o_tile := None; o_reorder := Some 0; o_datatype := None;
     o_extents := None; o_domain := None; o_domains := None |}.

Definition count_label (side : Z) (btype : list Z) : nat :=
  length (filter (fun b => b = side) btype).

(** C3, as stated, fails: the boundary of [tiled(1, 1, 0)] has no 20
    segments. *)
Lemma tiled_1_1_0_not_20_segments :
  ~ (forall reorder_mesh,
       exists out b,
         tiled reorder_mesh 1 1 0 reorder_off = Ok out /\
         topologies_boundary out = Some b /\
         length (b_sizes b) = 20%nat).
Proof.
  intros H.
  destruct (H (fun _ => Err OutOfRange)) as (out & b & Hout & Hb & Hn).
  vm_compute in Hout. injection Hout as <-.
  vm_compute in Hb. injection Hb as <-.
  vm_compute in Hn. discriminate.
Qed.

(** C3, amended: [tiled(1, 1, 0)] with the default pattern and [reorder = 0]
    gives 33 points, 24 quads, and a boundary of shape "line" with
    4 + 4 + 4 + 4 = 16 segments (an edge of 5 points makes 4 segments),
    labelled Left, Right, Bottom, Top 4 times each. *)
Theorem tiled_1_1_0 :
  forall reorder_mesh,
  exists out b,
    tiled reorder_mesh 1 1 0 reorder_off = Ok out /\
    length (coords_x out) = 33%nat /\ length (coords_y out) = 33%nat /\
    coords_z out = [] /\
    elements_shape out = "quad" /\
    elements_sizes out = replicate 24 4 /\
    length (elements_connectivity out) = (24 * 4)%nat /\
    topologies_boundary out = Some b /\
    b_shape b = "line" /\
    b_sizes b = replicate 16 2 /\
    length (b_connectivity b) = (16 * 2)%nat /\
    length (boundary_type b) = 16%nat /\
    count_label BoundaryLeft (boundary_type b) = 4%nat /\
    count_label BoundaryRight (boundary_type b) = 4%nat /\
    count_label BoundaryBottom (boundary_type b) = 4%nat /\
    count_label BoundaryTop (boundary_type b) = 4%nat.
Proof.
  intros reorder_mesh. eexists. eexists.
  split; [vm_compute; reflexivity|].
  repeat split; vm_compute; reflexivity.
Qed.

(** ** Tiler: boundaryFlags *)

Definition all_flags (flags : boundary_flags) : bool :=
  fLeft flags && fRight flags && fBottom flags && fTop flags
  && fBack flags && fFront flags.

Lemma to_int_small (z : Z) : - 2 ^ 31 <= z < 2 ^ 31 -> to_int z = z.
Proof.
  intros Hz. unfold to_int. rewrite Z.mod_small; lia.
Qed.

Lemma unit_factor (a b : Z) : a * b = 1 -> (a = 1 \/ a = -1) /\ (b = 1 \/ b = -1).
Proof.
  intros H. split.
  - apply Z.eq_mul_1 in H. exact H.
  - rewrite Z.mul_comm in H. apply Z.eq_mul_1 in H. exact H.
Qed.

(** C10: with [domain] and [domains] present and of 3 components each, a
    product of the [domains] equal to 1 sets all six flags; a flag is false
    only when both are present with 3 components and the product, as the
    [int] the source computes, is above 1. *)
Theorem boundaryFlags_single_domain :
  forall options,
    (forall domain n0 n1 n2,
        o_domain options = Some domain -> length domain = 3%nat ->
        o_domains options = Some [n0; n1; n2] ->
        n0 * n1 * n2 = 1 ->
        exists flags, boundaryFlags options = Ok flags /\ all_flags flags = true) /\
    (forall flags,
        boundaryFlags options = Ok flags -> all_flags flags = false ->
        exists domain n0 n1 n2,
          o_domain options = Some domain /\ length domain = 3%nat /\
          o_domains options = Some [n0; n1; n2] /\
          1 < to_int (to_int (n0 * n1) * n2)).
Proof.
  intros options. split.
  - intros domain n0 n1 n2 Hd Hlen Hds Hprod.
    unfold boundaryFlags. rewrite Hd, Hds.
    destruct domain as [|d0 [|d1 [|d2 [|? ?]]]]; try discriminate Hlen.
    simpl.
    assert (Hn : to_int (to_int (n0 * n1) * n2) = 1).
    { destruct (unit_factor _ _ Hprod) as [H01 H2].
      assert (H01' : n0 * n1 = 1 \/ n0 * n1 = -1) by exact H01.
      rewrite (to_int_small (n0 * n1)) by lia.
      rewrite Hprod. reflexivity. }
    rewrite Hn. simpl. eexists. split; reflexivity.
  - intros flags Hf Hall. unfold boundaryFlags in Hf.
    destruct (o_domain options) as [domain|] eqn:Hd;
      [|injection Hf as <-; discriminate Hall].
    destruct (o_domains options) as [domains|] eqn:Hds;
      [|injection Hf as <-; discriminate Hall].
    destruct (Nat.eqb (length domain) 3 && Nat.eqb (length domain) (length domains)) eqn:Hlen;
      [|injection Hf as <-; discriminate Hall].
    apply andb_prop in Hlen as [H3 Heq].
    apply Nat.eqb_eq in H3. apply Nat.eqb_eq in Heq. rewrite H3 in Heq.
    destruct domains as [|n0 [|n1 [|n2 [|? ?]]]]; try discriminate Heq.
    destruct domain as [|d0 [|d1 [|d2 [|? ?]]]]; try discriminate H3.
    simpl in Hf.
    destruct (Z.ltb_spec 1 (to_int (to_int (n0 * n1) * n2))) as [Hgt|Hle];
      [|injection Hf as <-; discriminate Hall].
    exists [d0; d1; d2], n0, n1, n2. repeat split; assumption.
Qed.

Lemma boundaryFlags_single_domain_witness :
  exists flags,
    boundaryFlags {| o_tile := None; o_reorder := None; o_datatype := None;
                     o_extents := None; o_domain := Some [0; 0; 0];
                     o_domains := Some [1; 1; 1] |} = Ok flags /\
    all_flags flags = true.
Proof.
  eapply (proj1 (boundaryFlags_single_domain _)).
  - reflexivity.
  - reflexivity.
  - reflexivity.
  - reflexivity.
Defined.

(** ** Parallel partitioner: get_largest_selection *)

Section LargestSelection.

(** The largest length of a rank's selections; 0 without selections. *)
Definition local_max (selections : list Z) : Z := fold_right Z.max 0 selections.

Lemma to_uint64_small (z : Z) : 0 <= z < 2 ^ 64 -> to_uint64 z = z.
Proof. intros Hz. unfold to_uint64. apply Z.mod_small. lia. Qed.

Lemma to_long_small (z : Z) : - 2 ^ 63 <= z < 2 ^ 63 -> to_long z = z.
Proof. intros Hz. unfold to_long. rewrite Z.mod_small; lia. Qed.

Definition lengths_ok (selections : list Z) : Prop :=
  Forall (fun len => 0 <= len < 2 ^ 63) selections.

Lemma local_sizes_ok (selections : list Z) :
  lengths_ok selections -> local_sizes selections = selections.
Proof.
  unfold local_sizes. induction 1 as [|len l Hlen _ IH]; [reflexivity|].
  cbn [map]. rewrite IH, to_uint64_small by lia. reflexivity.
Qed.

Lemma local_max_bounds (selections : list Z) :
  lengths_ok selections -> 0 <= local_max selections < 2 ^ 63.
Proof.
  induction 1 as [|len l Hlen _ IH]; cbn [local_max fold_right]; [lia|].
  fold (local_max l). lia.
Qed.

Lemma largest_selection_value (rank : Z) (selections : list Z) :
  lengths_ok selections ->
  largest_selection rank selections =
  {| value := local_max selections; li_rank := rank |}.
Proof.
  intros Hok. unfold largest_selection. f_equal.
  rewrite (local_sizes_ok _ Hok).
  enough (H : forall v, 0 <= v < 2 ^ 63 ->
            fold_left (fun v sz => if Z.ltb (to_uint64 v) sz then to_long sz else v)
                      selections v = Z.max v (local_max selections)).
  { rewrite H by lia. pose proof (local_max_bounds _ Hok). lia. }
  induction Hok as [|len l Hlen Hl IH]; intros v Hv; cbn [fold_left local_max fold_right].
  - lia.
  - fold (local_max l). rewrite to_uint64_small by lia.
    destruct (Z.ltb_spec v len).
    + rewrite to_long_small by lia. rewrite IH by lia. lia.
    + rewrite IH by lia. lia.
Qed.

Lemma local_max_upper (selections : list Z) (len : Z) :
  len ∈ selections -> len <= local_max selections.
Proof.
  induction 1 as [len l|len len' l _ IH]; cbn [local_max fold_right];
    fold (local_max l); lia.
Qed.

Lemma local_max_attained (selections : list Z) :
  0 < local_max selections -> local_max selections ∈ selections.
Proof.
  induction selections as [|len l IH]; cbn [local_max fold_right]; [lia|].
  fold (local_max l). intros Hpos.
  destruct (Z.max_spec len (local_max l)) as [[Hlt ->]|[Hle ->]].
  - right. apply IH. lia.
  - left.
Qed.

(** What the reduction with [MPI_MAXLOC] returns. *)
Lemma fold_maxloc (cs : list long_int) :
  forall acc,
    let g := fold_left maxloc cs acc in
    (forall y, y ∈ acc :: cs -> value y <= value g) /\
    (forall y, y ∈ acc :: cs -> value y = value g -> li_rank g <= li_rank y) /\
    (exists x, x ∈ acc :: cs /\ value x = value g /\ li_rank x = li_rank g).
Proof.
  induction cs as [|c cs IH]; intros acc; cbn [fold_left].
  - cbn zeta. split; [|split].
    + intros y ->%list_elem_of_singleton. lia.
    + intros y ->%list_elem_of_singleton _. lia.
    + exists acc. split; [left|split; reflexivity].
  - specialize (IH (maxloc acc c)). cbn zeta in IH |- *.
    set (g := fold_left maxloc cs (maxloc acc c)) in *.
    destruct IH as (Hub & Hmin & x & Hx & Hxv & Hxr).
    assert (Hm : value acc <= value (maxloc acc c) /\ value c <= value (maxloc acc c) /\
                 (value acc = value (maxloc acc c) -> li_rank (maxloc acc c) <= li_rank acc) /\
                 (value c = value (maxloc acc c) -> li_rank (maxloc acc c) <= li_rank c) /\
                 ((value acc = value (maxloc acc c) /\ li_rank acc = li_rank (maxloc acc c)) \/
                  (value c = value (maxloc acc c) /\ li_rank c = li_rank (maxloc acc c)))).
    { unfold maxloc.
      destruct (Z.ltb_spec (value c) (value acc)); [lia|].
      destruct (Z.ltb_spec (value acc) (value c)); [lia|].
      cbn [value li_rank]. lia. }
    destruct Hm as (Ha & Hc & Hra & Hrc & Hex).
    assert (Hself : maxloc acc c ∈ maxloc acc c :: cs) by left.
    pose proof (Hub _ Hself) as Hself_le.
    split; [|split].
    + intros y Hy. apply elem_of_cons in Hy as [->|Hy]; [lia|].
      apply elem_of_cons in Hy as [->|Hy]; [lia|].
      apply Hub. now right.
    + intros y Hy Hyv. apply elem_of_cons in Hy as [->|Hy].
      { pose proof (Hmin _ Hself). lia. }
      apply elem_of_cons in Hy as [->|Hy].
      { pose proof (Hmin _ Hself). lia. }
      apply Hmin; [now right|exact Hyv].
    + apply elem_of_cons in Hx as [->|Hx].
      * destruct Hex as [[Hv Hr]|[Hv Hr]].
        -- exists acc. split; [left|]. split; congruence.
        -- exists c. split; [right; left|]. split; congruence.
      * exists x. split; [right; right; exact Hx|]. split; assumption.
Qed.

Lemma first_index_of_spec (ssize : Z) (sizes : list Z) :
  forall i,
    0 <= i -> i + Z.of_nat (length sizes) < 2 ^ 31 ->
    (first_index_of ssize sizes i = -1 /\ ssize ∉ sizes) \/
    (exists k : nat,
        first_index_of ssize sizes i = i + Z.of_nat k /\
        sizes !! k = Some ssize /\
        forall k' sz, (k' < k)%nat -> sizes !! k' = Some sz -> sz <> ssize).
Proof.
  induction sizes as [|sz sizes IH]; intros i Hi Hlen; cbn [first_index_of].
  - left. split; [reflexivity|]. apply not_elem_of_nil.
  - cbn [length] in Hlen. destruct (Z.eqb_spec ssize sz) as [->|Hne].
    + right. exists 0%nat. rewrite to_int_small by lia.
      split; [lia|]. split; [reflexivity|]. intros k' sz' Hk'. lia.
    + destruct (IH (i + 1)) as [[Hnone Hnot]|(k & Hk & Hl & Hfirst)]; [lia|lia| |].
      * left. split; [exact Hnone|]. intros [?|?]%elem_of_cons; [congruence|contradiction].
      * right. exists (Datatypes.S k). split; [lia|]. split; [exact Hl|].
        intros [|k'] sz' Hk' Hsz'; cbn in Hsz'.
        -- injection Hsz' as <-. congruence.
        -- eapply Hfirst; [|exact Hsz']. lia.
Qed.

Lemma imap_largest_elem (all_selections : list (list Z)) (y : long_int) :
  Forall lengths_ok all_selections ->
  y ∈ imap (fun r sels => largest_selection (Z.of_nat r) sels) all_selections <->
  exists (r : nat) sels,
    all_selections !! r = Some sels /\
    y = {| value := local_max sels; li_rank := Z.of_nat r |}.
Proof.
  intros Hok. rewrite list_elem_of_lookup. split.
  - intros (r & Hr). rewrite list_lookup_imap in Hr.
    destruct (all_selections !! r) as [sels|] eqn:Hs; [|discriminate].
    cbn in Hr. injection Hr as <-. exists r, sels. split; [exact Hs|].
    apply largest_selection_value. eapply Forall_lookup_1; eauto.
  - intros (r & sels & Hs & ->). exists r. rewrite list_lookup_imap, Hs. cbn.
    f_equal. apply largest_selection_value. eapply Forall_lookup_1; eauto.
Qed.

(** C7: every rank gets the same [sel_rank], the lowest rank whose local
    maximum is the global maximum; that rank gets the index of its first
    selection of that length (-1 when it has none, which takes a global
    maximum of 0); every other rank gets -1. *)
Theorem get_largest_selection_maxloc :
  forall all_selections : list (list Z),
    all_selections <> [] ->
    Forall lengths_ok all_selections ->
    Forall (fun sels => Z.of_nat (length sels) < 2 ^ 31) all_selections ->
    exists gmax winner : Z,
      (forall r sels, all_selections !! r = Some sels -> local_max sels <= gmax) /\
      (exists sels, 0 <= winner /\ all_selections !! Z.to_nat winner = Some sels /\
                    local_max sels = gmax) /\
      (forall r sels, all_selections !! r = Some sels -> local_max sels = gmax ->
                      winner <= Z.of_nat r) /\
      (forall (r : nat) sels,
          all_selections !! r = Some sels ->
          exists sel_index,
            get_largest_selection all_selections (Z.of_nat r) = Ok (winner, sel_index) /\
            (Z.of_nat r <> winner -> sel_index = -1) /\
            (Z.of_nat r = winner ->
             (sel_index = -1 /\ (gmax ∉ sels) /\ gmax = 0) \/
             (0 <= sel_index /\ sels !! Z.to_nat sel_index = Some gmax /\
              forall k len, (k < Z.to_nat sel_index)%nat -> sels !! k = Some len ->
                            len <> gmax))).
Proof.
  intros all_selections Hne Hok Hcount.
  set (contributions := imap (fun r sels => largest_selection (Z.of_nat r) sels) all_selections).
  destruct contributions as [|c cs] eqn:Hcs.
  { destruct all_selections; [congruence|discriminate Hcs]. }
  pose proof (fold_maxloc cs c) as Hfold. cbn zeta in Hfold.
  set (g := fold_left maxloc cs c) in *.
  destruct Hfold as (Hub & Hmin & x & Hx & Hxv & Hxr).
  rewrite <- Hcs in Hub, Hmin, Hx. subst contributions.
  exists (value g), (li_rank g).
  apply (imap_largest_elem _ _ Hok) in Hx as (rw & selsw & Hw & ->).
  cbn [value li_rank] in Hxv, Hxr.
  split; [|split; [|split]].
  - intros r sels Hr.
    apply (Hub {| value := local_max sels; li_rank := Z.of_nat r |}).
    apply (imap_largest_elem _ _ Hok). eauto.
  - exists selsw. rewrite <- Hxr, Nat2Z.id. split; [lia|]. split; assumption.
  - intros r sels Hr Hv.
    apply (Hmin {| value := local_max sels; li_rank := Z.of_nat r |}); [|exact Hv].
    apply (imap_largest_elem _ _ Hok). eauto.
  - intros r sels Hr. unfold get_largest_selection.
    assert (Hget : vec_get all_selections (Z.of_nat r) = Ok sels).
    { apply vec_get_Ok. rewrite Nat2Z.id. split; [lia|exact Hr]. }
    rewrite Hget. cbn [mbind result_bind]. rewrite Hcs.
    cbn [MPI_Allreduce_MAXLOC mbind result_bind]. fold g.
    eexists. split; [reflexivity|].
    assert (Hsels : lengths_ok sels) by (eapply Forall_lookup_1; eauto).
    assert (Hn : Z.of_nat (length sels) < 2 ^ 31).
    { eapply (Forall_lookup_1 _ _ _ _ Hcount); eauto. }
    destruct (Z.eqb_spec (li_rank g) (Z.of_nat r)) as [Heq|Hneq].
    + split; [intros; congruence|]. intros _.
      assert (selsw = sels) as ->.
      { rewrite <- Hxr in Heq. apply Nat2Z.inj in Heq. congruence. }
      pose proof (local_max_bounds _ Hsels) as Hb.
      rewrite (local_sizes_ok _ Hsels), to_uint64_small by lia.
      destruct (first_index_of_spec (value g) sels 0) as [[Hnone Hnot]|(k & Hk & Hl & Hfirst)];
        [lia|lia| |].
      * left. split; [exact Hnone|]. split; [exact Hnot|].
        destruct (Z.eq_dec (value g) 0) as [|Hnz]; [assumption|].
        exfalso. apply Hnot. rewrite <- Hxv. apply local_max_attained. lia.
      * right. rewrite Hk. rewrite Z.add_0_l, Nat2Z.id.
        split; [lia|]. split; [exact Hl|]. exact Hfirst.
    + split; [reflexivity|]. intros; congruence.
Qed.

Lemma get_largest_selection_maxloc_witness :
  exists gmax winner : Z,
    gmax = 7 /\ winner = 1 /\
    get_largest_selection [[3; 5]; [2; 7; 7]; [7]] 0 = Ok (winner, -1) /\
    get_largest_selection [[3; 5]; [2; 7; 7]; [7]] 1 = Ok (winner, 1) /\
    get_largest_selection [[3; 5]; [2; 7; 7]; [7]] 2 = Ok (winner, -1).
Proof.
  destruct (get_largest_selection_maxloc [[3; 5]; [2; 7; 7]; [7]])
    as (gmax & winner & _ & _ & _ & _).
  - discriminate.
  - repeat constructor; lia.
  - repeat constructor; cbn; lia.
  - exists 7, 1. repeat split; reflexivity.
Defined.

End LargestSelection.

(** ** Parallel partitioner: the assignment of free chunks *)

Section FreeAssignment.

Definition sum_elements (infos : list chunk_info) : Z :=
  fold_right (fun c s => num_elements c + s) 0 infos.

(** The largest [num_elements] of the chunks; 0 without chunks. *)
Definition max_elements (infos : list chunk_info) : Z :=
  fold_right (fun c m => Z.max (num_elements c) m) 0 infos.

Definition elements_ok (infos : list chunk_info) : Prop :=
  Forall (fun c => 0 <= num_elements c) infos.

Lemma sum_elements_cons (c : chunk_info) (l : list chunk_info) :
  sum_elements (c :: l) = num_elements c + sum_elements l.
Proof. reflexivity. Qed.

Lemma max_elements_cons (c : chunk_info) (l : list chunk_info) :
  max_elements (c :: l) = Z.max (num_elements c) (max_elements l).
Proof. reflexivity. Qed.

Lemma max_elements_nonneg (l : list chunk_info) : 0 <= max_elements l.
Proof.
  induction l as [|c l IH]; [cbn; lia|]. rewrite max_elements_cons. lia.
Qed.

Lemma sum_elements_app (l1 l2 : list chunk_info) :
  sum_elements (l1 ++ l2) = sum_elements l1 + sum_elements l2.
Proof.
  induction l1 as [|c l1 IH]; [reflexivity|].
  rewrite <- app_comm_cons, !sum_elements_cons, IH. lia.
Qed.

Lemma max_elements_app (l1 l2 : list chunk_info) :
  max_elements (l1 ++ l2) = Z.max (max_elements l1) (max_elements l2).
Proof.
  induction l1 as [|c l1 IH].
  - pose proof (max_elements_nonneg l2). cbn [app]. change (max_elements []) with 0. lia.
  - rewrite <- app_comm_cons, !max_elements_cons, IH. lia.
Qed.

Lemma sum_elements_nonneg (l : list chunk_info) : elements_ok l -> 0 <= sum_elements l.
Proof.
  induction 1 as [|c l Hc _ IH]; [cbn; lia|]. rewrite sum_elements_cons. lia.
Qed.

Lemma sum_elements_take (infos : list chunk_info) (k : nat) :
  elements_ok infos -> sum_elements (take k infos) <= sum_elements infos.
Proof.
  intros Hok. rewrite <- (take_drop k infos) at 2. rewrite sum_elements_app.
  assert (0 <= sum_elements (drop k infos)); [|lia].
  apply sum_elements_nonneg. unfold elements_ok. now apply Forall_drop.
Qed.

Lemma max_elements_take (infos : list chunk_info) (k : nat) :
  max_elements (take k infos) <= max_elements infos.
Proof.
  rewrite <- (take_drop k infos) at 2. rewrite max_elements_app. lia.
Qed.

Lemma at_map {A B} (f : A -> B) (da : A) (db : B) (v : list A) (i : Z) :
  0 <= i < Z.of_nat (length v) -> at_ db (map f v) i = f (at_ da v i).
Proof.
  intros Hi. destruct (vec_get_in_range v i Hi) as [a Ha].
  rewrite (at_get da _ _ _ Ha). apply at_get.
  apply vec_get_Ok in Ha as [H0 Ha]. apply vec_get_Ok. split; [exact H0|].
  rewrite list_lookup_fmap, Ha. reflexivity.
Qed.

Lemma at_replicate {A} (d x : A) (n : nat) (i : Z) :
  0 <= i < Z.of_nat n -> at_ d (replicate n x) i = x.
Proof.
  intros Hi. apply at_get, vec_get_Ok. split; [lia|].
  apply lookup_replicate_2. lia.
Qed.

(** [min_index] returns the lowest index of a least entry. *)
Lemma min_index_spec (target : Z) (next : list Z) :
  1 <= target < 2 ^ 31 ->
  length next = Z.to_nat target ->
  exists idx,
    min_index target next = Ok idx /\
    0 <= idx < target /\
    (forall t, 0 <= t < target -> at_ 0 next idx <= at_ 0 next t) /\
    (forall t, 0 <= t < idx -> at_ 0 next idx < at_ 0 next t).
Proof.
  intros Ht Hlen. unfold min_index.
  destruct (for_range_inv
              (fun r idx => 0 <= idx < r /\
                            (forall t, 0 <= t < r -> at_ 0 next idx <= at_ 0 next t) /\
                            (forall t, 0 <= t < idx -> at_ 0 next idx < at_ 0 next t))
              (fun r idx => a ← vec_get next r; b ← vec_get next idx;
                            Ok (if Z.ltb a b then to_int r else idx))
              (Z.to_nat target - 1) 1 0) as (idx & Hrun & Hidx).
  - split; [lia|]. split; intros t Hr; [|lia].
    assert (t = 0) as -> by lia. lia.
  - intros r idx Hr (Hi & Hle & Hlt).
    rewrite (vec_get_at 0 next r) by lia.
    rewrite (vec_get_at 0 next idx) by lia.
    cbn [mbind result_bind]. eexists. split; [reflexivity|].
    destruct (Z.ltb_spec (at_ 0 next r) (at_ 0 next idx)) as [Hsm|Hge].
    + rewrite to_int_small by lia. split; [lia|]. split.
      * intros t Ht'. destruct (Z.eq_dec t r) as [->|]; [lia|].
        specialize (Hle t). lia.
      * intros t Ht'. specialize (Hle t). lia.
    + split; [lia|]. split.
      * intros t Ht'. destruct (Z.eq_dec t r) as [->|]; [lia|]. apply Hle. lia.
      * exact Hlt.
  - exists idx. split; [exact Hrun|].
    replace (1 + Z.of_nat (Z.to_nat target - 1)) with target in Hidx by lia.
    exact Hidx.
Qed.

(** What holds of [(target_element_counts, global_dest_domain)] after [k]
    rounds. *)
Definition balanced (target : Z) (infos : list chunk_info) (k : nat)
    (s : list Z * list Z) : Prop :=
  length (fst s) = Z.to_nat target /\
  length (snd s) = length infos /\
  (forall t, 0 <= t < target ->
             0 <= at_ 0 (fst s) t <= sum_elements (take k infos)) /\
  (forall a b, 0 <= a < target -> 0 <= b < target ->
               at_ 0 (fst s) a - at_ 0 (fst s) b <= max_elements (take k infos)) /\
  (forall i, 0 <= i < Z.of_nat k -> 0 <= at_ 0 (snd s) i < target).

(** One round: the chunk goes to the lowest target of least count, and the
    counts stay balanced. *)
Lemma assign_chunk_spec (target : Z) (infos : list chunk_info) (k : nat)
    (c : chunk_info) (tec gdd : list Z) :
  1 <= target < 2 ^ 31 ->
  elements_ok infos ->
  sum_elements infos < 2 ^ 64 ->
  infos !! k = Some c ->
  balanced target infos k (tec, gdd) ->
  exists d,
    assign_chunk target infos (Z.of_nat k) (tec, gdd) =
    Ok (<[Z.to_nat d := at_ 0 tec d + num_elements c]> tec, <[k := d]> gdd) /\
    0 <= d < target /\
    (forall t, 0 <= t < target ->
               at_ 0 tec d + num_elements c <= at_ 0 tec t + num_elements c) /\
    (forall t, 0 <= t < d ->
               at_ 0 tec d + num_elements c < at_ 0 tec t + num_elements c) /\
    balanced target infos (Datatypes.S k)
      (<[Z.to_nat d := at_ 0 tec d + num_elements c]> tec, <[k := d]> gdd).
Proof.
  intros Ht Hok Hsum Hc (Hlt & Hlg & Hbound & Hspread & Hdom). cbn [fst snd] in *.
  assert (Hk : (k < length infos)%nat) by (eapply lookup_lt_Some; eauto).
  assert (Hc0 : 0 <= num_elements c).
  { eapply (Forall_lookup_1 _ _ _ _ Hok); eauto. }
  assert (Htake : take (Datatypes.S k) infos = take k infos ++ [c])
    by (now apply take_S_r).
  assert (Hsum' : sum_elements (take k infos) + num_elements c <= sum_elements infos).
  { pose proof (sum_elements_take infos (Datatypes.S k) Hok) as H.
    rewrite Htake, sum_elements_app, sum_elements_cons in H.
    change (sum_elements []) with 0 in H. lia. }
  set (next := map (fun x => to_uint64 (x + num_elements c)) tec).
  assert (Hnext : forall t, 0 <= t < target -> at_ 0 next t = at_ 0 tec t + num_elements c).
  { intros t Ht'. unfold next. rewrite (at_map _ 0 0) by lia.
    specialize (Hbound t Ht'). apply to_uint64_small. lia. }
  destruct (min_index_spec target next Ht) as (d & Hmin & Hd & Hle & Hlow).
  { unfold next. now rewrite length_map. }
  exists d. split; [|split; [exact Hd|split; [|split]]].
  - unfold assign_chunk.
    assert (Hget : vec_get infos (Z.of_nat k) = Ok c).
    { apply vec_get_Ok. rewrite Nat2Z.id. split; [lia|exact Hc]. }
    rewrite Hget. cbn [mbind result_bind]. fold next. rewrite Hmin.
    cbn [mbind result_bind]. rewrite (vec_get_at 0 tec d) by lia.
    cbn [mbind result_bind]. rewrite vec_set_in_range by lia.
    cbn [mbind result_bind]. rewrite vec_set_in_range by lia.
    cbn [mbind result_bind]. rewrite Nat2Z.id, to_uint64_small; [reflexivity|].
    specialize (Hbound d Hd). lia.
  - intros t Ht'. rewrite <- !Hnext by lia. now apply Hle.
  - intros t Ht'. rewrite <- !Hnext by lia. now apply Hlow.
  - assert (Hat : forall t, 0 <= t < target ->
              at_ 0 (<[Z.to_nat d := at_ 0 tec d + num_elements c]> tec) t =
              if Z.eq_dec t d then at_ 0 tec d + num_elements c else at_ 0 tec t).
    { intros t Ht'. destruct (Z.eq_dec t d) as [->|Hne].
      - apply at_insert_eq. lia.
      - apply at_insert_ne; lia. }
    assert (Hleast : forall t, 0 <= t < target -> at_ 0 tec d <= at_ 0 tec t).
    { intros t Ht'. specialize (Hle t Ht'). rewrite !Hnext in Hle by lia. lia. }
    split; [|split; [|split; [|split]]]; cbn [fst snd].
    5: { intros i Hi.
         replace (<[k := d]> gdd) with (<[Z.to_nat (Z.of_nat k) := d]> gdd)
           by now rewrite Nat2Z.id.
         destruct (Z.eq_dec i (Z.of_nat k)) as [->|Hne].
         - rewrite at_insert_eq by lia. exact Hd.
         - rewrite at_insert_ne by lia. apply Hdom. lia. }
    + now rewrite length_insert.
    + now rewrite length_insert.
    + intros t Ht'. rewrite Hat by exact Ht'.
      rewrite Htake, sum_elements_app, sum_elements_cons.
      change (sum_elements []) with 0.
      pose proof (Hbound t Ht'). pose proof (Hbound d Hd).
      destruct (Z.eq_dec t d); lia.
    + intros a b Ha Hb. rewrite !Hat by assumption.
      rewrite Htake, max_elements_app, max_elements_cons.
      change (max_elements []) with 0.
      pose proof (Hspread a b Ha Hb). pose proof (Hspread a d Ha Hd).
      pose proof (Hleast b Hb). pose proof (max_elements_nonneg (take k infos)).
      destruct (Z.eq_dec a d), (Z.eq_dec b d); lia.
Qed.

Lemma assign_chunks_balanced (target : Z) (infos : list chunk_info) :
  1 <= target < 2 ^ 31 ->
  elements_ok infos ->
  sum_elements infos < 2 ^ 64 ->
  forall k, (k <= length infos)%nat ->
    exists s, assign_chunks target infos k = Ok s /\ balanced target infos k s.
Proof.
  intros Ht Hok Hsum k Hk. unfold assign_chunks.
  destruct (for_range_inv
              (fun i s => balanced target infos (Z.to_nat i) s)
              (assign_chunk target infos) k 0
              (replicate (Z.to_nat target) 0, replicate (length infos) 0))
    as (s & Hrun & Hs).
  - cbv beta. unfold balanced. change (Z.to_nat 0) with 0%nat. rewrite take_0.
    split; [|split; [|split; [|split]]]; cbn [fst snd].
    + apply length_replicate.
    + apply length_replicate.
    + intros t Ht'. rewrite at_replicate by lia. change (sum_elements []) with 0. lia.
    + intros a b Ha Hb. rewrite !at_replicate by lia. change (max_elements []) with 0. lia.
    + intros i Hi. lia.
  - intros i [tec gdd] Hi Hbal.
    destruct (lookup_lt_is_Some_2 infos (Z.to_nat i)) as [c Hc]; [lia|].
    destruct (assign_chunk_spec target infos (Z.to_nat i) c tec gdd Ht Hok Hsum Hc Hbal)
      as (d & Hstep & _ & _ & _ & Hbal').
    rewrite Z2Nat.id in Hstep by lia.
    eexists. split; [exact Hstep|].
    replace (Z.to_nat (i + 1)) with (Datatypes.S (Z.to_nat i)) by lia. exact Hbal'.
  - exists s. split; [exact Hrun|].
    replace (Z.to_nat (0 + Z.of_nat k)) with k in Hs by lia. exact Hs.
Qed.

Lemma assign_chunks_S (target : Z) (infos : list chunk_info) (k : nat) :
  assign_chunks target infos (Datatypes.S k) =
  (s ← assign_chunks target infos k; assign_chunk target infos (Z.of_nat k) s).
Proof.
  unfold assign_chunks. replace (Datatypes.S k) with (k + 1)%nat by lia.
  rewrite for_range_app. destruct (for_range 0 k _ _) as [s|e]; [|reflexivity].
  cbn [mbind result_bind for_range]. rewrite Z.add_0_l.
  destruct (assign_chunk _ _ _ s); reflexivity.
Qed.

(** A later round leaves the domain of an earlier chunk alone. *)
Lemma assign_chunk_keeps (target : Z) (infos : list chunk_info) (j k : Z)
    (s s' : list Z * list Z) :
  0 <= k < j -> assign_chunk target infos j s = Ok s' ->
  at_ 0 (snd s') k = at_ 0 (snd s) k.
Proof.
  intros Hk H. destruct s as [tec gdd]. unfold assign_chunk in H.
  do 5 bind_ok H. injection H as <-. cbn [snd].
  match goal with
  | E : vec_set gdd j _ = Ok _ |- _ => apply vec_set_Ok in E as [_ ->]
  end.
  apply at_insert_ne; lia.
Qed.

Lemma assign_chunks_keeps (target : Z) (infos : list chunk_info) (k n : nat)
    (s sn : list Z * list Z) :
  (k < n)%nat ->
  assign_chunks target infos (Datatypes.S k) = Ok s ->
  assign_chunks target infos n = Ok sn ->
  at_ 0 (snd sn) (Z.of_nat k) = at_ 0 (snd s) (Z.of_nat k).
Proof.
  intros Hk Hs Hn. unfold assign_chunks in Hs, Hn.
  replace n with (Datatypes.S k + (n - Datatypes.S k))%nat in Hn by lia.
  rewrite for_range_app, Hs in Hn. cbn [mbind result_bind] in Hn.
  refine (for_range_preserves_from
            (fun s' => at_ 0 (snd s') (Z.of_nat k) = at_ 0 (snd s) (Z.of_nat k))
            _ (Z.of_nat k + 1) _ _ _ _ _ _ Hn eq_refl); [|lia].
  intros j s1 s2 Hj Hb Hs1. rewrite <- Hs1.
  eapply assign_chunk_keeps; [|exact Hb]. lia.
Qed.

End FreeAssignment.

(** ** Parallel partitioner: from domains to ranks *)

Section DomainsToRanks.

(** The number of ranks that get domains. *)
Definition divsize (size target : Z) : Z := Z.min size target.

(** What dealing [target] domains round-robin over the first
    [divsize] ranks leaves on rank [r]. *)
Definition round_robin_count (size target r : Z) : Z :=
  if Z.ltb r (divsize size target)
  then target / divsize size target
       + (if Z.ltb r (target mod divsize size target) then 1 else 0)
  else 0.

(** The first domain of rank [r] when the ranks take their domains in
    consecutive blocks. *)
Definition block_start (size target r : Z) : Z :=
  r * (target / divsize size target) + Z.min r (target mod divsize size target).

(** The rank a round-robin deal gives domain [d]. *)
Definition round_robin_owner (size target d : Z) : Z := d mod divsize size target.

Lemma round_robin_step (D i r : Z) :
  0 < D -> 0 <= i -> 0 <= r < D ->
  (i + 1) / D + (if Z.ltb r ((i + 1) mod D) then 1 else 0) =
  i / D + (if Z.ltb r (i mod D) then 1 else 0) + (if Z.eqb r (i mod D) then 1 else 0).
Proof.
  intros HD Hi Hr.
  pose proof (Z.div_mod i D ltac:(lia)) as Hdm.
  pose proof (Z.mod_pos_bound i D HD) as Hm.
  destruct (Z.eq_dec (i mod D + 1) D) as [Hwrap|Hnowrap].
  - assert (Hq : (i + 1) / D = i / D + 1).
    { symmetry. apply (Z.div_unique _ _ _ 0); lia. }
    assert (Hr' : (i + 1) mod D = 0).
    { symmetry. apply (Z.mod_unique _ _ (i / D + 1)); lia. }
    rewrite Hq, Hr'.
    destruct (Z.ltb_spec r 0), (Z.ltb_spec r (i mod D)), (Z.eqb_spec r (i mod D)); lia.
  - assert (Hq : (i + 1) / D = i / D).
    { symmetry. apply (Z.div_unique _ _ _ (i mod D + 1)); lia. }
    assert (Hr' : (i + 1) mod D = i mod D + 1).
    { symmetry. apply (Z.mod_unique _ _ (i / D)); lia. }
    rewrite Hq, Hr'.
    destruct (Z.ltb_spec r (i mod D + 1)), (Z.ltb_spec r (i mod D)),
             (Z.eqb_spec r (i mod D)); lia.
Qed.

Lemma to_uint_small (z : Z) : 0 <= z < 2 ^ 32 -> to_uint z = z.
Proof. intros Hz. unfold to_uint. apply Z.mod_small. lia. Qed.

(** [rank_domain_count] is the round-robin count. *)
Lemma spread_domains_spec (size target : Z) :
  1 <= size < 2 ^ 31 -> 1 <= target < 2 ^ 31 ->
  exists rank_domain_count,
    spread_domains size target = Ok rank_domain_count /\
    length rank_domain_count = Z.to_nat size /\
    forall r, 0 <= r < size ->
              at_ 0 rank_domain_count r = round_robin_count size target r.
Proof.
  intros Hs Ht. unfold spread_domains.
  rewrite (to_int_small target) by lia.
  fold (divsize size target). set (D := divsize size target).
  assert (HD : 1 <= D <= size /\ D <= target) by (unfold D, divsize; lia).
  rewrite (to_uint_small D) by lia.
  destruct (for_range_inv
              (fun i rdc => length rdc = Z.to_nat size /\
                            forall r, 0 <= r < size ->
                              at_ 0 rdc r =
                              if Z.ltb r D
                              then i / D + (if Z.ltb r (i mod D) then 1 else 0)
                              else 0)
              (fun i rdc => let r := i mod D in
                            c ← vec_get rdc r; vec_set rdc r (c + 1))
              (Z.to_nat target) 0 (replicate (Z.to_nat size) 0))
    as (rdc & Hrun & Hlen & Hcount).
  - split; [apply length_replicate|]. intros r Hr. rewrite at_replicate by lia.
    rewrite Z.div_0_l, Z.mod_0_l by lia.
    destruct (Z.ltb_spec r D); [|reflexivity]. destruct (Z.ltb_spec r 0); lia.
  - intros i rdc Hi (Hlen & Hcount). cbn zeta.
    pose proof (Z.mod_pos_bound i D ltac:(lia)) as Hm.
    rewrite (vec_get_at 0 rdc (i mod D)) by lia. cbn [mbind result_bind].
    rewrite vec_set_in_range by lia. eexists. split; [reflexivity|].
    split; [now rewrite length_insert|]. intros r Hr.
    destruct (Z.eq_dec r (i mod D)) as [->|Hne].
    + rewrite at_insert_eq by lia. rewrite Hcount by lia.
      destruct (Z.ltb_spec (i mod D) D); [|lia].
      rewrite round_robin_step by lia. rewrite Z.eqb_refl. lia.
    + rewrite at_insert_ne by lia. rewrite Hcount by lia.
      destruct (Z.ltb_spec r D); [|reflexivity].
      rewrite round_robin_step by lia.
      destruct (Z.eqb_spec r (i mod D)); lia.
  - exists rdc. split; [exact Hrun|]. split; [exact Hlen|].
    intros r Hr. rewrite Hcount by exact Hr. unfold round_robin_count. fold D.
    replace (0 + Z.of_nat (Z.to_nat target)) with target by lia. reflexivity.
Qed.

Lemma block_start_succ (size target r : Z) :
  1 <= size -> 1 <= target -> 0 <= r < divsize size target ->
  block_start size target (r + 1) =
  block_start size target r + round_robin_count size target r /\
  1 <= round_robin_count size target r.
Proof.
  intros Hs Ht Hr. unfold block_start, round_robin_count.
  set (D := divsize size target) in *.
  assert (HD : 1 <= D <= target) by (unfold D, divsize; lia).
  pose proof (Z.mod_pos_bound target D ltac:(lia)) as Hm.
  assert (Hq : 1 <= target / D).
  { apply Z.div_le_lower_bound; lia. }
  destruct (Z.ltb_spec r D); [|lia].
  destruct (Z.ltb_spec r (target mod D)); split; lia.
Qed.

Lemma block_start_0 (size target : Z) :
  1 <= size -> 1 <= target -> block_start size target 0 = 0.
Proof.
  intros Hs Ht. unfold block_start.
  pose proof (Z.mod_pos_bound target (divsize size target)
                ltac:(unfold divsize; lia)). lia.
Qed.

Lemma block_start_last (size target : Z) :
  1 <= size -> 1 <= target ->
  block_start size target (divsize size target) = target.
Proof.
  intros Hs Ht. unfold block_start. set (D := divsize size target).
  assert (HD : 1 <= D) by (unfold D, divsize; lia).
  pose proof (Z.mod_pos_bound target D ltac:(lia)).
  pose proof (Z.div_mod target D ltac:(lia)). lia.
Qed.

(** The loop over the chunks that gives rank [r] to those of domain
    [target_id]. *)
Lemma mark_domain_spec (gdd gdr : list Z) (target_id r : Z) :
  length gdr = length gdd ->
  exists gdr',
    for_range 0 (length gdd)
      (fun i gdr => d ← vec_get gdd i;
                    if Z.eqb d target_id then vec_set gdr i r else Ok gdr) gdr
    = Ok gdr' /\
    length gdr' = length gdd /\
    forall i, 0 <= i < Z.of_nat (length gdd) ->
              at_ (-1) gdr' i = if Z.eqb (at_ 0 gdd i) target_id then r
                                else at_ (-1) gdr i.
Proof.
  intros Hlen.
  destruct (for_range_inv
              (fun k g => length g = length gdd /\
                          forall i, 0 <= i < Z.of_nat (length gdd) ->
                            at_ (-1) g i =
                            if Z.ltb i k && Z.eqb (at_ 0 gdd i) target_id then r
                            else at_ (-1) gdr i)
              (fun i gdr => d ← vec_get gdd i;
                            if Z.eqb d target_id then vec_set gdr i r else Ok gdr)
              (length gdd) 0 gdr) as (g & Hrun & Hl & Hg).
  - split; [exact Hlen|]. intros i Hi. destruct (Z.ltb_spec i 0); [lia|reflexivity].
  - intros k g Hk (Hl & Hg). rewrite (vec_get_at 0 gdd k) by lia.
    cbn [mbind result_bind].
    destruct (Z.eqb_spec (at_ 0 gdd k) target_id) as [Heq|Hne].
    + rewrite vec_set_in_range by lia. eexists. split; [reflexivity|].
      split; [now rewrite length_insert|]. intros i Hi.
      destruct (Z.eq_dec i k) as [->|Hik].
      * rewrite at_insert_eq by lia. rewrite Heq, Z.eqb_refl.
        destruct (Z.ltb_spec k (k + 1)); [reflexivity|lia].
      * rewrite at_insert_ne by lia. rewrite Hg by lia.
        destruct (Z.ltb_spec i k), (Z.ltb_spec i (k + 1)); try lia; reflexivity.
    + eexists. split; [reflexivity|]. split; [exact Hl|]. intros i Hi.
      rewrite Hg by lia.
      destruct (Z.ltb_spec i k), (Z.ltb_spec i (k + 1)); try lia; try reflexivity.
      assert (i = k) as -> by lia.
      destruct (Z.eqb_spec (at_ 0 gdd k) target_id); [contradiction|reflexivity].
  - exists g. split; [exact Hrun|]. split; [exact Hl|]. intros i Hi.
    rewrite Hg by lia. rewrite Z.add_0_l.
    destruct (Z.ltb_spec i (Z.of_nat (length gdd))); [reflexivity|lia].
Qed.

(** Chunk [i] of a domain below [target_id] has the rank whose block holds
    its domain; the others still have what [gdr0] gave them. *)
Definition owned (size target : Z) (gdd gdr0 : list Z) (target_id : Z)
    (g : list Z) : Prop :=
  length g = length gdd /\
  forall i, 0 <= i < Z.of_nat (length gdd) ->
    (0 <= at_ 0 gdd i < target_id ->
     0 <= at_ (-1) g i < divsize size target /\
     block_start size target (at_ (-1) g i) <= at_ 0 gdd i
       < block_start size target (at_ (-1) g i + 1)) /\
    (~ 0 <= at_ 0 gdd i < target_id -> at_ (-1) g i = at_ (-1) gdr0 i).

Lemma block_start_nonneg (size target r : Z) :
  1 <= size -> 1 <= target -> 0 <= r -> 0 <= block_start size target r.
Proof.
  intros Hs Ht Hr. unfold block_start. set (D := divsize size target).
  assert (HD : 1 <= D) by (unfold D, divsize; lia).
  pose proof (Z.mod_pos_bound target D ltac:(lia)).
  pose proof (Z.div_pos target D ltac:(lia) ltac:(lia)). nia.
Qed.

(** The loop over the domains of rank [r]. *)
Lemma rank_block_spec (size target : Z) (gdd gdr0 g : list Z) (r : Z) :
  1 <= size -> 1 <= target -> 0 <= r < divsize size target ->
  owned size target gdd gdr0 (block_start size target r) g ->
  exists g',
    for_range 0 (Z.to_nat (round_robin_count size target r))
      (fun (j : Z) (s : Z * list Z) =>
         let '(target_id, global_dest_rank) := s in
         global_dest_rank ←
           for_range 0 (length gdd)
             (fun i global_dest_rank =>
                d ← vec_get gdd i;
                if Z.eqb d target_id then vec_set global_dest_rank i r
                else Ok global_dest_rank) global_dest_rank;
         Ok (target_id + 1, global_dest_rank))
      (block_start size target r, g)
    = Ok (block_start size target (r + 1), g') /\
    owned size target gdd gdr0 (block_start size target (r + 1)) g'.
Proof.
  intros Hs Ht Hr Hown.
  destruct (block_start_succ size target r Hs Ht Hr) as [Hsucc Hcnt].
  pose proof (block_start_nonneg size target r Hs Ht ltac:(lia)) as Hnn.
  set (n := round_robin_count size target r) in *.
  set (bs := block_start size target r) in *.
  destruct (for_range_inv
              (fun (j : Z) (s : Z * list Z) =>
                 fst s = bs + j /\ owned size target gdd gdr0 (bs + j) (snd s))
              (fun (j : Z) (s : Z * list Z) =>
                 let '(target_id, global_dest_rank) := s in
                 global_dest_rank ←
                   for_range 0 (length gdd)
                     (fun i global_dest_rank =>
                        d ← vec_get gdd i;
                        if Z.eqb d target_id then vec_set global_dest_rank i r
                        else Ok global_dest_rank) global_dest_rank;
                 Ok (target_id + 1, global_dest_rank))
              (Z.to_nat n) 0 (bs, g)) as ([tid g'] & Hrun & Htid & Hown').
  - cbn [fst snd]. rewrite Z.add_0_r. split; [reflexivity|exact Hown].
  - intros j [tid gj] Hj (Htid & Hl & Hgj). cbn [fst snd] in Htid, Hl, Hgj. subst tid.
    destruct (mark_domain_spec gdd gj (bs + j) r Hl) as (gm & Hmark & Hlm & Hgm).
    rewrite Hmark. cbn [mbind result_bind]. eexists. split; [reflexivity|].
    cbn [fst snd]. split; [lia|]. split; [exact Hlm|].
    intros i Hi. rewrite Hgm by exact Hi.
    destruct (Hgj i Hi) as [Hin Hout].
    destruct (Z.eqb_spec (at_ 0 gdd i) (bs + j)) as [Heq|Hne].
    + split; [|lia]. intros _. split; [lia|]. rewrite Hsucc. fold bs. lia.
    + split.
      * intros Hd. apply Hin. lia.
      * intros Hd. apply Hout. lia.
  - cbn [fst snd] in Htid, Hown'. subst tid.
    replace (bs + (0 + Z.of_nat (Z.to_nat n))) with (block_start size target (r + 1))
      in * by lia.
    exists g'. split; [exact Hrun|exact Hown'].
Qed.

(** [join_ranks] gives every chunk the rank whose block holds its domain. *)
Lemma join_ranks_spec (size target : Z) (rank_domain_count gdd gdr0 : list Z) :
  1 <= size < 2 ^ 31 -> 1 <= target < 2 ^ 31 ->
  length rank_domain_count = Z.to_nat size ->
  (forall r, 0 <= r < size ->
             at_ 0 rank_domain_count r = round_robin_count size target r) ->
  length gdr0 = length gdd ->
  exists g,
    join_ranks size rank_domain_count gdd gdr0 = Ok g /\
    owned size target gdd gdr0 target g.
Proof.
  intros Hs Ht Hlen Hcount Hl0. unfold join_ranks.
  set (D := divsize size target).
  assert (HD : 1 <= D <= size) by (unfold D, divsize; lia).
  match goal with
  | |- exists g, (mbind _ (for_range _ _ ?body ?init)) = _ /\ _ =>
      destruct (for_range_inv
                  (fun (r : Z) (s : Z * list Z * bool) =>
                     fst (fst s) = block_start size target (Z.min r D) /\
                     owned size target gdd gdr0 (fst (fst s)) (snd (fst s)) /\
                     (r <= D -> snd s = false))
                  body (Z.to_nat size) 0 init) as ([[tid g] stop] & Hrun & Htid & Hown & _)
  end.
  - cbn [fst snd]. rewrite Z.min_l by lia. rewrite block_start_0 by lia.
    split; [reflexivity|]. split; [|reflexivity].
    split; [exact Hl0|]. intros i Hi. split; [lia|reflexivity].
  - intros r [[tid g] stop] Hr (Htid & Hown & Hstop). cbn [fst snd] in Htid, Hown, Hstop.
    destruct stop.
    + assert (D < r) by (destruct (Z_lt_le_dec D r); [assumption|]; discriminate Hstop; lia).
      eexists. split; [reflexivity|]. cbn [fst snd].
      rewrite Z.min_r in * by lia. split; [exact Htid|]. split; [exact Hown|]. lia.
    + rewrite (vec_get_at 0 rank_domain_count r) by lia. rewrite Hcount by lia.
      cbn [mbind result_bind].
      destruct (Z_lt_le_dec r D) as [Hlt|Hge].
      * rewrite Z.min_l in Htid by lia. subst tid.
        destruct (block_start_succ size target r) as [Hsucc Hcnt]; [lia|lia|fold D; lia|].
        destruct (Z.eqb_spec (round_robin_count size target r) 0) as [H0|_]; [lia|].
        destruct (rank_block_spec size target gdd gdr0 g r) as (g' & Hblock & Hown');
          [lia|lia|fold D; lia|exact Hown|].
        rewrite Hblock. cbn [mbind result_bind]. eexists. split; [reflexivity|].
        cbn [fst snd]. rewrite Z.min_l by lia.
        split; [reflexivity|]. split; [exact Hown'|reflexivity].
      * assert (H0 : round_robin_count size target r = 0).
        { unfold round_robin_count. fold D. destruct (Z.ltb_spec r D); [lia|reflexivity]. }
        rewrite H0. cbn [Z.eqb]. eexists. split; [reflexivity|]. cbn [fst snd].
        rewrite Z.min_r in * by lia. split; [exact Htid|]. split; [exact Hown|]. lia.
  - cbn [fst snd] in Htid, Hown. rewrite Hrun. cbn [mbind result_bind fst snd].
    exists g. split; [reflexivity|].
    replace (Z.min (0 + Z.of_nat (Z.to_nat size)) D) with D in Htid by lia.
    unfold D in Htid. rewrite block_start_last in Htid by lia. now subst tid.
Qed.

End DomainsToRanks.

(** ** Parallel partitioner: map_chunks when every chunk is free *)

Section AllFree.

Definition all_free (infos : list chunk_info) : Prop :=
  Forall (fun info => ci_destination_domain info < 0) infos.

Lemma filter_all_free (infos : list chunk_info) :
  all_free infos ->
  filter (fun info => ci_destination_domain info < 0) infos = infos.
Proof.
  induction 1 as [|c l Hc _ IH]; [reflexivity|].
  rewrite filter_cons_True by exact Hc. now rewrite IH.
Qed.

(** With every chunk free, [map_chunks] runs the three loops. *)
Lemma assign_destinations_all_free (size target : Z) (nglobal_chunks offs : list Z)
    (infos : list chunk_info) :
  infos <> [] -> all_free infos ->
  total_chunks nglobal_chunks = Z.of_nat (length infos) ->
  assign_destinations size target nglobal_chunks offs infos =
  ('(target_element_counts, global_dest_domain) ←
     assign_chunks target infos (length infos);
   rank_domain_count ← spread_domains size target;
   global_dest_rank ←
     join_ranks size rank_domain_count global_dest_domain
       (replicate (length infos) (-1));
   Ok {| dest_rank := global_dest_rank;
         dest_domain := global_dest_domain;
         offsets := offs;
         warned := false |}).
Proof.
  intros Hne Hfree Htotal. unfold assign_destinations.
  rewrite (filter_all_free _ Hfree), Htotal, Nat2Z.id.
  destruct (Z.eqb_spec (Z.of_nat (length infos)) 0) as [H0|_].
  { destruct infos; [congruence|discriminate H0]. }
  now rewrite Z.eqb_refl.
Qed.

(** C5: with every chunk free, [map_chunks] passes out the domains chosen
    by the loop over the chunks in global order; round [k] gives chunk [k]
    to the lowest target [d] of least [target_element_counts[t] +
    num_elements] and adds the chunk there; after every round, and so at
    the end, no two counts differ by more than the largest chunk. *)
Theorem free_assignment_greedy_balanced :
  forall target infos,
    1 <= target < 2 ^ 31 ->
    elements_ok infos ->
    sum_elements infos < 2 ^ 64 ->
    exists tecn gddn,
      assign_chunks target infos (length infos) = Ok (tecn, gddn) /\
      (forall size nglobal_chunks offs m,
          infos <> [] -> all_free infos ->
          total_chunks nglobal_chunks = Z.of_nat (length infos) ->
          assign_destinations size target nglobal_chunks offs infos = Ok m ->
          dest_domain m = gddn) /\
      (forall a b, 0 <= a < target -> 0 <= b < target ->
                   at_ 0 tecn a - at_ 0 tecn b <= max_elements infos) /\
      (forall k c, infos !! k = Some c ->
         exists tec gdd d,
           d = at_ 0 gddn (Z.of_nat k) /\
           assign_chunks target infos k = Ok (tec, gdd) /\
           assign_chunks target infos (Datatypes.S k) =
             Ok (<[Z.to_nat d := at_ 0 tec d + num_elements c]> tec, <[k := d]> gdd) /\
           0 <= d < target /\
           (forall t, 0 <= t < target ->
                      at_ 0 tec d + num_elements c <= at_ 0 tec t + num_elements c) /\
           (forall t, 0 <= t < d ->
                      at_ 0 tec d + num_elements c < at_ 0 tec t + num_elements c) /\
           (forall a b, 0 <= a < target -> 0 <= b < target ->
                        at_ 0 (<[Z.to_nat d := at_ 0 tec d + num_elements c]> tec) a
                        - at_ 0 (<[Z.to_nat d := at_ 0 tec d + num_elements c]> tec) b
                        <= max_elements infos)).
Proof.
  intros target infos Ht Hok Hsum.
  destruct (assign_chunks_balanced target infos Ht Hok Hsum (length infos))
    as ([tecn gddn] & Hfull & _ & _ & _ & Hspreadn & _); [lia|].
  cbn [fst] in Hspreadn. rewrite firstn_all in Hspreadn.
  exists tecn, gddn. split; [exact Hfull|]. split; [|split; [exact Hspreadn|]].
  - intros size ngc offs m Hne Hfree Htotal Hm.
    rewrite (assign_destinations_all_free _ _ _ _ _ Hne Hfree Htotal), Hfull in Hm.
    cbn [mbind result_bind] in Hm. do 2 bind_ok Hm. now injection Hm as <-.
  - intros k c Hc.
    assert (Hk : (k < length infos)%nat) by (eapply lookup_lt_Some; eauto).
    destruct (assign_chunks_balanced target infos Ht Hok Hsum k)
      as ([tec gdd] & Hrun & Hbal); [lia|].
    destruct (assign_chunk_spec target infos k c tec gdd Ht Hok Hsum Hc Hbal)
      as (d & Hstep & Hd & Hle & Hlow & Hbal').
    assert (Hnext : assign_chunks target infos (Datatypes.S k) =
                    Ok (<[Z.to_nat d := at_ 0 tec d + num_elements c]> tec, <[k := d]> gdd)).
    { rewrite assign_chunks_S, Hrun. exact Hstep. }
    assert (Hd' : d = at_ 0 gddn (Z.of_nat k)).
    { destruct (Nat.eq_dec (Datatypes.S k) (length infos)) as [Heq|Hneq].
      - rewrite Heq, Hfull in Hnext. injection Hnext as _ ->.
        destruct Hbal as (_ & Hlg & _). cbn [snd] in Hlg.
        replace (<[k := d]> gdd) with (<[Z.to_nat (Z.of_nat k) := d]> gdd)
          by now rewrite Nat2Z.id.
        rewrite at_insert_eq by lia. reflexivity.
      - pose proof (assign_chunks_keeps target infos k (length infos) _ _
                      ltac:(lia) Hnext Hfull) as Hkeep.
        cbn [snd] in Hkeep. rewrite Hkeep. destruct Hbal as (_ & Hlg & _). cbn [snd] in Hlg.
        replace (<[k := d]> gdd) with (<[Z.to_nat (Z.of_nat k) := d]> gdd)
          by now rewrite Nat2Z.id.
        rewrite at_insert_eq by lia. reflexivity. }
    exists tec, gdd, d. split; [exact Hd'|]. split; [exact Hrun|]. split; [exact Hnext|].
    split; [exact Hd|]. split; [exact Hle|]. split; [exact Hlow|].
    intros a b Ha Hb. destruct Hbal' as (_ & _ & _ & Hspread & _). cbn [fst] in Hspread.
    pose proof (Hspread a b Ha Hb). pose proof (max_elements_take infos (Datatypes.S k)). lia.
Qed.

Definition chunks_5_3_4 : list chunk_info :=
  [ {| num_elements := 5; ci_destination_rank := -1; ci_destination_domain := -1 |};
    {| num_elements := 3; ci_destination_rank := -1; ci_destination_domain := -1 |};
    {| num_elements := 4; ci_destination_rank := -1; ci_destination_domain := -1 |} ].

Lemma free_assignment_greedy_balanced_witness :
  exists tecn gddn,
    assign_chunks 2 chunks_5_3_4 3 = Ok (tecn, gddn) /\
    at_ 0 tecn 0 - at_ 0 tecn 1 <= max_elements chunks_5_3_4 /\
    at_ 0 tecn 1 - at_ 0 tecn 0 <= max_elements chunks_5_3_4.
Proof.
  destruct (free_assignment_greedy_balanced 2 chunks_5_3_4)
    as (tecn & gddn & Hrun & _ & Hspread & _).
  - lia.
  - repeat constructor; cbn; lia.
  - cbn. lia.
  - exists tecn, gddn. split; [exact Hrun|]. split; apply Hspread; lia.
Defined.

(** Three chunks of one element on two ranks, for three domains. *)
Definition three_chunks : list chunk_info :=
  replicate 3 {| num_elements := 1; ci_destination_rank := -1;
                 ci_destination_domain := -1 |}.

(** C6, as stated, fails: with 2 ranks and 3 domains the chunk of domain 1
    goes to rank 0, where a round-robin deal of the domains gives domain 1
    to rank 1. *)
Lemma dest_rank_not_round_robin :
  exists m,
    assign_destinations 2 3 [2; 1] [0; 2] three_chunks = Ok m /\
    dest_domain m = [0; 1; 2] /\
    dest_rank m = [0; 0; 1] /\
    round_robin_owner 2 3 1 = 1 /\
    at_ (-1) (dest_rank m) 1 <> round_robin_owner 2 3 (at_ 0 (dest_domain m) 1).
Proof.
  eexists. split; [vm_compute; reflexivity|].
  repeat split; try reflexivity. vm_compute. discriminate.
Qed.

(** C6, amended: the domains are counted round-robin over the first
    [min(size, target)] ranks and handed out as consecutive blocks in rank
    order: rank [r] owns the [round_robin_count] domains from
    [block_start r], and every chunk of domain [d] gets the rank whose block
    holds [d].  With [target <= size] that rank is [d], the round-robin
    owner. *)
Theorem dest_rank_by_block :
  forall size target nglobal_chunks offs infos,
    1 <= size < 2 ^ 31 -> 1 <= target < 2 ^ 31 ->
    infos <> [] -> all_free infos ->
    total_chunks nglobal_chunks = Z.of_nat (length infos) ->
    elements_ok infos -> sum_elements infos < 2 ^ 64 ->
    exists m tec,
      assign_destinations size target nglobal_chunks offs infos = Ok m /\
      assign_chunks target infos (length infos) = Ok (tec, dest_domain m) /\
      length (dest_domain m) = length infos /\
      length (dest_rank m) = length infos /\
      block_start size target 0 = 0 /\
      block_start size target (divsize size target) = target /\
      (forall r, 0 <= r < divsize size target ->
                 block_start size target (r + 1) =
                 block_start size target r + round_robin_count size target r) /\
      (forall g, 0 <= g < Z.of_nat (length infos) ->
                 0 <= at_ 0 (dest_domain m) g < target /\
                 0 <= at_ (-1) (dest_rank m) g < divsize size target /\
                 block_start size target (at_ (-1) (dest_rank m) g)
                   <= at_ 0 (dest_domain m) g
                   < block_start size target (at_ (-1) (dest_rank m) g + 1) /\
                 (target <= size ->
                  at_ (-1) (dest_rank m) g = at_ 0 (dest_domain m) g /\
                  at_ (-1) (dest_rank m) g =
                    round_robin_owner size target (at_ 0 (dest_domain m) g))).
Proof.
  intros size target ngc offs infos Hs Ht Hne Hfree Htotal Hok Hsum.
  rewrite (assign_destinations_all_free _ _ _ _ _ Hne Hfree Htotal).
  destruct (assign_chunks_balanced target infos Ht Hok Hsum (length infos))
    as ([tec gdd] & Hassign & _ & Hlg & _ & _ & Hdom); [lia|].
  cbn [fst snd] in Hlg, Hdom.
  destruct (spread_domains_spec size target Hs Ht) as (rdc & Hspread & Hlr & Hcount).
  destruct (join_ranks_spec size target rdc gdd (replicate (length infos) (-1))
              Hs Ht Hlr Hcount) as (g & Hjoin & Hlen & Hown).
  { now rewrite length_replicate. }
  rewrite Hassign. cbn [mbind result_bind]. rewrite Hspread. cbn [mbind result_bind].
  rewrite Hjoin. cbn [mbind result_bind].
  eexists. exists tec. split; [reflexivity|]. cbn [dest_rank dest_domain].
  split; [reflexivity|]. split; [exact Hlg|]. split; [congruence|].
  split; [apply block_start_0; lia|]. split; [apply block_start_last; lia|].
  split.
  { intros r Hr. now apply block_start_succ; try lia. }
  intros i Hi. specialize (Hdom i Hi).
  destruct (Hown i) as [Hin _]; [lia|]. destruct (Hin Hdom) as [Hrank Hblock].
  split; [exact Hdom|]. split; [exact Hrank|]. split; [exact Hblock|].
  intros Hle. unfold round_robin_owner.
  assert (HD : divsize size target = target) by (unfold divsize; lia).
  unfold block_start in Hblock. rewrite HD in *.
  rewrite Z.div_same, Z.mod_same in Hblock by lia.
  rewrite Z.mod_small by lia. lia.
Qed.

Lemma dest_rank_by_block_witness :
  exists m tec,
    assign_destinations 2 3 [2; 1] [0; 2] three_chunks = Ok m /\
    assign_chunks 3 three_chunks 3 = Ok (tec, dest_domain m) /\
    block_start 2 3 (at_ (-1) (dest_rank m) 1) <= at_ 0 (dest_domain m) 1
      < block_start 2 3 (at_ (-1) (dest_rank m) 1 + 1).
Proof.
  destruct (dest_rank_by_block 2 3 [2; 1] [0; 2] three_chunks)
    as (m & tec & Hm & Htec & _ & _ & _ & _ & _ & Hg).
  - lia.
  - lia.
  - discriminate.
  - repeat constructor.
  - reflexivity.
  - repeat constructor; cbn; lia.
  - cbn. lia.
  - exists m, tec. split; [exact Hm|]. split; [exact Htec|].
    apply (Hg 1). cbn. lia.
Defined.

End AllFree.

(** ** Parallel partitioner: chunks that stay on their rank *)

Section LocalChunks.

(** The children of a node that is an object, none otherwise: what [fetch]
    starts from. *)
Definition kids (n : Node) : list (string * Node) :=
  match n with Object cs => cs | _ => [] end.

Definition external_child (c : string * Node) : string * Node :=
  (fst c, External (snd c)).

Definition not_state (c : string * Node) : Prop := fst c <> "state".

#[local] Instance not_state_dec (c : string * Node) : Decision (not_state c).
Proof. unfold not_state. apply _. Defined.

(** A child of [state] that is kept: a copy, when the chunk has it. *)
Definition copied_child (name : string) (m : Node) : list (string * Node) :=
  match fetch_ptr ["state"; name] m with
  | Some v => [(name, node_copy v)]
  | None => []
  end.

Lemma assoc_find_None (name : string) (cs : list (string * Node)) :
  assoc_find name cs = None <-> name ∉ map fst cs.
Proof.
  induction cs as [|[k c] cs IH]; cbn [assoc_find map fst].
  - split; [intros _; apply not_elem_of_nil|reflexivity].
  - destruct (String.eqb_spec k name) as [->|Hne].
    + split; [discriminate|]. intros H. exfalso. apply H. left.
    + rewrite IH. rewrite not_elem_of_cons. split; [auto|]. now intros [_ ?].
Qed.

Lemma assoc_upsert_fresh (name : string) (f : option Node -> Node)
    (cs : list (string * Node)) :
  name ∉ map fst cs -> assoc_upsert name f cs = cs ++ [(name, f None)].
Proof.
  induction cs as [|[k c] cs IH]; cbn [assoc_upsert map fst app]; [reflexivity|].
  intros [Hne Hnot]%not_elem_of_cons.
  destruct (String.eqb_spec k name) as [->|_]; [congruence|]. now rewrite IH.
Qed.

Lemma assoc_upsert_last (name : string) (f : option Node -> Node)
    (cs : list (string * Node)) (old : Node) :
  name ∉ map fst cs ->
  assoc_upsert name f (cs ++ [(name, old)]) = cs ++ [(name, f (Some old))].
Proof.
  induction cs as [|[k c] cs IH]; cbn [assoc_upsert map fst app].
  - intros _. now rewrite String.eqb_refl.
  - intros [Hne Hnot]%not_elem_of_cons.
    destruct (String.eqb_spec k name) as [->|_]; [congruence|]. now rewrite IH.
Qed.

(** The loop over the children of the chunk: an external child for each one
    that is not [state], in their order. *)
Lemma external_children (cs : list (string * Node)) :
  forall acc,
    (acc = Empty \/ exists l, acc = Object l) ->
    NoDup (map fst (kids acc) ++ map fst cs) ->
    let n_recv :=
      fold_left (fun n_recv c =>
                   if negb (String.eqb (fst c) "state")
                   then set_path [fst c] (External (snd c)) n_recv
                   else n_recv) cs acc in
    (n_recv = Empty \/ exists l, n_recv = Object l) /\
    kids n_recv = kids acc ++ map external_child (filter not_state cs).
Proof.
  induction cs as [|[k c] cs IH]; intros acc Hacc Hnd; cbn [fold_left].
  - cbn zeta. split; [exact Hacc|]. now rewrite filter_nil, app_nil_r.
  - cbn [fst snd map] in *.
    assert (Hk : k ∉ map fst (kids acc)).
    { apply NoDup_app in Hnd as (_ & Hdisj & _). intros Hin.
      apply (Hdisj _ Hin). left. }
    destruct (String.eqb_spec k "state") as [->|Hne]; cbn [negb].
    + rewrite filter_cons_False by (unfold not_state; cbn; congruence).
      apply IH; [exact Hacc|].
      apply NoDup_app in Hnd as (H1 & H2 & H3). apply NoDup_app.
      split; [exact H1|]. split.
      * intros x Hx Hx'. apply (H2 x Hx). now right.
      * now apply NoDup_cons in H3 as [_ ?].
    + rewrite filter_cons_True by (unfold not_state; cbn; congruence).
      assert (Hset : set_path [k] (External c) acc =
                     Object (kids acc ++ [(k, External c)])).
      { cbn [set_path]. f_equal.
        replace (match acc with Object cs0 => cs0 | _ => [] end) with (kids acc)
          by reflexivity.
        now rewrite assoc_upsert_fresh. }
      rewrite Hset.
      destruct (IH (Object (kids acc ++ [(k, External c)]))) as [Hshape Hkids].
      * right. eauto.
      * cbn [kids]. rewrite map_app. cbn [map fst]. rewrite <- app_assoc. exact Hnd.
      * split; [exact Hshape|]. rewrite Hkids. cbn [kids map external_child fst snd].
        now rewrite <- app_assoc.
Qed.

Lemma not_state_names (cs : list (string * Node)) :
  "state" ∉ map fst (map external_child (filter not_state cs)).
Proof.
  induction cs as [|[k c] cs IH]; [apply not_elem_of_nil|].
  destruct (decide (not_state (k, c))) as [Hns|Hs].
  - rewrite filter_cons_True by exact Hns. cbn [map fst external_child].
    apply not_elem_of_cons. split; [|exact IH]. intros Heq. apply Hns. now cbn.
  - now rewrite filter_cons_False by exact Hs.
Qed.

(** The node built for a local chunk, written out. *)
Lemma wrap_local_closed_form (m : Node) (g : Z) :
  NoDup (map fst (children m)) ->
  wrap_local m g =
  Object (map external_child (filter not_state (children m))
          ++ [("state",
               Object (copied_child "cycle" m ++ copied_child "time" m
                       ++ [("domain_id", Leaf (Int g))]))]).
Proof.
  intros Hnd. unfold wrap_local.
  destruct (external_children (children m) Empty) as [Hshape Hkids];
    [now left|exact Hnd|].
  cbn zeta in Hshape, Hkids. cbn [kids app] in Hkids.
  set (base := fold_left _ (children m) Empty) in *.
  set (ext := map external_child (filter not_state (children m))) in *.
  assert (Hfresh : "state" ∉ map fst ext) by apply not_state_names.
  assert (Hfirst : forall (n : Node) (name : string) (v : Node),
             kids n = ext ->
             set_path ["state"; name] v n =
             Object (ext ++ [("state", Object [(name, v)])])).
  { intros n name v Hn. cbn [set_path].
    replace (match n with Object cs0 => cs0 | _ => [] end) with (kids n) by reflexivity.
    rewrite Hn, assoc_upsert_fresh by exact Hfresh. reflexivity. }
  assert (Hnext : forall (name : string) (v : Node) (st : list (string * Node)),
             name ∉ map fst st ->
             set_path ["state"; name] v (Object (ext ++ [("state", Object st)])) =
             Object (ext ++ [("state", Object (st ++ [(name, v)]))])).
  { intros name v st Hname. cbn [set_path].
    rewrite assoc_upsert_last by exact Hfresh.
    now rewrite assoc_upsert_fresh. }
  unfold copied_child.
  destruct (fetch_ptr ["state"; "cycle"] m) as [cyc|];
    destruct (fetch_ptr ["state"; "time"] m) as [tim|].
  - rewrite (Hfirst base) by exact Hkids.
    rewrite Hnext.
    2: { cbn. intros [?|?%elem_of_nil]%elem_of_cons; [discriminate|assumption]. }
    rewrite Hnext; [reflexivity|].
    cbn. intros [?|[?|?%elem_of_nil]%elem_of_cons]%elem_of_cons;
      [discriminate|discriminate|assumption].
  - rewrite (Hfirst base) by exact Hkids.
    rewrite Hnext; [reflexivity|].
    cbn. intros [?|?%elem_of_nil]%elem_of_cons; [discriminate|assumption].
  - rewrite (Hfirst base) by exact Hkids.
    rewrite Hnext; [reflexivity|].
    cbn. intros [?|?%elem_of_nil]%elem_of_cons; [discriminate|assumption].
  - rewrite (Hfirst base) by exact Hkids. reflexivity.
Qed.

(** The number of chunks for [rank] among the first [i] global chunks: the
    position at which chunk [i] is pushed. *)
Definition arrivals (rank : Z) (dest_rank : list Z) (i : Z) : nat :=
  length (filter (fun d => d = rank) (take (Z.to_nat i) dest_rank)).

Lemma arrivals_succ (rank : Z) (dest_rank : list Z) (i d : Z) :
  vec_get dest_rank i = Ok d ->
  arrivals rank dest_rank (i + 1) =
  (arrivals rank dest_rank i + (if Z.eqb d rank then 1 else 0))%nat.
Proof.
  intros [Hi Hd]%vec_get_Ok. unfold arrivals.
  replace (Z.to_nat (i + 1)) with (Datatypes.S (Z.to_nat i)) by lia.
  rewrite (take_S_r _ _ _ Hd), filter_app, length_app.
  destruct (Z.eqb_spec d rank) as [->|Hne].
  - now rewrite filter_cons_True.
  - now rewrite filter_cons_False.
Qed.

(** C9: a chunk [g] that stays on its rank is pushed, in the order of [g],
    as a new owned node: an external child for every child of the local
    chunk but [state], in the chunk's order, then a [state] of its own with
    copies of the chunk's [state/cycle] and [state/time] when it has them
    and [domain_id = g]; [dest_domain[g]] is pushed beside it. *)
Theorem communicate_chunks_wraps_local :
  forall recv_using_schema size rank chunks dest_rank dest_domain offsets ex start g c,
    communicate_chunks recv_using_schema size rank chunks dest_rank dest_domain offsets
      = Ok ex ->
    vec_get offsets rank = Ok start ->
    vec_get dest_rank g = Ok rank ->
    start <= g < start + Z.of_nat (length chunks) ->
    vec_get chunks (g - start) = Ok c ->
    NoDup (map fst (children (mesh c))) ->
    exists dom,
      vec_get dest_domain g = Ok dom /\
      chunks_to_assemble_domains ex !! arrivals rank dest_rank g = Some dom /\
      chunks_to_assemble ex !! arrivals rank dest_rank g =
      Some (make_chunk
              (Object (map external_child (filter not_state (children (mesh c)))
                       ++ [("state",
                            Object (copied_child "cycle" (mesh c)
                                    ++ copied_child "time" (mesh c)
                                    ++ [("domain_id", Leaf (Int g))]))]))
              true).
Proof.
  intros recv size rank chunks dest_rank dest_domain offsets ex start g c
         Hrun Hstart Hg Hrange Hc Hnd.
  unfold communicate_chunks in Hrun. do 3 bind_ok Hrun. injection Hrun as <-.
  cbn [chunks_to_assemble chunks_to_assemble_domains].
  rewrite <- (wrap_local_closed_form (mesh c) g Hnd).
  match goal with
  | E : for_range 0 (length dest_rank) ?body ([], []) = Ok ?res |- _ =>
      pose proof (for_range_inv_ok
                    (fun (i : Z) (s : list chunk * list Z) =>
                       length (fst s) = arrivals rank dest_rank i /\
                       length (snd s) = arrivals rank dest_rank i /\
                       (g < i ->
                        exists dom,
                          vec_get dest_domain g = Ok dom /\
                          snd s !! arrivals rank dest_rank g = Some dom /\
                          fst s !! arrivals rank dest_rank g =
                          Some (make_chunk (wrap_local (mesh c) g) true)))
                    body (length dest_rank) 0 ([], []) res) as Hinv;
      rename E into Hloop
  end.
  apply vec_get_range in Hg as Hgr.
  destruct Hinv as (_ & _ & Hfound); [| |exact Hloop|apply Hfound; lia].
  - cbn [fst snd]. split; [reflexivity|]. split; [reflexivity|]. intros ?. lia.
  - intros k [ta doms] [ta' doms'] Hk (Hlt & Hld & Hprev) Hbody.
    cbn [fst snd] in *. bind_as Hbody d Hd.
    rewrite (arrivals_succ rank dest_rank k _ Hd).
    destruct (Z.eqb_spec d rank) as [->|Hne].
    + bind_as Hbody st Hst.
      assert (st = start) as -> by congruence.
      assert (Hpush : exists node dom,
                 vec_get dest_domain k = Ok dom /\
                 ta' = ta ++ [make_chunk node true] /\ doms' = doms ++ [dom] /\
                 (k = g -> node = wrap_local (mesh c) g)).
      { destruct (Z.leb start k && Z.ltb k (start + Z.of_nat (length chunks))) eqn:Hown.
        - do 2 bind_ok Hbody. injection Hbody as <- <-.
          eexists. eexists. split; [reflexivity|]. split; [reflexivity|].
          split; [reflexivity|]. intros ->. congruence.
        - do 3 bind_ok Hbody. injection Hbody as <- <-.
          eexists. eexists. split; [reflexivity|]. split; [reflexivity|].
          split; [reflexivity|]. intros ->.
          apply andb_false_iff in Hown as [H|H]; [apply Z.leb_gt in H|apply Z.ltb_ge in H];
            lia. }
      destruct Hpush as (node & dom & Hdom & -> & -> & Hnode).
      rewrite !length_app. cbn [length]. split; [lia|]. split; [lia|].
      intros Hgk. destruct (Z.eq_dec g k) as [->|Hgk'].
      * exists dom. split; [exact Hdom|].
        rewrite <- Hld at 1. rewrite <- Hlt.
        rewrite !list_lookup_middle by reflexivity.
        split; [reflexivity|]. now rewrite Hnode.
      * destruct Hprev as (dom' & Hd' & Hl1 & Hl2); [lia|].
        exists dom'. split; [exact Hd'|].
        split; apply lookup_app_l_Some; assumption.
    + injection Hbody as <- <-. split; [lia|]. split; [lia|].
      intros Hgk. destruct (Z.eq_dec g k) as [->|Hgk'].
      * rewrite Hg in Hd. congruence.
      * apply Hprev. lia.
Qed.

(** A chunk with topologies, a state holding a cycle, and coordsets. *)
Definition sample_chunk : chunk :=
  make_chunk
    (Object [("topologies", Object [("mesh", Leaf (Int 1))]);
             ("state", Object [("cycle", Leaf (Int 3)); ("domain_id", Leaf (Int 7))]);
             ("coordsets", Leaf (Text "coords"))])
    false.

Lemma communicate_chunks_wraps_local_witness :
  exists ex,
    communicate_chunks (fun _ _ => Ok Empty) 2 0 [sample_chunk; sample_chunk]
      [1; 0; 0] [4; 5; 6] [0; 2] = Ok ex /\
    exists dom,
      vec_get [4; 5; 6] 1 = Ok dom /\
      chunks_to_assemble_domains ex !! arrivals 0 [1; 0; 0] 1 = Some dom /\
      chunks_to_assemble ex !! arrivals 0 [1; 0; 0] 1 =
      Some (make_chunk
              (Object [("topologies", External (Object [("mesh", Leaf (Int 1))]));
                       ("coordsets", External (Leaf (Text "coords")));
                       ("state", Object [("cycle", Leaf (Int 3));
                                         ("domain_id", Leaf (Int 1))])])
              true).
Proof.
  eexists. split; [vm_compute; reflexivity|].
  apply (communicate_chunks_wraps_local (fun _ _ => Ok Empty) 2 0
           [sample_chunk; sample_chunk] [1; 0; 0] [4; 5; 6] [0; 2] _ 0 1 sample_chunk).
  - vm_compute. reflexivity.
  - reflexivity.
  - reflexivity.
  - cbn. lia.
  - reflexivity.
  - apply (bool_decide_unpack _). vm_compute. exact I.
Defined.

End LocalChunks.

(** ** Tiler: the pass that makes the points *)

Section TilePoints.

(** The id a tile has for template point [k]. *)
Definition pid (ptids : list Z) (k : Z) : Z := at_ (-1) ptids k.

(** The coordinate stored for point [p]. *)
Definition crd (x : list Q) (p : Z) : Q := at_ 0%Q x p.

Definition in_bounds (n : nat) (indices : list Z) : Prop :=
  Forall (fun idx => 0 <= idx < Z.of_nat n) indices.

Lemma pid_insert_eq (t : list Z) (i v : Z) :
  0 <= i < Z.of_nat (length t) -> pid (<[Z.to_nat i := v]> t) i = v.
Proof. apply at_insert_eq. Qed.

Lemma pid_insert_ne (t : list Z) (i k v : Z) :
  0 <= i -> 0 <= k -> i <> k -> pid (<[Z.to_nat i := v]> t) k = pid t k.
Proof. apply at_insert_ne. Qed.

Lemma getPointIds_spec (ptids indices : list Z) :
  in_bounds (length ptids) indices ->
  Tile.getPointIds ptids indices = Ok (map (pid ptids) indices).
Proof.
  induction 1 as [|idx indices Hidx _ IH]; [reflexivity|].
  cbn [Tile.getPointIds map]. rewrite (vec_get_at (-1) ptids idx Hidx).
  cbn [mbind result_bind]. rewrite IH. reflexivity.
Qed.

Lemma setPointIds_spec (indices : list Z) :
  forall ptids ids,
    in_bounds (length ptids) indices ->
    length indices = length ids ->
    NoDup indices ->
    exists ptids',
      Tile.setPointIds ptids indices ids = Ok ptids' /\
      length ptids' = length ptids /\
      (forall a idx id, indices !! a = Some idx -> ids !! a = Some id ->
                        pid ptids' idx = id) /\
      (forall k, 0 <= k -> k ∉ indices -> pid ptids' k = pid ptids k).
Proof.
  induction indices as [|idx indices IH]; intros ptids ids Hin Hlen Hnd.
  - exists ptids. split; [reflexivity|]. split; [reflexivity|].
    split; [intros a idx id Ha; discriminate Ha|reflexivity].
  - destruct ids as [|id ids]; [discriminate Hlen|].
    apply Forall_cons in Hin as [Hidx Hin]. apply NoDup_cons in Hnd as [Hnotin Hnd].
    cbn [Tile.setPointIds]. rewrite vec_set_in_range by exact Hidx.
    cbn [mbind result_bind].
    destruct (IH (<[Z.to_nat idx := id]> ptids) ids) as (ptids' & Hset & Hl & Hat & Hother).
    + now rewrite length_insert.
    + now injection Hlen.
    + exact Hnd.
    + exists ptids'. split; [exact Hset|]. rewrite length_insert in Hl.
      split; [exact Hl|]. split.
      * intros [|a] idx' id' Ha Hi; cbn in Ha, Hi.
        -- injection Ha as <-. injection Hi as <-.
           rewrite Hother by (try exact Hnotin; lia).
           apply at_insert_eq. exact Hidx.
        -- eapply Hat; eauto.
      * intros k Hk Hnot. apply not_elem_of_cons in Hnot as [Hne Hnot].
        rewrite Hother by assumption. apply at_insert_ne; lia.
Qed.

(** The coordinates [addPoints] stores for template point [k]. *)
Definition new_x (T : Tiler) (M : matrix) (k : Z) : Q :=
  ((crd (m_xpts T) k * M00 M + crd (m_ypts T) k * M10 M + M20 M)
   / (crd (m_xpts T) k * M02 M + crd (m_ypts T) k * M12 M + M22 M))%Q.

Definition new_y (T : Tiler) (M : matrix) (k : Z) : Q :=
  ((crd (m_xpts T) k * M01 M + crd (m_ypts T) k * M11 M + M21 M)
   / (crd (m_xpts T) k * M02 M + crd (m_ypts T) k * M12 M + M22 M))%Q.

Lemma crd_app_l (x ex : list Q) (p : Z) :
  0 <= p < Z.of_nat (length x) -> crd (x ++ ex) p = crd x p.
Proof.
  intros Hp. unfold crd, at_, vec_get. destruct (Z.ltb_spec p 0); [lia|].
  rewrite lookup_app_l by lia. reflexivity.
Qed.

Lemma crd_app_last (x : list Q) (v : Q) :
  crd (x ++ [v]) (Z.of_nat (length x)) = v.
Proof.
  unfold crd. apply at_get, vec_get_Ok. split; [lia|].
  rewrite Nat2Z.id. apply list_lookup_middle. reflexivity.
Qed.

(** What [addPoints] does to a tile and to the coordinates: a point that
    has an id keeps it; a point without one gets a new id, whose coordinates
    are appended. *)
Definition points_added (T : Tiler) (M : matrix) (upto : Z)
    (ptids : list Z) (x y : list Q) (s : list Z * list Q * list Q) : Prop :=
  let '(ptids', x', y') := s in
  length ptids' = length ptids /\
  (exists ex ey, x' = x ++ ex /\ y' = y ++ ey /\
                 length ex = length ey /\ Z.of_nat (length ex) <= upto) /\
  forall k, 0 <= k < Z.of_nat (length ptids) ->
    if Z.ltb k upto then
      if Z.eqb (pid ptids k) (-1) then
        Z.of_nat (length x) <= pid ptids' k < Z.of_nat (length x') /\
        crd x' (pid ptids' k) = new_x T M k /\
        crd y' (pid ptids' k) = new_y T M k
      else pid ptids' k = pid ptids k
    else pid ptids' k = pid ptids k.

Lemma addPoints_spec (T : Tiler) (M : matrix) (ptids : list Z) (x y : list Q) :
  length ptids = length (m_xpts T) ->
  length (m_ypts T) = length (m_xpts T) ->
  length y = length x ->
  Z.of_nat (length x) + Z.of_nat (length (m_xpts T)) < 2 ^ 31 ->
  exists s,
    addPoints T M ptids x y = Ok s /\
    points_added T M (Z.of_nat (length (m_xpts T))) ptids x y s.
Proof.
  intros Hlp Hly Hxy Hsmall. unfold addPoints.
  destruct (for_range_inv
              (fun i s => points_added T M i ptids x y s)
              (addPoints_body T M) (length (m_xpts T)) 0 (ptids, x, y))
    as (s & Hrun & Hs).
  - cbn. split; [reflexivity|]. split.
    + exists [], []. rewrite !app_nil_r. repeat split; cbn; lia.
    + intros k Hk. destruct (Z.ltb_spec k 0); [lia|reflexivity].
  - intros i [[ptids' x'] y'] Hi (Hl & (ex & ey & -> & -> & Hlexy & Hlex) & Hpts).
    unfold addPoints_body.
    rewrite (vec_get_at (-1) ptids' i) by lia. cbn [mbind result_bind].
    pose proof (Hpts i ltac:(lia)) as Hi'.
    destruct (Z.ltb_spec i i); [lia|]. fold (pid ptids' i). rewrite Hi'.
    unfold Tile.INVALID_POINT.
    destruct (Z.eqb_spec (pid ptids i) (-1)) as [Hinv|Hval].
    + rewrite vec_set_in_range by lia. cbn [mbind result_bind].
      rewrite (vec_get_at 0%Q (m_xpts T) i) by lia. cbn [mbind result_bind].
      rewrite (vec_get_at 0%Q (m_ypts T) i) by lia. cbn [mbind result_bind].
      eexists. split; [reflexivity|]. cbn.
      split; [now rewrite length_insert|]. split.
      * exists (ex ++ [new_x T M i]), (ey ++ [new_y T M i]).
        rewrite !app_assoc. repeat split; rewrite ?length_app; cbn; lia.
      * intros k Hk. specialize (Hpts k Hk).
        rewrite to_int_small by (rewrite length_app; lia).
        destruct (Z.eq_dec k i) as [->|Hne].
        -- destruct (Z.ltb_spec i (i + 1)); [|lia]. rewrite Hinv. cbn [Z.eqb].
           rewrite !pid_insert_eq by lia.
           rewrite !length_app. cbn [length]. split; [lia|].
           rewrite <- (length_app x ex).
           split; [apply crd_app_last|].
           replace (length (x ++ ex)) with (length (y ++ ey))
             by (rewrite !length_app; lia).
           apply crd_app_last.
        -- rewrite !pid_insert_ne by lia.
           destruct (Z.ltb_spec k i), (Z.ltb_spec k (i + 1)); try lia.
           destruct (Z.eqb_spec (pid ptids k) (-1)); [|exact Hpts].
           destruct Hpts as (Hr & Hx & Hy). rewrite !length_app in *. cbn [length].
           split; [lia|].
           rewrite (crd_app_l (x ++ ex)), (crd_app_l (y ++ ey))
             by (rewrite !length_app; lia).
           split; assumption.
    + eexists. split; [reflexivity|]. cbn. split; [exact Hl|]. split.
      * exists ex, ey. repeat split; lia.
      * intros k Hk. specialize (Hpts k Hk).
        destruct (Z.eq_dec k i) as [->|Hne].
        -- destruct (Z.ltb_spec i (i + 1)); [|lia].
           destruct (Z.eqb_spec (pid ptids i) (-1)); [contradiction|exact Hi'].
        -- destruct (Z.ltb_spec k i), (Z.ltb_spec k (i + 1)); try lia; try exact Hpts.
  - exists s. split; [exact Hrun|]. now rewrite Z.add_0_l in Hs.
Qed.

End TilePoints.

Section TileStep.

Variable T : Tiler.

Definition npts : nat := length (m_xpts T).

(** What the pass needs of the pattern's edges: indices of template points,
    opposite edges of equal length, no index twice in [left] or in
    [bottom], and corners that agree: when [left[a]] is [bottom[b]], the
    points [right[a]] and [top[b]] lie on the bottom and the left edge, and
    their partners [top[b']] and [right[a']] are one point. *)
Definition corners_agree : Prop :=
  forall (a b : nat) (idx : Z),
    m_left T !! a = Some idx -> m_bottom T !! b = Some idx ->
    exists (a' b' : nat) (r z w : Z),
      m_right T !! a = Some r /\ m_bottom T !! b' = Some r /\
      m_top T !! b = Some z /\ m_left T !! a' = Some z /\
      m_top T !! b' = Some w /\ m_right T !! a' = Some w.

Definition edges_ok : Prop :=
  length (m_ypts T) = npts /\
  in_bounds npts (m_left T) /\ in_bounds npts (m_right T) /\
  in_bounds npts (m_bottom T) /\ in_bounds npts (m_top T) /\
  length (m_left T) = length (m_right T) /\
  length (m_bottom T) = length (m_top T) /\
  NoDup (m_left T) /\ NoDup (m_bottom T) /\
  corners_agree.

(** A tile whose points all have ids below [n]. *)
Definition valid_tile (t : list Z) (n : nat) : Prop :=
  length t = npts /\ forall k, 0 <= k < Z.of_nat npts -> 0 <= pid t k < Z.of_nat n.

Lemma pid_reset (k : Z) :
  0 <= k < Z.of_nat npts -> pid (Tile.reset npts) k = -1.
Proof. intros Hk. unfold pid, Tile.reset. now apply at_replicate. Qed.

(** Copying the ids of edge [src] of a neighbour onto edge [dst]. *)
Lemma inherit_spec (cond : bool) (tiles : list (list Z)) (qprev : Z)
    (prev : list Z) (src dst cur : list Z) :
  (cond = true -> vec_get tiles qprev = Ok prev /\ length prev = npts) ->
  in_bounds npts src -> in_bounds npts dst ->
  length dst = length src -> NoDup dst -> length cur = npts ->
  exists cur',
    (if cond then
       prevT ← vec_get tiles qprev;
       ids ← Tile.getPointIds prevT src;
       Tile.setPointIds cur dst ids
     else Ok cur) = Ok cur' /\
    length cur' = npts /\
    (cond = true -> forall a l r, dst !! a = Some l -> src !! a = Some r ->
                                  pid cur' l = pid prev r) /\
    (forall k, 0 <= k -> cond = false \/ k ∉ dst -> pid cur' k = pid cur k).
Proof.
  intros Hprev Hsrc Hdst Hlen Hnd Hcur. destruct cond.
  - destruct (Hprev eq_refl) as [Hget Hlp]. rewrite Hget. cbn [mbind result_bind].
    rewrite getPointIds_spec by (now rewrite Hlp). cbn [mbind result_bind].
    destruct (setPointIds_spec dst cur (map (pid prev) src))
      as (cur' & Hset & Hl & Hat & Hother).
    + now rewrite Hcur.
    + now rewrite length_map.
    + exact Hnd.
    + exists cur'. split; [exact Hset|]. split; [congruence|]. split.
      * intros _ a l r Hl' Hr. apply (Hat a l); [exact Hl'|].
        rewrite list_lookup_fmap, Hr. reflexivity.
      * intros k Hk [Hc|Hnot]; [discriminate|]. now apply Hother.
  - exists cur. split; [reflexivity|]. split; [exact Hcur|].
    split; [discriminate|reflexivity].
Qed.

Variables (nx ny : Z) (tx : Q).

(** The tile at column [i] of row [j]. *)
Definition tile_at (tiles : list (list Z)) (j i : Z) : list Z :=
  at_ [] tiles (j * nx + i).

Lemma tile_index (j i : Z) :
  0 <= i < nx -> 0 <= j < ny -> 0 <= j * nx + i < nx * ny.
Proof.
  intros Hi Hj.
  assert (0 <= j * nx) by (apply Z.mul_nonneg_nonneg; lia).
  assert (j * nx <= (ny - 1) * nx) by (apply Z.mul_le_mono_nonneg_r; lia).
  lia.
Qed.

(** One round of the pass: the tile made at [(j, i)]. *)
Lemma point_tile_spec (j i : Z) (s : point_state) :
  edges_ok ->
  0 <= i < nx -> 0 <= j < ny ->
  length (ps_tiles s) = Z.to_nat (nx * ny) ->
  length (ps_y s) = length (ps_x s) ->
  Z.of_nat (length (ps_x s)) + Z.of_nat npts < 2 ^ 31 ->
  (0 < i -> valid_tile (tile_at (ps_tiles s) j (i - 1)) (length (ps_x s))) ->
  (0 < j -> valid_tile (tile_at (ps_tiles s) (j - 1) i) (length (ps_x s))) ->
  exists t ex ey,
    point_tile T nx tx j i s =
    Ok {| ps_tiles := <[Z.to_nat (j * nx + i) := t]> (ps_tiles s);
          ps_x := ps_x s ++ ex; ps_y := ps_y s ++ ey;
          ps_M := set_M20 (ps_M s) (M20 (ps_M s) + tx) |} /\
    length ex = length ey /\ (length ex <= npts)%nat /\
    valid_tile t (length (ps_x s ++ ex)) /\
    (0 < j -> forall b l r, m_bottom T !! b = Some l -> m_top T !! b = Some r ->
              pid t l = pid (tile_at (ps_tiles s) (j - 1) i) r) /\
    (0 < i -> forall a l r, m_left T !! a = Some l -> m_right T !! a = Some r ->
              j <= 0 \/ l ∉ m_bottom T ->
              pid t l = pid (tile_at (ps_tiles s) j (i - 1)) r) /\
    (forall k, 0 <= k < Z.of_nat npts ->
               i <= 0 \/ k ∉ m_left T -> j <= 0 \/ k ∉ m_bottom T ->
               Z.of_nat (length (ps_x s)) <= pid t k /\
               crd (ps_x s ++ ex) (pid t k) = new_x T (ps_M s) k /\
               crd (ps_y s ++ ey) (pid t k) = new_y T (ps_M s) k).
Proof.
  intros (Hly & Hbl & Hbr & Hbb & Hbt & Hlr & Hlbt & Hndl & Hndb & _)
         Hi Hj Hlt Hxy Hsmall HprevX HprevY.
  pose proof (tile_index j i Hi Hj) as Hq.
  assert (Hjn : 0 <= j * nx) by (apply Z.mul_nonneg_nonneg; lia).
  unfold point_tile.
  rewrite (vec_get_at [] (ps_tiles s) (j * nx + i)) by lia. cbn [mbind result_bind].
  fold npts.
  (* the left edge *)
  destruct (inherit_spec (Z.ltb 0 i) (ps_tiles s) (j * nx + i - 1)
              (tile_at (ps_tiles s) j (i - 1)) (m_right T) (m_left T)
              (Tile.reset npts))
    as (t1 & Ht1 & Hl1 & Hcopy1 & Hkeep1);
    [|exact Hbr|exact Hbl|exact Hlr|exact Hndl|apply length_replicate|].
  { intros Hc. apply Z.ltb_lt in Hc. split; [|apply HprevX; exact Hc].
    unfold tile_at. replace (j * nx + (i - 1)) with (j * nx + i - 1) by lia.
    apply vec_get_at. lia. }
  rewrite Ht1. cbn [mbind result_bind].
  (* the bottom edge *)
  destruct (inherit_spec (Z.ltb 0 j) (ps_tiles s) ((j - 1) * nx + i)
              (tile_at (ps_tiles s) (j - 1) i) (m_top T) (m_bottom T) t1)
    as (t2 & Ht2 & Hl2 & Hcopy2 & Hkeep2);
    [|exact Hbt|exact Hbb|exact Hlbt|exact Hndb|exact Hl1|].
  { intros Hc. apply Z.ltb_lt in Hc. split; [|apply HprevY; exact Hc].
    apply vec_get_at. pose proof (tile_index (j - 1) i Hi ltac:(lia)). lia. }
  rewrite Ht2. cbn [mbind result_bind].
  (* the new points *)
  destruct (addPoints_spec T (ps_M s) t2 (ps_x s) (ps_y s))
    as ([[t3 x'] y'] & Hadd & Hl3 & (ex & ey & -> & -> & Hlexy & Hlex) & Hpts);
    [exact Hl2|exact Hly|exact Hxy|exact Hsmall|].
  rewrite Hadd. cbn [mbind result_bind]. rewrite vec_set_in_range by lia.
  cbn [mbind result_bind]. rewrite Hl2 in Hpts. fold npts in Hpts.
  assert (Hold : forall k, 0 <= k < Z.of_nat npts -> pid t2 k <> -1 ->
                           pid t3 k = pid t2 k).
  { intros k Hk Hne. specialize (Hpts k Hk).
    destruct (Z.ltb_spec k (Z.of_nat npts)); [|lia].
    destruct (Z.eqb_spec (pid t2 k) (-1)); [contradiction|exact Hpts]. }
  assert (Hnew : forall k, 0 <= k < Z.of_nat npts -> pid t2 k = -1 ->
              Z.of_nat (length (ps_x s)) <= pid t3 k < Z.of_nat (length (ps_x s ++ ex)) /\
              crd (ps_x s ++ ex) (pid t3 k) = new_x T (ps_M s) k /\
              crd (ps_y s ++ ey) (pid t3 k) = new_y T (ps_M s) k).
  { intros k Hk He. specialize (Hpts k Hk).
    destruct (Z.ltb_spec k (Z.of_nat npts)); [|lia].
    rewrite He in Hpts. exact Hpts. }
  assert (Hin_l : forall l, l ∈ m_left T -> 0 <= l < Z.of_nat npts).
  { intros l Hl. exact (proj1 (Forall_forall _ _) Hbl l Hl). }
  assert (Hin_b : forall l, l ∈ m_bottom T -> 0 <= l < Z.of_nat npts).
  { intros l Hl. exact (proj1 (Forall_forall _ _) Hbb l Hl). }
  assert (Hin_r : forall l, l ∈ m_right T -> 0 <= l < Z.of_nat npts).
  { intros l Hl. exact (proj1 (Forall_forall _ _) Hbr l Hl). }
  assert (Hin_t : forall l, l ∈ m_top T -> 0 <= l < Z.of_nat npts).
  { intros l Hl. exact (proj1 (Forall_forall _ _) Hbt l Hl). }
  (* ids copied from below *)
  assert (Hbottom : 0 < j -> forall b l r,
             m_bottom T !! b = Some l -> m_top T !! b = Some r ->
             pid t2 l = pid (tile_at (ps_tiles s) (j - 1) i) r /\ pid t2 l <> -1).
  { intros Hj0 b l r Hb Hr.
    assert (Heq : pid t2 l = pid (tile_at (ps_tiles s) (j - 1) i) r).
    { apply (Hcopy2 ltac:(now apply Z.ltb_lt) b); assumption. }
    split; [exact Heq|]. rewrite Heq.
    destruct (HprevY Hj0) as [_ Hv].
    specialize (Hv r (Hin_t r (list_elem_of_lookup_2 _ _ _ Hr))). lia. }
  (* ids copied from the left *)
  assert (Hleft : 0 < i -> forall a l r,
             m_left T !! a = Some l -> m_right T !! a = Some r ->
             j <= 0 \/ l ∉ m_bottom T ->
             pid t2 l = pid (tile_at (ps_tiles s) j (i - 1)) r /\ pid t2 l <> -1).
  { intros Hi0 a l r Hl Hr Hnb.
    assert (Heq : pid t2 l = pid (tile_at (ps_tiles s) j (i - 1)) r).
    { rewrite Hkeep2.
      - apply (Hcopy1 ltac:(now apply Z.ltb_lt) a); assumption.
      - pose proof (Hin_l l (list_elem_of_lookup_2 _ _ _ Hl)). lia.
      - destruct Hnb as [Hj0|Hnot]; [left; apply Z.ltb_ge; lia|right; exact Hnot]. }
    split; [exact Heq|]. rewrite Heq.
    destruct (HprevX Hi0) as [_ Hv].
    specialize (Hv r (Hin_r r (list_elem_of_lookup_2 _ _ _ Hr))). lia. }
  exists t3, ex, ey. split; [reflexivity|]. split; [exact Hlexy|].
  split; [unfold npts; lia|]. split; [|split; [|split]].
  - split; [congruence|]. intros k Hk.
    destruct (Z.eq_dec (pid t2 k) (-1)) as [He|Hne].
    + destruct (Hnew k Hk He) as [Hr _]. lia.
    + rewrite (Hold k Hk Hne).
      (* an id that is not -1 was copied from a valid tile *)
      destruct (decide (0 < j /\ k ∈ m_bottom T)) as [[Hj0 Hkb]|Hnb].
      * apply list_elem_of_lookup in Hkb as [b Hb].
        destruct (lookup_lt_is_Some_2 (m_top T) b) as [r Hr].
        { rewrite <- Hlbt. eapply lookup_lt_Some; eauto. }
        destruct (Hbottom Hj0 b k r Hb Hr) as [Heq _]. rewrite Heq.
        destruct (HprevY Hj0) as [_ Hv].
        specialize (Hv r (Hin_t r (list_elem_of_lookup_2 _ _ _ Hr))).
        rewrite length_app. lia.
      * assert (Hk2 : pid t2 k = pid t1 k).
        { apply Hkeep2; [lia|].
          destruct (Z.ltb_spec 0 j); [|now left]. right. intros Hkb. apply Hnb. auto. }
        destruct (decide (0 < i /\ k ∈ m_left T)) as [[Hi0 Hkl]|Hnl].
        -- apply list_elem_of_lookup in Hkl as [a Ha].
           destruct (lookup_lt_is_Some_2 (m_right T) a) as [r Hr].
           { rewrite <- Hlr. eapply lookup_lt_Some; eauto. }
           rewrite Hk2, (Hcopy1 ltac:(now apply Z.ltb_lt) a k r Ha Hr).
           destruct (HprevX Hi0) as [_ Hv].
           specialize (Hv r (Hin_r r (list_elem_of_lookup_2 _ _ _ Hr))).
           rewrite length_app. lia.
        -- exfalso. apply Hne. rewrite Hk2, Hkeep1; [now apply pid_reset|lia|].
           destruct (Z.ltb_spec 0 i); [|now left]. right. intros Hkl. apply Hnl. auto.
  - intros Hj0 b l r Hb Hr. destruct (Hbottom Hj0 b l r Hb Hr) as [Heq Hne].
    rewrite Hold; [exact Heq| |exact Hne].
    apply Hin_b. eapply list_elem_of_lookup_2; eauto.
  - intros Hi0 a l r Hl Hr Hnb. destruct (Hleft Hi0 a l r Hl Hr Hnb) as [Heq Hne].
    rewrite Hold; [exact Heq| |exact Hne].
    apply Hin_l. eapply list_elem_of_lookup_2; eauto.
  - intros k Hk Hnl Hnb.
    assert (He : pid t2 k = -1).
    { rewrite Hkeep2, Hkeep1; [now apply pid_reset|lia| |lia|].
      - destruct Hnl as [?|?]; [left; apply Z.ltb_ge; lia|now right].
      - destruct Hnb as [?|?]; [left; apply Z.ltb_ge; lia|now right]. }
    destruct (Hnew k Hk He) as (Hr & Hx & Hy). split; [lia|]. split; assumption.
Qed.

End TileStep.

Section Pass.

Variables (T : Tiler) (nx ny : Z).
Variables (origin0 origin1 tx ty sx sy : Q).
Variable M0 : matrix.

Hypothesis Hedges : edges_ok T.
Hypothesis Hnx : 1 <= nx.
Hypothesis Hny : 1 <= ny.
Hypothesis Hsmall : nx * ny * Z.of_nat (npts T) < 2 ^ 31.

(** The tiles made before the round [(j, i)] of the pass. *)
Definition done (j i j' i' : Z) : Prop :=
  0 <= i' < nx /\ 0 <= j' /\ (j' < j \/ (j' = j /\ i' < i)).

(** Tile [(j', i')] has the ids of its left neighbour along its left edge
    and those of the tile below along its bottom edge. *)
Definition shares (tiles : list (list Z)) (j' i' : Z) : Prop :=
  (0 < i' -> forall a l r, m_left T !! a = Some l -> m_right T !! a = Some r ->
             pid (tile_at nx tiles j' i') l = pid (tile_at nx tiles j' (i' - 1)) r) /\
  (0 < j' -> forall b l r, m_bottom T !! b = Some l -> m_top T !! b = Some r ->
             pid (tile_at nx tiles j' i') l = pid (tile_at nx tiles (j' - 1) i') r).

(** Where template point [k] of the tile in column [i], row [j] lies. *)
Definition px (k : Z) : Q := (crd (m_xpts T) k * sx)%Q.
Definition py (k : Z) : Q := (crd (m_ypts T) k * sy)%Q.
Definition cx (i : Z) : Q := (origin0 + inject_Z i * tx)%Q.
Definition cy (j : Z) : Q := (origin1 + inject_Z j * ty)%Q.

(** The scaled pattern fits: the right edge is the left edge moved by
    [tx], the top edge the bottom edge moved by [ty]. *)
Definition fits : Prop :=
  (forall a l r, m_left T !! a = Some l -> m_right T !! a = Some r ->
                 (px r == px l + tx)%Q /\ (py r == py l)%Q) /\
  (forall b l r, m_bottom T !! b = Some l -> m_top T !! b = Some r ->
                 (py r == py l + ty)%Q /\ (px r == px l)%Q).

Definition placed (x y : list Q) (tiles : list (list Z)) (j' i' : Z) : Prop :=
  forall k, 0 <= k < Z.of_nat (npts T) ->
    (crd x (pid (tile_at nx tiles j' i') k) == px k + cx i')%Q /\
    (crd y (pid (tile_at nx tiles j' i') k) == py k + cy j')%Q.

(** [M] scales by [(sx, sy)] and translates. *)
Definition affine (M : matrix) : Prop :=
  (M00 M == sx)%Q /\ (M01 M == 0)%Q /\ (M02 M == 0)%Q /\
  (M10 M == 0)%Q /\ (M11 M == sy)%Q /\ (M12 M == 0)%Q /\ (M22 M == 1)%Q.

(** The geometry the placement of the points rests on: the pattern fits and
    the matrix the pass starts from scales and translates to the origin. *)
Definition geometry : Prop :=
  fits /\ affine M0 /\ (M21 M0 == origin1)%Q.

Definition pass_inv (j i : Z) (s : point_state) : Prop :=
  length (ps_tiles s) = Z.to_nat (nx * ny) /\
  length (ps_y s) = length (ps_x s) /\
  Z.of_nat (length (ps_x s)) <= (j * nx + i) * Z.of_nat (npts T) /\
  (forall j' i', done j i j' i' ->
     valid_tile T (tile_at nx (ps_tiles s) j' i') (length (ps_x s)) /\
     shares (ps_tiles s) j' i') /\
  (geometry ->
   affine (ps_M s) /\ (M21 (ps_M s) == cy j)%Q /\
   forall j' i', done j i j' i' -> placed (ps_x s) (ps_y s) (ps_tiles s) j' i').

Lemma new_x_affine (M : matrix) (k : Z) :
  affine M -> (new_x T M k == px k + M20 M)%Q.
Proof.
  intros (H00 & H01 & H02 & H10 & H11 & H12 & H22). unfold new_x, px.
  rewrite H00, H02, H10, H12, H22. field.
Qed.

Lemma new_y_affine (M : matrix) (k : Z) :
  affine M -> (new_y T M k == py k + M21 M)%Q.
Proof.
  intros (H00 & H01 & H02 & H10 & H11 & H12 & H22). unfold new_y, py.
  rewrite H01, H02, H11, H12, H22. field.
Qed.

Lemma tile_index_inj (j i j' i' : Z) :
  0 <= i < nx -> 0 <= i' < nx -> 0 <= j -> 0 <= j' ->
  j' * nx + i' = j * nx + i -> j' = j /\ i' = i.
Proof.
  intros Hi Hi' Hj Hj' Heq.
  destruct (Z.lt_trichotomy j' j) as [Hlt|[->|Hgt]].
  - assert ((j' + 1) * nx <= j * nx) by (apply Z.mul_le_mono_nonneg_r; lia). lia.
  - lia.
  - assert ((j + 1) * nx <= j' * nx) by (apply Z.mul_le_mono_nonneg_r; lia). lia.
Qed.

Lemma pair_ne (a b c d : Z) : a <> c \/ b <> d -> (a, b) <> (c, d).
Proof. intros H Heq. injection Heq as ? ?. lia. Qed.

Lemma tile_at_insert_ne (tiles : list (list Z)) (t : list Z) (j i j' i' : Z) :
  0 <= i < nx -> 0 <= i' < nx -> 0 <= j -> 0 <= j' ->
  (j', i') <> (j, i) ->
  tile_at nx (<[Z.to_nat (j * nx + i) := t]> tiles) j' i' = tile_at nx tiles j' i'.
Proof.
  intros Hi Hi' Hj Hj' Hne. unfold tile_at.
  assert (0 <= j * nx) by (apply Z.mul_nonneg_nonneg; lia).
  assert (0 <= j' * nx) by (apply Z.mul_nonneg_nonneg; lia).
  apply at_insert_ne; [lia|lia|].
  intros Heq. symmetry in Heq. apply tile_index_inj in Heq as [-> ->]; try lia.
  now apply Hne.
Qed.

Lemma tile_at_insert_eq (tiles : list (list Z)) (t : list Z) (j i : Z) :
  0 <= i < nx -> 0 <= j < ny -> length tiles = Z.to_nat (nx * ny) ->
  tile_at nx (<[Z.to_nat (j * nx + i) := t]> tiles) j i = t.
Proof.
  intros Hi Hj Hl. unfold tile_at. apply at_insert_eq.
  pose proof (tile_index nx ny j i Hi Hj). lia.
Qed.

Lemma cx_succ (i : Z) : (cx (i + 1) == cx i + tx)%Q.
Proof. unfold cx. rewrite inject_Z_plus. change (inject_Z 1) with 1%Q. ring. Qed.

Lemma cy_succ (j : Z) : (cy (j + 1) == cy j + ty)%Q.
Proof. unfold cy. rewrite inject_Z_plus. change (inject_Z 1) with 1%Q. ring. Qed.

Lemma lookup_in_bounds (n : nat) (l : list Z) (a : nat) (idx : Z) :
  in_bounds n l -> l !! a = Some idx -> 0 <= idx < Z.of_nat n.
Proof. intros Hb Ha. exact (Forall_lookup_1 _ _ _ _ Hb Ha). Qed.

(** One round of the pass keeps the invariant. *)
Lemma pass_step (j i : Z) (s : point_state) :
  0 <= i < nx -> 0 <= j < ny ->
  pass_inv j i s -> (geometry -> (M20 (ps_M s) == cx i)%Q) ->
  exists s',
    point_tile T nx tx j i s = Ok s' /\
    pass_inv j (i + 1) s' /\ (geometry -> (M20 (ps_M s') == cx (i + 1))%Q).
Proof.
  intros Hi Hj (Hlt & Hxy & Hlen & Hdone & Hgeo) H20.
  pose proof Hedges as (Hly & Hbl & Hbr & Hbb & Hbt & Hlr & Hlbt & Hndl & Hndb & Hcorner).
  pose proof (tile_index nx ny j i Hi Hj) as Hq.
  assert (Hroom : Z.of_nat (length (ps_x s)) + Z.of_nat (npts T) < 2 ^ 31).
  { assert ((j * nx + i + 1) * Z.of_nat (npts T) <= nx * ny * Z.of_nat (npts T))
      by (apply Z.mul_le_mono_nonneg_r; lia). lia. }
  destruct (point_tile_spec T nx ny tx j i s Hedges Hi Hj Hlt Hxy Hroom)
    as (t & ex & ey & Hrun & Hlexy & Hlex & Hvalid & Hbottom & Hleft & Hfresh).
  { intros Hi0. apply Hdone. unfold done. lia. }
  { intros Hj0. apply Hdone. unfold done. lia. }
  assert (Hcases : forall j' i', done j (i + 1) j' i' ->
                                 (j', i') = (j, i) \/ ((j', i') <> (j, i) /\ done j i j' i')).
  { intros j' i' (Hi' & Hj' & Hord).
    destruct (decide ((j', i') = (j, i))) as [Heq|Hne]; [now left|right].
    split; [exact Hne|]. unfold done. split; [lia|]. split; [lia|].
    destruct Hord as [?|[-> Hlt']]; [now left|]. right. split; [reflexivity|].
    destruct (Z.eq_dec i' i) as [->|]; [congruence|lia]. }
  eexists. split; [exact Hrun|]. cbn [ps_M set_M20 M20].
  split; [|intros Hg; rewrite (H20 Hg); symmetry; apply cx_succ].
  unfold pass_inv. cbn [ps_tiles ps_x ps_y ps_M set_M20 M21].
  split; [now rewrite length_insert|].
  split; [rewrite !length_app; lia|].
  split; [rewrite length_app; lia|].
  split.
  - intros j' i' Hd. pose proof Hd as (Hi' & Hj' & _).
    destruct (Hcases j' i' Hd) as [Heq|[Hne Hold]]; unfold shares.
    + (* the tile just made *)
      injection Heq as -> ->.
      rewrite !tile_at_insert_eq by assumption.
      split; [exact Hvalid|]. split.
      * intros Hi0 a l r Hl Hr.
        rewrite tile_at_insert_ne by (try lia; apply pair_ne; lia).
        destruct (decide (j <= 0 \/ l ∉ m_bottom T)) as [Hdirect|Hboth].
        { now apply (Hleft Hi0 a). }
        assert (Hj0 : 0 < j).
        { destruct (Z_lt_le_dec 0 j); [assumption|]. exfalso. apply Hboth. now left. }
        assert (Hlb : l ∈ m_bottom T).
        { destruct (decide (l ∈ m_bottom T)); [assumption|].
          exfalso. apply Hboth. now right. }
        apply list_elem_of_lookup in Hlb as [b Hb].
        destruct (Hcorner a b l Hl Hb)
          as (a' & b' & r' & z & w & Hr' & Hb' & Hz & Ha' & Hw & Hw').
        assert (r' = r) as -> by congruence.
        rewrite (Hbottom Hj0 b l z Hb Hz).
        destruct (Hdone j (i - 1)) as (_ & [_ HvertX]); [unfold done; lia|].
        destruct (Hdone (j - 1) i) as (_ & [HhorY _]); [unfold done; lia|].
        rewrite (HvertX Hj0 b' r w Hb' Hw).
        rewrite (HhorY Hi0 a' z w Ha' Hw'). reflexivity.
      * intros Hj0 b l r Hb Hr.
        rewrite tile_at_insert_ne by (try lia; apply pair_ne; lia).
        now apply (Hbottom Hj0 b).
    + (* a tile made before *)
      assert (Hord' : j' < j \/ j' = j /\ i' < i)
        by (destruct Hold as (_ & _ & ?); assumption).
      destruct (Hdone j' i' Hold) as ((Hvl & Hv) & (Hhor & Hver)).
      rewrite !tile_at_insert_ne by (try lia; apply pair_ne; lia).
      split; [|split].
      * split; [exact Hvl|]. intros k Hk. specialize (Hv k Hk). rewrite length_app. lia.
      * intros Hi0 a l r Hl Hr.
        rewrite !tile_at_insert_ne by (try lia; apply pair_ne; lia).
        now apply (Hhor Hi0 a).
      * intros Hj0 b l r Hb Hr.
        rewrite !tile_at_insert_ne by (try lia; apply pair_ne; lia).
        now apply (Hver Hj0 b).
  - intros Hg. destruct (Hgeo Hg) as (Haff & H21 & Hplaced).
    specialize (H20 Hg). destruct Hg as ((Hfl & Hfb) & _).
    split; [exact Haff|]. split; [exact H21|].
    intros j' i' Hd. pose proof Hd as (Hi' & Hj' & _).
    destruct (Hcases j' i' Hd) as [Heq|[Hne Hold]]; unfold placed.
    + injection Heq as -> ->.
      rewrite !tile_at_insert_eq by assumption.
      intros k Hk.
      destruct (decide (0 < j /\ k ∈ m_bottom T)) as [[Hj0 Hkb]|Hnb].
      * apply list_elem_of_lookup in Hkb as [b Hb].
        destruct (lookup_lt_is_Some_2 (m_top T) b) as [r Hr].
        { rewrite <- Hlbt. eapply lookup_lt_Some; eauto. }
        rewrite (Hbottom Hj0 b k r Hb Hr).
        destruct (Hdone (j - 1) i) as ((_ & Hv) & _); [unfold done; lia|].
        pose proof (lookup_in_bounds _ _ _ _ Hbt Hr) as Hrb.
        destruct (Hplaced (j - 1) i ltac:(unfold done; lia) r Hrb) as [Hx Hy].
        rewrite !crd_app_l by (specialize (Hv r Hrb); lia).
        destruct (Hfb b k r Hb Hr) as [Hyr Hxr].
        rewrite Hx, Hy, Hyr, Hxr.
        replace j with (j - 1 + 1) at 2 by lia. rewrite cy_succ.
        split; ring.
      * assert (Hnb' : j <= 0 \/ k ∉ m_bottom T).
        { destruct (Z_lt_le_dec 0 j); [|now left]. right. intros ?. apply Hnb. auto. }
        destruct (decide (0 < i /\ k ∈ m_left T)) as [[Hi0 Hkl]|Hnl].
        -- apply list_elem_of_lookup in Hkl as [a Ha].
           destruct (lookup_lt_is_Some_2 (m_right T) a) as [r Hr].
           { rewrite <- Hlr. eapply lookup_lt_Some; eauto. }
           rewrite (Hleft Hi0 a k r Ha Hr Hnb').
           destruct (Hdone j (i - 1)) as ((_ & Hv) & _); [unfold done; lia|].
           pose proof (lookup_in_bounds _ _ _ _ Hbr Hr) as Hrb.
           destruct (Hplaced j (i - 1) ltac:(unfold done; lia) r Hrb) as [Hx Hy].
           rewrite !crd_app_l by (specialize (Hv r Hrb); lia).
           destruct (Hfl a k r Ha Hr) as [Hxr Hyr].
           rewrite Hx, Hy, Hyr, Hxr.
           replace i with (i - 1 + 1) at 2 by lia. rewrite cx_succ.
           split; ring.
        -- assert (Hnl' : i <= 0 \/ k ∉ m_left T).
           { destruct (Z_lt_le_dec 0 i); [|now left]. right. intros ?. apply Hnl. auto. }
           destruct (Hfresh k Hk Hnl' Hnb') as (_ & Hx & Hy).
           rewrite Hx, Hy, new_x_affine, new_y_affine by exact Haff.
           rewrite H20, H21. split; reflexivity.
    + assert (Hord' : j' < j \/ j' = j /\ i' < i)
        by (destruct Hold as (_ & _ & ?); assumption).
      destruct (Hdone j' i' Hold) as ((Hvl & Hv) & _).
      rewrite !tile_at_insert_ne by (try lia; apply pair_ne; lia).
      intros k Hk. destruct (Hplaced j' i' Hold k Hk) as [Hx Hy].
      rewrite !crd_app_l by (specialize (Hv k Hk); lia). split; assumption.
Qed.

(** A row of the pass. *)
Lemma pass_row (j : Z) (s : point_state) :
  0 <= j < ny -> pass_inv j 0 s ->
  exists s', point_row T nx origin0 tx ty j s = Ok s' /\ pass_inv (j + 1) 0 s'.
Proof.
  intros Hj Hinv. unfold point_row.
  set (s0 := {| ps_tiles := ps_tiles s; ps_x := ps_x s; ps_y := ps_y s;
                ps_M := set_M20 (ps_M s) origin0 |}).
  destruct (for_range_inv
              (fun i s => pass_inv j i s /\ (geometry -> (M20 (ps_M s) == cx i)%Q))
              (point_tile T nx tx j) (Z.to_nat nx) 0 s0) as (s1 & Hrun & Hinv1 & _).
  - destruct Hinv as (Hlt & Hxy & Hlen & Hdone & Hgeo). split.
    + unfold pass_inv, s0. cbn [ps_tiles ps_x ps_y ps_M set_M20 M21].
      repeat split; try assumption; try (apply Hdone; assumption);
        destruct (Hgeo H) as (Haff & H21 & Hpl); try assumption; try apply Haff.
      all: now apply Hpl.
    + intros _. unfold s0, cx. cbn [ps_M set_M20 M20].
      change (inject_Z 0) with 0%Q. ring.
  - intros i s' Hi [Hinv' H20].
    destruct (pass_step j i s' ltac:(lia) Hj Hinv' H20) as (s'' & Hstep & Hinv'' & H20').
    exists s''. split; [exact Hstep|]. split; assumption.
  - rewrite Hrun. cbn [mbind result_bind]. eexists. split; [reflexivity|].
    replace (0 + Z.of_nat (Z.to_nat nx)) with nx in Hinv1 by lia.
    destruct Hinv1 as (Hlt & Hxy & Hlen & Hdone & Hgeo).
    assert (Hd : forall j' i', done (j + 1) 0 j' i' -> done j nx j' i').
    { unfold done. intros j' i' (? & ? & [?|[? ?]]); [|lia].
      split; [assumption|]. split; [assumption|].
      destruct (Z.eq_dec j' j) as [->|]; [right; lia|left; lia]. }
    unfold pass_inv. cbn [ps_tiles ps_x ps_y ps_M set_M21 M21].
    split; [exact Hlt|]. split; [exact Hxy|]. split; [lia|]. split.
    + intros j' i' Hd'. apply Hdone, Hd, Hd'.
    + intros Hg. destruct (Hgeo Hg) as (Haff & H21 & Hpl).
      split; [exact Haff|]. split; [rewrite H21; symmetry; apply cy_succ|].
      intros j' i' Hd'. apply Hpl, Hd, Hd'.
Qed.

(** The whole pass: every tile is made, shares its ids with its
    neighbours, and (given the geometry) has its points in place. *)
Lemma make_points_spec :
  exists s,
    make_points T nx ny M0 origin0 tx ty = Ok s /\ pass_inv ny 0 s.
Proof.
  unfold make_points.
  assert (0 <= nx * ny) by (apply Z.mul_nonneg_nonneg; lia).
  destruct (Z.ltb_spec (nx * ny) 0); [lia|].
  destruct (for_range_inv (fun j s => pass_inv j 0 s)
              (point_row T nx origin0 tx ty) (Z.to_nat ny) 0
              {| ps_tiles := replicate (Z.to_nat (nx * ny)) [];
                 ps_x := []; ps_y := []; ps_M := M0 |}) as (s & Hrun & Hinv).
  - unfold pass_inv. cbn [ps_tiles ps_x ps_y ps_M].
    split; [apply length_replicate|]. split; [reflexivity|].
    split; [cbn; lia|]. split.
    + intros j' i' (? & ? & [?|[? ?]]); lia.
    + intros (_ & Haff & H21). split; [exact Haff|]. split.
      * rewrite H21. unfold cy. change (inject_Z 0) with 0%Q. ring.
      * intros j' i' (? & ? & [?|[? ?]]); lia.
  - intros j s Hj Hinv. apply pass_row; [lia|exact Hinv].
  - exists s. split; [exact Hrun|].
    now replace (0 + Z.of_nat (Z.to_nat ny)) with ny in Hinv by lia.
Qed.

End Pass.

(** ** Tiler: tiles share the ids of their common edge *)

Section SharedEdges.

Lemma shared_ids (t t' dst src : list Z) :
  length dst = length src ->
  in_bounds (length t) dst -> in_bounds (length t') src ->
  (forall a l r, dst !! a = Some l -> src !! a = Some r -> pid t l = pid t' r) ->
  exists ids,
    Tile.getPointIds t dst = Ok ids /\ Tile.getPointIds t' src = Ok ids.
Proof.
  intros Hlen Hdst Hsrc Hsame.
  rewrite (getPointIds_spec t dst Hdst), (getPointIds_spec t' src Hsrc).
  exists (map (pid t) dst). split; [reflexivity|]. f_equal.
  apply list_eq. intros a. rewrite !list_lookup_fmap.
  destruct (dst !! a) as [l|] eqn:Hl, (src !! a) as [r|] eqn:Hr; cbn.
  - f_equal. symmetry. now apply (Hsame a).
  - apply lookup_lt_Some in Hl. apply lookup_ge_None in Hr. lia.
  - apply lookup_ge_None in Hl. apply lookup_lt_Some in Hr. lia.
  - reflexivity.
Qed.

(** The default pattern. *)
Definition default_tiler : Tiler :=
  match initialize with
  | Ok T => T
  | Err _ => {| m_xpts := []; m_ypts := []; m_width := 0; m_height := 0;
                m_left := []; m_right := []; m_bottom := []; m_top := [];
                m_quads := [] |}
  end.

Lemma initialize_default : initialize = Ok default_tiler.
Proof. reflexivity. Qed.

Lemma default_edges_ok : edges_ok default_tiler.
Proof.
  unfold edges_ok. split; [reflexivity|].
  split; [repeat constructor; cbn; lia|]. split; [repeat constructor; cbn; lia|].
  split; [repeat constructor; cbn; lia|]. split; [repeat constructor; cbn; lia|].
  split; [reflexivity|]. split; [reflexivity|].
  split; [apply (bool_decide_unpack _); vm_compute; exact I|].
  split; [apply (bool_decide_unpack _); vm_compute; exact I|].
  intros a b idx Ha Hb.
  change (m_left default_tiler) with [0; 5; 14; 24; 28] in Ha.
  change (m_bottom default_tiler) with [0; 1; 2; 3; 4] in Hb.
  assert (a = 0%nat /\ b = 0%nat /\ idx = 0) as (-> & -> & ->).
  { do 5 (destruct a as [|a]; [do 5 (destruct b as [|b]; [cbn in Ha, Hb; split; [|split]; congruence|]); discriminate Hb|]).
    discriminate Ha. }
  exists 4%nat, 4%nat, 4, 28, 32. repeat split; reflexivity.
Qed.

(** The unit square, its bottom edge listed from right to left. *)
Definition flipped_tile : tile_node :=
  {| t_x := Some (map inject_Z [0; 1; 0; 1]);
     t_y := Some (map inject_Z [0; 0; 1; 1]);
     t_quads := Some [0; 1; 3; 2];
     t_left := Some [0; 2];
     t_right := Some [1; 3];
     t_bottom := Some [1; 0];
     t_top := Some [2; 3] |}.

Definition identity_matrix : matrix :=
  {| M00 := 1; M01 := 0; M02 := 0; M10 := 0; M11 := 1; M12 := 0;
     M20 := 0; M21 := 0; M22 := 1 |}.

(** C4, as stated, fails: the pattern [flipped_tile] passes the validation
    invariants, and in a 2 x 2 mesh the left edge of the upper right tile
    has the ids 5, 7 where the right edge of the upper left tile has
    2, 7. *)
Lemma flipped_tiles_do_not_share :
  pattern_invariants flipped_tile = true /\
  exists T s,
    initialize_from flipped_tile = Ok T /\
    make_points T 2 2 identity_matrix 0 1 1 = Ok s /\
    Tile.getPointIds (tile_at 2 (ps_tiles s) 1 1) (m_left T) = Ok [5; 7] /\
    Tile.getPointIds (tile_at 2 (ps_tiles s) 1 0) (m_right T) = Ok [2; 7].
Proof.
  split; [reflexivity|]. eexists. eexists.
  split; [vm_compute; reflexivity|]. split; [vm_compute; reflexivity|].
  split; reflexivity.
Qed.

(** C4, amended: for a pattern whose edge arrays hold indices of template
    points, with [|left| = |right|], [|bottom| = |top|], no index twice in
    [left] or in [bottom], and agreeing corners, every two tiles next to
    each other read the same id sequence along their common edge, for all
    [nx, ny >= 1] (with fewer than 2^31 points in all); [tiled(2, 1, 0)]
    with the default pattern has 61 points and the ids 4, 8, 18, 27, 32 on
    both sides of the seam. *)
Theorem tiles_share_edge_ids :
  forall T nx ny M origin0 tx ty,
    edges_ok T -> 1 <= nx -> 1 <= ny ->
    nx * ny * Z.of_nat (npts T) < 2 ^ 31 ->
    (exists s,
        make_points T nx ny M origin0 tx ty = Ok s /\
        forall j i, 0 <= i < nx -> 0 <= j < ny ->
          (0 < i ->
           exists ids,
             Tile.getPointIds (tile_at nx (ps_tiles s) j i) (m_left T) = Ok ids /\
             Tile.getPointIds (tile_at nx (ps_tiles s) j (i - 1)) (m_right T) = Ok ids) /\
          (0 < j ->
           exists ids,
             Tile.getPointIds (tile_at nx (ps_tiles s) j i) (m_bottom T) = Ok ids /\
             Tile.getPointIds (tile_at nx (ps_tiles s) (j - 1) i) (m_top T) = Ok ids)) /\
    (exists s,
        make_points default_tiler 2 1 identity_matrix 0 20 20 = Ok s /\
        Tile.getPointIds (tile_at 2 (ps_tiles s) 0 0) (m_right default_tiler)
          = Ok [4; 8; 18; 27; 32] /\
        Tile.getPointIds (tile_at 2 (ps_tiles s) 0 1) (m_left default_tiler)
          = Ok [4; 8; 18; 27; 32] /\
        length (ps_x s) = 61%nat) /\
    (forall reorder_mesh,
        exists out, tiled reorder_mesh 2 1 0 reorder_off = Ok out /\
                    length (coords_x out) = 61%nat /\
                    length (coords_y out) = 61%nat).
Proof.
  intros T nx ny M origin0 tx ty Hedges Hnx Hny Hsmall.
  split; [|split].
  - destruct (make_points_spec T nx ny origin0 0%Q tx ty 1%Q 1%Q M Hedges Hnx Hny Hsmall)
      as (s & Hrun & _ & _ & _ & Hdone & _).
    exists s. split; [exact Hrun|]. intros j i Hi Hj.
    destruct Hedges as (_ & Hbl & Hbr & Hbb & Hbt & Hlr & Hlbt & _).
    assert (Hd : forall j' i', 0 <= i' < nx -> 0 <= j' < ny -> done nx ny 0 j' i')
      by (unfold done; intros; lia).
    destruct (Hdone j i (Hd j i Hi Hj)) as ((Hl & _) & (Hhor & Hver)).
    split.
    + intros Hi0. destruct (Hdone j (i - 1) (Hd j (i - 1) ltac:(lia) Hj)) as ((Hl' & _) & _).
      apply shared_ids; [exact Hlr|now rewrite Hl|now rewrite Hl'|].
      intros a l r. now apply Hhor.
    + intros Hj0. destruct (Hdone (j - 1) i (Hd (j - 1) i Hi ltac:(lia))) as ((Hl' & _) & _).
      apply shared_ids; [exact Hlbt|now rewrite Hl|now rewrite Hl'|].
      intros b l r. now apply Hver.
  - eexists. split; [vm_compute; reflexivity|]. repeat split; reflexivity.
  - intros reorder_mesh. eexists. split; [vm_compute; reflexivity|]. split; reflexivity.
Qed.

Lemma tiles_share_edge_ids_witness :
  exists s,
    make_points default_tiler 3 2 identity_matrix 0 20 20 = Ok s /\
    forall j i, 0 <= i < 3 -> 0 <= j < 2 ->
      (0 < i ->
       exists ids,
         Tile.getPointIds (tile_at 3 (ps_tiles s) j i) (m_left default_tiler) = Ok ids /\
         Tile.getPointIds (tile_at 3 (ps_tiles s) j (i - 1)) (m_right default_tiler)
           = Ok ids) /\
      (0 < j ->
       exists ids,
         Tile.getPointIds (tile_at 3 (ps_tiles s) j i) (m_bottom default_tiler) = Ok ids /\
         Tile.getPointIds (tile_at 3 (ps_tiles s) (j - 1) i) (m_top default_tiler)
           = Ok ids).
Proof.
  apply (tiles_share_edge_ids default_tiler 3 2 identity_matrix 0 20 20).
  - exact default_edges_ok.
  - lia.
  - lia.
  - vm_compute. reflexivity.
Defined.

End SharedEdges.

(** ** Tiler: the boundary of a 2D mesh *)

Section Boundary2D.

(** The values a counter takes, in the order of the loop. *)
Fixpoint up_from (lo : Z) (n : nat) : list Z :=
  match n with
  | O => []
  | Datatypes.S n' => lo :: up_from (lo + 1) n'
  end.

Fixpoint down_from (hi : Z) (n : nat) : list Z :=
  match n with
  | O => []
  | Datatypes.S n' => hi :: down_from (hi - 1) n'
  end.

Lemma elem_of_up_from (lo : Z) (n : nat) (k : Z) :
  k ∈ up_from lo n <-> lo <= k < lo + Z.of_nat n.
Proof.
  revert lo. induction n as [|n IH]; intros lo; cbn [up_from].
  - rewrite elem_of_nil. lia.
  - rewrite elem_of_cons, IH. lia.
Qed.

Lemma elem_of_down_from (hi : Z) (n : nat) (k : Z) :
  k ∈ down_from hi n <-> hi - Z.of_nat n < k <= hi.
Proof.
  revert hi. induction n as [|n IH]; intros hi; cbn [down_from].
  - rewrite elem_of_nil. lia.
  - rewrite elem_of_cons, IH. lia.
Qed.

(** A segment: its two point ids and its side. *)
Definition segment : Type := list Z * Z.

(** The segments along an edge with the ids [ids], from its first point to
    its last, and from its last to its first. *)
Definition forward_segments (side : Z) (ids : list Z) : list segment :=
  map (fun bi => ([at_ 0 ids bi; at_ 0 ids (bi + 1)], side))
      (up_from 0 (length ids - 1)).

Definition backward_segments (side : Z) (ids : list Z) : list segment :=
  map (fun bi => ([at_ 0 ids bi; at_ 0 ids (bi - 1)], side))
      (down_from (Z.of_nat (length ids) - 1) (length ids - 1)).

Section Sides.

Variables (T : Tiler) (tiles : list (list Z)) (nx ny : Z).

Definition tile_ids (j i : Z) (edge : list Z) : list Z :=
  map (pid (tile_at nx tiles j i)) edge.

(** Left: the rows from the top one down, each left edge from its last
    point to its first. *)
Definition left_side : list segment :=
  flat_map (fun j => backward_segments BoundaryLeft (tile_ids j 0 (m_left T)))
           (down_from (ny - 1) (Z.to_nat ny)).

(** Bottom: the columns from the left, each bottom edge from its first
    point to its last. *)
Definition bottom_side : list segment :=
  flat_map (fun i => forward_segments BoundaryBottom (tile_ids 0 i (m_bottom T)))
           (up_from 0 (Z.to_nat nx)).

(** Right: the rows from the bottom one up, each right edge forward. *)
Definition right_side : list segment :=
  flat_map (fun j => forward_segments BoundaryRight (tile_ids j (nx - 1) (m_right T)))
           (up_from 0 (Z.to_nat ny)).

(** Top: the columns from the right, each top edge backward. *)
Definition top_side : list segment :=
  flat_map (fun i => backward_segments BoundaryTop (tile_ids (ny - 1) i (m_top T)))
           (down_from (nx - 1) (Z.to_nat nx)).

Definition boundary_segments (flags : boundary_flags) : list segment :=
  (if fLeft flags then left_side else [])
  ++ (if fBottom flags then bottom_side else [])
  ++ (if fRight flags then right_side else [])
  ++ (if fTop flags then top_side else []).

End Sides.

Section Calls.

Context {S : Type}.
Variable step : S -> segment -> S.

Lemma for_range_calls (f : Z -> list segment) (body : Z -> S -> result S) :
  forall n lo s,
    (forall k s, lo <= k < lo + Z.of_nat n -> body k s = Ok (fold_left step (f k) s)) ->
    for_range lo n body s = Ok (fold_left step (flat_map f (up_from lo n)) s).
Proof.
  induction n as [|n IH]; intros lo s Hbody; [reflexivity|].
  cbn [for_range up_from flat_map]. rewrite Hbody by lia. cbn [mbind result_bind].
  rewrite fold_left_app. apply IH. intros k s' Hk. apply Hbody. lia.
Qed.

Lemma for_down_calls (f : Z -> list segment) (body : Z -> S -> result S) :
  forall n hi s,
    (forall k s, hi - Z.of_nat n < k <= hi -> body k s = Ok (fold_left step (f k) s)) ->
    for_down hi n body s = Ok (fold_left step (flat_map f (down_from hi n)) s).
Proof.
  induction n as [|n IH]; intros hi s Hbody; [reflexivity|].
  cbn [for_down down_from flat_map]. rewrite Hbody by lia. cbn [mbind result_bind].
  rewrite fold_left_app. apply IH. intros k s' Hk. apply Hbody. lia.
Qed.

Variable body : list Z -> Z -> Z -> S -> result S.
Hypothesis Hbody : forall ids side s, body ids 2 side s = Ok (step s (ids, side)).

Lemma flat_map_singletons {A B} (g : A -> B) (l : list A) :
  flat_map (fun a => [g a]) l = map g l.
Proof. induction l as [|a l IH]; [reflexivity|]. cbn. now rewrite IH. Qed.

Lemma edge_forward_calls (side : Z) (ids : list Z) (s : S) :
  ids <> [] ->
  edge_forward ids (fun a b => body [a; b] 2 side) s
  = Ok (fold_left step (forward_segments side ids) s).
Proof.
  intros Hne. unfold edge_forward, forward_segments.
  destruct ids as [|id0 ids']; [congruence|]. set (ids := id0 :: ids') in *.
  fold ids. rewrite <- flat_map_singletons.
  apply for_range_calls. intros bi s' Hbi.
  rewrite (vec_get_at 0 ids bi) by lia. cbn [mbind result_bind].
  rewrite (vec_get_at 0 ids (bi + 1)) by lia. cbn [mbind result_bind].
  apply Hbody.
Qed.

Lemma edge_backward_calls (side : Z) (ids : list Z) (s : S) :
  ids <> [] ->
  edge_backward ids (fun a b => body [a; b] 2 side) s
  = Ok (fold_left step (backward_segments side ids) s).
Proof.
  intros Hne. unfold edge_backward, backward_segments.
  destruct ids as [|id0 ids']; [congruence|]. set (ids := id0 :: ids') in *.
  fold ids. rewrite <- flat_map_singletons.
  apply for_down_calls. intros bi s' Hbi.
  rewrite (vec_get_at 0 ids bi) by lia. cbn [mbind result_bind].
  rewrite (vec_get_at 0 ids (bi - 1)) by lia. cbn [mbind result_bind].
  apply Hbody.
Qed.

Variables (T : Tiler) (tiles : list (list Z)) (nx ny : Z).

Hypothesis Hnx : 1 <= nx.
Hypothesis Hny : 1 <= ny.
Hypothesis Hedges : edges_ok T.
Hypothesis Hleft : m_left T <> [].
Hypothesis Hbottom : m_bottom T <> [].
Hypothesis Htiles_len : length tiles = Z.to_nat (nx * ny).
Hypothesis Htiles :
  forall j i, 0 <= i < nx -> 0 <= j < ny -> length (tile_at nx tiles j i) = npts T.

Lemma tile_edge_calls (forward : bool) (side : Z) (edge : list Z) (j i : Z) (s : S) :
  0 <= i < nx -> 0 <= j < ny -> in_bounds (npts T) edge -> edge <> [] ->
  (current ← vec_get tiles (j * nx + i);
   ids ← Tile.getPointIds current edge;
   (if forward then edge_forward ids (fun a b => body [a; b] 2 side) s
    else edge_backward ids (fun a b => body [a; b] 2 side) s))
  = Ok (fold_left step
          ((if forward then forward_segments side else backward_segments side)
             (tile_ids tiles nx j i edge)) s).
Proof.
  intros Hi Hj Hin Hne.
  pose proof (tile_index nx ny j i Hi Hj) as Hq.
  rewrite (vec_get_at [] tiles (j * nx + i)) by lia. cbn [mbind result_bind].
  fold (tile_at nx tiles j i).
  rewrite getPointIds_spec by (now rewrite Htiles). cbn [mbind result_bind].
  fold (tile_ids tiles nx j i edge).
  assert (Hids : tile_ids tiles nx j i edge <> []).
  { unfold tile_ids. destruct edge; [congruence|discriminate]. }
  destruct forward; [now apply edge_forward_calls|now apply edge_backward_calls].
Qed.

(** [iterateBoundary2D] calls [body] on the segments of
    [boundary_segments], in their order. *)
Lemma iterateBoundary2D_calls (flags : boundary_flags) (s : S) :
  iterateBoundary2D T tiles nx ny flags body s
  = Ok (fold_left step (boundary_segments T tiles nx ny flags) s).
Proof.
  destruct Hedges as (_ & Hbl & Hbr & Hbb & Hbt & Hlr & Hlbt & _).
  assert (Hright : m_right T <> []).
  { intros H. apply Hleft. apply nil_length_inv. now rewrite Hlr, H. }
  assert (Htop : m_top T <> []).
  { intros H. apply Hbottom. apply nil_length_inv. now rewrite Hlbt, H. }
  unfold iterateBoundary2D, boundary_segments. rewrite !fold_left_app.
  assert (HL : (if fLeft flags then
                  for_down (ny - 1) (Z.to_nat ny) (fun j s =>
                    current ← vec_get tiles (j * nx + 0);
                    ids ← Tile.getPointIds current (m_left T);
                    edge_backward ids (fun a b => body [a; b] 2 BoundaryLeft) s) s
                else Ok s)
               = Ok (fold_left step (if fLeft flags then left_side T tiles nx ny else []) s)).
  { destruct (fLeft flags); [|reflexivity]. unfold left_side.
    apply for_down_calls. intros j s' Hj.
    apply (tile_edge_calls false BoundaryLeft (m_left T) j 0); try assumption; lia. }
  rewrite HL. cbn [mbind result_bind]. clear HL.
  set (s1 := fold_left step (if fLeft flags then left_side T tiles nx ny else []) s).
  assert (HB : (if fBottom flags then
                  for_range 0 (Z.to_nat nx) (fun i s =>
                    current ← vec_get tiles (0 * nx + i);
                    ids ← Tile.getPointIds current (m_bottom T);
                    edge_forward ids (fun a b => body [a; b] 2 BoundaryBottom) s) s1
                else Ok s1)
               = Ok (fold_left step
                       (if fBottom flags then bottom_side T tiles nx else []) s1)).
  { destruct (fBottom flags); [|reflexivity]. unfold bottom_side.
    apply for_range_calls. intros i s' Hi.
    apply (tile_edge_calls true BoundaryBottom (m_bottom T) 0 i); try assumption; lia. }
  rewrite HB. cbn [mbind result_bind]. clear HB.
  set (s2 := fold_left step (if fBottom flags then bottom_side T tiles nx else []) s1).
  assert (HR : (if fRight flags then
                  for_range 0 (Z.to_nat ny) (fun j s =>
                    current ← vec_get tiles (j * nx + (nx - 1));
                    ids ← Tile.getPointIds current (m_right T);
                    edge_forward ids (fun a b => body [a; b] 2 BoundaryRight) s) s2
                else Ok s2)
               = Ok (fold_left step
                       (if fRight flags then right_side T tiles nx ny else []) s2)).
  { destruct (fRight flags); [|reflexivity]. unfold right_side.
    apply for_range_calls. intros j s' Hj.
    apply (tile_edge_calls true BoundaryRight (m_right T) j (nx - 1)); try assumption; lia. }
  rewrite HR. cbn [mbind result_bind]. clear HR.
  destruct (fTop flags); [|reflexivity]. unfold top_side.
  apply for_down_calls. intros i s' Hi.
  apply (tile_edge_calls false BoundaryTop (m_top T) (ny - 1) i); try assumption; lia.
Qed.

End Calls.

End Boundary2D.

(** ** Tiler: the boundary segments face outward *)

Section Outward.

Variable T : Tiler.

(** The x of the left edge and the y of the bottom edge of the pattern. *)
Definition left_x : Q := crd (m_xpts T) (at_ 0 (m_left T) 0).
Definition bottom_y : Q := crd (m_ypts T) (at_ 0 (m_bottom T) 0).

(** The pattern as the generator expects it: a left edge on one vertical
    line, listed upwards; a bottom edge on one horizontal line, listed to
    the right; the right edge the left edge moved by the width, the top edge
    the bottom edge moved by the height. *)
Definition pattern_oriented : Prop :=
  (0 < m_width T)%Q /\ (0 < m_height T)%Q /\
  m_left T <> [] /\ m_bottom T <> [] /\
  (forall a l, m_left T !! a = Some l -> (crd (m_xpts T) l == left_x)%Q) /\
  (forall b l, m_bottom T !! b = Some l -> (crd (m_ypts T) l == bottom_y)%Q) /\
  (forall a l l', m_left T !! a = Some l -> m_left T !! Datatypes.S a = Some l' ->
                  (crd (m_ypts T) l < crd (m_ypts T) l')%Q) /\
  (forall b l l', m_bottom T !! b = Some l -> m_bottom T !! Datatypes.S b = Some l' ->
                  (crd (m_xpts T) l < crd (m_xpts T) l')%Q) /\
  (forall a l r, m_left T !! a = Some l -> m_right T !! a = Some r ->
                 (crd (m_xpts T) r == crd (m_xpts T) l + m_width T)%Q /\
                 (crd (m_ypts T) r == crd (m_ypts T) l)%Q) /\
  (forall b l r, m_bottom T !! b = Some l -> m_top T !! b = Some r ->
                 (crd (m_ypts T) r == crd (m_ypts T) l + m_height T)%Q /\
                 (crd (m_xpts T) r == crd (m_xpts T) l)%Q).

Variables (nx ny : Z) (origin0 origin1 tx ty : Q).

Definition scale_x : Q := (tx / m_width T)%Q.
Definition scale_y : Q := (ty / m_height T)%Q.

(** The logical brick in the coordinates of the mesh. *)
Definition brick_x0 : Q := (left_x * scale_x + origin0)%Q.
Definition brick_x1 : Q := (brick_x0 + inject_Z nx * tx)%Q.
Definition brick_y0 : Q := (bottom_y * scale_y + origin1)%Q.
Definition brick_y1 : Q := (brick_y0 + inject_Z ny * ty)%Q.

(** Every point of the brick is on the left of the line from point [p] to
    point [q], or on it: the outside of the brick is on the right. *)
Definition exterior_on_right (x y : list Q) (p q : Z) : Prop :=
  (~ (crd x p == crd x q /\ crd y p == crd y q)%Q) /\
  forall ex ey : Q,
    (brick_x0 <= ex <= brick_x1)%Q -> (brick_y0 <= ey <= brick_y1)%Q ->
    (0 <= (crd x q - crd x p) * (ey - crd y p) - (crd y q - crd y p) * (ex - crd x p))%Q.

Hypothesis Hor : pattern_oriented.
Hypothesis Htx : (0 < tx)%Q.
Hypothesis Hty : (0 < ty)%Q.

Lemma scale_x_pos : (0 < scale_x)%Q.
Proof.
  destruct Hor as (Hw & _). unfold scale_x. apply Qlt_shift_div_l; [exact Hw|]. lra.
Qed.

Lemma scale_y_pos : (0 < scale_y)%Q.
Proof.
  destruct Hor as (_ & Hh & _). unfold scale_y. apply Qlt_shift_div_l; [exact Hh|]. lra.
Qed.

Lemma width_scaled : (m_width T * scale_x == tx)%Q.
Proof. destruct Hor as (Hw & _). unfold scale_x. field. lra. Qed.

Lemma height_scaled : (m_height T * scale_y == ty)%Q.
Proof. destruct Hor as (_ & Hh & _). unfold scale_y. field. lra. Qed.

Lemma oriented_fits : fits T tx ty scale_x scale_y.
Proof.
  destruct Hor as (_ & _ & _ & _ & _ & _ & _ & _ & Hlr & Hbt).
  pose proof width_scaled as Hw. pose proof height_scaled as Hh.
  split.
  - intros a l r Hl Hr. destruct (Hlr a l r Hl Hr) as [Hx Hy].
    unfold px, py. rewrite Hx, Hy. split; [|reflexivity]. rewrite <- Hw. ring.
  - intros b l r Hl Hr. destruct (Hbt b l r Hl Hr) as [Hy Hx].
    unfold px, py. rewrite Hx, Hy. split; [|reflexivity]. rewrite <- Hh. ring.
Qed.

Lemma oriented_geometry :
  geometry T origin1 tx ty scale_x scale_y (transform T origin0 origin1 tx ty).
Proof.
  split; [exact oriented_fits|]. split.
  - unfold affine, transform. cbn. repeat split; reflexivity.
  - reflexivity.
Qed.

(** The left edge goes up: a later point has a larger y. *)
Lemma left_increasing (a : nat) (l l' : Z) :
  m_left T !! a = Some l -> m_left T !! Datatypes.S a = Some l' ->
  (py T scale_y l < py T scale_y l')%Q.
Proof.
  intros Hl Hl'. destruct Hor as (_ & _ & _ & _ & _ & _ & Hup & _).
  unfold py. apply Qmult_lt_compat_r; [exact scale_y_pos|]. now apply (Hup a).
Qed.

Lemma bottom_increasing (b : nat) (l l' : Z) :
  m_bottom T !! b = Some l -> m_bottom T !! Datatypes.S b = Some l' ->
  (px T scale_x l < px T scale_x l')%Q.
Proof.
  intros Hl Hl'. destruct Hor as (_ & _ & _ & _ & _ & _ & _ & Hup & _).
  unfold px. apply Qmult_lt_compat_r; [exact scale_x_pos|]. now apply (Hup b).
Qed.

Section Placed.

Variables (x y : list Q) (tiles : list (list Z)).

Hypothesis Hedges : edges_ok T.
Hypothesis Hnx : 1 <= nx.
Hypothesis Hny : 1 <= ny.
Hypothesis Hplaced :
  forall j i, 0 <= i < nx -> 0 <= j < ny ->
    placed T nx origin0 origin1 tx ty scale_x scale_y x y tiles j i.

(** A segment of the left side lies on the line [x = brick_x0] and heads
    down; one of the bottom side lies on [y = brick_y0] and heads right; one
    of the right side lies on [x = brick_x1] and heads up; one of the top
    side lies on [y = brick_y1] and heads left. *)
Definition on_left (s : segment) : Prop :=
  exists p q, s = ([p; q], BoundaryLeft) /\
    (crd x p == brick_x0)%Q /\ (crd x q == brick_x0)%Q /\ (crd y q < crd y p)%Q.

Definition on_bottom (s : segment) : Prop :=
  exists p q, s = ([p; q], BoundaryBottom) /\
    (crd y p == brick_y0)%Q /\ (crd y q == brick_y0)%Q /\ (crd x p < crd x q)%Q.

Definition on_right (s : segment) : Prop :=
  exists p q, s = ([p; q], BoundaryRight) /\
    (crd x p == brick_x1)%Q /\ (crd x q == brick_x1)%Q /\ (crd y p < crd y q)%Q.

Definition on_top (s : segment) : Prop :=
  exists p q, s = ([p; q], BoundaryTop) /\
    (crd y p == brick_y1)%Q /\ (crd y q == brick_y1)%Q /\ (crd x q < crd x p)%Q.

Definition outward (s : segment) : Prop :=
  exists p q side, s = ([p; q], side) /\ exterior_on_right x y p q.

Lemma left_point (j : Z) (a : nat) (l : Z) :
  0 <= j < ny -> m_left T !! a = Some l ->
  (crd x (pid (tile_at nx tiles j 0) l) == brick_x0)%Q /\
  (crd y (pid (tile_at nx tiles j 0) l) == py T scale_y l + cy origin1 ty j)%Q.
Proof.
  intros Hj Hl. destruct Hedges as (_ & Hbl & _).
  destruct (Hplaced j 0 ltac:(lia) Hj l (lookup_in_bounds _ _ _ _ Hbl Hl)) as [Hx Hy].
  split; [|exact Hy]. rewrite Hx.
  destruct Hor as (_ & _ & _ & _ & Hline & _).
  unfold px, cx, brick_x0. rewrite (Hline a l Hl). change (inject_Z 0) with 0%Q. ring.
Qed.

Lemma bottom_point (i : Z) (b : nat) (l : Z) :
  0 <= i < nx -> m_bottom T !! b = Some l ->
  (crd y (pid (tile_at nx tiles 0 i) l) == brick_y0)%Q /\
  (crd x (pid (tile_at nx tiles 0 i) l) == px T scale_x l + cx origin0 tx i)%Q.
Proof.
  intros Hi Hl. destruct Hedges as (_ & _ & _ & Hbb & _).
  destruct (Hplaced 0 i Hi ltac:(lia) l (lookup_in_bounds _ _ _ _ Hbb Hl)) as [Hx Hy].
  split; [|exact Hx]. rewrite Hy.
  destruct Hor as (_ & _ & _ & _ & _ & Hline & _).
  unfold py, cy, brick_y0. rewrite (Hline b l Hl). change (inject_Z 0) with 0%Q. ring.
Qed.

Lemma right_point (j : Z) (a : nat) (l r : Z) :
  0 <= j < ny -> m_left T !! a = Some l -> m_right T !! a = Some r ->
  (crd x (pid (tile_at nx tiles j (nx - 1)) r) == brick_x1)%Q /\
  (crd y (pid (tile_at nx tiles j (nx - 1)) r) == py T scale_y l + cy origin1 ty j)%Q.
Proof.
  intros Hj Hl Hr. destruct Hedges as (_ & _ & Hbr & _).
  destruct (Hplaced j (nx - 1) ltac:(lia) Hj r (lookup_in_bounds _ _ _ _ Hbr Hr)) as [Hx Hy].
  destruct oriented_fits as [Hfit _]. destruct (Hfit a l r Hl Hr) as [Hfx Hfy].
  rewrite Hx, Hy, Hfx, Hfy. split; [|reflexivity].
  destruct Hor as (_ & _ & _ & _ & Hline & _).
  unfold px, cx, brick_x1, brick_x0. rewrite (Hline a l Hl).
  replace nx with (nx - 1 + 1) at 2 by lia. rewrite inject_Z_plus.
  change (inject_Z 1) with 1%Q. ring.
Qed.

Lemma top_point (i : Z) (b : nat) (l r : Z) :
  0 <= i < nx -> m_bottom T !! b = Some l -> m_top T !! b = Some r ->
  (crd y (pid (tile_at nx tiles (ny - 1) i) r) == brick_y1)%Q /\
  (crd x (pid (tile_at nx tiles (ny - 1) i) r) == px T scale_x l + cx origin0 tx i)%Q.
Proof.
  intros Hi Hl Hr. destruct Hedges as (_ & _ & _ & _ & Hbt & _).
  destruct (Hplaced (ny - 1) i Hi ltac:(lia) r (lookup_in_bounds _ _ _ _ Hbt Hr)) as [Hx Hy].
  destruct oriented_fits as [_ Hfit]. destruct (Hfit b l r Hl Hr) as [Hfy Hfx].
  rewrite Hx, Hy, Hfx, Hfy. split; [|reflexivity].
  destruct Hor as (_ & _ & _ & _ & _ & Hline & _).
  unfold py, cy, brick_y1, brick_y0. rewrite (Hline b l Hl).
  replace ny with (ny - 1 + 1) at 2 by lia. rewrite inject_Z_plus.
  change (inject_Z 1) with 1%Q. ring.
Qed.

Lemma at_lookup {A} (d : A) (v : list A) (i : Z) :
  0 <= i < Z.of_nat (length v) -> v !! Z.to_nat i = Some (at_ d v i).
Proof. intros Hi. now apply (vec_get_Ok v i), vec_get_at. Qed.

Lemma elem_of_forward_segments (side : Z) (t edge : list Z) (s : segment) :
  s ∈ forward_segments side (map (pid t) edge) ->
  exists (a : nat) (l l' : Z),
    edge !! a = Some l /\ edge !! Datatypes.S a = Some l' /\
    s = ([pid t l; pid t l'], side).
Proof.
  unfold forward_segments. rewrite length_map. intros Hs.
  apply list_elem_of_fmap in Hs as (bi & -> & Hbi). apply elem_of_up_from in Hbi.
  exists (Z.to_nat bi), (at_ 0 edge bi), (at_ 0 edge (bi + 1)).
  split; [apply at_lookup; lia|].
  split; [replace (Datatypes.S (Z.to_nat bi)) with (Z.to_nat (bi + 1)) by lia;
          apply at_lookup; lia|].
  rewrite !(at_map (pid t) 0 0) by lia. reflexivity.
Qed.

Lemma elem_of_backward_segments (side : Z) (t edge : list Z) (s : segment) :
  s ∈ backward_segments side (map (pid t) edge) ->
  exists (a : nat) (l l' : Z),
    edge !! a = Some l /\ edge !! Datatypes.S a = Some l' /\
    s = ([pid t l'; pid t l], side).
Proof.
  unfold backward_segments. rewrite length_map. intros Hs.
  apply list_elem_of_fmap in Hs as (bi & -> & Hbi). apply elem_of_down_from in Hbi.
  exists (Z.to_nat (bi - 1)), (at_ 0 edge (bi - 1)), (at_ 0 edge bi).
  split; [apply at_lookup; lia|].
  split; [replace (Datatypes.S (Z.to_nat (bi - 1))) with (Z.to_nat bi) by lia;
          apply at_lookup; lia|].
  rewrite !(at_map (pid t) 0 0) by lia. reflexivity.
Qed.

Lemma elem_of_flat_map {A B} (f : A -> list B) (l : list A) (b : B) :
  b ∈ flat_map f l <-> exists a, a ∈ l /\ b ∈ f a.
Proof.
  rewrite list_elem_of_In, in_flat_map. split; intros (a & Ha & Hb); exists a.
  - now rewrite !list_elem_of_In.
  - now rewrite <- !list_elem_of_In.
Qed.

(** The point on the right edge has its partner on the left edge. *)
Lemma partner (src dst : list Z) (a : nat) (r : Z) :
  length dst = length src -> src !! a = Some r -> exists l, dst !! a = Some l.
Proof.
  intros Hlen Hr. apply lookup_lt_Some in Hr.
  destruct (lookup_lt_is_Some_2 dst a) as [l Hl]; [lia|]. now exists l.
Qed.

Lemma left_side_heads_down : Forall on_left (left_side T tiles nx ny).
Proof.
  apply Forall_forall. intros s Hs. unfold left_side in Hs.
  apply elem_of_flat_map in Hs as (j & Hj & Hs). apply elem_of_down_from in Hj.
  apply elem_of_backward_segments in Hs as (a & l & l' & Hl & Hl' & ->).
  destruct (left_point j a l ltac:(lia) Hl) as [Hx Hy].
  destruct (left_point j (Datatypes.S a) l' ltac:(lia) Hl') as [Hx' Hy'].
  eexists _, _. split; [reflexivity|]. split; [exact Hx'|]. split; [exact Hx|].
  rewrite Hy, Hy'. pose proof (left_increasing a l l' Hl Hl'). lra.
Qed.

Lemma bottom_side_heads_right : Forall on_bottom (bottom_side T tiles nx).
Proof.
  apply Forall_forall. intros s Hs. unfold bottom_side in Hs.
  apply elem_of_flat_map in Hs as (i & Hi & Hs). apply elem_of_up_from in Hi.
  apply elem_of_forward_segments in Hs as (b & l & l' & Hl & Hl' & ->).
  destruct (bottom_point i b l ltac:(lia) Hl) as [Hy Hx].
  destruct (bottom_point i (Datatypes.S b) l' ltac:(lia) Hl') as [Hy' Hx'].
  eexists _, _. split; [reflexivity|]. split; [exact Hy|]. split; [exact Hy'|].
  rewrite Hx, Hx'. pose proof (bottom_increasing b l l' Hl Hl'). lra.
Qed.

Lemma right_side_heads_up : Forall on_right (right_side T tiles nx ny).
Proof.
  apply Forall_forall. intros s Hs. unfold right_side in Hs.
  apply elem_of_flat_map in Hs as (j & Hj & Hs). apply elem_of_up_from in Hj.
  apply elem_of_forward_segments in Hs as (a & r & r' & Hr & Hr' & ->).
  destruct Hedges as (_ & _ & _ & _ & _ & Hlen & _).
  destruct (partner _ (m_left T) a r Hlen Hr) as [l Hl].
  destruct (partner _ (m_left T) (Datatypes.S a) r' Hlen Hr') as [l' Hl'].
  destruct (right_point j a l r ltac:(lia) Hl Hr) as [Hx Hy].
  destruct (right_point j (Datatypes.S a) l' r' ltac:(lia) Hl' Hr') as [Hx' Hy'].
  eexists _, _. split; [reflexivity|]. split; [exact Hx|]. split; [exact Hx'|].
  rewrite Hy, Hy'. pose proof (left_increasing a l l' Hl Hl'). lra.
Qed.

Lemma top_side_heads_left : Forall on_top (top_side T tiles nx ny).
Proof.
  apply Forall_forall. intros s Hs. unfold top_side in Hs.
  apply elem_of_flat_map in Hs as (i & Hi & Hs). apply elem_of_down_from in Hi.
  apply elem_of_backward_segments in Hs as (b & r & r' & Hr & Hr' & ->).
  destruct Hedges as (_ & _ & _ & _ & _ & _ & Hlen & _).
  destruct (partner _ (m_bottom T) b r Hlen Hr) as [l Hl].
  destruct (partner _ (m_bottom T) (Datatypes.S b) r' Hlen Hr') as [l' Hl'].
  destruct (top_point i b l r ltac:(lia) Hl Hr) as [Hy Hx].
  destruct (top_point i (Datatypes.S b) l' r' ltac:(lia) Hl' Hr') as [Hy' Hx'].
  eexists _, _. split; [reflexivity|]. split; [exact Hy'|]. split; [exact Hy|].
  rewrite Hx, Hx'. pose proof (bottom_increasing b l l' Hl Hl'). lra.
Qed.

Lemma on_left_outward (s : segment) : on_left s -> outward s.
Proof.
  intros (p & q & -> & Hp & Hq & Hlt). exists p, q, BoundaryLeft.
  split; [reflexivity|]. split; [lra|].
  intros ex ey [Hx0 Hx1] [Hy0 Hy1]. rewrite Hp, Hq.
  setoid_replace ((brick_x0 - brick_x0) * (ey - crd y p)
                  - (crd y q - crd y p) * (ex - brick_x0))%Q
    with ((crd y p - crd y q) * (ex - brick_x0))%Q using relation Qeq by ring.
  apply Qmult_le_0_compat; lra.
Qed.

Lemma on_bottom_outward (s : segment) : on_bottom s -> outward s.
Proof.
  intros (p & q & -> & Hp & Hq & Hlt). exists p, q, BoundaryBottom.
  split; [reflexivity|]. split; [lra|].
  intros ex ey [Hx0 Hx1] [Hy0 Hy1]. rewrite Hp, Hq.
  setoid_replace ((crd x q - crd x p) * (ey - brick_y0)
                  - (brick_y0 - brick_y0) * (ex - crd x p))%Q
    with ((crd x q - crd x p) * (ey - brick_y0))%Q using relation Qeq by ring.
  apply Qmult_le_0_compat; lra.
Qed.

Lemma on_right_outward (s : segment) : on_right s -> outward s.
Proof.
  intros (p & q & -> & Hp & Hq & Hlt). exists p, q, BoundaryRight.
  split; [reflexivity|]. split; [lra|].
  intros ex ey [Hx0 Hx1] [Hy0 Hy1]. rewrite Hp, Hq.
  setoid_replace ((brick_x1 - brick_x1) * (ey - crd y p)
                  - (crd y q - crd y p) * (ex - brick_x1))%Q
    with ((crd y q - crd y p) * (brick_x1 - ex))%Q using relation Qeq by ring.
  apply Qmult_le_0_compat; lra.
Qed.

Lemma on_top_outward (s : segment) : on_top s -> outward s.
Proof.
  intros (p & q & -> & Hp & Hq & Hlt). exists p, q, BoundaryTop.
  split; [reflexivity|]. split; [lra|].
  intros ex ey [Hx0 Hx1] [Hy0 Hy1]. rewrite Hp, Hq.
  setoid_replace ((crd x q - crd x p) * (ey - brick_y1)
                  - (brick_y1 - brick_y1) * (ex - crd x p))%Q
    with ((crd x p - crd x q) * (brick_y1 - ey))%Q using relation Qeq by ring.
  apply Qmult_le_0_compat; lra.
Qed.

Lemma boundary_outward (flags : boundary_flags) :
  Forall outward (boundary_segments T tiles nx ny flags).
Proof.
  unfold boundary_segments. repeat apply Forall_app_2.
  - destruct (fLeft flags); [|constructor].
    exact (Forall_impl _ _ _ left_side_heads_down on_left_outward).
  - destruct (fBottom flags); [|constructor].
    exact (Forall_impl _ _ _ bottom_side_heads_right on_bottom_outward).
  - destruct (fRight flags); [|constructor].
    exact (Forall_impl _ _ _ right_side_heads_up on_right_outward).
  - destruct (fTop flags); [|constructor].
    exact (Forall_impl _ _ _ top_side_heads_left on_top_outward).
Qed.

End Placed.

End Outward.

Section DefaultPattern.

Lemma default_oriented : pattern_oriented default_tiler.
Proof.
  unfold pattern_oriented.
  split; [reflexivity|]. split; [reflexivity|].
  split; [discriminate|]. split; [discriminate|].
  change (m_left default_tiler) with [0; 5; 14; 24; 28].
  change (m_right default_tiler) with [4; 8; 18; 27; 32].
  change (m_bottom default_tiler) with [0; 1; 2; 3; 4].
  change (m_top default_tiler) with [28; 29; 30; 31; 32].
  split; [|split; [|split; [|split; [|split]]]].
  - intros a l Hl.
    do 5 (destruct a as [|a];
          [cbn in Hl; injection Hl as <-; vm_compute; reflexivity|]).
    discriminate Hl.
  - intros b l Hl.
    do 5 (destruct b as [|b];
          [cbn in Hl; injection Hl as <-; vm_compute; reflexivity|]).
    discriminate Hl.
  - intros a l l' Hl Hl'.
    do 5 (destruct a as [|a];
          [cbn in Hl, Hl'; try discriminate Hl';
           injection Hl as <-; injection Hl' as <-; vm_compute; reflexivity|]).
    discriminate Hl.
  - intros b l l' Hl Hl'.
    do 5 (destruct b as [|b];
          [cbn in Hl, Hl'; try discriminate Hl';
           injection Hl as <-; injection Hl' as <-; vm_compute; reflexivity|]).
    discriminate Hl.
  - intros a l r Hl Hr.
    do 5 (destruct a as [|a];
          [cbn in Hl, Hr; injection Hl as <-; injection Hr as <-;
           split; vm_compute; reflexivity|]).
    discriminate Hl.
  - intros b l r Hl Hr.
    do 5 (destruct b as [|b];
          [cbn in Hl, Hr; injection Hl as <-; injection Hr as <-;
           split; vm_compute; reflexivity|]).
    discriminate Hl.
Qed.

(** The flags of a single domain: every side. *)
Definition every_side : boundary_flags :=
  {| fLeft := true; fRight := true; fBottom := true; fTop := true;
     fBack := true; fFront := true |}.

End DefaultPattern.

(** *** Coordinates that doubles hold exactly

    The generator computes in doubles, the model in rationals.  The two agree
    where every value is a whole number below [2^53]: sums, differences and
    products of such values are exact in doubles, and so is the quotient
    [tx / width] when [tx] is the width.  The statements about coordinates
    are made for patterns and origins of that kind. *)

(** [q] is a whole number of magnitude [bound] at most. *)
Definition whole (bound : Z) (q : Q) : bool :=
  Pos.eqb (Qden q) 1 && Z.leb (Z.abs (Qnum q)) bound.

(** The coordinates of the pattern and its extents are whole numbers of
    magnitude [2^20] at most. *)
Definition whole_pattern (T : Tiler) : bool :=
  forallb (whole (2 ^ 20)) (m_xpts T) && forallb (whole (2 ^ 20)) (m_ypts T)
  && whole (2 ^ 20) (m_width T) && whole (2 ^ 20) (m_height T).

(** The unit square, its left and right edge listed from top to bottom. *)
Definition downward_tile : tile_node :=
  {| t_x := Some (map inject_Z [0; 1; 0; 1]);
     t_y := Some (map inject_Z [0; 0; 1; 1]);
     t_quads := Some [0; 1; 3; 2];
     t_left := Some [2; 0];
     t_right := Some [3; 1];
     t_bottom := Some [0; 1];
     t_top := Some [2; 3] |}.

(** C8, as stated, fails: the pattern [downward_tile] passes the validation
    invariants and its edges are listed monotonically, and [tiled(1, 1, 0)]
    emits for it the Left segment from point 0 at (0, 0) to point 2 at
    (0, 1).  The segment heads up, and point 1 of the mesh, at (1, 0), is
    strictly on its right: the Left segment has the mesh on its right and
    the exterior on its left. *)
Lemma downward_left_edge_faces_inward :
  pattern_invariants downward_tile = true /\
  forall reorder_mesh,
  exists out b,
    tiled reorder_mesh 1 1 0 (with_tile downward_tile) = Ok out /\
    topologies_boundary out = Some b /\
    b_connectivity b = [0; 2; 0; 1; 3; 1; 3; 2] /\
    boundary_type b = [BoundaryLeft; BoundaryBottom; BoundaryRight; BoundaryTop] /\
    (crd (coords_x out) 0 == 0)%Q /\ (crd (coords_y out) 0 == 0)%Q /\
    (crd (coords_x out) 2 == 0)%Q /\ (crd (coords_y out) 2 == 1)%Q /\
    (crd (coords_x out) 1 == 1)%Q /\ (crd (coords_y out) 1 == 0)%Q /\
    ((crd (coords_x out) 2 - crd (coords_x out) 0)
     * (crd (coords_y out) 1 - crd (coords_y out) 0)
     - (crd (coords_y out) 2 - crd (coords_y out) 0)
       * (crd (coords_x out) 1 - crd (coords_x out) 0) < 0)%Q.
Proof.
  split; [reflexivity|]. intros reorder_mesh.
  eexists. eexists.
  split; [vm_compute; reflexivity|].
  repeat split; vm_compute; reflexivity.
Qed.

(** The boundary of a mesh of tiles of any positive size, in the rationals
    of the model. *)
Lemma boundary2D_sides :
  forall T nx ny origin0 origin1 tx ty flags,
    edges_ok T -> pattern_oriented T -> 1 <= nx -> 1 <= ny ->
    nx * ny * Z.of_nat (npts T) < 2 ^ 31 ->
    (0 < tx)%Q -> (0 < ty)%Q ->
    exists s,
       make_points T nx ny (transform T origin0 origin1 tx ty) origin0 tx ty = Ok s /\
       (forall (St : Type) (step : St -> segment -> St)
               (body : list Z -> Z -> Z -> St -> result St) (st : St),
           (forall ids side s', body ids 2 side s' = Ok (step s' (ids, side))) ->
           iterateBoundary2D T (ps_tiles s) nx ny flags body st
           = Ok (fold_left step (boundary_segments T (ps_tiles s) nx ny flags) st)) /\
       Forall (on_left T origin0 tx (ps_x s) (ps_y s))
              (left_side T (ps_tiles s) nx ny) /\
       Forall (on_bottom T origin1 ty (ps_x s) (ps_y s))
              (bottom_side T (ps_tiles s) nx) /\
       Forall (on_right T nx origin0 tx (ps_x s) (ps_y s))
              (right_side T (ps_tiles s) nx ny) /\
       Forall (on_top T ny origin1 ty (ps_x s) (ps_y s))
              (top_side T (ps_tiles s) nx ny) /\
       Forall (outward T nx ny origin0 origin1 tx ty (ps_x s) (ps_y s))
              (boundary_segments T (ps_tiles s) nx ny flags).
Proof.
  intros T nx ny origin0 origin1 tx ty flags Hedges Hor Hnx Hny Hsmall Htx Hty.
  destruct (make_points_spec T nx ny origin0 origin1 tx ty (scale_x T tx) (scale_y T ty)
              (transform T origin0 origin1 tx ty) Hedges Hnx Hny Hsmall)
    as (s & Hrun & Hlen & _ & _ & Hdone & Hgeo).
  exists s. split; [exact Hrun|].
  assert (Hd : forall j' i', 0 <= i' < nx -> 0 <= j' < ny -> done nx ny 0 j' i')
    by (unfold done; intros; lia).
  destruct (Hgeo (oriented_geometry T origin0 origin1 tx ty Hor)) as (_ & _ & Hplaced).
  assert (Hpl : forall j i, 0 <= i < nx -> 0 <= j < ny ->
            placed T nx origin0 origin1 tx ty (scale_x T tx) (scale_y T ty)
                   (ps_x s) (ps_y s) (ps_tiles s) j i)
    by (intros j i Hi Hj; apply Hplaced, Hd; assumption).
  split.
  { intros St step body st Hbody.
    pose proof Hor as (_ & _ & Hleft & Hbottom & _).
    apply (iterateBoundary2D_calls step body Hbody T (ps_tiles s) nx ny
             Hnx Hny Hedges Hleft Hbottom Hlen).
    intros j i Hi Hj. destruct (Hdone j i (Hd j i Hi Hj)) as ((Hl & _) & _). exact Hl. }
  split; [exact (left_side_heads_down T nx ny origin0 origin1 tx ty Hor Hty
                   _ _ _ Hedges Hnx Hny Hpl)|].
  split; [exact (bottom_side_heads_right T nx ny origin0 origin1 tx ty Hor Htx
                   _ _ _ Hedges Hnx Hny Hpl)|].
  split; [exact (right_side_heads_up T nx ny origin0 origin1 tx ty Hor Hty
                   _ _ _ Hedges Hnx Hny Hpl)|].
  split; [exact (top_side_heads_left T nx ny origin0 origin1 tx ty Hor Htx
                   _ _ _ Hedges Hnx Hny Hpl)|].
  exact (boundary_outward T nx ny origin0 origin1 tx ty Hor Htx Hty
           _ _ _ Hedges Hnx Hny Hpl flags).
Qed.

(** C8, amended: the claim holds for a pattern that lists its edges the way
    the default pattern does and is placed without the [extents] option.
    The hypotheses: the edge arrays are as in C4; the left edge lies on one
    vertical line and is listed from bottom to top, the bottom edge on one
    horizontal line and is listed from left to right, the right edge is the
    left edge moved by the width and the top edge the bottom edge moved by
    the height, both positive ([pattern_oriented]); the coordinates of the
    pattern and the origin are whole numbers, of magnitude [2^20] and [2^50]
    at most, so that doubles compute them exactly; the tiles have the size
    of the pattern; the mesh has fewer than 2^31 points.  Then the 2D
    boundary is emitted side by side in the order Left, Bottom, Right, Top,
    each side only when its flag is set: Left by rows from the top one
    down, every segment on the line [x = brick_x0] and heading down; Bottom
    by columns from the left, every segment on [y = brick_y0] and heading
    right; Right by rows from the bottom one up, every segment on
    [x = brick_x1] and heading up; Top by columns from the right, every
    segment on [y = brick_y1] and heading left.  So every point of the brick
    is on the left of every emitted segment, or on its line: the exterior
    is on its right.  [tiled(1, 1, 0)] emits the 16 segments of the default
    pattern in that order. *)
Theorem boundary2D_outward :
  forall T nx ny origin0 origin1 flags,
    edges_ok T -> pattern_oriented T -> whole_pattern T = true ->
    whole (2 ^ 50) origin0 = true -> whole (2 ^ 50) origin1 = true ->
    1 <= nx -> 1 <= ny ->
    nx * ny * Z.of_nat (npts T) < 2 ^ 31 ->
    (exists s,
       make_points T nx ny (transform T origin0 origin1 (m_width T) (m_height T))
                   origin0 (m_width T) (m_height T) = Ok s /\
       (forall (St : Type) (step : St -> segment -> St)
               (body : list Z -> Z -> Z -> St -> result St) (st : St),
           (forall ids side s', body ids 2 side s' = Ok (step s' (ids, side))) ->
           iterateBoundary2D T (ps_tiles s) nx ny flags body st
           = Ok (fold_left step (boundary_segments T (ps_tiles s) nx ny flags) st)) /\
       Forall (on_left T origin0 (m_width T) (ps_x s) (ps_y s))
              (left_side T (ps_tiles s) nx ny) /\
       Forall (on_bottom T origin1 (m_height T) (ps_x s) (ps_y s))
              (bottom_side T (ps_tiles s) nx) /\
       Forall (on_right T nx origin0 (m_width T) (ps_x s) (ps_y s))
              (right_side T (ps_tiles s) nx ny) /\
       Forall (on_top T ny origin1 (m_height T) (ps_x s) (ps_y s))
              (top_side T (ps_tiles s) nx ny) /\
       Forall (outward T nx ny origin0 origin1 (m_width T) (m_height T)
                       (ps_x s) (ps_y s))
              (boundary_segments T (ps_tiles s) nx ny flags)) /\
    (forall reorder_mesh,
        exists out b,
          tiled reorder_mesh 1 1 0 reorder_off = Ok out /\
          topologies_boundary out = Some b /\
          b_shape b = "line" /\
          b_connectivity b
          = [28; 24; 24; 14; 14; 5; 5; 0;
             0; 1; 1; 2; 2; 3; 3; 4;
             4; 8; 8; 18; 18; 27; 27; 32;
             32; 31; 31; 30; 30; 29; 29; 28] /\
          boundary_type b
          = [BoundaryLeft; BoundaryLeft; BoundaryLeft; BoundaryLeft;
             BoundaryBottom; BoundaryBottom; BoundaryBottom; BoundaryBottom;
             BoundaryRight; BoundaryRight; BoundaryRight; BoundaryRight;
             BoundaryTop; BoundaryTop; BoundaryTop; BoundaryTop]).
Proof.
  intros T nx ny origin0 origin1 flags Hedges Hor _ _ _ Hnx Hny Hsmall.
  split.
  - pose proof Hor as (Hw & Hh & _).
    exact (boundary2D_sides T nx ny origin0 origin1 (m_width T) (m_height T) flags
             Hedges Hor Hnx Hny Hsmall Hw Hh).
  - intros reorder_mesh. eexists. eexists.
    split; [vm_compute; reflexivity|]. repeat split; reflexivity.
Qed.

Lemma boundary2D_outward_witness :
  exists s,
    make_points default_tiler 2 2
      (transform default_tiler 0 0 (m_width default_tiler) (m_height default_tiler))
      0 (m_width default_tiler) (m_height default_tiler) = Ok s /\
    Forall (outward default_tiler 2 2 0 0 (m_width default_tiler)
                    (m_height default_tiler) (ps_x s) (ps_y s))
           (boundary_segments default_tiler (ps_tiles s) 2 2 every_side).
Proof.
  destruct (boundary2D_outward default_tiler 2 2 0 0 every_side)
    as [(s & Hs & _ & _ & _ & _ & _ & Hout) _].
  - exact default_edges_ok.
  - exact default_oriented.
  - vm_compute. reflexivity.
  - reflexivity.
  - reflexivity.
  - lia.
  - lia.
  - vm_compute. reflexivity.
  - exists s. split; [exact Hs|exact Hout].
Defined.

(** ** conduit_io: protocols *)

Section Protocols.

Import IO.

Variable N : Type.
Variables split_string rsplit_string : string -> string -> string * string.
Variable silo : bool.

(** The object part of a path and the extension of its file part. *)
Definition obj_base (path : string) : string := snd (split_string path ":").
Definition file_name_ext (path : string) : string :=
  snd (rsplit_string (fst (split_string path ":")) ".").

Lemma length_0_empty (s : string) : String.length s = 0%nat <-> s = EmptyString.
Proof. destruct s; cbn; split; congruence. Qed.

Lemma identify_cases (path : string) :
  (identify_protocol split_string rsplit_string path = "conduit_silo" /\
   obj_base path <> EmptyString /\ file_name_ext path = "silo") \/
  (identify_protocol split_string rsplit_string path = "conduit_bin" /\
   (obj_base path = EmptyString \/ file_name_ext path <> "silo")).
Proof.
  unfold identify_protocol, obj_base, file_name_ext.
  destruct (split_string path ":") as [file_path obj] eqn:Hsplit. cbn [fst snd].
  destruct (Nat.eqb_spec (String.length obj) 0) as [H0|H0]; cbn [negb].
  - right. split; [reflexivity|]. left. now apply length_0_empty.
  - destruct (rsplit_string file_path ".") as [base ext] eqn:Hrsplit. cbn [snd].
    destruct (String.eqb_spec ext "silo") as [->|Hne].
    + left. split; [reflexivity|]. split; [|reflexivity].
      intros He. apply H0. now apply length_0_empty.
    + right. split; [reflexivity|]. now right.
Qed.

End Protocols.

(** X2: [save(node, path)] and [load(path, node)] never fail on an unknown
    protocol and never reach [silo_save_mesh].  With Silo support they always
    hand the same node and path to one library call, chosen by the path;
    without it they fail exactly for the paths [identify_protocol] answers
    [conduit_silo] for, and use the binary format for all others. *)
Theorem save_load_by_path :
  forall (N : Type) split_string rsplit_string (silo : bool) (node : N) path,
    let protocol := IO.identify_protocol split_string rsplit_string path in
    (protocol = "conduit_bin" ->
       IO.save N split_string rsplit_string silo node path = Ok (IO.node_save node path) /\
       IO.load N split_string rsplit_string silo path = Ok (IO.node_load path)) /\
    (protocol = "conduit_silo" -> silo = true ->
       IO.save N split_string rsplit_string silo node path = Ok (IO.silo_save node path) /\
       IO.load N split_string rsplit_string silo path = Ok (IO.silo_load path)) /\
    (protocol = "conduit_silo" -> silo = false ->
       IO.save N split_string rsplit_string silo node path
       = Err (ConduitError
                ("conduit_io lacks Silo support: Failed to save conduit node to path "
                 ++ path)) /\
       IO.load N split_string rsplit_string silo path
       = Err (ConduitError
                ("conduit_io lacks Silo support: Failed to load conduit node from path "
                 ++ path))) /\
    (protocol = "conduit_bin" \/ protocol = "conduit_silo").
Proof.
  intros N split_string rsplit_string silo node path protocol.
  unfold IO.save, IO.load. fold protocol.
  split; [|split; [|split]].
  - intros ->. split; reflexivity.
  - intros -> ->. split; reflexivity.
  - intros -> ->. split; reflexivity.
  - subst protocol.
    destruct (identify_cases split_string rsplit_string path) as [(-> & _)|(-> & _)];
      [now right|now left].
Qed.

Lemma save_load_by_path_witness :
  IO.save unit (fun s _ => (s, "mesh")) (fun _ _ => ("data", "silo")) false tt "data.silo:mesh"
  = Err (ConduitError
           "conduit_io lacks Silo support: Failed to save conduit node to path data.silo:mesh").
Proof.
  apply (save_load_by_path unit (fun s _ => (s, "mesh")) (fun _ _ => ("data", "silo"))
           false tt "data.silo:mesh"); reflexivity.
Defined.

(** X3: the protocols [save] takes are those [about] reports as enabled,
    but for [rest], which [about] reports as enabled and [save] and [load]
    refuse as unknown; [load] also refuses [conduit_silo_mesh], enabled or
    not. *)
Theorem about_enabled_protocols :
  forall (N : Type) (silo : bool) (node : N) (protocol path : string),
    ((exists c, IO.save_protocol N silo protocol node path = Ok c) <->
     (protocol, "enabled") ∈ IO.about silo /\ protocol <> "rest") /\
    ((exists c, IO.load_protocol N silo protocol path = Ok c) <->
     (protocol, "enabled") ∈ IO.about silo /\ protocol <> "rest" /\
     protocol <> "conduit_silo_mesh") /\
    ("rest", "enabled") ∈ IO.about silo /\
    IO.save_protocol N silo "rest" node path
    = Err (ConduitError "conduit_io unknown protocol: rest") /\
    IO.load_protocol N silo "rest" path
    = Err (ConduitError "conduit_io unknown protocol: rest").
Proof.
  intros N silo node protocol path.
  assert (Habout : forall p, (p, "enabled") ∈ IO.about silo <->
            p = "conduit_bin" \/ p = "rest" \/
            (silo = true /\ (p = "conduit_silo" \/ p = "conduit_silo_mesh"))).
  { intros p. unfold IO.about. rewrite !elem_of_cons, elem_of_nil.
    destruct silo; split.
    - intros [H|[H|[H|[H|H]]]]; try contradiction; injection H as ->; auto.
    - intros [-> | [-> | [_ [-> | ->]]]]; auto.
    - intros [H|[H|[H|[H|H]]]]; try contradiction; try discriminate H;
        injection H as ->; auto.
    - intros [-> | [-> | [H _]]]; auto. discriminate H. }
  split; [|split; [|split; [|split]]].
  - rewrite Habout. unfold IO.save_protocol.
    destruct (String.eqb_spec protocol "conduit_bin") as [->|Hbin].
    { split; [intros _; split; [auto|discriminate]|intros _; eauto]. }
    destruct (String.eqb_spec protocol "conduit_silo") as [->|Hsilo].
    { destruct silo.
      - split; [intros _; split; [auto 6|discriminate]|intros _; eauto].
      - split; [intros [c H]; discriminate H|].
        intros [[H|[H|[H _]]] _]; discriminate H. }
    destruct (String.eqb_spec protocol "conduit_silo_mesh") as [->|Hmesh].
    { destruct silo.
      - split; [intros _; split; [auto 6|discriminate]|intros _; eauto].
      - split; [intros [c H]; discriminate H|].
        intros [[H|[H|[H _]]] _]; discriminate H. }
    split; [intros [c H]; discriminate H|].
    intros [[H|[H|[_ [H|H]]]] Hrest]; congruence.
  - rewrite Habout. unfold IO.load_protocol.
    destruct (String.eqb_spec protocol "conduit_bin") as [->|Hbin].
    { split; [intros _; repeat split; [auto|discriminate|discriminate]|intros _; eauto]. }
    destruct (String.eqb_spec protocol "conduit_silo") as [->|Hsilo].
    { destruct silo.
      - split; [intros _; repeat split; [auto 6|discriminate|discriminate]|intros _; eauto].
      - split; [intros [c H]; discriminate H|].
        intros [[H|[H|[H _]]] _]; discriminate H. }
    destruct (String.eqb_spec protocol "conduit_silo_mesh") as [->|Hmesh].
    { split; [intros [c H]; discriminate H|]. intros (_ & _ & H). congruence. }
    split; [intros [c H]; discriminate H|].
    intros ([H|[H|[_ [H|H]]]] & Hrest & _); congruence.
  - apply Habout. auto.
  - reflexivity.
  - reflexivity.
Qed.

(** ** Point merge: the records *)

Section Records.

(** [operator<] on keys, the keys of a map and [std::map::find]. *)
Definition tup_lt (a b : tup) : Prop := tup_ltb a b = true.

Definition keys (m : point_records_type) : list tup := map fst m.

Fixpoint find_record (key : tup) (m : point_records_type) : option record :=
  match m with
  | [] => None
  | (k, r) :: m' => if decide (k = key) then Some r else find_record key m'
  end.

(** The invariant of [std::map]: keys in strictly increasing order. *)
Definition sorted_records (m : point_records_type) : Prop :=
  StronglySorted tup_lt (keys m).

(** The record [insert] leaves at a key that held [old]. *)
Definition pushed (old : option record) (dom_id pid : Z) : record :=
  match old with
  | None => {| orig_domains := [dom_id]; orig_ids := [pid] |}
  | Some r => {| orig_domains := orig_domains r ++ [dom_id];
                 orig_ids := orig_ids r ++ [pid] |}
  end.

(** The number of ids in all records. *)
Definition total_ids (m : point_records_type) : nat :=
  sum_list (map (fun kr => length (orig_ids (snd kr))) m).

Lemma tup_lt_spec (a0 a1 a2 b0 b1 b2 : Z) :
  tup_lt (a0, a1, a2) (b0, b1, b2) <->
  a0 < b0 \/ (a0 = b0 /\ (a1 < b1 \/ (a1 = b1 /\ a2 < b2))).
Proof.
  unfold tup_lt, tup_ltb.
  destruct (Z.ltb_spec a0 b0), (Z.ltb_spec b0 a0), (Z.ltb_spec a1 b1),
           (Z.ltb_spec b1 a1), (Z.ltb_spec a2 b2); split; intros Hx; try lia;
    try reflexivity; try discriminate Hx.
Qed.

Lemma tup_lt_irrefl (a : tup) : ~ tup_lt a a.
Proof. destruct a as [[a0 a1] a2]. rewrite tup_lt_spec. lia. Qed.

Lemma tup_lt_trans (a b c : tup) : tup_lt a b -> tup_lt b c -> tup_lt a c.
Proof.
  destruct a as [[a0 a1] a2], b as [[b0 b1] b2], c as [[c0 c1] c2].
  rewrite !tup_lt_spec. lia.
Qed.

Lemma tup_lt_total (a b : tup) : ~ tup_lt a b -> ~ tup_lt b a -> a = b.
Proof.
  destruct a as [[a0 a1] a2], b as [[b0 b1] b2]. rewrite !tup_lt_spec.
  intros H1 H2. assert (a0 = b0 /\ a1 = b1 /\ a2 = b2) as (-> & -> & ->) by lia.
  reflexivity.
Qed.

Lemma tup_ltb_cases (a b : tup) :
  (tup_ltb a b = true /\ tup_lt a b) \/
  (tup_ltb a b = false /\ tup_ltb b a = true /\ tup_lt b a) \/
  (tup_ltb a b = false /\ tup_ltb b a = false /\ a = b).
Proof.
  destruct (tup_ltb a b) eqn:Hab; [left; now split|right].
  destruct (tup_ltb b a) eqn:Hba; [left; now repeat split|right].
  repeat split. apply tup_lt_total; unfold tup_lt; congruence.
Qed.

Lemma elem_of_keys_insert (key k : tup) (d p : Z) (m : point_records_type) :
  k ∈ keys (insert_record key d p m) <-> k = key \/ k ∈ keys m.
Proof.
  induction m as [|[k0 r0] m IH]; cbn [insert_record keys map fst].
  - rewrite elem_of_cons, elem_of_nil. tauto.
  - fold (keys m).
    destruct (tup_ltb_cases key k0) as [[-> _]|[(-> & -> & _)|(-> & -> & Heq)]];
      cbn [keys map fst]; fold (keys m); fold (keys (insert_record key d p m)).
    + rewrite !elem_of_cons. tauto.
    + rewrite !elem_of_cons, IH. tauto.
    + subst k0. rewrite !elem_of_cons. tauto.
Qed.

Lemma insert_record_sorted (key : tup) (d p : Z) (m : point_records_type) :
  sorted_records m -> sorted_records (insert_record key d p m).
Proof.
  unfold sorted_records. induction m as [|[k0 r0] m IH]; intros Hs.
  - cbn. repeat constructor.
  - cbn [keys map fst] in Hs. fold (keys m) in Hs.
    apply StronglySorted_inv in Hs as [Hs Hall]. cbn [insert_record].
    destruct (tup_ltb_cases key k0) as [[-> Hlt]|[(-> & -> & Hlt)|(-> & -> & Heq)]];
      cbn [keys map fst]; fold (keys m); fold (keys (insert_record key d p m)).
    + constructor; [constructor; assumption|].
      constructor; [exact Hlt|].
      eapply Forall_impl; [exact Hall|]. intros k Hk. now apply (tup_lt_trans _ k0).
    + constructor; [now apply IH|].
      apply Forall_forall. intros k Hk. apply elem_of_keys_insert in Hk as [->|Hk].
      * exact Hlt.
      * exact (proj1 (Forall_forall _ _) Hall k Hk).
    + constructor; assumption.
Qed.

Lemma find_record_None (key : tup) (m : point_records_type) :
  key ∉ keys m -> find_record key m = None.
Proof.
  induction m as [|[k0 r0] m IH]; [reflexivity|].
  cbn [keys map fst find_record]. fold (keys m). intros Hn.
  apply not_elem_of_cons in Hn as [Hne Hn].
  destruct (decide (k0 = key)); [congruence|now apply IH].
Qed.

Lemma find_record_Some (key : tup) (m : point_records_type) (r : record) :
  find_record key m = Some r -> (key, r) ∈ m.
Proof.
  induction m as [|[k0 r0] m IH]; [discriminate|]. cbn [find_record].
  destruct (decide (k0 = key)) as [->|Hne].
  - intros [= ->]. apply elem_of_cons. now left.
  - intros H. apply elem_of_cons. right. now apply IH.
Qed.

(** [insert] and then [find]: the record of the key has the point at its
    end. *)
Lemma find_insert_eq (key : tup) (d p : Z) (m : point_records_type) :
  sorted_records m ->
  find_record key (insert_record key d p m) = Some (pushed (find_record key m) d p).
Proof.
  unfold sorted_records. induction m as [|[k0 r0] m IH]; intros Hs.
  - cbn. destruct (decide (key = key)); [reflexivity|congruence].
  - cbn [keys map fst] in Hs. fold (keys m) in Hs.
    apply StronglySorted_inv in Hs as [Hs Hall]. cbn [insert_record].
    destruct (tup_ltb_cases key k0) as [[-> Hlt]|[(-> & -> & Hlt)|(-> & -> & ->)]];
      cbn [find_record].
    + destruct (decide (key = key)); [|congruence].
      destruct (decide (k0 = key)) as [->|_]; [now apply tup_lt_irrefl in Hlt|].
      rewrite find_record_None; [reflexivity|].
      intros Hin. pose proof (proj1 (Forall_forall _ _) Hall key Hin) as Hlt'.
      exact (tup_lt_irrefl _ (tup_lt_trans _ _ _ Hlt Hlt')).
    + destruct (decide (k0 = key)) as [->|_]; [now apply tup_lt_irrefl in Hlt|].
      now apply IH.
    + destruct (decide (k0 = k0)); [reflexivity|congruence].
Qed.

Lemma find_insert_ne (key k : tup) (d p : Z) (m : point_records_type) :
  k <> key -> find_record k (insert_record key d p m) = find_record k m.
Proof.
  intros Hne. induction m as [|[k0 r0] m IH].
  - cbn. destruct (decide (key = k)); [congruence|reflexivity].
  - cbn [insert_record].
    destruct (tup_ltb_cases key k0) as [[-> Hlt]|[(-> & -> & Hlt)|(-> & -> & ->)]];
      cbn [find_record].
    + destruct (decide (key = k)); [congruence|reflexivity].
    + destruct (decide (k0 = k)); [reflexivity|exact IH].
    + destruct (decide (k0 = k)); [congruence|reflexivity].
Qed.

Lemma total_ids_insert (key : tup) (d p : Z) (m : point_records_type) :
  total_ids (insert_record key d p m) = Datatypes.S (total_ids m).
Proof.
  unfold total_ids. induction m as [|[k0 r0] m IH]; [reflexivity|].
  cbn [insert_record].
  destruct (tup_ltb_cases key k0) as [[-> _]|[(-> & -> & _)|(-> & -> & ->)]];
    cbn [map sum_list snd orig_ids length].
  - reflexivity.
  - rewrite IH. lia.
  - rewrite length_app. cbn. lia.
Qed.

End Records.

(** ** Point merge: what [insert] and [execute] keep *)

Section Merging.

(** The key [insert] computes for a point. *)
Definition quantize (S : Q) (x y z : Q) : tup :=
  (PointMerge.round (x * S), PointMerge.round (y * S), PointMerge.round (z * S)).

(** The number of points [execute] reads from a coordset: those of [x], or
    of [r] when there is [z] or [theta] beside it. *)
Definition npoints (c : coordset_node) : nat :=
  match cs_values c with
  | None => 0
  | Some vals =>
      match v_x vals with
      | Some xa => length xa
      | None =>
          match v_r vals with
          | Some ra =>
              match v_z vals, v_theta vals with
              | None, None => 0
              | _, _ => length ra
              end
          | None => 0
          end
      end
  end.

(** Every record names as many domains as ids, and at least one. *)
Definition records_ok (m : point_records_type) : Prop :=
  Forall (fun kr => length (orig_domains (snd kr)) = length (orig_ids (snd kr)) /\
                    (0 < length (orig_ids (snd kr)))%nat) m.

Lemma to_fp_type_Ok (z k : Z) :
  to_fp_type z = Ok k -> k = z /\ - 2 ^ 63 <= z < 2 ^ 63.
Proof.
  unfold to_fp_type.
  destruct (Z.leb_spec (- 2 ^ 63) z), (Z.ltb_spec z (2 ^ 63)); cbn [andb];
    intros Hk; try discriminate Hk.
  injection Hk as <-. lia.
Qed.

Lemma insert_Ok pm d p sys x y z pm' :
  PointMerge.insert pm d p sys x y z = Ok pm' ->
  point_records pm' = insert_record (quantize (scale pm) x y z) d p (point_records pm) /\
  scale pm' = scale pm.
Proof.
  unfold PointMerge.insert, quantize. intros H.
  bind_as H k0 E0. bind_as H k1 E1. bind_as H k2 E2.
  apply to_fp_type_Ok in E0 as [-> _]. apply to_fp_type_Ok in E1 as [-> _].
  apply to_fp_type_Ok in E2 as [-> _].
  injection H as <-. split; reflexivity.
Qed.

(** What every [insert] keeps, [execute] keeps. *)
Lemma iterate_coordinates_preserves (P : point_merge -> Prop) :
  (forall pm d p sys x y z pm',
      PointMerge.insert pm d p sys x y z = Ok pm' -> P pm -> P pm') ->
  forall pm i cs xn yn zn pm',
    iterate_coordinates pm i cs xn yn zn = Ok pm' -> P pm -> P pm'.
Proof.
  intros Hins pm i cs xn yn zn pm'. unfold iterate_coordinates. intros H.
  destruct xn as [xa|]; [|now injection H as <-].
  destruct yn as [ya|]; [destruct zn as [za|]|].
  all: refine (for_range_preserves P _ _ _ _ _ _ H).
  all: intros k s s' Hb Hs.
  all: repeat bind_ok Hb.
  all: eapply Hins; eauto.
Qed.

Lemma execute_coordset_preserves (P : point_merge -> Prop) :
  (forall pm d p sys x y z pm',
      PointMerge.insert pm d p sys x y z = Ok pm' -> P pm -> P pm') ->
  forall i c pm pm', execute_coordset i c pm = Ok pm' -> P pm -> P pm'.
Proof.
  intros Hins i c pm pm'. unfold execute_coordset. intros H.
  pose proof (iterate_coordinates_preserves P Hins) as Hit.
  destruct (cs_values c) as [vals|]; [|discriminate].
  destruct (v_x vals); [exact (Hit _ _ _ _ _ _ _ H)|].
  destruct (v_r vals); [|exact (Hit _ _ _ _ _ _ _ H)].
  destruct (v_z vals); [exact (Hit _ _ _ _ _ _ _ H)|].
  destruct (v_theta vals); [exact (Hit _ _ _ _ _ _ _ H)|].
  now injection H as <-.
Qed.

Lemma execute_preserves (P : point_merge -> Prop) :
  (forall pm d p sys x y z pm',
      PointMerge.insert pm d p sys x y z = Ok pm' -> P pm -> P pm') ->
  forall pm coordsets tolerance pm' out,
    execute pm coordsets tolerance = Ok (pm', out) ->
    P {| point_records := point_records pm;
         scale := determine_scale tolerance;
         out_system := cartesian |} ->
    P pm' /\ out = emit pm'.
Proof.
  intros Hins pm coordsets tolerance pm' out. unfold execute. intros H H0.
  bind_as H pm1 E. injection H as <- <-. split; [|reflexivity].
  refine (for_range_preserves P _ _ _ _ _ _ E H0).
  intros k s s' Hb Hs. bind_ok Hb.
  eapply execute_coordset_preserves; eauto.
Qed.

Lemma records_ok_insert (key : tup) (d p : Z) (m : point_records_type) :
  records_ok m -> records_ok (insert_record key d p m).
Proof.
  unfold records_ok. induction m as [|[k0 r0] m IH]; intros Hm.
  - cbn. repeat constructor.
  - apply Forall_cons in Hm as [[H0 H0'] Hm]. cbn [snd] in H0, H0'. cbn [insert_record].
    destruct (tup_ltb key k0).
    + constructor; [cbn; split; [reflexivity|lia]|]. constructor; [now split|exact Hm].
    + destruct (tup_ltb k0 key).
      * constructor; [now split|now apply IH].
      * constructor; [|exact Hm]. cbn. rewrite !length_app. cbn. lia.
Qed.

Lemma records_ok_length (m : point_records_type) :
  records_ok m -> (length m <= total_ids m)%nat.
Proof.
  unfold records_ok, total_ids. induction 1 as [|kr m [_ Hpos] _ IH]; [reflexivity|].
  cbn. lia.
Qed.

(** A map with one record, for the origin. *)
Definition one_point : point_merge :=
  {| point_records := [((0, 0, 0), {| orig_domains := [0]; orig_ids := [7] |})];
     scale := inject_Z 32768; out_system := cartesian |}.

(** A coordset of three points in the plane, two of them equal. *)
Definition three_points : coordset_node :=
  {| cs_values := Some {| v_x := Some [1%Q; 0%Q; 1%Q]; v_y := Some [0%Q; 0%Q; 0%Q];
                          v_z := None; v_r := None; v_theta := None;
                          v_phi := None |} |}.

End Merging.

(** X4: one [insert] into a map with increasing keys leaves the point's
    domain and id at the end of the record of its key
    [(round(x S), round(y S), round(z S))], a record of its own when the key
    is new; the records of all other keys are as they were, and the keys are
    still increasing. *)
Theorem insert_then_find :
  forall pm d p sys x y z pm',
    sorted_records (point_records pm) ->
    PointMerge.insert pm d p sys x y z = Ok pm' ->
    let key := quantize (scale pm) x y z in
    find_record key (point_records pm')
    = Some (pushed (find_record key (point_records pm)) d p) /\
    (forall k, k <> key ->
               find_record k (point_records pm') = find_record k (point_records pm)) /\
    sorted_records (point_records pm').
Proof.
  intros pm d p sys x y z pm' Hs H key.
  apply insert_Ok in H as [-> _]. fold key.
  split; [now apply find_insert_eq|].
  split; [intros k Hk; now apply find_insert_ne|].
  now apply insert_record_sorted.
Qed.

Lemma insert_then_find_witness :
  exists pm',
    PointMerge.insert one_point 1 3 cartesian (1 # 100000) 0 0 = Ok pm' /\
    find_record (0, 0, 0) (point_records pm')
    = Some {| orig_domains := [0; 1]; orig_ids := [7; 3] |}.
Proof.
  eexists. split; [reflexivity|].
  assert (Hs : sorted_records (point_records one_point)) by repeat constructor.
  exact (proj1 (insert_then_find one_point 1 3 cartesian (1 # 100000) 0 0 _ Hs eq_refl)).
Defined.

(** X5: [execute] on an object whose map has increasing keys leaves a map
    with strictly increasing keys, so no key twice, and emits one point per
    record in that order: the key divided by the scale 32768. *)
Theorem execute_keys_increasing :
  forall pm coordsets tolerance pm' out,
    sorted_records (point_records pm) ->
    execute pm coordsets tolerance = Ok (pm', out) ->
    sorted_records (point_records pm') /\
    NoDup (keys (point_records pm')) /\
    out = map (fun k : tup =>
                 let '(k0, k1, k2) := k in
                 (inject_Z k0 / inject_Z 32768, inject_Z k1 / inject_Z 32768,
                  inject_Z k2 / inject_Z 32768)%Q)
              (keys (point_records pm')).
Proof.
  intros pm coordsets tolerance pm' out Hs H.
  destruct (execute_preserves
              (fun pm => sorted_records (point_records pm) /\ scale pm = inject_Z 32768)
              ltac:(intros pm0 d p sys x y z pm0' Hi [Hs0 Hsc];
                    apply insert_Ok in Hi as [-> ->];
                    split; [now apply insert_record_sorted|exact Hsc])
              pm coordsets tolerance pm' out H)
    as [[Hs' Hsc] ->]; [split; [exact Hs|reflexivity]|].
  split; [exact Hs'|]. split.
  - unfold sorted_records in Hs'. induction Hs' as [|k l _ IH Hall]; constructor.
    + intros Hin. pose proof (proj1 (Forall_forall _ _) Hall k Hin) as Hlt.
      now apply tup_lt_irrefl in Hlt.
    + exact IH.
  - unfold emit, keys. rewrite map_map, Hsc. apply map_ext.
    intros [[[k0 k1] k2] r]. reflexivity.
Qed.

Lemma execute_keys_increasing_witness :
  exists pm' out,
    execute PointMerge.empty [three_points] (1 # 1000) = Ok (pm', out) /\
    NoDup (keys (point_records pm')).
Proof.
  destruct (execute PointMerge.empty [three_points] (1 # 1000)) as [[pm' out]|e] eqn:E;
    [|vm_compute in E; discriminate E].
  exists pm', out. split; [reflexivity|].
  assert (Hs : sorted_records (point_records PointMerge.empty)) by constructor.
  exact (proj1 (proj2 (execute_keys_increasing _ _ _ _ _ Hs E))).
Defined.

(** ** Point merge: counting and rounding *)

Section Counting.

Lemma sum_list_snoc (l : list nat) (n : nat) :
  sum_list (l ++ [n]) = (sum_list l + n)%nat.
Proof. induction l as [|a l IH]; cbn; [lia|rewrite IH; lia]. Qed.

Lemma iterate_coordinates_total pm i cs xn yn zn pm' :
  iterate_coordinates pm i cs xn yn zn = Ok pm' ->
  total_ids (point_records pm')
  = (total_ids (point_records pm) + from_option length 0 xn)%nat.
Proof.
  unfold iterate_coordinates. intros H.
  destruct xn as [xa|]; [|injection H as <-; cbn; lia].
  cbn [from_option].
  enough (Z.of_nat (total_ids (point_records pm'))
          = Z.of_nat (total_ids (point_records pm)) + (0 + Z.of_nat (length xa))) by lia.
  destruct yn as [ya|]; [destruct zn as [za|]|].
  all: refine (for_range_inv_ok
                 (fun k s => Z.of_nat (total_ids (point_records s))
                             = Z.of_nat (total_ids (point_records pm)) + k)
                 _ _ _ _ _ _ _ H); [lia|].
  all: intros k s s' Hk Hs Hb; repeat bind_ok Hb.
  all: apply insert_Ok in Hb as [-> _]; rewrite total_ids_insert; lia.
Qed.

Lemma execute_coordset_total i c pm pm' :
  execute_coordset i c pm = Ok pm' ->
  total_ids (point_records pm') = (total_ids (point_records pm) + npoints c)%nat.
Proof.
  unfold execute_coordset, npoints. intros H.
  destruct (cs_values c) as [vals|]; [|discriminate].
  destruct (v_x vals); [exact (iterate_coordinates_total _ _ _ _ _ _ _ H)|].
  destruct (v_r vals); [|exact (iterate_coordinates_total _ _ _ _ _ _ _ H)].
  destruct (v_z vals); [exact (iterate_coordinates_total _ _ _ _ _ _ _ H)|].
  destruct (v_theta vals); [exact (iterate_coordinates_total _ _ _ _ _ _ _ H)|].
  injection H as <-. lia.
Qed.

(** [std::round] is within a half of its argument. *)
Lemma round_close (q : Q) : (Qabs (inject_Z (PointMerge.round q) - q) <= 1 # 2)%Q.
Proof.
  unfold PointMerge.round. apply Qabs_Qle_condition.
  destruct (Qle_bool 0 q).
  - pose proof (Qfloor_le (q + (1 # 2))) as Hlo.
    pose proof (Qlt_floor (q + (1 # 2))) as Hhi.
    rewrite inject_Z_plus in Hhi. change (inject_Z 1) with 1%Q in Hhi. split; lra.
  - pose proof (Qfloor_le (- q + (1 # 2))) as Hlo.
    pose proof (Qlt_floor (- q + (1 # 2))) as Hhi.
    rewrite inject_Z_plus in Hhi. change (inject_Z 1) with 1%Q in Hhi.
    rewrite inject_Z_opp. split; lra.
Qed.

Lemma scaled_close (k x S : Q) :
  (0 < S)%Q -> (Qabs (k - x * S) <= 1 # 2)%Q -> (Qabs (k / S - x) <= 1 / (2 * S))%Q.
Proof.
  intros HS H. apply Qabs_Qle_condition in H as [H1 H2].
  assert (E1 : ((k / S - x) * S == k - x * S)%Q) by (field; lra).
  assert (E2 : (1 / (2 * S) * S == 1 # 2)%Q) by (field; lra).
  assert (E3 : (- (1 / (2 * S)) * S == - (1 # 2))%Q) by (field; lra).
  apply Qabs_Qle_condition. split.
  - apply (Qmult_le_r _ _ S HS). rewrite E1, E3. exact H1.
  - apply (Qmult_le_r _ _ S HS). rewrite E1, E2. exact H2.
Qed.

End Counting.

(** X6: [execute] loses and invents no point: its map gains one id for
    every point it reads, the points of [x], or of [r] when [z] or [theta]
    is beside it; every record keeps as many domains as ids, at least one;
    so an object that starts empty emits at most as many points as the
    coordsets hold. *)
Theorem execute_conserves_points :
  forall pm coordsets tolerance pm' out,
    execute pm coordsets tolerance = Ok (pm', out) ->
    total_ids (point_records pm')
    = (total_ids (point_records pm) + sum_list (map npoints coordsets))%nat /\
    (records_ok (point_records pm) ->
     records_ok (point_records pm') /\
     (length out <= total_ids (point_records pm'))%nat) /\
    (point_records pm = [] ->
     (length out <= sum_list (map npoints coordsets))%nat).
Proof.
  intros pm coordsets tolerance pm' out H.
  assert (Hok : records_ok (point_records pm) ->
                records_ok (point_records pm') /\
                (length out <= total_ids (point_records pm'))%nat).
  { intros Hr.
    destruct (execute_preserves (fun pm => records_ok (point_records pm))
                ltac:(intros pm0 d p sys x y z pm0' Hi Hr0;
                      apply insert_Ok in Hi as [-> _]; now apply records_ok_insert)
                pm coordsets tolerance pm' out H Hr) as [Hr' ->].
    split; [exact Hr'|]. unfold emit. rewrite length_map.
    now apply records_ok_length. }
  assert (Htotal : total_ids (point_records pm')
                   = (total_ids (point_records pm) + sum_list (map npoints coordsets))%nat).
  { unfold execute in H. bind_as H pm1 E. injection H as <- _.
    enough (Z.of_nat (total_ids (point_records pm1))
            = Z.of_nat (total_ids (point_records pm))
              + Z.of_nat (sum_list (map npoints
                   (take (Z.to_nat (0 + Z.of_nat (length coordsets))) coordsets)))) as Hz.
    { rewrite Z.add_0_l, Nat2Z.id, firstn_all in Hz. lia. }
    refine (for_range_inv_ok
              (fun k s => Z.of_nat (total_ids (point_records s))
                          = Z.of_nat (total_ids (point_records pm))
                            + Z.of_nat (sum_list (map npoints (take (Z.to_nat k) coordsets))))
              _ _ _ _ _ _ _ E);
      [change (Z.to_nat 0) with 0%nat; rewrite take_0; cbn [point_records map sum_list]; lia|].
    intros k s s' Hk Hs Hb. bind_as Hb c Ec.
    apply vec_get_Ok in Ec as [_ Ec]. apply execute_coordset_total in Hb.
    replace (Z.to_nat (k + 1)) with (Datatypes.S (Z.to_nat k)) by lia.
    rewrite (take_S_r _ _ _ Ec), map_app. cbn [map]. rewrite sum_list_snoc. lia. }
  split; [exact Htotal|]. split; [exact Hok|].
  intros Hempty. rewrite Hempty in Htotal, Hok. cbn in Htotal.
  destruct Hok as [_ Hle]; [constructor|]. lia.
Qed.

Lemma execute_conserves_points_witness :
  exists pm' out,
    execute PointMerge.empty [three_points] (1 # 1000) = Ok (pm', out) /\
    total_ids (point_records pm') = 3%nat.
Proof.
  destruct (execute PointMerge.empty [three_points] (1 # 1000)) as [[pm' out]|e] eqn:E;
    [|vm_compute in E; discriminate E].
  exists pm', out. split; [reflexivity|].
  exact (proj1 (execute_conserves_points _ _ _ _ _ E)).
Defined.

(** X7: with a positive scale [S], the point [insert] files lies within
    [1 / (2 S)] of the emitted point of its record in every coordinate, and
    its domain and id are the last of that record. *)
Theorem insert_within_half_step :
  forall pm d p sys x y z pm',
    sorted_records (point_records pm) ->
    (0 < scale pm)%Q ->
    PointMerge.insert pm d p sys x y z = Ok pm' ->
    exists k0 k1 k2 r,
      ((k0, k1, k2), r) ∈ point_records pm' /\
      last (orig_domains r) = Some d /\ last (orig_ids r) = Some p /\
      (inject_Z k0 / scale pm', inject_Z k1 / scale pm', inject_Z k2 / scale pm')%Q
        ∈ emit pm' /\
      (Qabs (inject_Z k0 / scale pm' - x) <= 1 / (2 * scale pm'))%Q /\
      (Qabs (inject_Z k1 / scale pm' - y) <= 1 / (2 * scale pm'))%Q /\
      (Qabs (inject_Z k2 / scale pm' - z) <= 1 / (2 * scale pm'))%Q.
Proof.
  intros pm d p sys x y z pm' Hs HS H.
  apply insert_Ok in H as [Hrec Hsc].
  pose proof (find_insert_eq (quantize (scale pm) x y z) d p _ Hs) as Hfind.
  rewrite <- Hrec in Hfind. apply find_record_Some in Hfind.
  unfold quantize in Hfind.
  exists (PointMerge.round (x * scale pm)), (PointMerge.round (y * scale pm)),
         (PointMerge.round (z * scale pm)),
         (pushed (find_record (quantize (scale pm) x y z) (point_records pm)) d p).
  split; [exact Hfind|].
  split; [destruct (find_record _ _); cbn; [apply last_snoc|reflexivity]|].
  split; [destruct (find_record _ _); cbn; [apply last_snoc|reflexivity]|].
  split.
  - unfold emit. apply list_elem_of_fmap. eexists. split; [|exact Hfind]. reflexivity.
  - rewrite Hsc. repeat split; apply scaled_close; try exact HS; apply round_close.
Qed.

Lemma insert_within_half_step_witness :
  exists pm' k0 k1 k2 r,
    PointMerge.insert one_point 1 3 cartesian (1 # 100000) 0 0 = Ok pm' /\
    ((k0, k1, k2), r) ∈ point_records pm' /\
    (Qabs (inject_Z k0 / scale pm' - (1 # 100000)) <= 1 / (2 * scale pm'))%Q.
Proof.
  destruct (PointMerge.insert one_point 1 3 cartesian (1 # 100000) 0 0) as [pm'|e] eqn:E;
    [|vm_compute in E; discriminate E].
  assert (Hs : sorted_records (point_records one_point)) by repeat constructor.
  assert (HS : (0 < scale one_point)%Q) by reflexivity.
  destruct (insert_within_half_step one_point 1 3 cartesian (1 # 100000) 0 0 pm' Hs HS E)
    as (k0 & k1 & k2 & r & Hin & _ & _ & _ & Hx & _).
  exists pm', k0, k1, k2, r. split; [reflexivity|]. split; [exact Hin|exact Hx].
Defined.

(** ** Point merge: merging the output again *)

Section MergeAgain.

(** The coordset [execute] writes: [values/x], [values/y], [values/z]. *)
Definition output_coordset (out : list (Q * Q * Q)) : coordset_node :=
  {| cs_values :=
       Some {| v_x := Some (map (fun p => fst (fst p)) out);
               v_y := Some (map (fun p => snd (fst p)) out);
               v_z := Some (map snd out);
               v_r := None; v_theta := None; v_phi := None |} |}.

(** A key [static_cast<fp_type>] can give. *)
Definition int64_key (k : tup) : Prop :=
  let '(k0, k1, k2) := k in
  - 2 ^ 63 <= k0 < 2 ^ 63 /\ - 2 ^ 63 <= k1 < 2 ^ 63 /\ - 2 ^ 63 <= k2 < 2 ^ 63.

Lemma insert_Ok_range pm d p sys x y z pm' :
  PointMerge.insert pm d p sys x y z = Ok pm' ->
  int64_key (quantize (scale pm) x y z).
Proof.
  unfold PointMerge.insert, quantize. intros H.
  bind_as H k0 E0. bind_as H k1 E1. bind_as H k2 E2.
  apply to_fp_type_Ok in E0 as [_ H0]. apply to_fp_type_Ok in E1 as [_ H1].
  apply to_fp_type_Ok in E2 as [_ H2]. cbn. lia.
Qed.

Lemma to_fp_type_in_range (z : Z) : - 2 ^ 63 <= z < 2 ^ 63 -> to_fp_type z = Ok z.
Proof.
  intros Hz. unfold to_fp_type.
  destruct (Z.leb_spec (- 2 ^ 63) z), (Z.ltb_spec z (2 ^ 63)); try lia. reflexivity.
Qed.

Lemma Qfloor_half (k : Z) : Qfloor (inject_Z k + (1 # 2)) = k.
Proof.
  pose proof (Qfloor_le (inject_Z k + (1 # 2))) as Hlo.
  pose proof (Qlt_floor (inject_Z k + (1 # 2))) as Hhi.
  set (f := Qfloor (inject_Z k + (1 # 2))) in *.
  destruct (Z.lt_trichotomy f k) as [Hlt|[Heq|Hgt]]; [|exact Heq|].
  - assert (H1 : (inject_Z (f + 1) <= inject_Z k)%Q) by (rewrite <- Zle_Qle; lia). lra.
  - assert (H1 : (inject_Z (k + 1) <= inject_Z f)%Q) by (rewrite <- Zle_Qle; lia).
    rewrite inject_Z_plus in H1. change (inject_Z 1) with 1%Q in H1. lra.
Qed.

Lemma round_comp (q q' : Q) : (q == q')%Q -> PointMerge.round q = PointMerge.round q'.
Proof.
  intros Hq. unfold PointMerge.round.
  assert (Hb : Qle_bool 0 q = Qle_bool 0 q').
  { destruct (Qle_bool 0 q) eqn:E, (Qle_bool 0 q') eqn:E'; try reflexivity.
    - apply Qle_bool_iff in E. rewrite Hq in E. apply Qle_bool_iff in E. congruence.
    - apply Qle_bool_iff in E'. rewrite <- Hq in E'. apply Qle_bool_iff in E'. congruence. }
  rewrite Hb. destruct (Qle_bool 0 q'); now rewrite Hq.
Qed.

(** Rounding a whole number changes nothing. *)
Lemma round_inject_Z (k : Z) : PointMerge.round (inject_Z k) = k.
Proof.
  unfold PointMerge.round. destruct (Qle_bool 0 (inject_Z k)).
  - apply Qfloor_half.
  - rewrite <- inject_Z_opp, Qfloor_half. lia.
Qed.

Lemma round_emitted (k : Z) (S : Q) :
  (0 < S)%Q -> PointMerge.round (inject_Z k / S * S) = k.
Proof.
  intros HS. rewrite <- (round_inject_Z k) at 2. apply round_comp. field. lra.
Qed.

(** Inserting a key above all the keys of the map puts it last. *)
Lemma keys_insert_last (key : tup) (d p : Z) (m : point_records_type) :
  Forall (fun k => tup_lt k key) (keys m) ->
  keys (insert_record key d p m) = keys m ++ [key].
Proof.
  induction m as [|[k0 r0] m IH]; intros Hall; [reflexivity|].
  cbn [keys map fst] in Hall. fold (keys m) in Hall.
  apply Forall_cons in Hall as [Hlt Hall]. cbn [insert_record].
  destruct (tup_ltb_cases key k0) as [[_ Hlt']|[(-> & -> & _)|(_ & _ & Heq)]].
  - exfalso. exact (tup_lt_irrefl _ (tup_lt_trans _ _ _ Hlt Hlt')).
  - cbn [keys map fst]. fold (keys m). fold (keys (insert_record key d p m)).
    now rewrite IH.
  - subst k0. now apply tup_lt_irrefl in Hlt.
Qed.

Lemma sorted_take_lt (K : list tup) (i : nat) (k : tup) :
  StronglySorted tup_lt K -> K !! i = Some k ->
  Forall (fun k' => tup_lt k' k) (take i K).
Proof.
  intros Hs Hk. rewrite <- (take_drop i K) in Hs.
  apply Forall_forall. intros k' Hk'.
  apply (StronglySorted_app_1_elem_of _ _ _ _ _ Hs Hk').
  apply list_elem_of_lookup. exists 0%nat. rewrite lookup_drop, Nat.add_0_r. exact Hk.
Qed.

(** The point emitted for a key. *)
Definition emitted (S : Q) (k : tup) : Q * Q * Q :=
  let '(k0, k1, k2) := k in (inject_Z k0 / S, inject_Z k1 / S, inject_Z k2 / S)%Q.

Lemma emit_keys (pm : point_merge) :
  emit pm = map (emitted (scale pm)) (keys (point_records pm)).
Proof.
  unfold emit, keys. rewrite map_map. apply map_ext. intros [[[k0 k1] k2] r]. reflexivity.
Qed.

(** What [execute] keeps of a map: increasing keys within [int64], and the
    scale. *)
Definition merged (pm : point_merge) : Prop :=
  sorted_records (point_records pm) /\
  Forall int64_key (keys (point_records pm)) /\
  scale pm = inject_Z 32768.

Lemma insert_merged pm d p sys x y z pm' :
  PointMerge.insert pm d p sys x y z = Ok pm' -> merged pm -> merged pm'.
Proof.
  intros H (Hs & Hr & Hsc). pose proof (insert_Ok_range _ _ _ _ _ _ _ _ H) as Hk.
  apply insert_Ok in H as [Hrec Hsc']. unfold merged. rewrite Hrec, Hsc'.
  split; [now apply insert_record_sorted|].
  split; [|exact Hsc]. apply Forall_forall. intros k Hin.
  apply elem_of_keys_insert in Hin as [->|Hin]; [exact Hk|].
  exact (proj1 (Forall_forall _ _) Hr k Hin).
Qed.

(** Reading the emitted points back puts the keys back, one by one. *)
Lemma iterate_emitted (K : list tup) (pm0 : point_merge) (d : Z) (cs : coord_system) :
  StronglySorted tup_lt K -> Forall int64_key K ->
  point_records pm0 = [] -> scale pm0 = inject_Z 32768 ->
  let out := map (emitted (inject_Z 32768)) K in
  exists pm2,
    iterate_coordinates pm0 d cs (Some (map (fun p => fst (fst p)) out))
      (Some (map (fun p => snd (fst p)) out)) (Some (map snd out)) = Ok pm2 /\
    keys (point_records pm2) = K /\ scale pm2 = inject_Z 32768.
Proof.
  intros Hs Hr H0 Hsc out. unfold iterate_coordinates.
  destruct (for_range_inv
              (fun i s => keys (point_records s) = take (Z.to_nat i) K /\
                          scale s = inject_Z 32768)
              (fun i pm =>
                 x ← vec_get (map (fun p => fst (fst p)) out) i;
                 y ← vec_get (map (fun p => snd (fst p)) out) i;
                 z ← vec_get (map snd out) i;
                 PointMerge.insert pm d i cs x y z)
              (length (map (fun p => fst (fst p)) out)) 0 pm0)
    as (pm2 & Hrun & Hkeys & Hsc2).
  - rewrite H0. split; [reflexivity|exact Hsc].
  - intros i s Hi [Hk Hscs]. unfold out in Hi. rewrite !length_map in Hi.
    destruct (lookup_lt_is_Some_2 K (Z.to_nat i)) as [[[k0 k1] k2] Hki]; [lia|].
    assert (Hx : vec_get (map (fun p => fst (fst p)) out) i = Ok (inject_Z k0 / inject_Z 32768)%Q).
    { apply vec_get_Ok. split; [lia|]. unfold out. rewrite !list_lookup_fmap, Hki. reflexivity. }
    assert (Hy : vec_get (map (fun p => snd (fst p)) out) i = Ok (inject_Z k1 / inject_Z 32768)%Q).
    { apply vec_get_Ok. split; [lia|]. unfold out. rewrite !list_lookup_fmap, Hki. reflexivity. }
    assert (Hz : vec_get (map snd out) i = Ok (inject_Z k2 / inject_Z 32768)%Q).
    { apply vec_get_Ok. split; [lia|]. unfold out. rewrite !list_lookup_fmap, Hki. reflexivity. }
    rewrite Hx, Hy, Hz. cbn [mbind result_bind]. unfold PointMerge.insert.
    rewrite Hscs, !round_emitted by reflexivity.
    pose proof (proj1 (Forall_forall _ _) Hr _ (list_elem_of_lookup_2 _ _ _ Hki))
      as (Hr0 & Hr1 & Hr2).
    rewrite !to_fp_type_in_range by assumption. cbn [mbind result_bind].
    eexists. split; [reflexivity|]. cbn [point_records scale]. split; [|reflexivity].
    rewrite keys_insert_last.
    + rewrite Hk. replace (Z.to_nat (i + 1)) with (Datatypes.S (Z.to_nat i)) by lia.
      now rewrite (take_S_r _ _ _ Hki).
    + rewrite Hk. now apply sorted_take_lt.
  - exists pm2. split; [exact Hrun|]. split; [|exact Hsc2].
    unfold out in Hkeys. rewrite !length_map, Z.add_0_l, Nat2Z.id in Hkeys.
    rewrite Hkeys. apply firstn_all.
Qed.

End MergeAgain.

(** X8: merging the merged points again changes nothing: [execute] on a
    fresh object, given the coordset a first [execute] wrote, finds the same
    keys and writes the same points, in the same order, whatever the two
    tolerances. *)
Theorem execute_output_is_fixed :
  forall coordsets tolerance tolerance' pm1 out,
    execute PointMerge.empty coordsets tolerance = Ok (pm1, out) ->
    exists pm2,
      execute PointMerge.empty [output_coordset out] tolerance' = Ok (pm2, out) /\
      keys (point_records pm2) = keys (point_records pm1) /\
      length out = length (point_records pm1).
Proof.
  intros coordsets tolerance tolerance' pm1 out H.
  destruct (execute_preserves merged insert_merged _ _ _ _ _ H)
    as [(Hs & Hr & Hsc) ->].
  { split; [constructor|]. split; [constructor|reflexivity]. }
  rewrite emit_keys, Hsc.
  destruct (iterate_emitted (keys (point_records pm1))
              {| point_records := []; scale := determine_scale tolerance';
                 out_system := cartesian |} 0 cartesian Hs Hr eq_refl eq_refl)
    as (pm2 & Hrun & Hkeys & Hsc2).
  exists pm2. split; [|split; [exact Hkeys|]].
  - unfold execute. cbn [length for_range point_records PointMerge.empty].
    change (vec_get [output_coordset ?o] 0) with (Ok (output_coordset o)).
    cbn [mbind result_bind]. unfold execute_coordset.
    cbn [output_coordset cs_values v_x v_y v_z].
    rewrite Hrun. cbn [mbind result_bind]. rewrite emit_keys, Hkeys, Hsc2. reflexivity.
  - unfold keys. now rewrite !length_map.
Qed.

Lemma execute_output_is_fixed_witness :
  exists pm1 out pm2,
    execute PointMerge.empty [three_points] (1 # 1000) = Ok (pm1, out) /\
    execute PointMerge.empty [output_coordset out] (1 # 10) = Ok (pm2, out) /\
    length out = 2%nat.
Proof.
  destruct (execute PointMerge.empty [three_points] (1 # 1000)) as [[pm1 out]|e] eqn:E;
    [|vm_compute in E; discriminate E].
  destruct (execute_output_is_fixed _ _ (1 # 10) _ _ E) as (pm2 & H2 & _ & Hlen).
  exists pm1, out, pm2. split; [reflexivity|]. split; [exact H2|].
  rewrite Hlen. vm_compute in E. injection E as <- _. reflexivity.
Defined.

(** ** Tiler: the elements of a 2D mesh *)

Section Elements.

Variable T : Tiler.

Definition nquads : nat := (length (m_quads T) / 4)%nat.

(** The pattern's quads name template points. *)
Definition quads_ok : Prop := in_bounds (npts T) (m_quads T).

(** The ids [iterateFaces] hands to [body] for quad [i] of a tile. *)
Definition quad_ids (t : list Z) (offset : Z) (reverse : bool) (i : Z) : list Z :=
  let q k := offset + pid t (at_ 0 (m_quads T) (4 * i + k)) in
  if reverse then [q 3; q 2; q 1; q 0] else [q 0; q 1; q 2; q 3].

Definition tile_faces (t : list Z) (offset : Z) (reverse : bool) (stype : Z)
  : list segment :=
  map (fun i => (quad_ids t offset reverse i, stype)) (up_from 0 nquads).

Lemma quad_index (i k : Z) :
  0 <= i < Z.of_nat nquads -> 0 <= k < 4 ->
  0 <= 4 * i + k < Z.of_nat (length (m_quads T)).
Proof.
  unfold nquads. intros Hi Hk.
  pose proof (Nat.div_mod_eq (length (m_quads T)) 4) as Hdiv. lia.
Qed.

Lemma quad_point (t : list Z) (i k : Z) :
  quads_ok -> length t = npts T ->
  0 <= i < Z.of_nat nquads -> 0 <= k < 4 ->
  exists q, vec_get (m_quads T) (4 * i + k) = Ok q /\
            q = at_ 0 (m_quads T) (4 * i + k) /\
            0 <= q < Z.of_nat (npts T) /\
            vec_get t q = Ok (pid t q).
Proof.
  intros Hq Ht Hi Hk. pose proof (quad_index i k Hi Hk) as Hidx.
  exists (at_ 0 (m_quads T) (4 * i + k)).
  split; [now apply vec_get_at|]. split; [reflexivity|].
  assert (Hb : 0 <= at_ 0 (m_quads T) (4 * i + k) < Z.of_nat (npts T)).
  { apply (lookup_in_bounds _ (m_quads T) (Z.to_nat (4 * i + k))); [exact Hq|].
    apply at_lookup. exact Hidx. }
  split; [exact Hb|]. apply vec_get_at. lia.
Qed.

Lemma vec_get_four {A} (a b c d : A) :
  vec_get [a; b; c; d] 0 = Ok a /\ vec_get [a; b; c; d] 1 = Ok b /\
  vec_get [a; b; c; d] 2 = Ok c /\ vec_get [a; b; c; d] 3 = Ok d.
Proof. repeat split; reflexivity. Qed.

Section Faces.

Context {S : Type}.
Variable step : S -> segment -> S.
Variable body : list Z -> Z -> Z -> S -> result S.
Hypothesis Hbody : forall ids side s, body ids 4 side s = Ok (step s (ids, side)).

(** [iterateFaces] calls [body] on the quads of the tile, in the order of
    the pattern. *)
Lemma iterateFaces_calls (t : list Z) (offset : Z) (reverse : bool) (stype : Z) (s : S) :
  quads_ok -> length t = npts T ->
  iterateFaces T t offset reverse stype body s
  = Ok (fold_left step (tile_faces t offset reverse stype) s).
Proof.
  intros Hq Ht. unfold iterateFaces, tile_faces. fold nquads.
  rewrite <- flat_map_singletons. apply for_range_calls. intros i s' Hi.
  destruct (quad_point t i 0 Hq Ht ltac:(lia) ltac:(lia)) as (q0 & Hq0 & -> & _ & Hp0).
  destruct (quad_point t i 1 Hq Ht ltac:(lia) ltac:(lia)) as (q1 & Hq1 & -> & _ & Hp1).
  destruct (quad_point t i 2 Hq Ht ltac:(lia) ltac:(lia)) as (q2 & Hq2 & -> & _ & Hp2).
  destruct (quad_point t i 3 Hq Ht ltac:(lia) ltac:(lia)) as (q3 & Hq3 & -> & _ & Hp3).
  unfold quad_ids.
  destruct reverse.
  - destruct (vec_get_four 3 2 1 0) as (E0 & E1 & E2 & E3).
    do 12 (rewrite ?E0, ?E1, ?E2, ?E3, ?Hq0, ?Hq1, ?Hq2, ?Hq3, ?Hp0, ?Hp1, ?Hp2, ?Hp3;
           cbn [mbind result_bind]).
    apply Hbody.
  - destruct (vec_get_four 0 1 2 3) as (E0 & E1 & E2 & E3).
    do 12 (rewrite ?E0, ?E1, ?E2, ?E3, ?Hq0, ?Hq1, ?Hq2, ?Hq3, ?Hp0, ?Hp1, ?Hp2, ?Hp3;
           cbn [mbind result_bind]).
    apply Hbody.
Qed.

End Faces.

(** The ids of a valid tile's faces are ids of points. *)
Lemma tile_faces_valid (t : list Z) (n : nat) (offset : Z) (reverse : bool) (stype : Z) :
  quads_ok -> valid_tile T t n ->
  Forall (fun seg : segment =>
            length (fst seg) = 4%nat /\ snd seg = stype /\
            Forall (fun id => offset <= id < offset + Z.of_nat n) (fst seg))
         (tile_faces t offset reverse stype).
Proof.
  intros Hq [Ht Hv]. unfold tile_faces. apply Forall_forall. intros seg Hin.
  apply list_elem_of_fmap in Hin as (i & -> & Hi). apply elem_of_up_from in Hi.
  cbn [fst snd].
  destruct (quad_point t i 0 Hq Ht ltac:(lia) ltac:(lia)) as (q0 & _ & -> & Hb0 & _).
  destruct (quad_point t i 1 Hq Ht ltac:(lia) ltac:(lia)) as (q1 & _ & -> & Hb1 & _).
  destruct (quad_point t i 2 Hq Ht ltac:(lia) ltac:(lia)) as (q2 & _ & -> & Hb2 & _).
  destruct (quad_point t i 3 Hq Ht ltac:(lia) ltac:(lia)) as (q3 & _ & -> & Hb3 & _).
  pose proof (Hv _ Hb0). pose proof (Hv _ Hb1).
  pose proof (Hv _ Hb2). pose proof (Hv _ Hb3).
  unfold quad_ids. split; [now destruct reverse|]. split; [reflexivity|].
  destruct reverse; repeat constructor; lia.
Qed.

End Elements.

(** ** Tiler: the 2D mesh as a whole *)

Section Mesh2D.

Variables (T : Tiler) (tiles : list (list Z)) (nx ny : Z) (n : nat).

(** The quads of all tiles, row by row. *)
Definition mesh_faces : list segment :=
  flat_map (fun j =>
    flat_map (fun i => tile_faces T (tile_at nx tiles j i) 0 false BoundaryBack)
             (up_from 0 (Z.to_nat nx)))
    (up_from 0 (Z.to_nat ny)).

(** What the two lambdas of [generate] do with a face and with a boundary
    segment. *)
Definition push_face (s : list Z * list Z) (seg : segment) : list Z * list Z :=
  (fst s ++ fst seg, snd s ++ [4]).

Definition push_segment (npts : Z) (s : list Z * list Z * list Z) (seg : segment)
  : list Z * list Z * list Z :=
  (fst (fst s) ++ fst seg, snd (fst s) ++ [npts], snd s ++ [snd seg]).

Lemma fold_push_face (segs : list segment) (c z : list Z) :
  fold_left push_face segs (c, z)
  = (c ++ concat (map fst segs), z ++ replicate (length segs) 4).
Proof.
  revert c z. induction segs as [|seg segs IH]; intros c z.
  - cbn. now rewrite !app_nil_r.
  - change (fold_left push_face (seg :: segs) (c, z))
      with (fold_left push_face segs (c ++ fst seg, z ++ [4])).
    rewrite IH. cbn [map concat length replicate]. now rewrite <- !app_assoc.
Qed.

Lemma fold_push_segment (npts : Z) (segs : list segment) (c z t : list Z) :
  fold_left (push_segment npts) segs (c, z, t)
  = (c ++ concat (map fst segs), z ++ replicate (length segs) npts, t ++ map snd segs).
Proof.
  revert c z t. induction segs as [|seg segs IH]; intros c z t.
  - cbn. now rewrite !app_nil_r.
  - change (fold_left (push_segment npts) (seg :: segs) (c, z, t))
      with (fold_left (push_segment npts) segs (c ++ fst seg, z ++ [npts], t ++ [snd seg])).
    rewrite IH. cbn [map concat length replicate]. now rewrite <- !app_assoc.
Qed.

Lemma length_up_from (lo : Z) (k : nat) : length (up_from lo k) = k.
Proof. revert lo. induction k as [|k IH]; intros lo; cbn; [reflexivity|now rewrite IH]. Qed.

Lemma length_down_from (hi : Z) (k : nat) : length (down_from hi k) = k.
Proof. revert hi. induction k as [|k IH]; intros hi; cbn; [reflexivity|now rewrite IH]. Qed.

Lemma length_flat_map_const {A B} (f : A -> list B) (l : list A) (k : nat) :
  (forall a, a ∈ l -> length (f a) = k) -> length (flat_map f l) = (length l * k)%nat.
Proof.
  induction l as [|a l IH]; intros Hf; [reflexivity|].
  cbn [flat_map length]. rewrite length_app, Hf, IH.
  - lia.
  - intros b Hb. apply Hf. now apply elem_of_cons; right.
  - apply elem_of_cons. now left.
Qed.

Lemma length_concat_const {A} (ls : list (list A)) (k : nat) :
  Forall (fun l => length l = k) ls -> length (concat ls) = (length ls * k)%nat.
Proof.
  induction 1 as [|l ls Hl _ IH]; [reflexivity|].
  cbn [concat length]. rewrite length_app, Hl, IH. lia.
Qed.

Hypothesis Hquads : quads_ok T.
Hypothesis Hedges : edges_ok T.
Hypothesis Hnx : 1 <= nx.
Hypothesis Hny : 1 <= ny.
Hypothesis Htiles_len : length tiles = Z.to_nat (nx * ny).
Hypothesis Hvalid :
  forall j i, 0 <= i < nx -> 0 <= j < ny -> valid_tile T (tile_at nx tiles j i) n.

(** The loop of [generate] over the tiles that adds their quads. *)
Lemma elements_2D_calls (s0 : list Z * list Z) :
  for_range 0 (Z.to_nat ny) (fun j s =>
    for_range 0 (Z.to_nat nx) (fun i s =>
      current ← vec_get tiles (j * nx + i);
      iterateFaces T current 0 false BoundaryBack
        (fun ids npts _ => push_element ids npts) s) s) s0
  = Ok (fold_left push_face mesh_faces s0).
Proof.
  unfold mesh_faces. apply for_range_calls. intros j s Hj.
  apply for_range_calls. intros i s' Hi.
  pose proof (tile_index nx ny j i ltac:(lia) ltac:(lia)) as Hq.
  rewrite (vec_get_at [] tiles (j * nx + i)) by lia. cbn [mbind result_bind].
  fold (tile_at nx tiles j i).
  apply (iterateFaces_calls T push_face (fun ids npts _ => push_element ids npts)).
  - reflexivity.
  - exact Hquads.
  - apply Hvalid; lia.
Qed.

Lemma mesh_faces_valid :
  Forall (fun seg : segment =>
            length (fst seg) = 4%nat /\
            Forall (fun id => 0 <= id < Z.of_nat n) (fst seg)) mesh_faces.
Proof.
  unfold mesh_faces. apply Forall_forall. intros seg Hin.
  apply elem_of_flat_map in Hin as (j & Hj & Hin). apply elem_of_up_from in Hj.
  apply elem_of_flat_map in Hin as (i & Hi & Hin). apply elem_of_up_from in Hi.
  pose proof (tile_faces_valid T _ n 0 false BoundaryBack Hquads
                (Hvalid j i ltac:(lia) ltac:(lia))) as Hall.
  destruct (proj1 (Forall_forall _ _) Hall seg Hin) as (Hl & _ & Hids).
  split; [exact Hl|exact Hids].
Qed.

Lemma length_mesh_faces :
  length mesh_faces = (Z.to_nat ny * (Z.to_nat nx * nquads T))%nat.
Proof.
  unfold mesh_faces.
  rewrite (length_flat_map_const _ _ (Z.to_nat nx * nquads T)), length_up_from; [reflexivity|].
  intros j _.
  rewrite (length_flat_map_const _ _ (nquads T)), length_up_from; [reflexivity|].
  intros i _. unfold tile_faces. now rewrite length_map, length_up_from.
Qed.

(** The ids of the boundary segments are ids of points. *)
Lemma boundary_segments_valid (flags : boundary_flags) :
  Forall (fun seg : segment =>
            length (fst seg) = 2%nat /\
            Forall (fun id => 0 <= id < Z.of_nat n) (fst seg))
         (boundary_segments T tiles nx ny flags).
Proof.
  destruct Hedges as (_ & Hbl & Hbr & Hbb & Hbt & _).
  assert (Hpt : forall j i edge a l,
             0 <= i < nx -> 0 <= j < ny -> in_bounds (npts T) edge ->
             edge !! a = Some l -> 0 <= pid (tile_at nx tiles j i) l < Z.of_nat n).
  { intros j i edge a l Hi Hj Hb Hl. apply (Hvalid j i Hi Hj).
    exact (lookup_in_bounds _ _ _ _ Hb Hl). }
  unfold boundary_segments. repeat apply Forall_app_2.
  - destruct (fLeft flags); [|constructor]. apply Forall_forall. intros seg Hin.
    apply elem_of_flat_map in Hin as (j & Hj & Hin). apply elem_of_down_from in Hj.
    apply elem_of_backward_segments in Hin as (a & l & l' & Hl & Hl' & ->).
    split; [reflexivity|].
    constructor; [apply (Hpt j 0 (m_left T) (Datatypes.S a) l'); [lia|lia|exact Hbl|exact Hl']|].
    constructor; [apply (Hpt j 0 (m_left T) (a) l); [lia|lia|exact Hbl|exact Hl]|constructor].
  - destruct (fBottom flags); [|constructor]. apply Forall_forall. intros seg Hin.
    apply elem_of_flat_map in Hin as (i & Hi & Hin). apply elem_of_up_from in Hi.
    apply elem_of_forward_segments in Hin as (a & l & l' & Hl & Hl' & ->).
    split; [reflexivity|].
    constructor; [apply (Hpt 0 i (m_bottom T) (a) l); [lia|lia|exact Hbb|exact Hl]|].
    constructor; [apply (Hpt 0 i (m_bottom T) (Datatypes.S a) l'); [lia|lia|exact Hbb|exact Hl']|constructor].
  - destruct (fRight flags); [|constructor]. apply Forall_forall. intros seg Hin.
    apply elem_of_flat_map in Hin as (j & Hj & Hin). apply elem_of_up_from in Hj.
    apply elem_of_forward_segments in Hin as (a & l & l' & Hl & Hl' & ->).
    split; [reflexivity|].
    constructor; [apply (Hpt j (nx - 1) (m_right T) (a) l); [lia|lia|exact Hbr|exact Hl]|].
    constructor; [apply (Hpt j (nx - 1) (m_right T) (Datatypes.S a) l'); [lia|lia|exact Hbr|exact Hl']|constructor].
  - destruct (fTop flags); [|constructor]. apply Forall_forall. intros seg Hin.
    apply elem_of_flat_map in Hin as (i & Hi & Hin). apply elem_of_down_from in Hi.
    apply elem_of_backward_segments in Hin as (a & l & l' & Hl & Hl' & ->).
    split; [reflexivity|].
    constructor; [apply (Hpt (ny - 1) i (m_top T) (Datatypes.S a) l'); [lia|lia|exact Hbt|exact Hl']|].
    constructor; [apply (Hpt (ny - 1) i (m_top T) (a) l); [lia|lia|exact Hbt|exact Hl]|constructor].
Qed.

End Mesh2D.

(** ** Tiler: [generate] in 2D *)

Section Generate2D.

Lemma boundaryFlags_total (options : options_node) :
  exists flags, boundaryFlags options = Ok flags.
Proof.
  unfold boundaryFlags.
  destruct (o_domain options) as [domain|]; [|eexists; reflexivity].
  destruct (o_domains options) as [domains|]; [|eexists; reflexivity].
  destruct (Nat.eqb_spec (length domain) 3) as [H3|]; [|eexists; reflexivity].
  destruct (Nat.eqb_spec (length domain) (length domains)) as [Heq|]; [|eexists; reflexivity].
  cbn [andb].
  rewrite (vec_get_at 0 domain 0), (vec_get_at 0 domain 1), (vec_get_at 0 domain 2) by lia.
  rewrite (vec_get_at 0 domains 0), (vec_get_at 0 domains 1), (vec_get_at 0 domains 2) by lia.
  cbn [mbind result_bind]. destruct (Z.ltb _ _); eexists; reflexivity.
Qed.

Lemma to_data_type_small (int32 : bool) (v : list Z) :
  Forall (fun id => - 2 ^ 31 <= id < 2 ^ 31) v -> to_data_type int32 v = v.
Proof.
  intros Hv. unfold to_data_type. destruct int32; [|reflexivity].
  induction Hv as [|id v Hid _ IH]; [reflexivity|].
  cbn [map]. rewrite IH. f_equal. now apply to_int_small.
Qed.

Lemma Forall_concat {A} (P : A -> Prop) (ls : list (list A)) :
  Forall (Forall P) ls -> Forall P (concat ls).
Proof.
  induction 1 as [|l ls Hl _ IH]; [constructor|]. cbn. now apply Forall_app_2.
Qed.

Lemma Forall_replicate_const {A} (P : A -> Prop) (k : nat) (a : A) :
  P a -> Forall P (replicate k a).
Proof. intros Ha. induction k; cbn; constructor; assumption. Qed.

End Generate2D.

Section Run2D.

Variable reorder_mesh :
  list Q * list Q * list Q * list Z * list Z ->
  result (list Q * list Q * list Q * list Z * list Z * list Z).

(** What [generate] returns in 2D, reordering turned off: the points of the
    pass, the faces of the tiles and the segments of the boundary. *)
Lemma generate_2D_run T nx ny nz options r origin0 origin1 origin2 tx ty z1 :
  edges_ok T -> quads_ok T -> m_left T <> [] -> m_bottom T <> [] ->
  1 <= nx -> 1 <= ny -> nz < 1 ->
  nx * ny * Z.of_nat (npts T) < 2 ^ 31 ->
  o_tile options = None ->
  o_reorder options = Some r -> to_int r <= 0 ->
  placement T nx ny nz options = Ok (origin0, origin1, origin2, tx, ty, z1) ->
  exists pts flags,
    make_points T nx ny (transform T origin0 origin1 tx ty) origin0 tx ty = Ok pts /\
    boundaryFlags options = Ok flags /\
    length (ps_tiles pts) = Z.to_nat (nx * ny) /\
    length (ps_y pts) = length (ps_x pts) /\
    (forall j i, 0 <= i < nx -> 0 <= j < ny ->
       valid_tile T (tile_at nx (ps_tiles pts) j i) (length (ps_x pts))) /\
    let faces := mesh_faces T (ps_tiles pts) nx ny in
    let segs := boundary_segments T (ps_tiles pts) nx ny flags in
    generate reorder_mesh T nx ny nz options
    = Ok {| coords_x := ps_x pts; coords_y := ps_y pts; coords_z := [];
            elements_shape := "quad";
            elements_connectivity := concat (map fst faces);
            elements_sizes := replicate (length faces) 4;
            topologies_boundary :=
              match concat (map fst segs) with
              | [] => None
              | _ => Some {| b_shape := "line";
                             b_connectivity := concat (map fst segs);
                             b_sizes := replicate (length segs) 2;
                             boundary_type := map snd segs |}
              end |}.
Proof.
  intros Hedges Hquads Hleft Hbottom Hnx Hny Hnz Hsmall Htile Hreorder Hr Hplace.
  destruct (make_points_spec T nx ny origin0 origin1 tx ty 1%Q 1%Q
              (transform T origin0 origin1 tx ty) Hedges Hnx Hny Hsmall)
    as (pts & Hrun & Hlen & Hxy & Hcount & Hdone & _).
  destruct (boundaryFlags_total options) as [flags Hflags].
  assert (Hvalid : forall j i, 0 <= i < nx -> 0 <= j < ny ->
             valid_tile T (tile_at nx (ps_tiles pts) j i) (length (ps_x pts))).
  { intros j i Hi Hj. apply Hdone. unfold done. lia. }
  assert (Hn : Z.of_nat (length (ps_x pts)) < 2 ^ 31) by lia.
  pose proof (mesh_faces_valid T (ps_tiles pts) nx ny (length (ps_x pts))
                Hquads Hnx Hny Hlen Hvalid) as Hfaces.
  pose proof (boundary_segments_valid T (ps_tiles pts) nx ny (length (ps_x pts))
                Hedges Hnx Hny Hlen Hvalid flags) as Hsegs.
  pose proof (elements_2D_calls T (ps_tiles pts) nx ny (length (ps_x pts))
                Hquads Hnx Hny Hlen Hvalid ([], [])) as Helems.
  rewrite fold_push_face in Helems. cbn [app] in Helems.
  assert (Hbnd : iterateBoundary2D T (ps_tiles pts) nx ny flags
                   (push_boundary false []) ([], [], [])
                 = Ok (concat (map fst (boundary_segments T (ps_tiles pts) nx ny flags)),
                       replicate (length (boundary_segments T (ps_tiles pts) nx ny flags)) 2,
                       map snd (boundary_segments T (ps_tiles pts) nx ny flags))).
  { rewrite (iterateBoundary2D_calls (push_segment 2) (push_boundary false [])).
    - now rewrite fold_push_segment.
    - intros ids side [[c z] t]. reflexivity.
    - exact Hnx.
    - exact Hny.
    - exact Hedges.
    - exact Hleft.
    - exact Hbottom.
    - exact Hlen.
    - intros j i Hi Hj. apply (Hvalid j i Hi Hj). }
  exists pts, flags.
  split; [exact Hrun|]. split; [exact Hflags|]. split; [exact Hlen|].
  split; [exact Hxy|]. split; [exact Hvalid|]. cbv zeta.
  unfold generate.
  rewrite Htile. cbn [mbind result_bind]. rewrite Hreorder, Hplace.
  cbn [mbind result_bind]. rewrite Hrun. cbn [mbind result_bind].
  destruct (Z.ltb_spec nz 1) as [_|]; [|lia].
  rewrite Helems. cbn [mbind result_bind].
  destruct (Z.ltb_spec 0 (to_int r)) as [|_]; [lia|].
  cbn [mbind result_bind]. rewrite Hflags. cbn [mbind result_bind].
  rewrite Hbnd. cbn [mbind result_bind].
  set (int32 := match o_datatype options with Some _ => _ | None => _ end).
  assert (Hfv : Forall (fun id => - 2 ^ 31 <= id < 2 ^ 31)
                       (concat (map fst (mesh_faces T (ps_tiles pts) nx ny)))).
  { apply Forall_concat, Forall_fmap. eapply Forall_impl; [exact Hfaces|].
    intros seg [_ Hs]. eapply Forall_impl; [exact Hs|]. cbn beta. intros id Hid. lia. }
  assert (Hsv : Forall (fun id => - 2 ^ 31 <= id < 2 ^ 31)
                       (concat (map fst (boundary_segments T (ps_tiles pts) nx ny flags)))).
  { apply Forall_concat, Forall_fmap. eapply Forall_impl; [exact Hsegs|].
    intros seg [_ Hs]. eapply Forall_impl; [exact Hs|]. cbn beta. intros id Hid. lia. }
  rewrite !(to_data_type_small int32 (concat _)) by assumption.
  rewrite !(to_data_type_small int32 (replicate _ _))
    by (apply Forall_replicate_const; lia).
  reflexivity.
Qed.

End Run2D.

(** X9: for [nz < 1], a pattern whose edges and quads name template points
    (with the edge conditions of the pass) and reordering turned off,
    [generate] returns a mesh: the coordinates of the pass, no [z], shape
    [quad]; [nx * ny * (|quads| / 4)] elements of size 4, tile by tile in
    row order, whose connectivity holds ids of points only; and, unless no
    side is enabled, the boundary topology of shape [line] with the
    segments of [iterateBoundary2D], their sizes 2 and their sides, again
    ids of points only. *)
Theorem generate_2D_well_formed :
  forall reorder_mesh T nx ny nz options r origin0 origin1 origin2 tx ty z1,
    edges_ok T -> quads_ok T -> m_left T <> [] -> m_bottom T <> [] ->
    1 <= nx -> 1 <= ny -> nz < 1 ->
    nx * ny * Z.of_nat (npts T) < 2 ^ 31 ->
    o_tile options = None ->
    o_reorder options = Some r -> to_int r <= 0 ->
    placement T nx ny nz options = Ok (origin0, origin1, origin2, tx, ty, z1) ->
    exists pts flags out,
      make_points T nx ny (transform T origin0 origin1 tx ty) origin0 tx ty = Ok pts /\
      boundaryFlags options = Ok flags /\
      generate reorder_mesh T nx ny nz options = Ok out /\
      coords_x out = ps_x pts /\ coords_y out = ps_y pts /\ coords_z out = [] /\
      length (coords_y out) = length (coords_x out) /\
      elements_shape out = "quad" /\
      elements_sizes out = replicate (Z.to_nat ny * (Z.to_nat nx * nquads T)) 4 /\
      length (elements_connectivity out)
      = (Z.to_nat ny * (Z.to_nat nx * nquads T) * 4)%nat /\
      Forall (fun id => 0 <= id < Z.of_nat (length (coords_x out)))
             (elements_connectivity out) /\
      let segs := boundary_segments T (ps_tiles pts) nx ny flags in
      topologies_boundary out
      = match segs with
        | [] => None
        | _ => Some {| b_shape := "line";
                       b_connectivity := concat (map fst segs);
                       b_sizes := replicate (length segs) 2;
                       boundary_type := map snd segs |}
        end /\
      Forall (fun id => 0 <= id < Z.of_nat (length (coords_x out)))
             (concat (map fst segs)).
Proof.
  intros reorder_mesh T nx ny nz options r origin0 origin1 origin2 tx ty z1
         Hedges Hquads Hleft Hbottom Hnx Hny Hnz Hsmall Htile Hreorder Hr Hplace.
  destruct (generate_2D_run reorder_mesh T nx ny nz options r origin0 origin1 origin2
              tx ty z1 Hedges Hquads Hleft Hbottom Hnx Hny Hnz Hsmall Htile Hreorder
              Hr Hplace)
    as (pts & flags & Hrun & Hflags & Hlen & Hxy & Hvalid & Hgen).
  cbv zeta in Hgen.
  pose proof (mesh_faces_valid T (ps_tiles pts) nx ny (length (ps_x pts))
                Hquads Hnx Hny Hlen Hvalid) as Hfaces.
  pose proof (boundary_segments_valid T (ps_tiles pts) nx ny (length (ps_x pts))
                Hedges Hnx Hny Hlen Hvalid flags) as Hsegs.
  exists pts, flags. eexists.
  split; [exact Hrun|]. split; [exact Hflags|]. split; [exact Hgen|].
  cbn [coords_x coords_y coords_z elements_shape elements_sizes elements_connectivity
       topologies_boundary].
  repeat (split; [first [reflexivity|exact Hxy]|]).
  split; [now rewrite length_mesh_faces|].
  split.
  { rewrite (length_concat_const _ 4).
    - rewrite length_map. now rewrite length_mesh_faces.
    - apply Forall_fmap. eapply Forall_impl; [exact Hfaces|]. intros seg [Hl _]. exact Hl. }
  split.
  { apply Forall_concat, Forall_fmap. eapply Forall_impl; [exact Hfaces|].
    intros seg [_ Hs]. exact Hs. }
  split.
  - destruct (boundary_segments T (ps_tiles pts) nx ny flags) as [|seg segs'];
      [reflexivity|].
    apply Forall_cons in Hsegs as [[Hl2 _] _].
    destruct seg as [[|a ids] side]; [discriminate Hl2|]. reflexivity.
  - apply Forall_concat, Forall_fmap. eapply Forall_impl; [exact Hsegs|].
    intros seg [_ Hs]. exact Hs.
Qed.

Lemma default_quads_ok : quads_ok default_tiler.
Proof.
  unfold quads_ok, in_bounds. apply (bool_decide_unpack _). vm_compute. exact I.
Qed.

Lemma generate_2D_well_formed_witness :
  exists out,
    generate (fun _ => Err NoMessage) default_tiler 2 1 0 reorder_off = Ok out /\
    length (elements_connectivity out) = (1 * (2 * nquads default_tiler) * 4)%nat.
Proof.
  destruct (generate_2D_well_formed (fun _ => Err NoMessage) default_tiler 2 1 0
              reorder_off 0 0 0 0 (m_width default_tiler) (m_height default_tiler)
              (Qmax (m_width default_tiler) (m_height default_tiler) * inject_Z 0)%Q)
    as (pts & flags & out & _ & _ & Hgen & _ & _ & _ & _ & _ & _ & Hlen & _).
  - exact default_edges_ok.
  - exact default_quads_ok.
  - discriminate.
  - discriminate.
  - lia.
  - lia.
  - lia.
  - vm_compute. reflexivity.
  - reflexivity.
  - reflexivity.
  - vm_compute. discriminate.
  - reflexivity.
  - exists out. split; [exact Hgen|exact Hlen].
Defined.

(** ** Tiler: the sides a domain's boundary has *)

Section Sides2D.

Lemma forward_segments_side (side : Z) (ids : list Z) (seg : segment) :
  seg ∈ forward_segments side ids -> snd seg = side.
Proof. unfold forward_segments. intros H. now apply list_elem_of_fmap in H as (bi & -> & _). Qed.

Lemma backward_segments_side (side : Z) (ids : list Z) (seg : segment) :
  seg ∈ backward_segments side ids -> snd seg = side.
Proof. unfold backward_segments. intros H. now apply list_elem_of_fmap in H as (bi & -> & _). Qed.

Lemma forward_segments_some (side : Z) (ids : list Z) :
  (2 <= length ids)%nat -> exists seg, seg ∈ forward_segments side ids.
Proof.
  intros Hl. unfold forward_segments.
  destruct (length ids - 1)%nat as [|k] eqn:E; [lia|].
  cbn [up_from map]. eexists. apply elem_of_cons. now left.
Qed.

Lemma backward_segments_some (side : Z) (ids : list Z) :
  (2 <= length ids)%nat -> exists seg, seg ∈ backward_segments side ids.
Proof.
  intros Hl. unfold backward_segments.
  destruct (length ids - 1)%nat as [|k] eqn:E; [lia|].
  cbn [down_from map]. eexists. apply elem_of_cons. now left.
Qed.

Lemma up_from_some (lo : Z) (k : nat) : (1 <= k)%nat -> lo ∈ up_from lo k.
Proof. intros Hk. apply elem_of_up_from. lia. Qed.

Lemma down_from_some (hi : Z) (k : nat) : (1 <= k)%nat -> hi ∈ down_from hi k.
Proof. intros Hk. apply elem_of_down_from. lia. Qed.

Variables (T : Tiler) (tiles : list (list Z)) (nx ny : Z).

Hypothesis Hnx : 1 <= nx.
Hypothesis Hny : 1 <= ny.
Hypothesis Hleft : (2 <= length (m_left T))%nat.
Hypothesis Hright : (2 <= length (m_right T))%nat.
Hypothesis Hbottom : (2 <= length (m_bottom T))%nat.
Hypothesis Htop : (2 <= length (m_top T))%nat.

(** The sides that occur among the segments are the enabled ones. *)
Lemma boundary_sides (flags : boundary_flags) (side : Z) :
  side ∈ map snd (boundary_segments T tiles nx ny flags) <->
  (side = BoundaryLeft /\ fLeft flags = true) \/
  (side = BoundaryBottom /\ fBottom flags = true) \/
  (side = BoundaryRight /\ fRight flags = true) \/
  (side = BoundaryTop /\ fTop flags = true).
Proof.
  assert (HL : side ∈ map snd (left_side T tiles nx ny) <-> side = BoundaryLeft).
  { rewrite list_elem_of_fmap. unfold left_side. split.
    - intros (seg & -> & Hin). apply elem_of_flat_map in Hin as (j & _ & Hin).
      now apply backward_segments_side in Hin.
    - intros ->.
      destruct (backward_segments_some BoundaryLeft (tile_ids tiles nx (ny - 1) 0 (m_left T)))
        as [seg Hseg]; [unfold tile_ids; now rewrite length_map|].
      exists seg. split; [symmetry; now apply backward_segments_side in Hseg|].
      apply elem_of_flat_map. exists (ny - 1). split; [apply down_from_some; lia|exact Hseg]. }
  assert (HB : side ∈ map snd (bottom_side T tiles nx) <-> side = BoundaryBottom).
  { rewrite list_elem_of_fmap. unfold bottom_side. split.
    - intros (seg & -> & Hin). apply elem_of_flat_map in Hin as (i & _ & Hin).
      now apply forward_segments_side in Hin.
    - intros ->.
      destruct (forward_segments_some BoundaryBottom (tile_ids tiles nx 0 0 (m_bottom T)))
        as [seg Hseg]; [unfold tile_ids; now rewrite length_map|].
      exists seg. split; [symmetry; now apply forward_segments_side in Hseg|].
      apply elem_of_flat_map. exists 0. split; [apply up_from_some; lia|exact Hseg]. }
  assert (HR : side ∈ map snd (right_side T tiles nx ny) <-> side = BoundaryRight).
  { rewrite list_elem_of_fmap. unfold right_side. split.
    - intros (seg & -> & Hin). apply elem_of_flat_map in Hin as (j & _ & Hin).
      now apply forward_segments_side in Hin.
    - intros ->.
      destruct (forward_segments_some BoundaryRight (tile_ids tiles nx 0 (nx - 1) (m_right T)))
        as [seg Hseg]; [unfold tile_ids; now rewrite length_map|].
      exists seg. split; [symmetry; now apply forward_segments_side in Hseg|].
      apply elem_of_flat_map. exists 0. split; [apply up_from_some; lia|exact Hseg]. }
  assert (HT : side ∈ map snd (top_side T tiles nx ny) <-> side = BoundaryTop).
  { rewrite list_elem_of_fmap. unfold top_side. split.
    - intros (seg & -> & Hin). apply elem_of_flat_map in Hin as (i & _ & Hin).
      now apply backward_segments_side in Hin.
    - intros ->.
      destruct (backward_segments_some BoundaryTop
                  (tile_ids tiles nx (ny - 1) (nx - 1) (m_top T)))
        as [seg Hseg]; [unfold tile_ids; now rewrite length_map|].
      exists seg. split; [symmetry; now apply backward_segments_side in Hseg|].
      apply elem_of_flat_map. exists (nx - 1). split; [apply down_from_some; lia|exact Hseg]. }
  unfold boundary_segments. rewrite !map_app, !elem_of_app.
  destruct (fLeft flags), (fBottom flags), (fRight flags), (fTop flags);
    cbn [map]; rewrite ?HL, ?HB, ?HR, ?HT, ?elem_of_nil; intuition congruence.
Qed.

End Sides2D.

(** X10: in a run of several domains, the 2D boundary topology of a domain
    has the segments of exactly the sides on which the domain ends the grid
    of domains: Left when [domain[0] = 0], Right when
    [domain[0] = domains[0] - 1], Bottom when [domain[1] = 0], Top when
    [domain[1] = domains[1] - 1]; a domain inside the grid has no boundary
    topology at all. *)
Theorem domain_boundary_sides :
  forall reorder_mesh T nx ny nz options r origin0 origin1 origin2 tx ty z1
         d0 d1 d2 n0 n1 n2,
    edges_ok T -> quads_ok T ->
    (2 <= length (m_left T))%nat -> (2 <= length (m_bottom T))%nat ->
    1 <= nx -> 1 <= ny -> nz < 1 ->
    nx * ny * Z.of_nat (npts T) < 2 ^ 31 ->
    o_tile options = None ->
    o_reorder options = Some r -> to_int r <= 0 ->
    placement T nx ny nz options = Ok (origin0, origin1, origin2, tx, ty, z1) ->
    o_domain options = Some [d0; d1; d2] ->
    o_domains options = Some [n0; n1; n2] ->
    1 < to_int (to_int (n0 * n1) * n2) ->
    exists out,
      generate reorder_mesh T nx ny nz options = Ok out /\
      let btype := match topologies_boundary out with
                   | Some b => boundary_type b
                   | None => []
                   end in
      (BoundaryLeft ∈ btype <-> d0 = 0) /\
      (BoundaryRight ∈ btype <-> d0 = to_int (n0 - 1)) /\
      (BoundaryBottom ∈ btype <-> d1 = 0) /\
      (BoundaryTop ∈ btype <-> d1 = to_int (n1 - 1)) /\
      (topologies_boundary out = None <->
       d0 <> 0 /\ d0 <> to_int (n0 - 1) /\ d1 <> 0 /\ d1 <> to_int (n1 - 1)).
Proof.
  intros reorder_mesh T nx ny nz options r origin0 origin1 origin2 tx ty z1
         d0 d1 d2 n0 n1 n2 Hedges Hquads Hleft Hbottom Hnx Hny Hnz Hsmall
         Htile Hreorder Hr Hplace Hd Hds Hndoms.
  assert (Hl0 : m_left T <> []) by (intros E; rewrite E in Hleft; cbn in Hleft; lia).
  assert (Hb0 : m_bottom T <> []) by (intros E; rewrite E in Hbottom; cbn in Hbottom; lia).
  destruct (generate_2D_run reorder_mesh T nx ny nz options r origin0 origin1 origin2
              tx ty z1 Hedges Hquads Hl0 Hb0 Hnx Hny Hnz Hsmall Htile Hreorder Hr Hplace)
    as (pts & flags & Hrun & Hflags & Hlen & Hxy & Hvalid & Hgen).
  cbv zeta in Hgen.
  pose proof (boundary_segments_valid T (ps_tiles pts) nx ny (length (ps_x pts))
                Hedges Hnx Hny Hlen Hvalid flags) as Hsegs.
  assert (Hright : (2 <= length (m_right T))%nat)
    by (destruct Hedges as (_ & _ & _ & _ & _ & <- & _); exact Hleft).
  assert (Htop : (2 <= length (m_top T))%nat)
    by (destruct Hedges as (_ & _ & _ & _ & _ & _ & <- & _); exact Hbottom).
  pose proof (boundary_sides T (ps_tiles pts) nx ny Hnx Hny Hleft Hright Hbottom Htop flags)
    as Hsides.
  (* the flags of this domain *)
  unfold boundaryFlags in Hflags. rewrite Hd, Hds in Hflags. simpl in Hflags.
  destruct (Z.ltb_spec 1 (to_int (to_int (n0 * n1) * n2))) as [_|]; [|lia].
  injection Hflags as <-. cbn [fLeft fRight fBottom fTop] in Hsides.
  set (segs := boundary_segments T (ps_tiles pts) nx ny _) in *.
  eexists. split; [exact Hgen|]. cbn [topologies_boundary].
  assert (Hnil : concat (map fst segs) = [] <-> map snd segs = []).
  { destruct segs as [|[[|a ids] side] segs']; [tauto| |split; discriminate].
    apply Forall_cons in Hsegs as [[Hl2 _] _]. discriminate Hl2. }
  assert (Hbtype : match (match concat (map fst segs) with
                          | [] => None
                          | _ => Some {| b_shape := "line";
                                         b_connectivity := concat (map fst segs);
                                         b_sizes := replicate (length segs) 2;
                                         boundary_type := map snd segs |}
                          end) with
                   | Some b => boundary_type b
                   | None => []
                   end = map snd segs).
  { destruct (concat (map fst segs)) eqn:E; [|reflexivity].
    symmetry. now apply Hnil. }
  rewrite Hbtype. unfold BoundaryLeft, BoundaryRight, BoundaryBottom, BoundaryTop in *.
  split; [rewrite Hsides, !Z.eqb_eq; intuition discriminate|].
  split; [rewrite Hsides, !Z.eqb_eq; intuition discriminate|].
  split; [rewrite Hsides, !Z.eqb_eq; intuition discriminate|].
  split; [rewrite Hsides, !Z.eqb_eq; intuition discriminate|].
  assert (Hnone : match concat (map fst segs) with
                  | [] => None
                  | _ => Some {| b_shape := "line";
                                 b_connectivity := concat (map fst segs);
                                 b_sizes := replicate (length segs) 2;
                                 boundary_type := map snd segs |}
                  end = None <-> map snd segs = []).
  { rewrite <- Hnil. destruct (concat (map fst segs)); split; congruence. }
  rewrite Hnone. split.
  - intros Hempty. rewrite Hempty in Hsides.
    pose proof (Hsides 0) as H0. pose proof (Hsides 1) as H1.
    pose proof (Hsides 2) as H2. pose proof (Hsides 3) as H3.
    rewrite elem_of_nil, !Z.eqb_eq in H0, H1, H2, H3.
    repeat split; intros E.
    + apply (proj2 H0). left. now split.
    + apply (proj2 H1). right. right. left. now split.
    + apply (proj2 H2). right. left. now split.
    + apply (proj2 H3). right. right. right. now split.
  - intros (H0 & H1 & H2 & H3).
    destruct (map snd segs) as [|side l] eqn:E; [reflexivity|].
    exfalso. pose proof (proj1 (Hsides side) ltac:(apply elem_of_cons; now left)) as Hs.
    rewrite !Z.eqb_eq in Hs. intuition.
Qed.

(** The middle domain of a 3 x 3 grid of domains. *)
Definition interior_domain : options_node :=
  {| o_tile := None; o_reorder := Some 0; o_datatype := None;
     o_extents := None; o_domain := Some [1; 1; 0]; o_domains := Some [3; 3; 1] |}.

Lemma domain_boundary_sides_witness :
  exists out,
    generate (fun _ => Err NoMessage) default_tiler 2 1 0 interior_domain = Ok out /\
    topologies_boundary out = None.
Proof.
  destruct (domain_boundary_sides (fun _ => Err NoMessage) default_tiler 2 1 0
              interior_domain 0
              (inject_Z (1 * 2) * m_width default_tiler)%Q
              (inject_Z (1 * 1) * m_height default_tiler)%Q
              (inject_Z 0 * (Qmax (m_width default_tiler) (m_height default_tiler) * inject_Z 0))%Q
              (m_width default_tiler) (m_height default_tiler)
              (inject_Z 0 * (Qmax (m_width default_tiler) (m_height default_tiler) * inject_Z 0)
               + Qmax (m_width default_tiler) (m_height default_tiler) * inject_Z 0)%Q
              1 1 0 3 3 1)
    as (out & Hgen & _ & _ & _ & _ & Hnone).
  - exact default_edges_ok.
  - exact default_quads_ok.
  - vm_compute. lia.
  - vm_compute. lia.
  - lia.
  - lia.
  - lia.
  - vm_compute. reflexivity.
  - reflexivity.
  - reflexivity.
  - vm_compute. discriminate.
  - reflexivity.
  - reflexivity.
  - reflexivity.
  - vm_compute. reflexivity.
  - exists out. split; [exact Hgen|]. apply Hnone. vm_compute. repeat split; discriminate.
Defined.

(** ** Tiler: where the options put the mesh *)

Section Placement.

(** Options that name the domain only. *)
Definition domain_options (domain domains : list Z) : options_node :=
  {| o_tile := None; o_reorder := None; o_datatype := None;
     o_extents := None; o_domain := Some domain; o_domains := Some domains |}.

(** The first steps of [generate]: the placement and the pass. *)
Definition placed_points (T : Tiler) (nx ny nz : Z) (options : options_node)
  : result point_state :=
  '(origin0, origin1, origin2, tx, ty, z1) ← placement T nx ny nz options;
  make_points T nx ny (transform T origin0 origin1 tx ty) origin0 tx ty.

Variables (T : Tiler) (nx ny : Z).

Hypothesis Hedges : edges_ok T.
Hypothesis Hor : pattern_oriented T.
Hypothesis Hnx : 1 <= nx.
Hypothesis Hny : 1 <= ny.
Hypothesis Hsmall : nx * ny * Z.of_nat (npts T) < 2 ^ 31.

(** The pass puts every tile where the origin and the tile sizes say. *)
Lemma pass_placed (origin0 origin1 tx ty : Q) :
  exists pts,
    make_points T nx ny (transform T origin0 origin1 tx ty) origin0 tx ty = Ok pts /\
    forall j i, 0 <= i < nx -> 0 <= j < ny ->
      placed T nx origin0 origin1 tx ty (scale_x T tx) (scale_y T ty)
             (ps_x pts) (ps_y pts) (ps_tiles pts) j i.
Proof.
  destruct (make_points_spec T nx ny origin0 origin1 tx ty (scale_x T tx) (scale_y T ty)
              (transform T origin0 origin1 tx ty) Hedges Hnx Hny Hsmall)
    as (pts & Hrun & _ & _ & _ & _ & Hgeo).
  exists pts. split; [exact Hrun|].
  destruct (Hgeo (oriented_geometry T origin0 origin1 tx ty Hor)) as (_ & _ & Hplaced).
  intros j i Hi Hj. apply Hplaced. unfold done. lia.
Qed.

End Placement.

(** X11: the meshes of neighbouring domains meet.  For a pattern whose
    coordinates, width and height are whole numbers of magnitude [2^20] at
    most, and domains of [int] components whose origins
    [(|d0| + 1) * nx * width] and [(|d1| + 1) * ny * height] are [2^50] at
    most (doubles compute such placements exactly), with the [domain] and
    [domains] options and no [extents]: the points on the right edge of a domain's last column have
    the coordinates of the points on the left edge of the first column of
    the domain to its right, row by row, and the points on the top edge of
    its last row those on the bottom edge of the first row of the domain
    above. *)
Theorem adjacent_domains_meet :
  forall T nx ny nz d0 d1 d2 n0 n1 n2,
    edges_ok T -> pattern_oriented T -> whole_pattern T = true ->
    - 2 ^ 31 <= d0 < 2 ^ 31 - 1 -> - 2 ^ 31 <= d1 < 2 ^ 31 - 1 ->
    whole (2 ^ 50) (inject_Z ((Z.abs d0 + 1) * nx) * m_width T) = true ->
    whole (2 ^ 50) (inject_Z ((Z.abs d1 + 1) * ny) * m_height T) = true ->
    1 <= nx -> 1 <= ny ->
    nx * ny * Z.of_nat (npts T) < 2 ^ 31 ->
    exists pts right above,
      placed_points T nx ny nz (domain_options [d0; d1; d2] [n0; n1; n2]) = Ok pts /\
      placed_points T nx ny nz (domain_options [d0 + 1; d1; d2] [n0; n1; n2]) = Ok right /\
      placed_points T nx ny nz (domain_options [d0; d1 + 1; d2] [n0; n1; n2]) = Ok above /\
      (forall j a l r, 0 <= j < ny ->
         m_left T !! a = Some l -> m_right T !! a = Some r ->
         (crd (ps_x pts) (pid (tile_at nx (ps_tiles pts) j (nx - 1)) r)
          == crd (ps_x right) (pid (tile_at nx (ps_tiles right) j 0) l))%Q /\
         (crd (ps_y pts) (pid (tile_at nx (ps_tiles pts) j (nx - 1)) r)
          == crd (ps_y right) (pid (tile_at nx (ps_tiles right) j 0) l))%Q) /\
      (forall i b l r, 0 <= i < nx ->
         m_bottom T !! b = Some l -> m_top T !! b = Some r ->
         (crd (ps_x pts) (pid (tile_at nx (ps_tiles pts) (ny - 1) i) r)
          == crd (ps_x above) (pid (tile_at nx (ps_tiles above) 0 i) l))%Q /\
         (crd (ps_y pts) (pid (tile_at nx (ps_tiles pts) (ny - 1) i) r)
          == crd (ps_y above) (pid (tile_at nx (ps_tiles above) 0 i) l))%Q).
Proof.
  intros T nx ny nz d0 d1 d2 n0 n1 n2 Hedges Hor _ _ _ _ _ Hnx Hny Hsmall.
  set (w := m_width T). set (h := m_height T).
  set (z1 := (Qmax w h * inject_Z nz)%Q).
  destruct (pass_placed T nx ny Hedges Hor Hnx Hny Hsmall
              (inject_Z (d0 * nx) * w)%Q (inject_Z (d1 * ny) * h)%Q w h)
    as (pts & Hrun & Hpl).
  destruct (pass_placed T nx ny Hedges Hor Hnx Hny Hsmall
              (inject_Z ((d0 + 1) * nx) * w)%Q (inject_Z (d1 * ny) * h)%Q w h)
    as (right & HrunR & HplR).
  destruct (pass_placed T nx ny Hedges Hor Hnx Hny Hsmall
              (inject_Z (d0 * nx) * w)%Q (inject_Z ((d1 + 1) * ny) * h)%Q w h)
    as (above & HrunA & HplA).
  exists pts, right, above.
  split; [exact Hrun|]. split; [exact HrunR|]. split; [exact HrunA|].
  pose proof (width_scaled T w Hor) as Hw. pose proof (height_scaled T h Hor) as Hh.
  split.
  - intros j a l r Hj Hl Hr.
    destruct (right_point T nx ny _ _ w h Hor _ _ _ Hedges Hnx Hpl j a l r Hj Hl Hr)
      as [Hx Hy].
    destruct (left_point T nx ny _ _ w h Hor _ _ _ Hedges Hnx HplR j a l Hj Hl)
      as [Hx' Hy'].
    rewrite Hx, Hy, Hx', Hy'. split; [|reflexivity].
    unfold brick_x1, brick_x0. rewrite !inject_Z_mult, inject_Z_plus.
    change (inject_Z 1) with 1%Q. ring.
  - intros i b l r Hi Hl Hr.
    destruct (top_point T nx ny _ _ w h Hor _ _ _ Hedges Hny Hpl i b l r Hi Hl Hr)
      as [Hy Hx].
    destruct (bottom_point T nx ny _ _ w h Hor _ _ _ Hedges Hny HplA i b l Hi Hl)
      as [Hy' Hx'].
    rewrite Hx, Hy, Hx', Hy'. split; [reflexivity|].
    unfold brick_y1, brick_y0. rewrite !inject_Z_mult, inject_Z_plus.
    change (inject_Z 1) with 1%Q. ring.
Qed.

Lemma adjacent_domains_meet_witness :
  exists pts right,
    placed_points default_tiler 1 1 0 (domain_options [0; 0; 0] [2; 1; 1]) = Ok pts /\
    placed_points default_tiler 1 1 0 (domain_options [0 + 1; 0; 0] [2; 1; 1]) = Ok right /\
    (crd (ps_x pts) (pid (tile_at 1 (ps_tiles pts) 0 (1 - 1)) 4)
     == crd (ps_x right) (pid (tile_at 1 (ps_tiles right) 0 0) 0))%Q.
Proof.
  destruct (adjacent_domains_meet default_tiler 1 1 0 0 0 0 2 1 1)
    as (pts & right & above & Hp & Hr & _ & Hmeet & _).
  - exact default_edges_ok.
  - exact default_oriented.
  - vm_compute. reflexivity.
  - lia.
  - lia.
  - vm_compute. reflexivity.
  - vm_compute. reflexivity.
  - lia.
  - lia.
  - vm_compute. reflexivity.
  - exists pts, right. split; [exact Hp|]. split; [exact Hr|].
    refine (proj1 (Hmeet 0 0%nat 0 4 _ _ _)); [lia|reflexivity|reflexivity].
Defined.

(** ** Tile ids and extents *)

Section TileIds.

Lemma fold_extents (l : list Q) :
  forall lo hi : Q,
    (lo <= hi)%Q ->
    let ext := fold_left (fun ext val => (Qmin (fst ext) val, Qmax (snd ext) val)) l (lo, hi) in
    (fst ext <= lo)%Q /\ (hi <= snd ext)%Q /\
    (forall v, v ∈ l -> (fst ext <= v <= snd ext)%Q) /\
    ((fst ext == lo)%Q \/ exists v, v ∈ l /\ (fst ext == v)%Q) /\
    ((snd ext == hi)%Q \/ exists v, v ∈ l /\ (snd ext == v)%Q).
Proof.
  induction l as [|val l IH]; intros lo hi Hle; cbn [fold_left fst snd].
  - split; [lra|]. split; [lra|]. split; [|split; now left].
    intros u Hu. now apply elem_of_nil in Hu.
  - assert (Hle' : (Qmin lo val <= Qmax hi val)%Q).
    { pose proof (Q.le_min_l lo val). pose proof (Q.le_max_l hi val). lra. }
    destruct (IH (Qmin lo val) (Qmax hi val) Hle') as (H1 & H2 & H3 & H4 & H5).
    pose proof (Q.le_min_l lo val). pose proof (Q.le_min_r lo val).
    pose proof (Q.le_max_l hi val). pose proof (Q.le_max_r hi val).
    split; [lra|]. split; [lra|]. split; [|split].
    + intros v Hv. apply elem_of_cons in Hv as [->|Hv]; [lra|now apply H3].
    + destruct H4 as [H4|(v & Hv & H4)].
      * destruct (Q.min_spec lo val) as [[_ E]|[_ E]];
          pose proof (Qeq_trans _ _ _ H4 E) as H4'.
        -- now left.
        -- right. exists val. split; [apply elem_of_cons; now left|exact H4'].
      * right. exists v. split; [apply elem_of_cons; now right|exact H4].
    + destruct H5 as [H5|(v & Hv & H5)].
      * destruct (Q.max_spec hi val) as [[_ E]|[_ E]];
          pose proof (Qeq_trans _ _ _ H5 E) as H5'.
        -- right. exists val. split; [apply elem_of_cons; now left|exact H5'].
        -- now left.
      * right. exists v. split; [apply elem_of_cons; now right|exact H5].
Qed.

End TileIds.

(** X13: [setPointIds] and then [getPointIds] with the same indices gives
    the ids back, when no index occurs twice and every index is one of the
    tile (and there are as many ids); the ids at all other indices are as
    before. *)
Theorem setPointIds_then_getPointIds :
  forall ptids indices ids,
    in_bounds (length ptids) indices ->
    length indices = length ids ->
    NoDup indices ->
    exists ptids',
      Tile.setPointIds ptids indices ids = Ok ptids' /\
      Tile.getPointIds ptids' indices = Ok ids /\
      length ptids' = length ptids /\
      forall k, 0 <= k -> k ∉ indices -> pid ptids' k = pid ptids k.
Proof.
  intros ptids indices ids Hin Hlen Hnd.
  destruct (setPointIds_spec indices ptids ids Hin Hlen Hnd)
    as (ptids' & Hset & Hl & Hat & Hother).
  exists ptids'. split; [exact Hset|]. split; [|split; [exact Hl|exact Hother]].
  rewrite getPointIds_spec by (now rewrite Hl). f_equal.
  apply list_eq. intros a. rewrite list_lookup_fmap.
  destruct (indices !! a) as [idx|] eqn:Hidx; cbn.
  - destruct (lookup_lt_is_Some_2 ids a) as [id Hid].
    { rewrite <- Hlen. eapply lookup_lt_Some; eauto. }
    rewrite Hid. f_equal. now apply (Hat a).
  - symmetry. apply lookup_ge_None. rewrite <- Hlen. now apply lookup_ge_None.
Qed.

Lemma setPointIds_then_getPointIds_witness :
  exists ptids',
    Tile.setPointIds (Tile.reset 4) [2; 0] [7; 9] = Ok ptids' /\
    Tile.getPointIds ptids' [2; 0] = Ok [7; 9].
Proof.
  destruct (setPointIds_then_getPointIds (Tile.reset 4) [2; 0] [7; 9])
    as (ptids' & Hset & Hget & _).
  - repeat constructor; cbn; lia.
  - reflexivity.
  - apply (bool_decide_unpack _). vm_compute. exact I.
  - exists ptids'. split; [exact Hset|exact Hget].
Defined.

(** X14: [computeExtents] of a vector of whole numbers of magnitude [2^52]
    at most (doubles subtract such values exactly) that is not empty is the
    spread of its values: the difference of two of them, not negative, and
    no two values differ by more. *)
Theorem computeExtents_is_spread :
  forall values e,
    forallb (whole (2 ^ 52)) values = true ->
    computeExtents values = Ok e ->
    (0 <= e)%Q /\
    (forall a b, a ∈ values -> b ∈ values -> (a - b <= e)%Q) /\
    (exists a b, a ∈ values /\ b ∈ values /\ (e == a - b)%Q).
Proof.
  intros values e _ H. unfold computeExtents in H.
  bind_as H v0 E0. injection H as <-.
  apply vec_get_Ok in E0 as [_ E0].
  assert (Hv0 : v0 ∈ values) by (eapply list_elem_of_lookup_2; exact E0).
  destruct (fold_extents values v0 v0 ltac:(lra)) as (H1 & H2 & H3 & H4 & H5).
  cbv zeta in H1, H2, H3, H4, H5.
  set (ext := fold_left _ values (v0, v0)) in *.
  split; [lra|]. split.
  - intros a b Ha Hb. pose proof (H3 a Ha). pose proof (H3 b Hb). lra.
  - assert (Hlo : exists b, b ∈ values /\ (fst ext == b)%Q).
    { destruct H4 as [H4|H4]; [exists v0; now split|exact H4]. }
    assert (Hhi : exists a, a ∈ values /\ (snd ext == a)%Q).
    { destruct H5 as [H5|H5]; [exists v0; now split|exact H5]. }
    destruct Hlo as (b & Hb & Eb). destruct Hhi as (a & Ha & Ea).
    exists a, b. split; [exact Ha|]. split; [exact Hb|]. rewrite Ea, Eb. reflexivity.
Qed.

Lemma computeExtents_is_spread_witness :
  exists e, computeExtents default_xpts = Ok e /\ (0 <= e)%Q.
Proof.
  destruct (computeExtents default_xpts) as [e|err] eqn:E;
    [|vm_compute in E; discriminate E].
  exists e. split; [reflexivity|].
  refine (proj1 (computeExtents_is_spread default_xpts e _ E)).
  vm_compute. reflexivity.
Defined.

(** ** Tiler: the number of points *)

Section PointCount.

Lemma up_from_snoc (lo : Z) (n : nat) :
  up_from lo (Datatypes.S n) = up_from lo n ++ [lo + Z.of_nat n].
Proof.
  revert lo. induction n as [|n IH]; intros lo.
  - cbn. now rewrite Z.add_0_r.
  - change (up_from lo (Datatypes.S (Datatypes.S n)))
      with (lo :: up_from (lo + 1) (Datatypes.S n)).
    rewrite IH. cbn [up_from app]. do 3 f_equal. lia.
Qed.

Lemma NoDup_up_from (lo : Z) (n : nat) : NoDup (up_from lo n).
Proof.
  revert lo. induction n as [|n IH]; intros lo; cbn; constructor; [|apply IH].
  rewrite elem_of_up_from. lia.
Qed.

(** The template points without an id. *)
Definition invalid_points (ptids : list Z) (n : nat) : list Z :=
  filter (fun k => pid ptids k = -1) (up_from 0 n).

(** [addPoints] adds one point for every template point without an id. *)
Lemma addPoints_count (T : Tiler) (M : matrix) (ptids : list Z) (x y : list Q)
    (ptids' : list Z) (x' y' : list Q) :
  addPoints T M ptids x y = Ok (ptids', x', y') ->
  length x' = (length x + length (invalid_points ptids (length (m_xpts T))))%nat.
Proof.
  unfold addPoints. intros H.
  enough (Hinv : let '(pt, x1, y1) := (ptids', x', y') in
            Z.of_nat (length x1)
            = Z.of_nat (length x)
              + Z.of_nat (length (invalid_points ptids
                                    (Z.to_nat (0 + Z.of_nat (length (m_xpts T)))))) /\
            forall k, 0 + Z.of_nat (length (m_xpts T)) <= k -> pid pt k = pid ptids k).
  { destruct Hinv as [Hc _]. rewrite Z.add_0_l, Nat2Z.id in Hc. lia. }
  refine (for_range_inv_ok
            (fun i (s : list Z * list Q * list Q) =>
               let '(pt, x1, y1) := s in
               Z.of_nat (length x1)
               = Z.of_nat (length x)
                 + Z.of_nat (length (invalid_points ptids (Z.to_nat i))) /\
               forall k, i <= k -> pid pt k = pid ptids k)
            _ _ _ _ _ _ _ H).
  - split; [|reflexivity]. change (Z.to_nat 0) with 0%nat.
    unfold invalid_points. cbn [up_from]. rewrite filter_nil. cbn [length]. lia.
  - intros i [[pt x1] y1] s' Hi [Hc Hk] Hb. unfold addPoints_body in Hb.
    bind_as Hb p Ep. apply (at_get (-1)) in Ep. fold (pid pt i) in Ep.
    rewrite Hk in Ep by lia.
    replace (Z.to_nat (i + 1)) with (Datatypes.S (Z.to_nat i)) by lia.
    unfold invalid_points in *. rewrite up_from_snoc, filter_app, length_app.
    replace (0 + Z.of_nat (Z.to_nat i)) with i by lia.
    unfold Tile.INVALID_POINT in Hb.
    destruct (Z.eqb_spec p (-1)) as [Hp|Hp].
    + bind_as Hb pt' Es. bind_as Hb xi Ex. bind_as Hb yi Ey. injection Hb as <-.
      apply vec_set_Ok in Es as [Hr ->].
      cbv beta iota. rewrite filter_cons_True by congruence.
      rewrite filter_nil, length_app. cbn [length].
      split; [lia|]. intros k Hki. rewrite pid_insert_ne by lia. apply Hk. lia.
    + injection Hb as <-. cbv beta iota. rewrite filter_cons_False by congruence.
      rewrite filter_nil. cbn [length]. split; [lia|]. intros k Hki. apply Hk. lia.
Qed.

Lemma filter_ext_in {A} (P1 P2 : A -> Prop)
    `{!forall a, Decision (P1 a)} `{!forall a, Decision (P2 a)} (l : list A) :
  (forall a, a ∈ l -> P1 a <-> P2 a) -> filter P1 l = filter P2 l.
Proof.
  induction l as [|a l IH]; intros Hext; [reflexivity|].
  assert (Ha : P1 a <-> P2 a) by (apply Hext, elem_of_cons; now left).
  assert (Hl : filter P1 l = filter P2 l)
    by (apply IH; intros b Hb; apply Hext, elem_of_cons; now right).
  destruct (decide (P1 a)) as [H1|H1].
  - rewrite !filter_cons_True by tauto. now rewrite Hl.
  - rewrite !filter_cons_False by tauto. exact Hl.
Qed.

(** Template point [k] of the tile in column [i] of row [j] has its id from
    a neighbour: from the left one, or from the one below. *)
Definition inherited (T : Tiler) (j i k : Z) : Prop :=
  (0 < i /\ k ∈ m_left T) \/ (0 < j /\ k ∈ m_bottom T).

#[local] Instance inherited_dec (T : Tiler) (j i k : Z) : Decision (inherited T j i k).
Proof. unfold inherited. apply _. Defined.

(** The template points that tile makes points for. *)
Definition new_points (T : Tiler) (j i : Z) : list Z :=
  filter (fun k => ~ inherited T j i k) (up_from 0 (npts T)).

(** One round of the pass makes the points no neighbour has made. *)
Lemma point_tile_count (T : Tiler) (nx ny : Z) (tx : Q) (j i : Z) (s s' : point_state) :
  edges_ok T ->
  0 <= i < nx -> 0 <= j < ny ->
  length (ps_tiles s) = Z.to_nat (nx * ny) ->
  (0 < i -> valid_tile T (tile_at nx (ps_tiles s) j (i - 1)) (length (ps_x s))) ->
  (0 < j -> valid_tile T (tile_at nx (ps_tiles s) (j - 1) i) (length (ps_x s))) ->
  point_tile T nx tx j i s = Ok s' ->
  length (ps_x s') = (length (ps_x s) + length (new_points T j i))%nat.
Proof.
  intros (Hly & Hbl & Hbr & Hbb & Hbt & Hlr & Hlbt & Hndl & Hndb & _)
         Hi Hj Hlt HprevX HprevY H.
  pose proof (tile_index nx ny j i Hi Hj) as Hq.
  assert (Hjn : 0 <= j * nx) by (apply Z.mul_nonneg_nonneg; lia).
  unfold point_tile in H.
  rewrite (vec_get_at [] (ps_tiles s) (j * nx + i)) in H by lia.
  cbn [mbind result_bind] in H. fold (npts T) in H.
  destruct (inherit_spec T (Z.ltb 0 i) (ps_tiles s) (j * nx + i - 1)
              (tile_at nx (ps_tiles s) j (i - 1)) (m_right T) (m_left T)
              (Tile.reset (npts T)))
    as (t1 & Ht1 & Hl1 & Hcopy1 & Hkeep1);
    [|exact Hbr|exact Hbl|exact Hlr|exact Hndl|apply length_replicate|].
  { intros Hc. apply Z.ltb_lt in Hc. split; [|apply HprevX; exact Hc].
    unfold tile_at. replace (j * nx + (i - 1)) with (j * nx + i - 1) by lia.
    apply vec_get_at. lia. }
  rewrite Ht1 in H. cbn [mbind result_bind] in H.
  destruct (inherit_spec T (Z.ltb 0 j) (ps_tiles s) ((j - 1) * nx + i)
              (tile_at nx (ps_tiles s) (j - 1) i) (m_top T) (m_bottom T) t1)
    as (t2 & Ht2 & Hl2 & Hcopy2 & Hkeep2);
    [|exact Hbt|exact Hbb|exact Hlbt|exact Hndb|exact Hl1|].
  { intros Hc. apply Z.ltb_lt in Hc. split; [|apply HprevY; exact Hc].
    apply vec_get_at. pose proof (tile_index nx ny (j - 1) i Hi ltac:(lia)). lia. }
  rewrite Ht2 in H. cbn [mbind result_bind] in H.
  destruct (addPoints T (ps_M s) t2 (ps_x s) (ps_y s)) as [[[t3 x'] y']|e] eqn:Hadd;
    [cbn [mbind result_bind] in H|discriminate H].
  bind_as H tiles' Et. injection H as <-. cbn [ps_x].
  rewrite (addPoints_count _ _ _ _ _ _ _ _ Hadd). f_equal. f_equal.
  unfold invalid_points, new_points. fold (npts T).
  apply filter_ext_in. intros k Hk. apply elem_of_up_from in Hk. unfold inherited.
  (* the ids a tile has before its own points are added *)
  destruct (decide (0 < j /\ k ∈ m_bottom T)) as [[Hj0 Hkb]|Hnb].
  - apply list_elem_of_lookup in Hkb as [b Hb].
    destruct (lookup_lt_is_Some_2 (m_top T) b) as [r Hr].
    { rewrite <- Hlbt. eapply lookup_lt_Some; eauto. }
    rewrite (Hcopy2 ltac:(now apply Z.ltb_lt) b k r Hb Hr).
    destruct (HprevY Hj0) as [_ Hv].
    pose proof (Hv r (lookup_in_bounds _ _ _ _ Hbt Hr)).
    pose proof (list_elem_of_lookup_2 _ _ _ Hb). split; [lia|tauto].
  - rewrite Hkeep2; [|lia|].
    2:{ destruct (Z.ltb_spec 0 j); [right; tauto|now left]. }
    destruct (decide (0 < i /\ k ∈ m_left T)) as [[Hi0 Hkl]|Hnl].
    + apply list_elem_of_lookup in Hkl as [a Ha].
      destruct (lookup_lt_is_Some_2 (m_right T) a) as [r Hr].
      { rewrite <- Hlr. eapply lookup_lt_Some; eauto. }
      rewrite (Hcopy1 ltac:(now apply Z.ltb_lt) a k r Ha Hr).
      destruct (HprevX Hi0) as [_ Hv].
      pose proof (Hv r (lookup_in_bounds _ _ _ _ Hbr Hr)).
      pose proof (list_elem_of_lookup_2 _ _ _ Ha). split; [lia|tauto].
    + rewrite Hkeep1; [|lia|].
      2:{ destruct (Z.ltb_spec 0 i); [right; tauto|now left]. }
      rewrite pid_reset by lia. split; [tauto|reflexivity].
Qed.

(** The number of points a tile makes, by whether it has a tile below and
    a tile on its left. *)
Definition fresh_count (T : Tiler) (below beside : bool) : Z :=
  Z.of_nat (length (new_points T (if below then 1 else 0) (if beside then 1 else 0))).

Lemma new_points_count (T : Tiler) (j i : Z) :
  Z.of_nat (length (new_points T j i)) = fresh_count T (Z.ltb 0 j) (Z.ltb 0 i).
Proof.
  unfold fresh_count, new_points. do 2 f_equal. apply list_filter_iff. intros k.
  unfold inherited.
  assert (Hj : 0 < j <-> 0 < (if Z.ltb 0 j then 1 else 0))
    by (destruct (Z.ltb_spec 0 j); lia).
  assert (Hi : 0 < i <-> 0 < (if Z.ltb 0 i then 1 else 0))
    by (destruct (Z.ltb_spec 0 i); lia).
  tauto.
Qed.

(** The number of elements of [0 .. n) outside a list without repetition. *)
Lemma count_outside (n : nat) (L : list Z) :
  NoDup L -> in_bounds n L ->
  Z.of_nat (length (filter (fun k => k ∉ L) (up_from 0 n)))
  = Z.of_nat n - Z.of_nat (length L).
Proof.
  intros Hnd Hin.
  pose proof (filter_app_complement (fun k => k ∈ L) (up_from 0 n)) as Hperm.
  apply Permutation_length in Hperm. rewrite length_app, length_up_from in Hperm.
  assert (HL : filter (fun k => k ∈ L) (up_from 0 n) ≡ₚ L).
  { apply NoDup_Permutation; [apply NoDup_filter, NoDup_up_from|exact Hnd|].
    intros k. rewrite list_elem_of_filter, elem_of_up_from. split; [tauto|].
    intros Hk. split; [exact Hk|].
    pose proof (proj1 (Forall_forall _ _) Hin k Hk) as Hb. cbv beta in Hb. lia. }
  apply Permutation_length in HL. lia.
Qed.

End PointCount.

Section PassCount.

Variables (T : Tiler) (nx ny : Z).
Variables (origin0 tx ty : Q).
Variable M0 : matrix.

Hypothesis Hedges : edges_ok T.
Hypothesis Hnx : 1 <= nx.
Hypothesis Hny : 1 <= ny.
Hypothesis Hsmall : nx * ny * Z.of_nat (npts T) < 2 ^ 31.

(** The points of the first [i] tiles of a row, and of the first [j]
    rows. *)
Definition within_row (below : bool) (i : Z) : Z :=
  if Z.eqb i 0 then 0
  else fresh_count T below false + (i - 1) * fresh_count T below true.

Definition rows_total (j : Z) : Z :=
  if Z.leb j 0 then 0 else within_row false nx + (j - 1) * within_row true nx.

(** The invariant of the pass, stated for a geometry that does not hold:
    the count does not rest on where the points lie. *)
Definition counted (j i : Z) (s : point_state) : Prop :=
  pass_inv T nx ny origin0 (M21 M0 + 1)%Q tx ty 1%Q 1%Q M0 j i s /\
  Z.of_nat (length (ps_x s)) = rows_total j + within_row (Z.ltb 0 j) i.

Lemma no_geometry : ~ geometry T (M21 M0 + 1)%Q tx ty 1%Q 1%Q M0.
Proof. intros (_ & _ & H21). lra. Qed.

Lemma counted_step (j i : Z) (s : point_state) :
  0 <= i < nx -> 0 <= j < ny -> counted j i s ->
  exists s', point_tile T nx tx j i s = Ok s' /\ counted j (i + 1) s'.
Proof.
  intros Hi Hj [Hinv Hcount].
  destruct (pass_step T nx ny origin0 (M21 M0 + 1)%Q tx ty 1%Q 1%Q M0
              Hedges Hnx Hny Hsmall j i s Hi Hj Hinv) as (s' & Hrun & Hinv' & _).
  { intros Hg. now apply no_geometry in Hg. }
  exists s'. split; [exact Hrun|]. split; [exact Hinv'|].
  pose proof Hinv as (Hlt & _ & _ & Hdone & _).
  pose proof (point_tile_count T nx ny tx j i s s' Hedges Hi Hj Hlt) as Hlen.
  rewrite Hlen; [| | |exact Hrun].
  - rewrite Nat2Z.inj_add, new_points_count, Hcount. unfold within_row.
    destruct (Z.eqb_spec (i + 1) 0); [lia|].
    destruct (Z.eqb_spec i 0) as [Hi0|Hi0], (Z.ltb_spec 0 i); lia.
  - intros Hi0. apply Hdone. unfold done. lia.
  - intros Hj0. apply Hdone. unfold done. lia.
Qed.

Lemma counted_row (j : Z) (s : point_state) :
  0 <= j < ny -> counted j 0 s ->
  exists s', point_row T nx origin0 tx ty j s = Ok s' /\ counted (j + 1) 0 s'.
Proof.
  intros Hj [Hinv Hcount].
  destruct (pass_row T nx ny origin0 (M21 M0 + 1)%Q tx ty 1%Q 1%Q M0
              Hedges Hnx Hny Hsmall j s Hj Hinv) as (s' & Hrun & Hinv').
  exists s'. split; [exact Hrun|]. split; [exact Hinv'|].
  unfold point_row in Hrun.
  set (s0 := {| ps_tiles := ps_tiles s; ps_x := ps_x s; ps_y := ps_y s;
                ps_M := set_M20 (ps_M s) origin0 |}) in Hrun.
  assert (H0 : counted j 0 s0).
  { split; [|exact Hcount]. destruct Hinv as (Hlt & Hxy & Hlen & Hdone & Hgeo).
    unfold pass_inv, s0. cbn [ps_tiles ps_x ps_y ps_M].
    split; [exact Hlt|]. split; [exact Hxy|]. split; [exact Hlen|].
    split; [exact Hdone|]. intros Hg. now apply no_geometry in Hg. }
  bind_as Hrun s1 Eloop. injection Hrun as <-. cbn [ps_x].
  pose proof (for_range_inv_ok (counted j) (point_tile T nx tx j) (Z.to_nat nx) 0 s0 s1 H0)
    as Hend.
  destruct Hend as [_ Hc]; [|exact Eloop|].
  { intros k sk sk' Hk Hck Hb.
    destruct (counted_step j k sk ltac:(lia) Hj Hck) as (sk'' & Hb' & Hck').
    rewrite Hb in Hb'. injection Hb' as ->. exact Hck'. }
  rewrite Hc. replace (0 + Z.of_nat (Z.to_nat nx)) with nx by lia.
  unfold rows_total, within_row.
  destruct (Z.leb_spec (j + 1) 0); [lia|].
  destruct (Z.leb_spec j 0), (Z.ltb_spec 0 j), (Z.ltb_spec 0 (j + 1)); try lia.
  - assert (j = 0) as -> by lia. cbn [Z.eqb]. lia.
  - cbn [Z.eqb]. lia.
Qed.

(** The pass makes the points of every tile that no neighbour made
    before. *)
Lemma make_points_counted :
  exists s,
    make_points T nx ny M0 origin0 tx ty = Ok s /\
    Z.of_nat (length (ps_x s))
    = fresh_count T false false + (nx - 1) * fresh_count T false true
      + (ny - 1) * (fresh_count T true false + (nx - 1) * fresh_count T true true).
Proof.
  unfold make_points.
  assert (0 <= nx * ny) by (apply Z.mul_nonneg_nonneg; lia).
  destruct (Z.ltb_spec (nx * ny) 0); [lia|].
  destruct (for_range_inv (fun j s => counted j 0 s)
              (point_row T nx origin0 tx ty) (Z.to_nat ny) 0
              {| ps_tiles := replicate (Z.to_nat (nx * ny)) [];
                 ps_x := []; ps_y := []; ps_M := M0 |}) as (s & Hrun & _ & Hc).
  - split; [|reflexivity]. unfold pass_inv. cbn [ps_tiles ps_x ps_y ps_M].
    split; [apply length_replicate|]. split; [reflexivity|].
    split; [cbn; lia|]. split.
    + intros j' i' (? & ? & [?|[? ?]]); lia.
    + intros Hg. now apply no_geometry in Hg.
  - intros j s Hj Hcj. apply counted_row; [lia|exact Hcj].
  - exists s. split; [exact Hrun|]. rewrite Hc.
    replace (0 + Z.of_nat (Z.to_nat ny)) with ny by lia.
    unfold rows_total, within_row.
    destruct (Z.leb_spec ny 0); [lia|].
    destruct (Z.eqb_spec nx 0); [lia|]. cbn [Z.eqb]. lia.
Qed.

End PassCount.

Section ClosedForm.

Variable T : Tiler.
Hypothesis Hedges : edges_ok T.

Lemma fresh_count_first : fresh_count T false false = Z.of_nat (npts T).
Proof.
  unfold fresh_count, new_points.
  rewrite (list_filter_iff _ (fun k => k ∉ @nil Z)).
  - rewrite count_outside; [cbn; lia|constructor|constructor].
  - intros k. unfold inherited. rewrite elem_of_nil. cbv iota.
    assert (H0 : ~ 0 < 0) by lia. tauto.
Qed.

Lemma fresh_count_beside :
  fresh_count T false true = Z.of_nat (npts T) - Z.of_nat (length (m_left T)).
Proof.
  destruct Hedges as (_ & Hbl & _ & _ & _ & _ & _ & Hndl & _).
  unfold fresh_count, new_points.
  rewrite (list_filter_iff _ (fun k => k ∉ m_left T)).
  - now apply count_outside.
  - intros k. unfold inherited. cbv iota.
    assert (H0 : ~ 0 < 0) by lia. assert (H1 : 0 < 1) by lia. tauto.
Qed.

Lemma fresh_count_above :
  fresh_count T true false = Z.of_nat (npts T) - Z.of_nat (length (m_bottom T)).
Proof.
  destruct Hedges as (_ & _ & _ & Hbb & _ & _ & _ & _ & Hndb & _).
  unfold fresh_count, new_points.
  rewrite (list_filter_iff _ (fun k => k ∉ m_bottom T)).
  - now apply count_outside.
  - intros k. unfold inherited. cbv iota.
    assert (H0 : ~ 0 < 0) by lia. assert (H1 : 0 < 1) by lia. tauto.
Qed.

Lemma fresh_count_inner :
  fresh_count T true true
  = Z.of_nat (npts T) - Z.of_nat (length (m_left T))
    - Z.of_nat (length (filter (fun k => k ∉ m_left T) (m_bottom T))).
Proof.
  destruct Hedges as (_ & Hbl & _ & Hbb & _ & _ & _ & Hndl & Hndb & _).
  unfold fresh_count, new_points.
  rewrite (list_filter_iff _
             (fun k => k ∉ m_left T ++ filter (fun k => k ∉ m_left T) (m_bottom T))).
  - rewrite count_outside.
    + rewrite length_app. lia.
    + apply NoDup_app. split; [exact Hndl|]. split; [|now apply NoDup_filter].
      intros k Hk Hk'. apply list_elem_of_filter in Hk' as [Hn _]. now apply Hn.
    + apply Forall_app. split; [exact Hbl|].
      apply Forall_forall. intros k Hk. apply list_elem_of_filter in Hk as [_ Hk].
      exact (proj1 (Forall_forall _ _) Hbb k Hk).
  - intros k. unfold inherited. rewrite elem_of_app, list_elem_of_filter.
    cbv iota. assert (H1 : 0 < 1) by lia.
    destruct (decide (k ∈ m_left T)); tauto.
Qed.

End ClosedForm.

(** X15: the pass makes [|points|] points for the first tile,
    [|points| - |left|] for every other tile of the first row,
    [|points| - |bottom|] for the first tile of every other row, and for
    every tile with neighbours on both sides the points that are neither on
    the left nor on the bottom edge: the mesh has
    [n + (nx-1)(n - l) + (ny-1)((n - b) + (nx-1)(n - l - b'))] points in a
    plane, [b'] counting the bottom points that are not left points. *)
Theorem make_points_count :
  forall T nx ny M origin0 tx ty,
    edges_ok T -> 1 <= nx -> 1 <= ny ->
    nx * ny * Z.of_nat (npts T) < 2 ^ 31 ->
    exists pts,
      make_points T nx ny M origin0 tx ty = Ok pts /\
      let n := Z.of_nat (npts T) in
      let l := Z.of_nat (length (m_left T)) in
      let b := Z.of_nat (length (m_bottom T)) in
      let b' := Z.of_nat (length (filter (fun k => k ∉ m_left T) (m_bottom T))) in
      Z.of_nat (length (ps_x pts))
      = n + (nx - 1) * (n - l) + (ny - 1) * ((n - b) + (nx - 1) * (n - l - b')).
Proof.
  intros T nx ny M origin0 tx ty Hedges Hnx Hny Hsmall.
  destruct (make_points_counted T nx ny origin0 tx ty M Hedges Hnx Hny Hsmall)
    as (pts & Hrun & Hc).
  exists pts. split; [exact Hrun|]. cbv zeta. rewrite Hc.
  rewrite fresh_count_first, (fresh_count_beside T Hedges), (fresh_count_above T Hedges),
    (fresh_count_inner T Hedges).
  reflexivity.
Qed.

Lemma make_points_count_witness :
  exists pts,
    make_points default_tiler 2 2 identity_matrix 0 20 20 = Ok pts /\
    Z.of_nat (length (ps_x pts)) = 113.
Proof.
  destruct (make_points_count default_tiler 2 2 identity_matrix 0 20 20)
    as (pts & Hrun & Hc).
  - exact default_edges_ok.
  - lia.
  - lia.
  - vm_compute. reflexivity.
  - exists pts. split; [exact Hrun|]. cbv zeta in Hc. rewrite Hc.
    vm_compute. reflexivity.
Defined.

(** ** map_chunks: chunks that name their destination *)

Section Gather.

Variable topology_length : Node -> Z.

Definition has_topologies (c : chunk) : Prop :=
  is_Some (fetch_ptr ["topologies"] (mesh c)).

(** The number of chunks of all ranks. *)
Definition chunk_count (all_chunks : list (list chunk)) : Z :=
  Z.of_nat (length (concat all_chunks)).

(** The global index of the first chunk of rank [r]. *)
Definition first_chunk (all_chunks : list (list chunk)) (r : nat) : Z :=
  Z.of_nat (length (concat (take r all_chunks))).

Definition chunk_elements (c : chunk) : Z :=
  match fetch_ptr ["topologies"] (mesh c) with
  | Some n_topos =>
      fold_left (fun len t => to_uint64 (len + topology_length (snd t)))
                (children n_topos) 0
  | None => 0
  end.

Definition info_of (c : chunk) : chunk_info :=
  {| num_elements := chunk_elements c;
     ci_destination_rank := destination_rank c;
     ci_destination_domain := destination_domain c |}.

Lemma local_chunk_info_spec (chunks : list chunk) :
  Forall has_topologies chunks ->
  local_chunk_info topology_length chunks = Ok (map info_of chunks).
Proof.
  unfold local_chunk_info.
  assert (Hgen : forall acc0,
             Forall has_topologies chunks ->
             for_each chunks (fun c acc1 =>
               n_topos ← match fetch_ptr ["topologies"] (mesh c) with
                         | Some t => Ok t
                         | None => Err (ConduitError "topologies")
                         end;
               Ok (acc1 ++ [ {| num_elements :=
                                  fold_left (fun len t =>
                                               to_uint64 (len + topology_length (snd t)))
                                            (children n_topos) 0;
                                ci_destination_rank := destination_rank c;
                                ci_destination_domain := destination_domain c |} ])) acc0
             = Ok (acc0 ++ map info_of chunks)).
  { induction chunks as [|c chunks IH]; intros acc0 Hall.
    - cbn. now rewrite app_nil_r.
    - apply Forall_cons in Hall as [[t Ht] Hall].
      cbn [for_each]. rewrite Ht. cbn [mbind result_bind].
      rewrite (IH _ Hall). rewrite <- app_assoc. cbn [app map].
      unfold info_of at 2, chunk_elements. rewrite Ht. reflexivity. }
  intros Hall. exact (Hgen [] Hall).
Qed.

Lemma gather_infos (all_chunks : list (list chunk)) (acc : list (list chunk_info)) :
  Forall (Forall has_topologies) all_chunks ->
  for_each all_chunks (fun chunks acc =>
      info ← local_chunk_info topology_length chunks; Ok (acc ++ [info])) acc
  = Ok (acc ++ map (map info_of) all_chunks).
Proof.
  revert acc. induction all_chunks as [|chunks rest IH]; intros acc Hall.
  - cbn. now rewrite app_nil_r.
  - apply Forall_cons in Hall as [Hc Hall].
    cbn [for_each]. rewrite (local_chunk_info_spec _ Hc). cbn [mbind result_bind].
    rewrite (IH _ Hall). rewrite <- app_assoc. reflexivity.
Qed.

Lemma concat_map_map {A B} (f : A -> B) (ls : list (list A)) :
  concat (map (map f) ls) = map f (concat ls).
Proof.
  induction ls as [|l ls IH]; [reflexivity|].
  cbn. now rewrite map_app, IH.
Qed.

Lemma gather_chunk_info_spec (all_chunks : list (list chunk)) :
  Forall (Forall has_topologies) all_chunks ->
  gather_chunk_info topology_length all_chunks =
  Ok (map (fun chunks => to_int (Z.of_nat (length chunks))) all_chunks,
      compute_offsets 0
        (map (fun chunks => to_int (Z.of_nat (length chunks))) all_chunks),
      map info_of (concat all_chunks)).
Proof.
  intros Hall. unfold gather_chunk_info, MPI_Allgather, MPI_Allgatherv.
  rewrite (gather_infos _ [] Hall). cbn [mbind result_bind app].
  now rewrite concat_map_map.
Qed.

End Gather.

Lemma length_concat_take {A} (ls : list (list A)) (r : nat) :
  (length (concat (take r ls)) <= length (concat ls))%nat.
Proof.
  rewrite <- (take_drop r ls) at 2. rewrite concat_app, length_app. lia.
Qed.

Lemma length_concat_elem {A} (ls : list (list A)) (l : list A) :
  l ∈ ls -> (length l <= length (concat ls))%nat.
Proof.
  induction ls as [|l0 ls IH]; [now intros ?%elem_of_nil|].
  cbn [concat]. rewrite length_app.
  intros [->|Hin]%elem_of_cons; [lia|]. specialize (IH Hin). lia.
Qed.

(** The counts of the ranks, when they fit an [int]. *)
Lemma counts_fit (all_chunks : list (list chunk)) :
  chunk_count all_chunks < 2 ^ 31 ->
  map (fun chunks => to_int (Z.of_nat (length chunks))) all_chunks =
  map (fun chunks => Z.of_nat (length chunks)) all_chunks.
Proof.
  unfold chunk_count. intros Hfit. apply map_ext_in. intros l Hin%list_elem_of_In.
  apply length_concat_elem in Hin. apply to_int_small. lia.
Qed.

Lemma total_chunks_spec (all_chunks : list (list chunk)) :
  chunk_count all_chunks < 2 ^ 31 ->
  total_chunks (map (fun chunks => Z.of_nat (length chunks)) all_chunks) =
  chunk_count all_chunks.
Proof.
  unfold total_chunks, chunk_count. intros Hfit.
  assert (Hgen : forall ls (acc : Z),
             0 <= acc -> acc + Z.of_nat (length (concat ls)) < 2 ^ 31 ->
             fold_left (fun n c => to_int (n + c))
                       (map (fun chunks : list chunk => Z.of_nat (length chunks)) ls) acc
             = acc + Z.of_nat (length (concat ls))).
  { induction ls as [|l ls IH]; intros acc Hacc Hlt.
    - cbn. lia.
    - cbn [map fold_left concat] in *. rewrite length_app in *.
      rewrite to_int_small by lia. rewrite IH; lia. }
  rewrite Hgen; lia.
Qed.

Lemma compute_offsets_length (acc : Z) (counts : list Z) :
  length (compute_offsets acc counts) = length counts.
Proof.
  revert acc. induction counts as [|n counts IH]; intros acc; [reflexivity|].
  cbn. now rewrite IH.
Qed.

Lemma compute_offsets_lookup {A} (ls : list (list A)) (acc : Z) (r : nat) :
  (r < length ls)%nat ->
  compute_offsets acc (map (fun l => Z.of_nat (length l)) ls) !! r =
  Some (acc + Z.of_nat (length (concat (take r ls)))).
Proof.
  revert acc r. induction ls as [|l ls IH]; intros acc r Hr; [cbn in Hr; lia|].
  destruct r as [|r].
  - cbn. f_equal. lia.
  - cbn [map compute_offsets lookup list_lookup take concat].
    change (compute_offsets (acc + Z.of_nat (length l))
              (map (fun l0 : list A => Z.of_nat (length l0)) ls) !! r =
            Some (acc + Z.of_nat (length (l ++ concat (take r ls))))).
    rewrite IH by (cbn in Hr; lia). rewrite length_app. f_equal. lia.
Qed.

(** Chunk [i] of rank [r] is the chunk [first_chunk r + i] of the gathered
    list. *)
Lemma concat_lookup {A} (ls : list (list A)) (r i : nat) (l : list A) (a : A) :
  ls !! r = Some l -> l !! i = Some a ->
  concat ls !! (length (concat (take r ls)) + i)%nat = Some a.
Proof.
  revert r. induction ls as [|l0 ls IH]; intros r Hl Ha; [discriminate|].
  destruct r as [|r].
  - injection Hl as ->. cbn. now apply lookup_app_l_Some.
  - cbn [take concat]. rewrite length_app, <- Nat.add_assoc.
    cbn [concat]. rewrite lookup_app_r by lia.
    replace (length l0 + (length (concat (take r ls)) + i) - length l0)%nat
      with (length (concat (take r ls)) + i)%nat by lia.
    now apply IH.
Qed.

(** The offsets [map_chunks] passes out for the chunks of all ranks. *)
Definition chunk_offsets (all_chunks : list (list chunk)) : list Z :=
  compute_offsets 0 (map (fun chunks => Z.of_nat (length chunks)) all_chunks).

(** The domains the chunks name, each once. *)
Definition distinct_domains (all_chunks : list (list chunk)) : list Z :=
  remove_dups (map destination_domain (concat all_chunks)).

Lemma filter_all {A} (P : A -> Prop) `{!forall x, Decision (P x)} (l : list A) :
  Forall P l -> filter P l = l.
Proof.
  induction 1 as [|x l Hx Hl IH]; [reflexivity|].
  now rewrite filter_cons_True, IH.
Qed.

Lemma filter_none {A} (P : A -> Prop) `{!forall x, Decision (P x)} (l : list A) :
  Forall (fun x => ~ P x) l -> filter P l = [].
Proof.
  induction 1 as [|x l Hx Hl IH]; [reflexivity|].
  now rewrite filter_cons_False.
Qed.

(** X16: when every chunk names its destination domain, [map_chunks] moves
    nothing: it passes out the destination rank and domain each chunk asked
    for, chunk [i] of rank [r] at the global index [offsets[r] + i], where
    [offsets[r]] is the number of chunks of the ranks before [r]; the
    warning is given exactly when there are chunks and the number of
    distinct domains is not [target]. *)
Theorem map_chunks_keeps_requested_destinations :
  forall topology_length size target all_chunks,
    Forall (Forall has_topologies) all_chunks ->
    chunk_count all_chunks < 2 ^ 31 ->
    Forall (Forall (fun c => 0 <= destination_domain c)) all_chunks ->
    exists m,
      map_chunks topology_length size target all_chunks = Ok m /\
      offsets m = chunk_offsets all_chunks /\
      Z.of_nat (length (dest_rank m)) = chunk_count all_chunks /\
      Z.of_nat (length (dest_domain m)) = chunk_count all_chunks /\
      (forall r chunks i c,
          all_chunks !! r = Some chunks -> chunks !! i = Some c ->
          vec_get (offsets m) (Z.of_nat r) = Ok (first_chunk all_chunks r) /\
          vec_get (dest_rank m) (first_chunk all_chunks r + Z.of_nat i)
            = Ok (destination_rank c) /\
          vec_get (dest_domain m) (first_chunk all_chunks r + Z.of_nat i)
            = Ok (destination_domain c)) /\
      (warned m = true <->
       concat all_chunks <> [] /\
       Z.of_nat (length (distinct_domains all_chunks)) <> target).
Proof.
  intros tl size target all_chunks Htopo Hfit Hfixed.
  unfold map_chunks. rewrite (gather_chunk_info_spec tl _ Htopo).
  cbn [mbind result_bind]. rewrite (counts_fit _ Hfit).
  unfold assign_destinations. rewrite (total_chunks_spec _ Hfit).
  assert (Hall : Forall (fun c => 0 <= destination_domain c) (concat all_chunks)).
  { apply Forall_concat. exact Hfixed. }
  assert (Hfree : filter (fun info => ci_destination_domain info < 0)
                         (map (info_of tl) (concat all_chunks)) = []).
  { apply filter_none. apply Forall_map. eapply Forall_impl; [exact Hall|].
    intros c Hc. cbn [ci_destination_domain info_of compose]. cbv beta in Hc. lia. }
  rewrite Hfree. cbn [length Z.of_nat]. rewrite Z.eqb_refl.
  eexists. split; [reflexivity|]. cbn [offsets dest_rank dest_domain warned].
  rewrite !length_map.
  split; [reflexivity|]. split; [reflexivity|]. split; [reflexivity|]. split.
  - intros r chunks i c Hr Hi. unfold first_chunk.
    pose proof (lookup_lt_Some _ _ _ Hr) as Hlt.
    pose proof (concat_lookup _ _ _ _ _ Hr Hi) as Hc.
    rewrite !map_map. split; [|split]; apply vec_get_Ok; (split; [lia|]).
    + rewrite Nat2Z.id, compute_offsets_lookup by exact Hlt. f_equal.
    + rewrite <- Nat2Z.inj_add, Nat2Z.id, list_lookup_fmap, Hc. reflexivity.
    + rewrite <- Nat2Z.inj_add, Nat2Z.id, list_lookup_fmap, Hc. reflexivity.
  - unfold unique_domains, distinct_domains.
    rewrite map_map. cbn [ci_destination_domain info_of].
    rewrite filter_all by (apply Forall_map; exact Hall).
    set (ds := remove_dups (map destination_domain (concat all_chunks))).
    assert (Hempty : ds = [] <-> concat all_chunks = []).
    { subst ds. destruct (concat all_chunks) as [|c l]; [easy|].
      split; [|discriminate]. intros He.
      assert (Hin : destination_domain c ∈ remove_dups (map destination_domain (c :: l))).
      { apply elem_of_remove_dups. cbn. apply elem_of_cons. now left. }
      rewrite He in Hin. now apply elem_of_nil in Hin. }
    rewrite andb_true_iff, !negb_true_iff, Nat.eqb_neq, Z.eqb_neq.
    rewrite <- Hempty.
    assert (Hlen : length ds <> 0%nat <-> ds <> []).
    { destruct ds; cbn [length]; split; intros H; try congruence; lia. }
    tauto.
Qed.

Definition fixed_chunk (r d : Z) : chunk :=
  {| mesh := Object [("topologies", Object [])]; owns := false;
     destination_rank := r; destination_domain := d |}.

Lemma map_chunks_keeps_requested_destinations_witness :
  exists m,
    map_chunks (fun _ => 1) 2 2 [[fixed_chunk 1 0]; [fixed_chunk 0 1; fixed_chunk 1 0]]
      = Ok m /\
    dest_rank m = [1; 0; 1] /\ dest_domain m = [0; 1; 0] /\ offsets m = [0; 1] /\
    warned m = false.
Proof.
  destruct (map_chunks_keeps_requested_destinations (fun _ => 1) 2 2
              [[fixed_chunk 1 0]; [fixed_chunk 0 1; fixed_chunk 1 0]])
    as (m & Hm & _).
  - repeat constructor; eexists; reflexivity.
  - vm_compute. reflexivity.
  - repeat constructor; cbn; lia.
  - exists m. split; [exact Hm|].
    vm_compute in Hm. injection Hm as <-. repeat split.
Defined.

(** X17: [map_chunks] refuses a mixture: when some chunk names a destination
    domain and some chunk leaves it open, it fails with the error "Invalid
    mixture of destination rank/domain specifications", whatever the ranks
    the chunks are on, [size] and [target]. *)
Theorem map_chunks_rejects_mixture :
  forall topology_length size target all_chunks c1 c2,
    Forall (Forall has_topologies) all_chunks ->
    chunk_count all_chunks < 2 ^ 31 ->
    c1 ∈ concat all_chunks -> 0 <= destination_domain c1 ->
    c2 ∈ concat all_chunks -> destination_domain c2 < 0 ->
    map_chunks topology_length size target all_chunks =
    Err (ConduitError "Invalid mixture of destination rank/domain specifications.").
Proof.
  intros tl size target all_chunks c1 c2 Htopo Hfit Hc1 Hd1 Hc2 Hd2.
  unfold map_chunks. rewrite (gather_chunk_info_spec tl _ Htopo).
  cbn [mbind result_bind]. rewrite (counts_fit _ Hfit).
  unfold assign_destinations. rewrite (total_chunks_spec _ Hfit).
  set (free := filter (fun info => ci_destination_domain info < 0)
                      (map (info_of tl) (concat all_chunks))).
  assert (Hin : info_of tl c2 ∈ free).
  { apply list_elem_of_filter. split; [exact Hd2|].
    apply list_elem_of_fmap. now exists c2. }
  assert (Hpos : (0 < length free)%nat).
  { destruct free; [now apply elem_of_nil in Hin|cbn; lia]. }
  assert (Hlt : (length free < length (concat all_chunks))%nat).
  { pose proof (filter_app_complement (fun info => ci_destination_domain info < 0)
                  (map (info_of tl) (concat all_chunks))) as Hperm.
    apply Permutation_length in Hperm. rewrite length_app, length_map in Hperm.
    fold free in Hperm.
    assert (Hin1 : info_of tl c1 ∈
              filter (fun info => ~ ci_destination_domain info < 0)
                     (map (info_of tl) (concat all_chunks))).
    { apply list_elem_of_filter. split; [cbn; lia|].
      apply list_elem_of_fmap. now exists c1. }
    destruct (filter (fun info => ~ ci_destination_domain info < 0)
                     (map (info_of tl) (concat all_chunks)));
      [now apply elem_of_nil in Hin1|cbn in Hperm; lia]. }
  destruct (Z.eqb_spec (Z.of_nat (length free)) 0) as [H0|_]; [lia|].
  unfold chunk_count.
  destruct (Z.eqb_spec (Z.of_nat (length free)) (Z.of_nat (length (concat all_chunks))))
    as [H0|_]; [lia|]. reflexivity.
Qed.

Lemma map_chunks_rejects_mixture_witness :
  map_chunks (fun _ => 1) 2 2
    [[fixed_chunk 1 0]; [fixed_chunk 0 (-1); fixed_chunk 1 0]] =
  Err (ConduitError "Invalid mixture of destination rank/domain specifications.").
Proof.
  apply (map_chunks_rejects_mixture (fun _ => 1) 2 2
           [[fixed_chunk 1 0]; [fixed_chunk 0 (-1); fixed_chunk 1 0]]
           (fixed_chunk 1 0) (fixed_chunk 0 (-1))).
  - repeat constructor; eexists; reflexivity.
  - vm_compute. reflexivity.
  - cbn. apply elem_of_cons. now left.
  - cbn. lia.
  - cbn. apply elem_of_cons. right. apply elem_of_cons. now left.
  - cbn. lia.
Defined.

(** ** communicate_chunks: who sends, who receives *)

(** The rank that holds each global chunk, from rank [r] on. *)
Fixpoint owners (r : Z) (all_chunks : list (list chunk)) : list Z :=
  match all_chunks with
  | [] => []
  | chunks :: rest => replicate (length chunks) r ++ owners (r + 1) rest
  end.

Lemma owners_length (r : Z) (all_chunks : list (list chunk)) :
  length (owners r all_chunks) = length (concat all_chunks).
Proof.
  revert r. induction all_chunks as [|l ls IH]; intros r; [reflexivity|].
  cbn [owners concat]. now rewrite !length_app, length_replicate, IH.
Qed.

Lemma owners_snoc (r : Z) (ls : list (list chunk)) (l : list chunk) :
  owners r (ls ++ [l]) = owners r ls ++ replicate (length l) (r + Z.of_nat (length ls)).
Proof.
  revert r. induction ls as [|l0 ls IH]; intros r.
  - cbn. now rewrite app_nil_r, Z.add_0_r.
  - cbn [app owners length]. rewrite IH, <- app_assoc. do 3 f_equal. lia.
Qed.

Lemma owners_lookup (ls : list (list chunk)) (r0 : Z) (r i : nat) (l : list chunk) :
  ls !! r = Some l -> (i < length l)%nat ->
  owners r0 ls !! (length (concat (take r ls)) + i)%nat = Some (r0 + Z.of_nat r).
Proof.
  revert r0 r. induction ls as [|l0 ls IH]; intros r0 r Hl Hi; [discriminate|].
  destruct r as [|r].
  - injection Hl as ->. cbn [take concat length owners Nat.add].
    rewrite lookup_app_l by (rewrite length_replicate; lia).
    rewrite Z.add_0_r. now apply lookup_replicate_2.
  - cbn [take concat owners]. rewrite length_app, <- Nat.add_assoc.
    rewrite lookup_app_r by (rewrite length_replicate; lia).
    rewrite length_replicate.
    replace (length l0 + (length (concat (take r ls)) + i) - length l0)%nat
      with (length (concat (take r ls)) + i)%nat by lia.
    rewrite (IH (r0 + 1) r Hl Hi). f_equal. lia.
Qed.

(** The inner loop of the sender computation: [n] entries from [idx] on. *)
Lemma fill_run (pre : list Z) (n m : nat) (v w : Z) :
  (n <= m)%nat ->
  for_range 0 n (fun (_ : Z) (s : list Z * Z) =>
      let '(src_rank, idx) := s in
      src_rank ← vec_set src_rank idx w;
      Ok (src_rank, idx + 1)) (pre ++ replicate m v, Z.of_nat (length pre))
  = Ok (pre ++ replicate n w ++ replicate (m - n) v, Z.of_nat (length pre) + Z.of_nat n).
Proof.
  generalize 0 as lo. revert pre m. induction n as [|n IH]; intros pre m lo Hnm.
  - cbn. rewrite Nat.sub_0_r, Z.add_0_r. reflexivity.
  - cbn [for_range]. destruct m as [|m]; [lia|].
    rewrite vec_set_in_range by (rewrite length_app, length_replicate; cbn; lia).
    cbn [mbind result_bind]. rewrite Nat2Z.id.
    rewrite insert_app_r_alt by lia. rewrite Nat.sub_diag. cbn [replicate].
    change (<[0%nat:=w]> (v :: replicate m v)) with (w :: replicate m v).
    replace (pre ++ w :: replicate m v) with ((pre ++ [w]) ++ replicate m v)
      by now rewrite <- app_assoc.
    replace (Z.of_nat (length pre) + 1) with (Z.of_nat (length (pre ++ [w])))
      by (rewrite length_app; cbn; lia).
    rewrite (IH (pre ++ [w]) m (lo + 1)) by lia.
    rewrite <- app_assoc, length_app. cbn [app length replicate Nat.sub].
    do 2 f_equal. lia.
Qed.

Lemma chunk_offsets_get (all_chunks : list (list chunk)) (r : Z) :
  0 <= r < Z.of_nat (length all_chunks) ->
  vec_get (chunk_offsets all_chunks) r = Ok (first_chunk all_chunks (Z.to_nat r)).
Proof.
  intros Hr. apply vec_get_Ok. split; [lia|]. unfold chunk_offsets, first_chunk.
  rewrite compute_offsets_lookup by lia. f_equal.
Qed.

Lemma compute_src_rank_spec (all_chunks : list (list chunk)) :
  all_chunks <> [] ->
  compute_src_rank (Z.of_nat (length all_chunks)) (length (concat all_chunks))
    (chunk_offsets all_chunks) = Ok (owners 0 all_chunks).
Proof.
  intros Hne. unfold compute_src_rank.
  set (total := length (concat all_chunks)).
  set (size := Z.of_nat (length all_chunks)).
  assert (Hlen : (1 <= length all_chunks)%nat).
  { destruct all_chunks; [congruence|cbn [length]; lia]. }
  pose (P := fun (k : Z) (s : list Z * Z) =>
               let before := take (Z.to_nat (k - 1)) all_chunks in
               s = (owners 0 before
                    ++ replicate (total - length (concat before)) (size - 1),
                    Z.of_nat (length (concat before)))).
  match goal with
  | |- mbind _ (for_range 1 ?n ?body ?s0) = _ =>
      destruct (for_range_inv P body n 1 s0) as (s' & Hrun & Hs')
  end.
  - unfold P. cbn [Z.sub Z.to_nat take concat length owners app Z.of_nat].
    change (Z.to_nat (1 - 1)) with 0%nat. cbn [take concat length owners app].
    rewrite Nat.sub_0_r. reflexivity.
  - intros k s Hk HP. unfold P in HP. cbn zeta in HP. subst s.
    unfold chunk_offsets in Hk. rewrite compute_offsets_length, length_map in Hk.
    assert (Hk' : 1 <= k < Z.of_nat (length all_chunks)) by (clear P; lia).
    clear Hk.
    rewrite (chunk_offsets_get all_chunks k) by (clear P; lia).
    rewrite (chunk_offsets_get all_chunks (k - 1)) by (clear P; lia).
    cbn [mbind result_bind]. unfold first_chunk.
    destruct (lookup_lt_is_Some_2 all_chunks (Z.to_nat (k - 1))) as [l Hl]; [clear P; lia|].
    replace (Z.to_nat k) with (Datatypes.S (Z.to_nat (k - 1))) by lia.
    rewrite (take_S_r _ _ _ Hl), concat_app, length_app. cbn [concat]. rewrite app_nil_r.
    replace (Z.to_nat (Z.of_nat (length (concat (take (Z.to_nat (k - 1)) all_chunks))
                                 + length l)%nat
                       - Z.of_nat (length (concat (take (Z.to_nat (k - 1)) all_chunks)))))
      with (length l) by lia.
    set (before := take (Z.to_nat (k - 1)) all_chunks).
    assert (Hroom : (length (concat before) + length l <= total)%nat).
    { subst total before.
      pose proof (length_concat_take all_chunks (Datatypes.S (Z.to_nat (k - 1)))) as Hle.
      rewrite (take_S_r _ _ _ Hl), concat_app, length_app in Hle. cbn [concat] in Hle.
      rewrite app_nil_r in Hle. exact Hle. }
    rewrite <- (owners_length 0 before).
    rewrite (fill_run (owners 0 before) (length l) _ (size - 1) (k - 1)) by
      (rewrite owners_length; lia).
    eexists. split; [reflexivity|]. unfold P. cbn zeta.
    replace (Z.to_nat (k + 1 - 1)) with (Datatypes.S (Z.to_nat (k - 1))) by lia.
    rewrite (take_S_r _ _ _ Hl). fold before.
    rewrite owners_snoc, concat_app, length_app. cbn [concat]. rewrite app_nil_r.
    rewrite <- app_assoc, !owners_length.
    assert (Hb : length before = Z.to_nat (k - 1)).
    { subst before. rewrite length_take. clear P. lia. }
    rewrite Hb.
    replace (0 + Z.of_nat (Z.to_nat (k - 1))) with (k - 1) by (clear P; lia).
    replace (total - (length (concat before) + length l))%nat
      with (total - length (concat before) - length l)%nat by (clear P; lia).
    f_equal. clear P. lia.
  - rewrite Hrun. cbn [mbind result_bind]. unfold P in Hs'. cbn zeta in Hs'. subst s'.
    cbn [fst]. unfold chunk_offsets. rewrite compute_offsets_length, length_map.
    replace (Z.to_nat (1 + Z.of_nat (length all_chunks - 1) - 1))
      with (length all_chunks - 1)%nat by lia.
    destruct (lookup_lt_is_Some_2 all_chunks (length all_chunks - 1)) as [l Hl];
      [lia|].
    pose proof (take_S_r _ _ _ Hl) as Hlast.
    replace (Datatypes.S (length all_chunks - 1)) with (length all_chunks) in Hlast
      by lia.
    rewrite firstn_all in Hlast. f_equal.
    transitivity (owners 0 (take (length all_chunks - 1) all_chunks ++ [l]));
      [|now rewrite <- Hlast].
    rewrite owners_snoc. f_equal.
    assert (Htot : total = (length (concat (take (length all_chunks - 1) all_chunks))
                            + length l)%nat).
    { subst total. rewrite Hlast at 1. rewrite concat_app, length_app. cbn [concat].
      now rewrite app_nil_r. }
    rewrite length_take. f_equal; [clear P; lia|]. subst size. clear P. lia.
Qed.

(** The calls of [send_using_schema] for the chunks from global index [g]
    on, as [(dest, tag, node)]. *)
Fixpoint sends_of (rank g : Z) (chunks : list chunk) (dest_rank : list Z)
  : list (Z * Z * Node) :=
  match chunks with
  | [] => []
  | c :: rest =>
      (if Z.eqb (at_ 0 dest_rank g) rank then []
       else [(at_ 0 dest_rank g, PARTITION_TAG_BASE + g, node_copy (mesh c))])
      ++ sends_of rank (g + 1) rest dest_rank
  end.

(** The global chunks below [n] that go to [rank], in increasing order. *)
Definition destined (rank : Z) (dest_rank : list Z) (n : nat) : list Z :=
  filter (fun g => at_ 0 dest_rank g = rank) (up_from 0 n).

(** The node pushed for the global chunk [g] on [rank]: the wrapper of the
    local chunk when [g] is one of the rank's own, and else the node
    delivered from the owner of [g] under the tag of [g], renumbered. *)
Definition arriving (deliver : Z -> Z -> Node) (all_chunks : list (list chunk))
    (rank : Z) (chunks : list chunk) (g : Z) : Node :=
  let start := first_chunk all_chunks (Z.to_nat rank) in
  match (if Z.leb start g then chunks !! Z.to_nat (g - start) else None) with
  | Some c => wrap_local (mesh c) g
  | None =>
      set_path ["state"; "domain_id"] (Leaf (Int g))
        (deliver (at_ 0 (owners 0 all_chunks) g) (PARTITION_TAG_BASE + g))
  end.

Lemma sends_of_snoc (rank g : Z) (l : list chunk) (c : chunk) (dest_rank : list Z) :
  sends_of rank g (l ++ [c]) dest_rank =
  sends_of rank g l dest_rank ++
  (if Z.eqb (at_ 0 dest_rank (g + Z.of_nat (length l))) rank then []
   else [(at_ 0 dest_rank (g + Z.of_nat (length l)),
          PARTITION_TAG_BASE + (g + Z.of_nat (length l)), node_copy (mesh c))]).
Proof.
  revert g. induction l as [|c0 l IH]; intros g.
  - cbn [app sends_of length Z.of_nat]. rewrite Z.add_0_r, !app_nil_r. reflexivity.
  - cbn [app sends_of length]. rewrite IH, <- app_assoc.
    replace (g + 1 + Z.of_nat (length l)) with (g + Z.of_nat (Datatypes.S (length l)))
      by lia. reflexivity.
Qed.

Lemma elem_of_sends_of (rank g : Z) (chunks : list chunk) (dest_rank : list Z)
    (e : Z * Z * Node) :
  e ∈ sends_of rank g chunks dest_rank <->
  exists (i : nat) (c : chunk),
    chunks !! i = Some c /\ at_ 0 dest_rank (g + Z.of_nat i) <> rank /\
    e = (at_ 0 dest_rank (g + Z.of_nat i), PARTITION_TAG_BASE + (g + Z.of_nat i),
         node_copy (mesh c)).
Proof.
  revert g. induction chunks as [|c0 chunks IH]; intros g; cbn [sends_of].
  - split; [now intros ?%elem_of_nil|]. intros (i & c & Hc & _). discriminate.
  - rewrite elem_of_app, IH. split.
    + intros [He|(i & c & Hc & Hd & ->)].
      * exists 0%nat, c0. rewrite Z.add_0_r.
        destruct (Z.eqb_spec (at_ 0 dest_rank g) rank) as [_|Hne];
          [now apply elem_of_nil in He|].
        apply elem_of_cons in He as [->|He]; [|now apply elem_of_nil in He].
        split; [reflexivity|]. split; [exact Hne|reflexivity].
      * exists (Datatypes.S i), c.
        replace (g + Z.of_nat (Datatypes.S i)) with (g + 1 + Z.of_nat i) by lia.
        split; [exact Hc|]. split; [exact Hd|reflexivity].
    + intros ([|i] & c & Hc & Hd & ->).
      * left. injection Hc as ->. rewrite Z.add_0_r in *.
        destruct (Z.eqb_spec (at_ 0 dest_rank g) rank) as [?|_]; [contradiction|].
        apply elem_of_cons. now left.
      * right. exists i, c.
        replace (g + 1 + Z.of_nat i) with (g + Z.of_nat (Datatypes.S i)) by lia.
        split; [exact Hc|]. split; [exact Hd|reflexivity].
Qed.

Lemma destined_succ (rank : Z) (dest_rank : list Z) (n : nat) :
  destined rank dest_rank (Datatypes.S n) =
  destined rank dest_rank n ++
  (if Z.eqb (at_ 0 dest_rank (Z.of_nat n)) rank then [Z.of_nat n] else []).
Proof.
  unfold destined. rewrite up_from_snoc, filter_app. f_equal. cbn [Z.add].
  destruct (Z.eqb_spec (at_ 0 dest_rank (Z.of_nat n)) rank) as [He|Hne].
  - now rewrite filter_cons_True.
  - now rewrite filter_cons_False.
Qed.

Lemma first_chunk_room (all_chunks : list (list chunk)) (r : nat) (chunks : list chunk) :
  all_chunks !! r = Some chunks ->
  first_chunk all_chunks r + Z.of_nat (length chunks)
  = first_chunk all_chunks (Datatypes.S r) /\
  first_chunk all_chunks (Datatypes.S r) <= Z.of_nat (length (concat all_chunks)).
Proof.
  intros Hr. unfold first_chunk.
  pose proof (length_concat_take all_chunks (Datatypes.S r)) as Hle.
  rewrite (take_S_r _ _ _ Hr), concat_app, length_app in *. cbn [concat] in *.
  rewrite app_nil_r in *. lia.
Qed.

Lemma arriving_local (deliver : Z -> Z -> Node) (all_chunks : list (list chunk))
    (r : nat) (chunks : list chunk) (g : Z) (c : chunk) :
  first_chunk all_chunks r <= g ->
  chunks !! Z.to_nat (g - first_chunk all_chunks r) = Some c ->
  arriving deliver all_chunks (Z.of_nat r) chunks g = wrap_local (mesh c) g.
Proof.
  intros Hle Hc. unfold arriving. rewrite Nat2Z.id.
  destruct (Z.leb_spec (first_chunk all_chunks r) g); [|lia]. now rewrite Hc.
Qed.

Lemma arriving_remote (deliver : Z -> Z -> Node) (all_chunks : list (list chunk))
    (r : nat) (chunks : list chunk) (g : Z) :
  g < first_chunk all_chunks r \/
  first_chunk all_chunks r + Z.of_nat (length chunks) <= g ->
  arriving deliver all_chunks (Z.of_nat r) chunks g =
  set_path ["state"; "domain_id"] (Leaf (Int g))
    (deliver (at_ 0 (owners 0 all_chunks) g) (PARTITION_TAG_BASE + g)).
Proof.
  intros Hout. unfold arriving. rewrite Nat2Z.id.
  destruct (Z.leb_spec (first_chunk all_chunks r) g); [|reflexivity].
  rewrite lookup_ge_None_2 by lia. reflexivity.
Qed.

(** [communicate_chunks] on rank [r], written out, for chunks numbered by
    [chunk_offsets] and a transport that delivers [deliver src tag]. *)
Lemma communicate_chunks_run (deliver : Z -> Z -> Node)
    (all_chunks : list (list chunk)) (dest_rank dest_domain : list Z)
    (r : nat) (chunks : list chunk) :
  all_chunks !! r = Some chunks ->
  length dest_rank = length (concat all_chunks) ->
  length dest_domain = length (concat all_chunks) ->
  communicate_chunks (fun src tag => Ok (deliver src tag))
    (Z.of_nat (length all_chunks)) (Z.of_nat r) chunks dest_rank dest_domain
    (chunk_offsets all_chunks) =
  Ok {| sent := sends_of (Z.of_nat r) (first_chunk all_chunks r) chunks dest_rank;
        chunks_to_assemble :=
          map (fun g => make_chunk (arriving deliver all_chunks (Z.of_nat r) chunks g) true)
              (destined (Z.of_nat r) dest_rank (length dest_rank));
        chunks_to_assemble_domains :=
          map (at_ 0 dest_domain) (destined (Z.of_nat r) dest_rank (length dest_rank)) |}.
Proof.
  intros Hr Hdr Hdd. unfold communicate_chunks.
  pose proof (lookup_lt_Some _ _ _ Hr) as Hrlt.
  assert (Hne : all_chunks <> []) by (intros ->; discriminate).
  rewrite Hdr at 1. rewrite (compute_src_rank_spec _ Hne). cbn [mbind result_bind].
  destruct (first_chunk_room _ _ _ Hr) as [Hnext Hroom].
  assert (Hstart : vec_get (chunk_offsets all_chunks) (Z.of_nat r)
                   = Ok (first_chunk all_chunks r)).
  { rewrite chunk_offsets_get by lia. now rewrite Nat2Z.id. }
  set (start := first_chunk all_chunks r) in *.
  assert (Hstart0 : 0 <= start) by (subst start; unfold first_chunk; lia).
  (* the sends *)
  match goal with
  | |- mbind _ (for_range 0 ?n ?body ?s0) = _ =>
      destruct (for_range_inv
                  (fun (i : Z) (sends : list (Z * Z * Node)) =>
                     sends = sends_of (Z.of_nat r) start (take (Z.to_nat i) chunks)
                               dest_rank)
                  body n 0 s0) as (sends & Hsends & Hsent)
  end.
  { reflexivity. }
  { intros i sends Hi ->. rewrite Hstart. cbn [mbind result_bind].
    rewrite (vec_get_at 0 dest_rank (start + i)) by lia. cbn [mbind result_bind].
    destruct (lookup_lt_is_Some_2 chunks (Z.to_nat i)) as [c Hc]; [lia|].
    replace (Z.to_nat (i + 1)) with (Datatypes.S (Z.to_nat i)) by lia.
    rewrite (take_S_r _ _ _ Hc), sends_of_snoc, length_take.
    replace (start + Z.of_nat (Z.to_nat i `min` length chunks)) with (start + i) by lia.
    destruct (Z.eqb_spec (at_ 0 dest_rank (start + i)) (Z.of_nat r)) as [He|Hn].
    - cbn [negb]. eexists. split; [reflexivity|]. now rewrite app_nil_r.
    - cbn [negb]. assert (Hg : vec_get chunks i = Ok c) by (apply vec_get_Ok; split; [lia|exact Hc]).
      rewrite Hg. cbn [mbind result_bind]. eexists. split; reflexivity. }
  rewrite Hsends. cbn [mbind result_bind]. subst sends.
  replace (Z.to_nat (0 + Z.of_nat (length chunks))) with (length chunks) by lia.
  rewrite firstn_all.
  (* the receives *)
  match goal with
  | |- mbind _ (for_range 0 ?n ?body ?s0) = _ =>
      destruct (for_range_inv
                  (fun (i : Z) (s : list chunk * list Z) =>
                     s = (map (fun g => make_chunk
                                          (arriving deliver all_chunks (Z.of_nat r) chunks g)
                                          true)
                              (destined (Z.of_nat r) dest_rank (Z.to_nat i)),
                          map (at_ 0 dest_domain)
                              (destined (Z.of_nat r) dest_rank (Z.to_nat i))))
                  body n 0 s0) as (recvd & Hrecv & Hrecvd)
  end.
  { reflexivity. }
  { intros i s Hi ->.
    rewrite (vec_get_at 0 dest_rank i) by lia. cbn [mbind result_bind].
    replace (Z.to_nat (i + 1)) with (Datatypes.S (Z.to_nat i)) by lia.
    rewrite destined_succ. rewrite Z2Nat.id by lia.
    destruct (Z.eqb_spec (at_ 0 dest_rank i) (Z.of_nat r)) as [He|Hn].
    - rewrite Hstart. cbn [mbind result_bind].
      rewrite (vec_get_at 0 dest_domain i) by lia.
      rewrite !map_app. cbn [map].
      destruct (Z.leb_spec start i) as [Hle|Hlt]; cbn [andb].
      + destruct (Z.ltb_spec i (start + Z.of_nat (length chunks))) as [Hin|Hout].
        * destruct (lookup_lt_is_Some_2 chunks (Z.to_nat (i - start))) as [c Hc]; [lia|].
          assert (Hg : vec_get chunks (i - start) = Ok c)
            by (apply vec_get_Ok; split; [lia|exact Hc]).
          rewrite Hg. cbn [mbind result_bind].
          rewrite (arriving_local deliver all_chunks r chunks i c Hle Hc).
          eexists. split; reflexivity.
        * rewrite (vec_get_at 0 (owners 0 all_chunks) i)
            by (rewrite owners_length; lia).
          cbn [mbind result_bind].
          rewrite (arriving_remote deliver all_chunks r chunks i) by (right; exact Hout).
          eexists. split; reflexivity.
      + rewrite (vec_get_at 0 (owners 0 all_chunks) i)
          by (rewrite owners_length; lia).
        cbn [mbind result_bind].
        rewrite (arriving_remote deliver all_chunks r chunks i) by (left; exact Hlt).
        eexists. split; reflexivity.
    - eexists. split; [reflexivity|]. now rewrite !app_nil_r. }
  rewrite Hrecv. cbn [mbind result_bind]. subst recvd. cbn [fst snd].
  replace (Z.to_nat (0 + Z.of_nat (length dest_rank))) with (length dest_rank) by lia.
  reflexivity.
Qed.

Lemma elem_of_destined (rank : Z) (dest_rank : list Z) (n : nat) (g : Z) :
  g ∈ destined rank dest_rank n <->
  0 <= g < Z.of_nat n /\ at_ 0 dest_rank g = rank.
Proof.
  unfold destined. rewrite list_elem_of_filter, elem_of_up_from. tauto.
Qed.

Lemma destined_sorted (rank : Z) (dest_rank : list Z) (n : nat) :
  StronglySorted Z.lt (destined rank dest_rank n).
Proof.
  induction n as [|n IH]; [constructor|].
  rewrite destined_succ. apply StronglySorted_app. split; [|split; [exact IH|]].
  - intros x1 x2 [Hx1 _]%elem_of_destined Hx2.
    destruct (Z.eqb (at_ 0 dest_rank (Z.of_nat n)) rank);
      [|now apply elem_of_nil in Hx2].
    apply elem_of_cons in Hx2 as [->|Hx2]; [lia|now apply elem_of_nil in Hx2].
  - destruct (Z.eqb (at_ 0 dest_rank (Z.of_nat n)) rank); repeat constructor.
Qed.

(** The position at which the chunk [g] is pushed on its rank. *)
Lemma destined_lookup (rank : Z) (dest_rank : list Z) (n g : nat) :
  (g < n)%nat -> at_ 0 dest_rank (Z.of_nat g) = rank ->
  destined rank dest_rank n !! length (destined rank dest_rank g) = Some (Z.of_nat g).
Proof.
  intros Hlt Hg. induction n as [|n IH]; [lia|].
  rewrite destined_succ. destruct (Nat.eq_dec g n) as [->|Hne].
  - rewrite lookup_app_r by lia. rewrite Nat.sub_diag.
    apply Z.eqb_eq in Hg. now rewrite Hg.
  - apply lookup_app_l_Some. apply IH. lia.
Qed.

Lemma first_chunk_mono (all_chunks : list (list chunk)) (r1 r2 : nat) :
  (r1 <= r2)%nat -> first_chunk all_chunks r1 <= first_chunk all_chunks r2.
Proof.
  intros Hle. unfold first_chunk.
  pose proof (length_concat_take (take r2 all_chunks) r1) as H.
  rewrite take_take in H. replace (r1 `min` r2)%nat with r1 in H by lia. lia.
Qed.

Lemma assoc_find_upsert (name : string) (f : option Node -> Node)
    (cs : list (string * Node)) :
  assoc_find name (assoc_upsert name f cs) = Some (f (assoc_find name cs)).
Proof.
  induction cs as [|[k c] cs IH]; cbn [assoc_upsert assoc_find].
  - now rewrite String.eqb_refl.
  - destruct (String.eqb k name) eqn:E; cbn [assoc_find]; rewrite E; [reflexivity|].
    exact IH.
Qed.

(** What is set under a path is found under it. *)
Lemma fetch_set_path (path : list string) (v n : Node) :
  fetch_ptr path (set_path path v n) = Some v.
Proof.
  revert n. induction path as [|p ps IH]; intros n; [reflexivity|].
  cbn [set_path fetch_ptr children]. rewrite assoc_find_upsert. apply IH.
Qed.

Lemma arriving_domain_id (deliver : Z -> Z -> Node) (all_chunks : list (list chunk))
    (rank : Z) (chunks : list chunk) (g : Z) :
  fetch_ptr ["state"; "domain_id"] (arriving deliver all_chunks rank chunks g)
  = Some (Leaf (Int g)).
Proof.
  unfold arriving.
  destruct (if Z.leb _ g then _ else None) as [c|].
  - unfold wrap_local. apply fetch_set_path.
  - apply fetch_set_path.
Qed.

(** X18: sends and receives match.  When the chunks are numbered by the
    offsets of [map_chunks] and chunk [i] of rank [a] is to go to another
    rank [b], rank [a] sends a copy of its mesh to [b] under the tag
    [12000 + g], [g] the global index of the chunk, and no other node under
    that tag; rank [b] receives from source [a] under the same tag and
    pushes what arrives, with [state/domain_id] set to [g], as an owned
    chunk beside [dest_domain[g]], at the position that [g] has among the
    chunks for [b]. *)
Theorem sends_match_receives :
  forall deliver all_chunks dest_rank dest_domain (a b i : nat) chunks_a chunks_b c,
    length dest_rank = length (concat all_chunks) ->
    length dest_domain = length (concat all_chunks) ->
    all_chunks !! a = Some chunks_a ->
    all_chunks !! b = Some chunks_b ->
    chunks_a !! i = Some c ->
    a <> b ->
    vec_get dest_rank (first_chunk all_chunks a + Z.of_nat i) = Ok (Z.of_nat b) ->
    exists ex_a ex_b,
      communicate_chunks (fun src tag => Ok (deliver src tag))
        (Z.of_nat (length all_chunks)) (Z.of_nat a) chunks_a dest_rank dest_domain
        (chunk_offsets all_chunks) = Ok ex_a /\
      communicate_chunks (fun src tag => Ok (deliver src tag))
        (Z.of_nat (length all_chunks)) (Z.of_nat b) chunks_b dest_rank dest_domain
        (chunk_offsets all_chunks) = Ok ex_b /\
      let g := first_chunk all_chunks a + Z.of_nat i in
      let position := length (destined (Z.of_nat b) dest_rank (Z.to_nat g)) in
      (Z.of_nat b, 12000 + g, node_copy (mesh c)) ∈ sent ex_a /\
      (forall dest node, (dest, 12000 + g, node) ∈ sent ex_a ->
                         dest = Z.of_nat b /\ node = node_copy (mesh c)) /\
      chunks_to_assemble ex_b !! position =
      Some (make_chunk
              (set_path ["state"; "domain_id"] (Leaf (Int g))
                 (deliver (Z.of_nat a) (12000 + g)))
              true) /\
      chunks_to_assemble_domains ex_b !! position = Some (at_ 0 dest_domain g).
Proof.
  intros deliver all_chunks dest_rank dest_domain a b i chunks_a chunks_b c
         Hdr Hdd Ha Hb Hc Hab Hdest.
  eexists. eexists.
  split; [exact (communicate_chunks_run deliver _ _ _ _ _ Ha Hdr Hdd)|].
  split; [exact (communicate_chunks_run deliver _ _ _ _ _ Hb Hdr Hdd)|].
  cbn [sent chunks_to_assemble chunks_to_assemble_domains]. cbn zeta.
  set (g := first_chunk all_chunks a + Z.of_nat i).
  pose proof (at_get 0 _ _ _ Hdest) as Hat. fold g in Hat.
  apply vec_get_range in Hdest as Hg. fold g in Hg.
  change (12000 + g) with (PARTITION_TAG_BASE + g).
  split; [|split].
  - apply elem_of_sends_of. exists i, c. fold g. rewrite Hat.
    split; [exact Hc|]. split; [lia|reflexivity].
  - intros dest node (i' & c' & Hc' & _ & Heq)%elem_of_sends_of.
    injection Heq as -> Htag ->. unfold PARTITION_TAG_BASE in Htag.
    assert (i' = i) as -> by (subst g; lia). fold g. rewrite Hat.
    split; [reflexivity|]. congruence.
  - assert (Hpos : destined (Z.of_nat b) dest_rank (length dest_rank)
                     !! length (destined (Z.of_nat b) dest_rank (Z.to_nat g))
                   = Some g).
    { replace (Some g) with (Some (Z.of_nat (Z.to_nat g))) by (f_equal; lia).
      apply destined_lookup; [lia|].
      rewrite Z2Nat.id by lia. exact Hat. }
    rewrite !list_lookup_fmap, Hpos. cbn [fmap option_fmap option_map].
    split; [|reflexivity]. do 2 f_equal.
    destruct (first_chunk_room _ _ _ Ha) as [Hna _].
    destruct (first_chunk_room _ _ _ Hb) as [Hnb _].
    pose proof (lookup_lt_Some _ _ _ Hc) as Hi.
    rewrite arriving_remote.
    + do 2 f_equal. apply at_get, vec_get_Ok. split; [lia|].
      subst g. unfold first_chunk. rewrite <- Nat2Z.inj_add, Nat2Z.id.
      rewrite (owners_lookup all_chunks 0 a i chunks_a Ha Hi). f_equal.
    + destruct (Nat.lt_ge_cases a b) as [Hlt|Hge].
      * left. pose proof (first_chunk_mono all_chunks (Datatypes.S a) b). subst g. lia.
      * right. pose proof (first_chunk_mono all_chunks (Datatypes.S b) a). subst g. lia.
Qed.

Definition plain_chunk (name : string) : chunk :=
  make_chunk (Object [("topologies", Object []); ("name", Leaf (Text name))]) false.

Definition echo (src tag : Z) : Node :=
  Object [("src", Leaf (Int src)); ("tag", Leaf (Int tag))].

Lemma sends_match_receives_witness :
  exists ex_a ex_b,
    communicate_chunks (fun src tag => Ok (echo src tag)) 2 0
      [plain_chunk "p"; plain_chunk "q"] [0; 1; 1] [5; 6; 7] [0; 2] = Ok ex_a /\
    communicate_chunks (fun src tag => Ok (echo src tag)) 2 1
      [plain_chunk "s"] [0; 1; 1] [5; 6; 7] [0; 2] = Ok ex_b /\
    sent ex_a = [(1, 12001, node_copy (mesh (plain_chunk "q")))] /\
    chunks_to_assemble ex_b !! 0%nat =
    Some (make_chunk
            (Object [("src", Leaf (Int 0)); ("tag", Leaf (Int 12001));
                     ("state", Object [("domain_id", Leaf (Int 1))])])
            true).
Proof.
  destruct (sends_match_receives echo
              [[plain_chunk "p"; plain_chunk "q"]; [plain_chunk "s"]]
              [0; 1; 1] [5; 6; 7] 0 1 1
              [plain_chunk "p"; plain_chunk "q"] [plain_chunk "s"] (plain_chunk "q"))
    as (ex_a & ex_b & Ha & Hb & _ & _ & Hrecv & _);
    try reflexivity; [lia|].
  exists ex_a, ex_b. split; [exact Ha|]. split; [exact Hb|].
  split; [|exact Hrecv].
  vm_compute in Ha. injection Ha as <-. reflexivity.
Defined.

(** X19: the chunks a rank assembles are renumbered by their global index.
    [communicate_chunks] pushes one owned chunk for every global chunk [g]
    with [dest_rank[g] == rank], in increasing order of [g], kept or
    received; each has [state/domain_id = g] and stands beside
    [dest_domain[g]]. *)
Theorem assembled_chunks_are_renumbered :
  forall deliver all_chunks dest_rank dest_domain (r : nat) chunks,
    all_chunks !! r = Some chunks ->
    length dest_rank = length (concat all_chunks) ->
    length dest_domain = length (concat all_chunks) ->
    exists ex gs,
      communicate_chunks (fun src tag => Ok (deliver src tag))
        (Z.of_nat (length all_chunks)) (Z.of_nat r) chunks dest_rank dest_domain
        (chunk_offsets all_chunks) = Ok ex /\
      StronglySorted Z.lt gs /\
      (forall g, g ∈ gs <-> vec_get dest_rank g = Ok (Z.of_nat r)) /\
      map (fun c => fetch_ptr ["state"; "domain_id"] (mesh c)) (chunks_to_assemble ex)
        = map (fun g => Some (Leaf (Int g))) gs /\
      map Ok (chunks_to_assemble_domains ex) = map (vec_get dest_domain) gs /\
      Forall (fun c => owns c = true) (chunks_to_assemble ex).
Proof.
  intros deliver all_chunks dest_rank dest_domain r chunks Hr Hdr Hdd.
  eexists. exists (destined (Z.of_nat r) dest_rank (length dest_rank)).
  split; [exact (communicate_chunks_run deliver _ _ _ _ _ Hr Hdr Hdd)|].
  cbn [chunks_to_assemble chunks_to_assemble_domains].
  split; [apply destined_sorted|]. split; [|split; [|split]].
  - intros g. rewrite elem_of_destined. split.
    + intros [Hg <-]. now apply vec_get_at.
    + intros Hg. split; [exact (vec_get_range _ _ _ Hg)|exact (at_get 0 _ _ _ Hg)].
  - rewrite map_map. apply map_ext. intros g. cbn [mesh make_chunk].
    apply arriving_domain_id.
  - rewrite map_map. apply map_ext_in. intros g [Hg _]%list_elem_of_In%elem_of_destined.
    symmetry. apply vec_get_at. lia.
  - apply Forall_map. apply Forall_forall. intros g _. reflexivity.
Qed.

Lemma assembled_chunks_are_renumbered_witness :
  exists ex,
    communicate_chunks (fun src tag => Ok (echo src tag)) 2 1
      [plain_chunk "s"] [0; 1; 1] [5; 6; 7] [0; 2] = Ok ex /\
    map (fun c => fetch_ptr ["state"; "domain_id"] (mesh c)) (chunks_to_assemble ex)
      = [Some (Leaf (Int 1)); Some (Leaf (Int 2))] /\
    chunks_to_assemble_domains ex = [6; 7].
Proof.
  destruct (assembled_chunks_are_renumbered echo
              [[plain_chunk "p"; plain_chunk "q"]; [plain_chunk "s"]]
              [0; 1; 1] [5; 6; 7] 1 [plain_chunk "s"])
    as (ex & gs & Hex & _); try reflexivity.
  exists ex. split; [exact Hex|].
  vm_compute in Hex. injection Hex as <-. split; reflexivity.
Defined.

(** ** Tiler: the planes, hexahedra and boundary quads of a 3D mesh *)

Section Fold.

Context {S A : Type}.
Variable step : S -> A -> S.

Lemma for_range_fold (f : Z -> list A) (body : Z -> S -> result S) :
  forall n lo s,
    (forall k s, lo <= k < lo + Z.of_nat n -> body k s = Ok (fold_left step (f k) s)) ->
    for_range lo n body s = Ok (fold_left step (flat_map f (up_from lo n)) s).
Proof.
  induction n as [|n IH]; intros lo s Hbody; [reflexivity|].
  cbn [for_range up_from flat_map]. rewrite Hbody by lia. cbn [mbind result_bind].
  rewrite fold_left_app. apply IH. intros k s' Hk. apply Hbody. lia.
Qed.

Lemma fold_left_via {B} (g : B -> A) (l : list B) (s : S) :
  fold_left (fun s b => step s (g b)) l s = fold_left step (map g l) s.
Proof. revert s. induction l as [|b l IH]; intros s; [reflexivity|]. cbn. apply IH. Qed.

End Fold.

(** The height of plane [p] of [nz] layers between [origin2] and [z1]. *)
Definition zvalue (origin2 z1 : Q) (nz p : Z) : Q :=
  let t := (inject_Z p / inject_Z nz)%Q in
  ((1 - t) * origin2 + t * z1)%Q.

Definition push_plane (xs ys : list Q) (origin2 z1 : Q) (nz : Z)
    (s : list Q * list Q * list Q) (p : Z) : list Q * list Q * list Q :=
  (fst (fst s) ++ xs, snd (fst s) ++ ys,
   snd s ++ replicate (length xs) (zvalue origin2 z1 nz p)).

Lemma fold_push_plane (xs ys : list Q) (origin2 z1 : Q) (nz : Z) (ps : list Z)
    (x y z : list Q) :
  fold_left (push_plane xs ys origin2 z1 nz) ps (x, y, z)
  = (x ++ concat (replicate (length ps) xs),
     y ++ concat (replicate (length ps) ys),
     z ++ flat_map (fun p => replicate (length xs) (zvalue origin2 z1 nz p)) ps).
Proof.
  revert x y z. induction ps as [|p ps IH]; intros x y z.
  - cbn. now rewrite !app_nil_r.
  - change (fold_left (push_plane xs ys origin2 z1 nz) (p :: ps) (x, y, z))
      with (fold_left (push_plane xs ys origin2 z1 nz) ps
              (x ++ xs, y ++ ys, z ++ replicate (length xs) (zvalue origin2 z1 nz p))).
    rewrite IH. cbn [length replicate concat flat_map]. now rewrite <- !app_assoc.
Qed.

(** The loop of [generate] that replicates the points of the first plane. *)
Lemma planes_run (xs ys : list Q) (origin2 z1 : Q) (nz : Z) :
  for_range 1 (Z.to_nat (nz + 1 - 1)) (fun p (s : list Q * list Q * list Q) =>
      let '(x, y, z) := s in
      let t := (inject_Z p / inject_Z (nz + 1 - 1))%Q in
      let zvalue := ((1 - t) * origin2 + t * z1)%Q in
      Ok (x ++ xs, y ++ ys, z ++ replicate (length xs) zvalue))
    (xs, ys, replicate (length xs) origin2)
  = Ok (concat (replicate (Datatypes.S (Z.to_nat nz)) xs),
        concat (replicate (Datatypes.S (Z.to_nat nz)) ys),
        replicate (length xs) origin2
        ++ flat_map (fun p => replicate (length xs) (zvalue origin2 z1 nz p))
                    (up_from 1 (Z.to_nat nz))).
Proof.
  replace (nz + 1 - 1) with nz by lia.
  rewrite (for_range_fold (push_plane xs ys origin2 z1 nz) (fun p => [p])).
  - rewrite flat_map_singletons, map_id, fold_push_plane, length_up_from. reflexivity.
  - intros p [[x y] z] _. reflexivity.
Qed.

Section Elements3D.

Variable T : Tiler.

(** The ids [addHexs] pushes for quad [i] of a tile: the quad in the plane
    at [plane1Offset], then the same quad in the plane at [plane2Offset]. *)
Definition hex_ids (t : list Z) (plane1Offset plane2Offset : Z) (i : Z) : list Z :=
  let q k := pid t (at_ 0 (m_quads T) (4 * i + k)) in
  [plane1Offset + q 0; plane1Offset + q 1; plane1Offset + q 2; plane1Offset + q 3;
   plane2Offset + q 0; plane2Offset + q 1; plane2Offset + q 2; plane2Offset + q 3].

Definition tile_hexs (t : list Z) (plane1Offset plane2Offset : Z) : list (list Z) :=
  map (hex_ids t plane1Offset plane2Offset) (up_from 0 (nquads T)).

Definition push_hex (s : list Z * list Z) (ids : list Z) : list Z * list Z :=
  (fst s ++ ids, snd s ++ [8]).

Lemma fold_push_hex (hexs : list (list Z)) (c z : list Z) :
  fold_left push_hex hexs (c, z) = (c ++ concat hexs, z ++ replicate (length hexs) 8).
Proof.
  revert c z. induction hexs as [|h hexs IH]; intros c z.
  - cbn. now rewrite !app_nil_r.
  - change (fold_left push_hex (h :: hexs) (c, z))
      with (fold_left push_hex hexs (c ++ h, z ++ [8])).
    rewrite IH. cbn [concat length replicate]. now rewrite <- !app_assoc.
Qed.

Lemma addHexs_calls (t : list Z) (plane1Offset plane2Offset : Z) (s : list Z * list Z) :
  quads_ok T -> length t = npts T ->
  addHexs T t plane1Offset plane2Offset s
  = Ok (fold_left push_hex (tile_hexs t plane1Offset plane2Offset) s).
Proof.
  intros Hq Ht. unfold addHexs, tile_hexs. fold (nquads T).
  rewrite <- flat_map_singletons. apply for_range_fold. intros i [conn sizes] Hi.
  destruct (quad_point T t i 0 Hq Ht ltac:(lia) ltac:(lia)) as (q0 & Hq0 & -> & _ & Hp0).
  destruct (quad_point T t i 1 Hq Ht ltac:(lia) ltac:(lia)) as (q1 & Hq1 & -> & _ & Hp1).
  destruct (quad_point T t i 2 Hq Ht ltac:(lia) ltac:(lia)) as (q2 & Hq2 & -> & _ & Hp2).
  destruct (quad_point T t i 3 Hq Ht ltac:(lia) ltac:(lia)) as (q3 & Hq3 & -> & _ & Hp3).
  do 8 (rewrite ?Hq0, ?Hq1, ?Hq2, ?Hq3, ?Hp0, ?Hp1, ?Hp2, ?Hp3; cbn [mbind result_bind]).
  reflexivity.
Qed.

Lemma tile_hexs_valid (t : list Z) (n : nat) (off1 off2 : Z) :
  quads_ok T -> valid_tile T t n ->
  Forall (fun ids =>
            length ids = 8%nat /\
            Forall (fun id => off1 <= id < off1 + Z.of_nat n) (take 4 ids) /\
            drop 4 ids = map (fun id => id - off1 + off2) (take 4 ids))
         (tile_hexs t off1 off2).
Proof.
  intros Hq [Ht Hv]. unfold tile_hexs. apply Forall_forall. intros ids Hin.
  apply list_elem_of_fmap in Hin as (i & -> & Hi). apply elem_of_up_from in Hi.
  destruct (quad_point T t i 0 Hq Ht ltac:(lia) ltac:(lia)) as (q0 & _ & -> & Hb0 & _).
  destruct (quad_point T t i 1 Hq Ht ltac:(lia) ltac:(lia)) as (q1 & _ & -> & Hb1 & _).
  destruct (quad_point T t i 2 Hq Ht ltac:(lia) ltac:(lia)) as (q2 & _ & -> & Hb2 & _).
  destruct (quad_point T t i 3 Hq Ht ltac:(lia) ltac:(lia)) as (q3 & _ & -> & Hb3 & _).
  pose proof (Hv _ Hb0). pose proof (Hv _ Hb1).
  pose proof (Hv _ Hb2). pose proof (Hv _ Hb3).
  unfold hex_ids. cbn [take drop map length]. split; [reflexivity|]. split.
  - do 4 (constructor; [cbv beta; lia|]). constructor.
  - do 3 (f_equal; [lia|]). f_equal. lia.
Qed.

End Elements3D.

Section Mesh3D.

Variables (T : Tiler) (tiles : list (list Z)) (nx ny nz : Z) (n : nat).

(** The hexahedra of all tiles: layer by layer, row by row. *)
Definition mesh_hexs : list (list Z) :=
  flat_map (fun k =>
    flat_map (fun j =>
      flat_map (fun i =>
        tile_hexs T (tile_at nx tiles j i)
          (k * Z.of_nat n) (k * Z.of_nat n + Z.of_nat n))
        (up_from 0 (Z.to_nat nx)))
      (up_from 0 (Z.to_nat ny)))
    (up_from 0 (Z.to_nat nz)).

(** A boundary segment of the 2D mesh swept from the plane at [offset1] to
    the plane at [offset2]. *)
Definition extrude (offset1 offset2 : Z) (seg : segment) : segment :=
  let a := at_ 0 (fst seg) 0 in
  let b := at_ 0 (fst seg) 1 in
  ([offset1 + a; offset1 + b; offset2 + b; offset2 + a], snd seg).

(** A side of the 2D boundary swept through the layers. *)
Definition wall (side : list segment) : list segment :=
  flat_map (fun k => map (extrude (k * Z.of_nat n) ((k + 1) * Z.of_nat n)) side)
           (up_from 0 (Z.to_nat nz)).

(** Back: the quads of the tiles in the first plane, turned over; the rows
    from the first, each from its last tile to its first. *)
Definition back_faces : list segment :=
  flat_map (fun j =>
    flat_map (fun i => tile_faces T (tile_at nx tiles j i) 0 true BoundaryBack)
             (down_from (nx - 1) (Z.to_nat nx)))
    (up_from 0 (Z.to_nat ny)).

(** Front: the quads of the tiles in the last plane. *)
Definition front_faces : list segment :=
  flat_map (fun j =>
    flat_map (fun i =>
      tile_faces T (tile_at nx tiles j i) (nz * Z.of_nat n) false BoundaryFront)
             (up_from 0 (Z.to_nat nx)))
    (up_from 0 (Z.to_nat ny)).

Definition boundary_quads (flags : boundary_flags) : list segment :=
  (if fLeft flags then wall (left_side T tiles nx ny) else [])
  ++ (if fRight flags then wall (right_side T tiles nx ny) else [])
  ++ (if fBottom flags then wall (bottom_side T tiles nx) else [])
  ++ (if fTop flags then wall (top_side T tiles nx ny) else [])
  ++ (if fBack flags then back_faces else [])
  ++ (if fFront flags then front_faces else []).

Hypothesis Hquads : quads_ok T.
Hypothesis Hedges : edges_ok T.
Hypothesis Hleft : m_left T <> [].
Hypothesis Hbottom : m_bottom T <> [].
Hypothesis Hnx : 1 <= nx.
Hypothesis Hny : 1 <= ny.
Hypothesis Hnz : 1 <= nz.
Hypothesis Htiles_len : length tiles = Z.to_nat (nx * ny).
Hypothesis Hvalid :
  forall j i, 0 <= i < nx -> 0 <= j < ny -> valid_tile T (tile_at nx tiles j i) n.

(** The loop of [generate] over the layers and tiles that adds their
    hexahedra. *)
Lemma elements_3D_calls (s0 : list Z * list Z) :
  for_range 0 (Z.to_nat nz) (fun k s =>
    let offset1 := k * Z.of_nat n in
    let offset2 := offset1 + Z.of_nat n in
    for_range 0 (Z.to_nat ny) (fun j s =>
      for_range 0 (Z.to_nat nx) (fun i s =>
        current ← vec_get tiles (j * nx + i);
        addHexs T current offset1 offset2 s) s) s) s0
  = Ok (fold_left push_hex mesh_hexs s0).
Proof.
  unfold mesh_hexs. apply for_range_fold. intros k s Hk. cbv zeta.
  apply for_range_fold. intros j s' Hj.
  apply for_range_fold. intros i s'' Hi.
  pose proof (tile_index nx ny j i ltac:(lia) ltac:(lia)) as Hq.
  rewrite (vec_get_at [] tiles (j * nx + i)) by lia. cbn [mbind result_bind].
  fold (tile_at nx tiles j i).
  apply addHexs_calls; [exact Hquads|]. apply Hvalid; lia.
Qed.

Lemma length_mesh_hexs :
  length mesh_hexs = (Z.to_nat nz * (Z.to_nat ny * (Z.to_nat nx * nquads T)))%nat.
Proof.
  unfold mesh_hexs.
  rewrite (length_flat_map_const _ _ (Z.to_nat ny * (Z.to_nat nx * nquads T))),
    length_up_from; [reflexivity|].
  intros k _.
  rewrite (length_flat_map_const _ _ (Z.to_nat nx * nquads T)), length_up_from;
    [reflexivity|].
  intros j _.
  rewrite (length_flat_map_const _ _ (nquads T)), length_up_from; [reflexivity|].
  intros i _. unfold tile_hexs. now rewrite length_map, length_up_from.
Qed.

(** Every hexahedron has a quad of one plane and, point for point, the quad
    of the plane above it. *)
Lemma mesh_hexs_valid :
  Forall (fun ids =>
            length ids = 8%nat /\
            Forall (fun id => 0 <= id < (nz + 1) * Z.of_nat n) ids /\
            drop 4 ids = map (fun id => id + Z.of_nat n) (take 4 ids))
         mesh_hexs.
Proof.
  unfold mesh_hexs. apply Forall_forall. intros ids Hin.
  apply elem_of_flat_map in Hin as (k & Hk & Hin). apply elem_of_up_from in Hk.
  apply elem_of_flat_map in Hin as (j & Hj & Hin). apply elem_of_up_from in Hj.
  apply elem_of_flat_map in Hin as (i & Hi & Hin). apply elem_of_up_from in Hi.
  pose proof (tile_hexs_valid T _ n (k * Z.of_nat n) (k * Z.of_nat n + Z.of_nat n)
                Hquads (Hvalid j i ltac:(lia) ltac:(lia))) as Hall.
  destruct (proj1 (Forall_forall _ _) Hall ids Hin) as (Hl & Hlow & Hup).
  split; [exact Hl|].
  assert (Hup' : drop 4 ids = map (fun id => id + Z.of_nat n) (take 4 ids)).
  { rewrite Hup. apply map_ext. intros id. lia. }
  split; [|exact Hup'].
  rewrite <- (take_drop 4 ids). apply Forall_app_2.
  - eapply Forall_impl; [exact Hlow|]. cbv beta. intros id Hid. nia.
  - rewrite Hup'. apply Forall_map. eapply Forall_impl; [exact Hlow|].
    cbv beta. intros id Hid. nia.
Qed.

Section Calls3D.

Context {S : Type}.
Variable step : S -> segment -> S.
Variable body : list Z -> Z -> Z -> S -> result S.
Hypothesis Hbody : forall ids side s, body ids 4 side s = Ok (step s (ids, side)).

Let Htiles : forall j i, 0 <= i < nx -> 0 <= j < ny ->
                         length (tile_at nx tiles j i) = npts T.
Proof. intros j i Hi Hj. apply (Hvalid j i Hi Hj). Qed.

(** The loop over the layers for one side: the side of the 2D boundary,
    swept from each plane to the next. *)
Lemma wall_calls (forward : bool) (side : Z) (edge : list Z)
    (rows : list Z) (at_row : Z -> Z * Z) (s : S)
    (loop : (Z -> S -> result S) -> S -> result S) :
  in_bounds (npts T) edge -> edge <> [] ->
  (forall r, r ∈ rows -> 0 <= snd (at_row r) < nx /\ 0 <= fst (at_row r) < ny) ->
  (forall (step' : S -> segment -> S) (f : Z -> list segment) inner s,
      (forall r s, r ∈ rows -> inner r s = Ok (fold_left step' (f r) s)) ->
      loop inner s = Ok (fold_left step' (flat_map f rows) s)) ->
  for_range 0 (Z.to_nat nz) (fun k s =>
    let offset1 := k * Z.of_nat n in
    let offset2 := (k + 1) * Z.of_nat n in
    loop (fun r s =>
      current ← vec_get tiles (fst (at_row r) * nx + snd (at_row r));
      ids ← Tile.getPointIds current edge;
      (if forward then edge_forward ids (side_quads T offset1 offset2 side body) s
       else edge_backward ids (side_quads T offset1 offset2 side body) s)) s) s
  = Ok (fold_left step
          (wall (flat_map (fun r =>
                   (if forward then forward_segments side else backward_segments side)
                     (tile_ids tiles nx (fst (at_row r)) (snd (at_row r)) edge)) rows)) s).
Proof.
  intros Hin Hne Hrows Hloop. unfold wall.
  apply for_range_calls. intros k s' Hk. cbv zeta.
  rewrite <- fold_left_via.
  apply (Hloop (fun s seg => step s (extrude (k * Z.of_nat n) ((k + 1) * Z.of_nat n) seg))).
  intros r s'' Hr. destruct (Hrows r Hr) as [Hi Hj].
  pose proof (tile_edge_calls
                (fun s seg => step s (extrude (k * Z.of_nat n) ((k + 1) * Z.of_nat n) seg))
                (fun ids (_ : Z) sd s =>
                   body (fst (extrude (k * Z.of_nat n) ((k + 1) * Z.of_nat n) (ids, sd)))
                        4 sd s)
                ltac:(intros ids sd s0; apply Hbody)
                T tiles nx ny Hnx Hny Htiles_len Htiles forward side edge
                (fst (at_row r)) (snd (at_row r)) s'' Hi Hj Hin Hne) as Hcall.
  exact Hcall.
Qed.

End Calls3D.

End Mesh3D.

Section Boundary3D.

Variables (T : Tiler) (tiles : list (list Z)) (nx ny nz : Z) (n : nat).

Hypothesis Hquads : quads_ok T.
Hypothesis Hedges : edges_ok T.
Hypothesis Hleft : m_left T <> [].
Hypothesis Hbottom : m_bottom T <> [].
Hypothesis Hnx : 1 <= nx.
Hypothesis Hny : 1 <= ny.
Hypothesis Hnz : 1 <= nz.
Hypothesis Htiles_len : length tiles = Z.to_nat (nx * ny).
Hypothesis Hvalid :
  forall j i, 0 <= i < nx -> 0 <= j < ny -> valid_tile T (tile_at nx tiles j i) n.

Section Calls.

Context {S : Type}.
Variable step : S -> segment -> S.
Variable body : list Z -> Z -> Z -> S -> result S.
Hypothesis Hbody : forall ids side s, body ids 4 side s = Ok (step s (ids, side)).

Lemma up_loop (k : nat) (step' : S -> segment -> S) (f : Z -> list segment)
    (inner : Z -> S -> result S) (s : S) :
  (forall r s, r ∈ up_from 0 k -> inner r s = Ok (fold_left step' (f r) s)) ->
  for_range 0 k inner s = Ok (fold_left step' (flat_map f (up_from 0 k)) s).
Proof.
  intros Hinner. apply for_range_calls. intros r s' Hr. apply Hinner.
  now apply elem_of_up_from.
Qed.

Lemma down_loop (hi : Z) (k : nat) (step' : S -> segment -> S) (f : Z -> list segment)
    (inner : Z -> S -> result S) (s : S) :
  (forall r s, r ∈ down_from hi k -> inner r s = Ok (fold_left step' (f r) s)) ->
  for_down hi k inner s = Ok (fold_left step' (flat_map f (down_from hi k)) s).
Proof.
  intros Hinner. apply for_down_calls. intros r s' Hr. apply Hinner.
  now apply elem_of_down_from.
Qed.

(** [iterateBoundary3D] calls [body] on the quads of [boundary_quads], in
    their order. *)
Lemma iterateBoundary3D_calls (flags : boundary_flags) (s : S) :
  iterateBoundary3D T tiles nx ny nz (Z.of_nat n) flags body s
  = Ok (fold_left step (boundary_quads T tiles nx ny nz n flags) s).
Proof.
  destruct Hedges as (_ & Hbl & Hbr & Hbb & Hbt & Hlr & Hlbt & _).
  assert (Hright : m_right T <> []).
  { intros H. apply Hleft. apply nil_length_inv. now rewrite Hlr, H. }
  assert (Htop : m_top T <> []).
  { intros H. apply Hbottom. apply nil_length_inv. now rewrite Hlbt, H. }
  assert (Hlen : forall j i, 0 <= i < nx -> 0 <= j < ny ->
                             length (tile_at nx tiles j i) = npts T).
  { intros j i Hi Hj. apply (Hvalid j i Hi Hj). }
  unfold iterateBoundary3D, boundary_quads. rewrite !fold_left_app.
  (* left *)
  match goal with
  | |- mbind _ ?m = _ =>
      assert (HL : m = Ok (fold_left step
                             (if fLeft flags
                              then wall nz n (left_side T tiles nx ny) else []) s))
  end.
  { destruct (fLeft flags); [|reflexivity].
    apply (wall_calls T tiles nx ny nz n Hnx Hny Htiles_len Hvalid step body Hbody
             false BoundaryLeft (m_left T) (down_from (ny - 1) (Z.to_nat ny))
             (fun j => (j, 0)) s
             (fun inner s => for_down (ny - 1) (Z.to_nat ny) inner s) Hbl Hleft).
    - intros j Hj%elem_of_down_from. cbn [fst snd]. lia.
    - intros step' f inner s0. apply down_loop. }
  rewrite HL. cbn [mbind result_bind]. clear HL.
  set (s1 := fold_left step _ s).
  (* right *)
  match goal with
  | |- mbind _ ?m = _ =>
      assert (HR : m = Ok (fold_left step
                             (if fRight flags
                              then wall nz n (right_side T tiles nx ny) else []) s1))
  end.
  { destruct (fRight flags); [|reflexivity].
    apply (wall_calls T tiles nx ny nz n Hnx Hny Htiles_len Hvalid step body Hbody
             true BoundaryRight (m_right T) (up_from 0 (Z.to_nat ny))
             (fun j => (j, nx - 1)) s1
             (fun inner s => for_range 0 (Z.to_nat ny) inner s) Hbr Hright).
    - intros j Hj%elem_of_up_from. cbn [fst snd]. lia.
    - intros step' f inner s0. apply up_loop. }
  rewrite HR. cbn [mbind result_bind]. clear HR.
  set (s2 := fold_left step _ s1).
  (* bottom *)
  match goal with
  | |- mbind _ ?m = _ =>
      assert (HB : m = Ok (fold_left step
                             (if fBottom flags
                              then wall nz n (bottom_side T tiles nx) else []) s2))
  end.
  { destruct (fBottom flags); [|reflexivity].
    apply (wall_calls T tiles nx ny nz n Hnx Hny Htiles_len Hvalid step body Hbody
             true BoundaryBottom (m_bottom T) (up_from 0 (Z.to_nat nx))
             (fun i => (0, i)) s2
             (fun inner s => for_range 0 (Z.to_nat nx) inner s) Hbb Hbottom).
    - intros i Hi%elem_of_up_from. cbn [fst snd]. lia.
    - intros step' f inner s0. apply up_loop. }
  rewrite HB. cbn [mbind result_bind]. clear HB.
  set (s3 := fold_left step _ s2).
  (* top *)
  match goal with
  | |- mbind _ ?m = _ =>
      assert (HT : m = Ok (fold_left step
                             (if fTop flags
                              then wall nz n (top_side T tiles nx ny) else []) s3))
  end.
  { destruct (fTop flags); [|reflexivity].
    apply (wall_calls T tiles nx ny nz n Hnx Hny Htiles_len Hvalid step body Hbody
             false BoundaryTop (m_top T) (down_from (nx - 1) (Z.to_nat nx))
             (fun i => (ny - 1, i)) s3
             (fun inner s => for_down (nx - 1) (Z.to_nat nx) inner s) Hbt Htop).
    - intros i Hi%elem_of_down_from. cbn [fst snd]. lia.
    - intros step' f inner s0. apply down_loop. }
  rewrite HT. cbn [mbind result_bind]. clear HT.
  set (s4 := fold_left step _ s3).
  (* back *)
  match goal with
  | |- mbind _ ?m = _ =>
      assert (HK : m = Ok (fold_left step
                             (if fBack flags
                              then back_faces T tiles nx ny else []) s4))
  end.
  { destruct (fBack flags); [|reflexivity]. unfold back_faces.
    apply for_range_calls. intros j s' Hj.
    apply for_down_calls. intros i s'' Hi.
    pose proof (tile_index nx ny j i ltac:(lia) ltac:(lia)) as Hq.
    rewrite (vec_get_at [] tiles (j * nx + i)) by lia. cbn [mbind result_bind].
    fold (tile_at nx tiles j i).
    apply (iterateFaces_calls T step body Hbody); [exact Hquads|]. apply Hlen; lia. }
  rewrite HK. cbn [mbind result_bind]. clear HK.
  set (s5 := fold_left step _ s4).
  (* front *)
  destruct (fFront flags); [|reflexivity]. unfold front_faces.
  apply for_range_calls. intros j s' Hj.
  apply for_range_calls. intros i s'' Hi.
  pose proof (tile_index nx ny j i ltac:(lia) ltac:(lia)) as Hq.
  rewrite (vec_get_at [] tiles (j * nx + i)) by lia. cbn [mbind result_bind].
  fold (tile_at nx tiles j i).
  apply (iterateFaces_calls T step body Hbody); [exact Hquads|]. apply Hlen; lia.
Qed.

End Calls.

Lemma elem_of_wall (side : list segment) (q : segment) :
  q ∈ wall nz n side <->
  exists k seg, 0 <= k < nz /\ seg ∈ side /\
                q = extrude (k * Z.of_nat n) ((k + 1) * Z.of_nat n) seg.
Proof.
  unfold wall. rewrite elem_of_flat_map. split.
  - intros (k & Hk%elem_of_up_from & (seg & -> & Hseg)%list_elem_of_fmap).
    exists k, seg. split; [lia|]. split; [exact Hseg|reflexivity].
  - intros (k & seg & Hk & Hseg & ->). exists k. split.
    + apply elem_of_up_from. lia.
    + apply list_elem_of_fmap. now exists seg.
Qed.

Lemma length_wall (side : list segment) :
  length (wall nz n side) = (Z.to_nat nz * length side)%nat.
Proof.
  unfold wall. rewrite (length_flat_map_const _ _ (length side)), length_up_from;
    [reflexivity|].
  intros k _. now rewrite length_map.
Qed.

Lemma wall_valid (side : list segment) :
  Forall (fun seg : segment =>
            length (fst seg) = 2%nat /\
            Forall (fun id => 0 <= id < Z.of_nat n) (fst seg)) side ->
  Forall (fun seg : segment =>
            length (fst seg) = 4%nat /\
            Forall (fun id => 0 <= id < (nz + 1) * Z.of_nat n) (fst seg))
         (wall nz n side).
Proof.
  intros Hside. apply Forall_forall. intros q (k & seg & Hk & Hseg & ->)%elem_of_wall.
  destruct (proj1 (Forall_forall _ _) Hside seg Hseg) as [Hl Hids].
  destruct seg as [[|a [|b [|c ids]]] sd]; try discriminate Hl.
  apply Forall_cons in Hids as [Ha Hids]. apply Forall_cons in Hids as [Hb _].
  unfold extrude. cbn [fst snd]. change (at_ 0 [a; b] 0) with a.
  change (at_ 0 [a; b] 1) with b. split; [reflexivity|].
  do 4 (constructor; [cbv beta; nia|]). constructor.
Qed.

Lemma sides_valid :
  let ok := Forall (fun seg : segment =>
                      length (fst seg) = 2%nat /\
                      Forall (fun id => 0 <= id < Z.of_nat n) (fst seg)) in
  ok (left_side T tiles nx ny) /\ ok (bottom_side T tiles nx) /\
  ok (right_side T tiles nx ny) /\ ok (top_side T tiles nx ny).
Proof.
  cbv zeta.
  pose proof (boundary_segments_valid T tiles nx ny n Hedges Hnx Hny Htiles_len Hvalid
                {| fLeft := true; fRight := true; fBottom := true; fTop := true;
                   fBack := true; fFront := true |}) as Hall.
  unfold boundary_segments in Hall. cbn [fLeft fRight fBottom fTop] in Hall.
  apply Forall_app in Hall as [HL Hall]. apply Forall_app in Hall as [HB Hall].
  apply Forall_app in Hall as [HR HT]. auto.
Qed.

Lemma faces_valid (offset : Z) (reverse : bool) (stype : Z) (cols : list Z) :
  0 <= offset <= nz * Z.of_nat n ->
  (forall i, i ∈ cols -> 0 <= i < nx) ->
  Forall (fun seg : segment =>
            length (fst seg) = 4%nat /\
            Forall (fun id => 0 <= id < (nz + 1) * Z.of_nat n) (fst seg))
         (flat_map (fun j =>
            flat_map (fun i => tile_faces T (tile_at nx tiles j i) offset reverse stype)
                     cols)
            (up_from 0 (Z.to_nat ny))).
Proof.
  intros Hoff Hcols. apply Forall_forall. intros seg Hin.
  apply elem_of_flat_map in Hin as (j & Hj & Hin). apply elem_of_up_from in Hj.
  apply elem_of_flat_map in Hin as (i & Hi & Hin). apply Hcols in Hi.
  pose proof (tile_faces_valid T _ n offset reverse stype Hquads
                (Hvalid j i ltac:(lia) ltac:(lia))) as Hall.
  destruct (proj1 (Forall_forall _ _) Hall seg Hin) as (Hl & _ & Hids).
  split; [exact Hl|]. eapply Forall_impl; [exact Hids|]. cbv beta. intros id Hid. nia.
Qed.

(** The ids of the boundary quads are ids of points. *)
Lemma boundary_quads_valid (flags : boundary_flags) :
  Forall (fun seg : segment =>
            length (fst seg) = 4%nat /\
            Forall (fun id => 0 <= id < (nz + 1) * Z.of_nat n) (fst seg))
         (boundary_quads T tiles nx ny nz n flags).
Proof.
  destruct sides_valid as (HL & HB & HR & HT).
  unfold boundary_quads. repeat apply Forall_app_2.
  - destruct (fLeft flags); [now apply wall_valid|constructor].
  - destruct (fRight flags); [now apply wall_valid|constructor].
  - destruct (fBottom flags); [now apply wall_valid|constructor].
  - destruct (fTop flags); [now apply wall_valid|constructor].
  - destruct (fBack flags); [|constructor]. apply faces_valid; [nia|].
    intros i Hi%elem_of_down_from. lia.
  - destruct (fFront flags); [|constructor]. apply faces_valid; [nia|].
    intros i Hi%elem_of_up_from. lia.
Qed.

(** The number of boundary quads, side by side. *)
Lemma length_boundary_quads (flags : boundary_flags) :
  length (boundary_quads T tiles nx ny nz n flags) =
  ((if fLeft flags then Z.to_nat nz * (Z.to_nat ny * (length (m_left T) - 1)) else 0)
   + (if fRight flags then Z.to_nat nz * (Z.to_nat ny * (length (m_right T) - 1)) else 0)
   + (if fBottom flags then Z.to_nat nz * (Z.to_nat nx * (length (m_bottom T) - 1)) else 0)
   + (if fTop flags then Z.to_nat nz * (Z.to_nat nx * (length (m_top T) - 1)) else 0)
   + (if fBack flags then Z.to_nat ny * (Z.to_nat nx * nquads T) else 0)
   + (if fFront flags then Z.to_nat ny * (Z.to_nat nx * nquads T) else 0))%nat.
Proof.
  assert (Hf : forall side ids, length (forward_segments side ids) = (length ids - 1)%nat).
  { intros side ids. unfold forward_segments. now rewrite length_map, length_up_from. }
  assert (Hb : forall side ids, length (backward_segments side ids) = (length ids - 1)%nat).
  { intros side ids. unfold backward_segments. now rewrite length_map, length_down_from. }
  assert (Hfaces : forall offset reverse stype cols,
             length (flat_map (fun j =>
                       flat_map (fun i =>
                         tile_faces T (tile_at nx tiles j i) offset reverse stype) cols)
                       (up_from 0 (Z.to_nat ny)))
             = (Z.to_nat ny * (length cols * nquads T))%nat).
  { intros offset reverse stype cols.
    rewrite (length_flat_map_const _ _ (length cols * nquads T)), length_up_from;
      [reflexivity|].
    intros j _. apply length_flat_map_const. intros i _.
    unfold tile_faces. now rewrite length_map, length_up_from. }
  assert (HL : length (wall nz n (left_side T tiles nx ny))
               = (Z.to_nat nz * (Z.to_nat ny * (length (m_left T) - 1)))%nat).
  { rewrite length_wall. f_equal. unfold left_side.
    rewrite (length_flat_map_const _ _ (length (m_left T) - 1)), length_down_from;
      [reflexivity|].
    intros j _. unfold tile_ids. now rewrite Hb, length_map. }
  assert (HR : length (wall nz n (right_side T tiles nx ny))
               = (Z.to_nat nz * (Z.to_nat ny * (length (m_right T) - 1)))%nat).
  { rewrite length_wall. f_equal. unfold right_side.
    rewrite (length_flat_map_const _ _ (length (m_right T) - 1)), length_up_from;
      [reflexivity|].
    intros j _. unfold tile_ids. now rewrite Hf, length_map. }
  assert (HB : length (wall nz n (bottom_side T tiles nx))
               = (Z.to_nat nz * (Z.to_nat nx * (length (m_bottom T) - 1)))%nat).
  { rewrite length_wall. f_equal. unfold bottom_side.
    rewrite (length_flat_map_const _ _ (length (m_bottom T) - 1)), length_up_from;
      [reflexivity|].
    intros j _. unfold tile_ids. now rewrite Hf, length_map. }
  assert (HT : length (wall nz n (top_side T tiles nx ny))
               = (Z.to_nat nz * (Z.to_nat nx * (length (m_top T) - 1)))%nat).
  { rewrite length_wall. f_equal. unfold top_side.
    rewrite (length_flat_map_const _ _ (length (m_top T) - 1)), length_down_from;
      [reflexivity|].
    intros j _. unfold tile_ids. now rewrite Hb, length_map. }
  assert (HK : length (back_faces T tiles nx ny)
               = (Z.to_nat ny * (Z.to_nat nx * nquads T))%nat).
  { unfold back_faces. now rewrite Hfaces, length_down_from. }
  assert (HF : length (front_faces T tiles nx ny nz n)
               = (Z.to_nat ny * (Z.to_nat nx * nquads T))%nat).
  { unfold front_faces. now rewrite Hfaces, length_up_from. }
  unfold boundary_quads. rewrite !length_app.
  destruct (fLeft flags), (fRight flags), (fBottom flags), (fTop flags),
    (fBack flags), (fFront flags);
    rewrite ?HL, ?HR, ?HB, ?HT, ?HK, ?HF; cbn [length]; lia.
Qed.

End Boundary3D.

(** ** Tiler: [generate] in 3D *)

Lemma blocks_lookup {A} (f : Z -> list A) (P : nat) (k : nat) (lo p : Z) (q : nat) :
  (forall i, length (f i) = P) -> lo <= p < lo + Z.of_nat k -> (q < P)%nat ->
  flat_map f (up_from lo k) !! (Z.to_nat (p - lo) * P + q)%nat = f p !! q.
Proof.
  intros Hlen. revert lo. induction k as [|k IH]; intros lo Hp Hq; [lia|].
  cbn [up_from flat_map]. destruct (Z.eq_dec p lo) as [->|Hne].
  - rewrite Z.sub_diag. cbn [Z.to_nat Nat.mul Nat.add].
    apply lookup_app_l. rewrite Hlen. exact Hq.
  - rewrite lookup_app_r by (rewrite Hlen; nia). rewrite Hlen.
    replace (Z.to_nat (p - lo) * P + q - P)%nat
      with (Z.to_nat (p - (lo + 1)) * P + q)%nat by nia.
    apply IH; lia.
Qed.

Lemma concat_replicate_blocks {A} (xs : list A) (k : nat) (lo : Z) :
  concat (replicate k xs) = flat_map (fun _ => xs) (up_from lo k).
Proof.
  revert lo. induction k as [|k IH]; intros lo; [reflexivity|].
  cbn [replicate concat up_from flat_map]. now rewrite (IH (lo + 1)).
Qed.

(** Point [q] of plane [p] in the replicated coordinates. *)
Lemma plane_point (xs : list Q) (k : nat) (p q : Z) :
  0 <= p < Z.of_nat k -> 0 <= q < Z.of_nat (length xs) ->
  crd (concat (replicate k xs)) (p * Z.of_nat (length xs) + q) = crd xs q.
Proof.
  intros Hp Hq. unfold crd.
  rewrite (at_get 0%Q _ _ (at_ 0%Q xs q)); [reflexivity|].
  apply vec_get_Ok. split; [nia|].
  rewrite (concat_replicate_blocks xs k 0).
  replace (Z.to_nat (p * Z.of_nat (length xs) + q))
    with (Z.to_nat (p - 0) * length xs + Z.to_nat q)%nat by nia.
  rewrite (blocks_lookup (fun _ => xs) (length xs)) by (auto; lia).
  now apply at_lookup.
Qed.

(** The height the generator gives plane [p]. *)
Definition plane_z (origin2 z1 : Q) (nz p : Z) : Q :=
  if Z.eqb p 0 then origin2 else zvalue origin2 z1 nz p.

Lemma plane_at (P : nat) (origin2 z1 : Q) (nz p q : Z) :
  1 <= nz -> 0 <= p <= nz -> 0 <= q < Z.of_nat P ->
  crd (replicate P origin2
       ++ flat_map (fun p => replicate P (zvalue origin2 z1 nz p))
                   (up_from 1 (Z.to_nat nz)))
      (p * Z.of_nat P + q)
  = plane_z origin2 z1 nz p.
Proof.
  intros Hnz Hp Hq. unfold crd, plane_z. destruct (Z.eqb_spec p 0) as [->|Hne].
  - rewrite (at_get 0%Q _ _ origin2); [reflexivity|].
    apply vec_get_Ok. split; [lia|]. apply lookup_app_l_Some.
    apply lookup_replicate_2. lia.
  - rewrite (at_get 0%Q _ _ (zvalue origin2 z1 nz p)); [reflexivity|].
    apply vec_get_Ok. split; [nia|].
    rewrite lookup_app_r by (rewrite length_replicate; nia).
    rewrite length_replicate.
    replace (Z.to_nat (p * Z.of_nat P + q) - P)%nat
      with (Z.to_nat (p - 1) * P + Z.to_nat q)%nat by nia.
    rewrite (blocks_lookup (fun p => replicate P (zvalue origin2 z1 nz p)) P)
      by (try (intros; apply length_replicate); lia).
    apply lookup_replicate_2. lia.
Qed.

Lemma plane_height (P : nat) (origin2 z1 : Q) (nz p q : Z) :
  1 <= nz -> 0 <= p <= nz -> 0 <= q < Z.of_nat P ->
  (crd (replicate P origin2
        ++ flat_map (fun p => replicate P (zvalue origin2 z1 nz p))
                    (up_from 1 (Z.to_nat nz)))
       (p * Z.of_nat P + q)
   == (1 - inject_Z p / inject_Z nz) * origin2 + (inject_Z p / inject_Z nz) * z1)%Q.
Proof.
  intros Hnz Hp Hq. rewrite plane_at by assumption.
  unfold plane_z. destruct (Z.eqb_spec p 0) as [->|Hne]; [|reflexivity].
  change (inject_Z 0) with 0%Q. unfold Qdiv. ring.
Qed.

Section Run3D.

Variable reorder_mesh :
  list Q * list Q * list Q * list Z * list Z ->
  result (list Q * list Q * list Q * list Z * list Z * list Z).

(** What [generate] returns in 3D, reordering turned off: the points of the
    pass in every plane, the hexahedra of the tiles and the quads of the
    boundary. *)
Lemma generate_3D_run T nx ny nz options r origin0 origin1 origin2 tx ty z1 :
  edges_ok T -> quads_ok T -> m_left T <> [] -> m_bottom T <> [] ->
  1 <= nx -> 1 <= ny -> 1 <= nz ->
  (nz + 1) * (nx * ny * Z.of_nat (npts T)) < 2 ^ 31 ->
  o_tile options = None ->
  o_reorder options = Some r -> to_int r <= 0 ->
  placement T nx ny nz options = Ok (origin0, origin1, origin2, tx, ty, z1) ->
  exists pts flags,
    make_points T nx ny (transform T origin0 origin1 tx ty) origin0 tx ty = Ok pts /\
    boundaryFlags options = Ok flags /\
    length (ps_tiles pts) = Z.to_nat (nx * ny) /\
    length (ps_y pts) = length (ps_x pts) /\
    (1 <= length (ps_x pts))%nat /\
    (forall j i, 0 <= i < nx -> 0 <= j < ny ->
       valid_tile T (tile_at nx (ps_tiles pts) j i) (length (ps_x pts))) /\
    let P := length (ps_x pts) in
    let hexs := mesh_hexs T (ps_tiles pts) nx ny nz P in
    let quads := boundary_quads T (ps_tiles pts) nx ny nz P flags in
    generate reorder_mesh T nx ny nz options
    = Ok {| coords_x := concat (replicate (Datatypes.S (Z.to_nat nz)) (ps_x pts));
            coords_y := concat (replicate (Datatypes.S (Z.to_nat nz)) (ps_y pts));
            coords_z :=
              replicate P origin2
              ++ flat_map (fun p => replicate P (zvalue origin2 z1 nz p))
                          (up_from 1 (Z.to_nat nz));
            elements_shape := "hex";
            elements_connectivity := concat hexs;
            elements_sizes := replicate (length hexs) 8;
            topologies_boundary :=
              match concat (map fst quads) with
              | [] => None
              | _ => Some {| b_shape := "quad";
                             b_connectivity := concat (map fst quads);
                             b_sizes := replicate (length quads) 4;
                             boundary_type := map snd quads |}
              end |}.
Proof.
  intros Hedges Hquads Hleft Hbottom Hnx Hny Hnz Hsmall Htile Hreorder Hr Hplace.
  assert (Hplane : nx * ny * Z.of_nat (npts T) < 2 ^ 31) by nia.
  destruct (make_points_spec T nx ny origin0 origin1 tx ty 1%Q 1%Q
              (transform T origin0 origin1 tx ty) Hedges Hnx Hny Hplane)
    as (pts & Hrun & Hlen & Hxy & Hcount & Hdone & _).
  destruct (boundaryFlags_total options) as [flags Hflags].
  assert (Hvalid : forall j i, 0 <= i < nx -> 0 <= j < ny ->
             valid_tile T (tile_at nx (ps_tiles pts) j i) (length (ps_x pts))).
  { intros j i Hi Hj. apply Hdone. unfold done. lia. }
  set (P := length (ps_x pts)) in *.
  assert (Hnpts : (1 <= npts T)%nat).
  { destruct Hedges as (_ & Hbl & _). destruct (m_left T) as [|l ?]; [congruence|].
    apply Forall_cons in Hbl as [Hl _]. lia. }
  assert (HP : (1 <= P)%nat).
  { destruct (Hvalid 0 0 ltac:(lia) ltac:(lia)) as [_ Hv].
    specialize (Hv 0 ltac:(lia)). lia. }
  assert (Hn : (nz + 1) * Z.of_nat P < 2 ^ 31) by nia.
  pose proof (mesh_hexs_valid T (ps_tiles pts) nx ny nz P
                Hquads Hnx Hny Hnz Hlen Hvalid) as Hhexs.
  pose proof (boundary_quads_valid T (ps_tiles pts) nx ny nz P
                Hquads Hedges Hnx Hny Hnz Hlen Hvalid flags) as Hbq.
  pose proof (elements_3D_calls T (ps_tiles pts) nx ny nz P
                Hquads Hnx Hny Hnz Hlen Hvalid ([], [])) as Helems.
  rewrite fold_push_hex in Helems. cbn [app] in Helems. cbv zeta in Helems.
  assert (Hbnd : iterateBoundary3D T (ps_tiles pts) nx ny nz (Z.of_nat P) flags
                   (push_boundary false []) ([], [], [])
                 = Ok (concat (map fst (boundary_quads T (ps_tiles pts) nx ny nz P flags)),
                       replicate
                         (length (boundary_quads T (ps_tiles pts) nx ny nz P flags)) 4,
                       map snd (boundary_quads T (ps_tiles pts) nx ny nz P flags))).
  { rewrite (iterateBoundary3D_calls T (ps_tiles pts) nx ny nz P Hquads Hedges Hleft
               Hbottom Hnx Hny Hlen Hvalid (push_segment 4) (push_boundary false [])).
    - now rewrite fold_push_segment.
    - intros ids side [[c z] t]. reflexivity. }
  exists pts, flags.
  split; [exact Hrun|]. split; [exact Hflags|]. split; [exact Hlen|].
  split; [exact Hxy|]. split; [exact HP|]. split; [exact Hvalid|]. cbv zeta.
  unfold generate.
  rewrite Htile. cbn [mbind result_bind]. rewrite Hreorder, Hplace.
  cbn [mbind result_bind]. rewrite Hrun. cbn [mbind result_bind].
  destruct (Z.ltb_spec nz 1) as [|_]; [lia|].
  cbv zeta. fold P. rewrite planes_run. cbn [mbind result_bind]. fold P.
  rewrite Helems. cbn [mbind result_bind].
  destruct (Z.ltb_spec 0 (to_int r)) as [|_]; [lia|].
  cbn [mbind result_bind]. rewrite Hflags. cbn [mbind result_bind].
  rewrite Hbnd. cbn [mbind result_bind].
  set (int32 := match o_datatype options with Some _ => _ | None => _ end).
  assert (Hfv : Forall (fun id => - 2 ^ 31 <= id < 2 ^ 31)
                       (concat (mesh_hexs T (ps_tiles pts) nx ny nz P))).
  { apply Forall_concat. eapply Forall_impl; [exact Hhexs|].
    intros ids (_ & Hs & _). eapply Forall_impl; [exact Hs|]. cbn beta. intros id Hid. lia. }
  assert (Hsv : Forall (fun id => - 2 ^ 31 <= id < 2 ^ 31)
                  (concat (map fst (boundary_quads T (ps_tiles pts) nx ny nz P flags)))).
  { apply Forall_concat, Forall_fmap. eapply Forall_impl; [exact Hbq|].
    intros seg [_ Hs]. eapply Forall_impl; [exact Hs|]. cbn beta. intros id Hid. lia. }
  rewrite !(to_data_type_small int32 (concat _)) by assumption.
  rewrite !(to_data_type_small int32 (replicate _ _))
    by (apply Forall_replicate_const; lia).
  remember (replicate P origin2
            ++ flat_map (fun p => replicate P (zvalue origin2 z1 nz p))
                        (up_from 1 (Z.to_nat nz))) as z eqn:Ez.
  destruct z as [|z0 z]; [|reflexivity].
  apply (f_equal length) in Ez. rewrite length_app, length_replicate in Ez.
  cbn [length] in Ez. lia.
Qed.

End Run3D.

(** X20: for [nz >= 1], a pattern whose edge and quad arrays name template
    points and reordering turned off, [generate] returns a mesh of
    hexahedra.  The points of the pass are repeated in [nz + 1] planes:
    point [q] of plane [p] has the [x] and [y] of point [q] of the pass, and
    all the points of a plane have one [z].  There are
    [nz * ny * nx * (|quads| / 4)] elements of size 8; every one holds four
    ids of one plane and then, point for point, the ids of the same quad one
    plane higher, and all its ids are ids of points. *)
Theorem generate_3D_points_and_hexs :
  forall reorder_mesh T nx ny nz options r origin0 origin1 origin2 tx ty z1,
    edges_ok T -> quads_ok T -> m_left T <> [] -> m_bottom T <> [] ->
    1 <= nx -> 1 <= ny -> 1 <= nz ->
    (nz + 1) * (nx * ny * Z.of_nat (npts T)) < 2 ^ 31 ->
    o_tile options = None ->
    o_reorder options = Some r -> to_int r <= 0 ->
    placement T nx ny nz options = Ok (origin0, origin1, origin2, tx, ty, z1) ->
    exists pts out,
      make_points T nx ny (transform T origin0 origin1 tx ty) origin0 tx ty = Ok pts /\
      generate reorder_mesh T nx ny nz options = Ok out /\
      let P := Z.of_nat (length (ps_x pts)) in
      1 <= P /\
      Z.of_nat (length (coords_x out)) = (nz + 1) * P /\
      Z.of_nat (length (coords_y out)) = (nz + 1) * P /\
      Z.of_nat (length (coords_z out)) = (nz + 1) * P /\
      (forall p q, 0 <= p <= nz -> 0 <= q < P ->
         crd (coords_x out) (p * P + q) = crd (ps_x pts) q /\
         crd (coords_y out) (p * P + q) = crd (ps_y pts) q /\
         crd (coords_z out) (p * P + q) = crd (coords_z out) (p * P)) /\
      elements_shape out = "hex" /\
      elements_sizes out
      = replicate (Z.to_nat nz * (Z.to_nat ny * (Z.to_nat nx * nquads T))) 8 /\
      exists hexs,
        elements_connectivity out = concat hexs /\
        length hexs = (Z.to_nat nz * (Z.to_nat ny * (Z.to_nat nx * nquads T)))%nat /\
        Forall (fun ids =>
                  length ids = 8%nat /\
                  Forall (fun id => 0 <= id < (nz + 1) * P) ids /\
                  drop 4 ids = map (fun id => id + P) (take 4 ids)) hexs.
Proof.
  intros reorder_mesh T nx ny nz options r origin0 origin1 origin2 tx ty z1
         Hedges Hquads Hleft Hbottom Hnx Hny Hnz Hsmall Htile Hreorder Hr Hplace.
  destruct (generate_3D_run reorder_mesh T nx ny nz options r origin0 origin1 origin2
              tx ty z1 Hedges Hquads Hleft Hbottom Hnx Hny Hnz Hsmall Htile Hreorder
              Hr Hplace)
    as (pts & flags & Hrun & Hflags & Hlen & Hxy & HP & Hvalid & Hgen).
  cbv zeta in Hgen.
  exists pts. eexists. split; [exact Hrun|]. split; [exact Hgen|].
  cbn [coords_x coords_y coords_z elements_shape elements_sizes elements_connectivity].
  cbv zeta.
  assert (Hcat : forall xs : list Q,
             Z.of_nat (length (concat (replicate (Datatypes.S (Z.to_nat nz)) xs)))
             = (nz + 1) * Z.of_nat (length xs)).
  { intros xs. rewrite (length_concat_const _ (length xs)).
    - rewrite length_replicate. nia.
    - now apply Forall_replicate_const. }
  split; [lia|]. split; [apply Hcat|]. split; [rewrite Hcat, Hxy; reflexivity|].
  split.
  { rewrite length_app, length_replicate.
    rewrite (length_flat_map_const _ _ (length (ps_x pts)))
      by (intros; apply length_replicate).
    rewrite length_up_from. nia. }
  split.
  { intros p q Hp Hq. split; [|split].
    - apply plane_point; lia.
    - rewrite <- Hxy. apply plane_point; [lia|]. rewrite Hxy. lia.
    - rewrite (plane_at _ _ _ nz p q) by lia.
      rewrite <- (Z.add_0_r (p * Z.of_nat (length (ps_x pts)))).
      rewrite (plane_at _ _ _ nz p 0) by lia. reflexivity. }
  split; [reflexivity|].
  split; [now rewrite length_mesh_hexs|].
  eexists. split; [reflexivity|]. split; [apply length_mesh_hexs|].
  exact (mesh_hexs_valid T (ps_tiles pts) nx ny nz (length (ps_x pts))
           Hquads Hnx Hny Hnz Hlen Hvalid).
Qed.

Lemma generate_3D_points_and_hexs_witness :
  exists out,
    generate (fun _ => Err NoMessage) default_tiler 2 1 2 reorder_off = Ok out /\
    elements_shape out = "hex" /\
    elements_sizes out = replicate (2 * (1 * (2 * nquads default_tiler))) 8.
Proof.
  destruct (generate_3D_points_and_hexs (fun _ => Err NoMessage) default_tiler 2 1 2
              reorder_off 0 0 0 0 (m_width default_tiler) (m_height default_tiler)
              (Qmax (m_width default_tiler) (m_height default_tiler) * inject_Z 2)%Q)
    as (pts & out & _ & Hgen & _ & _ & _ & _ & _ & Hshape & Hsizes & _).
  - exact default_edges_ok.
  - exact default_quads_ok.
  - discriminate.
  - discriminate.
  - lia.
  - lia.
  - lia.
  - vm_compute. reflexivity.
  - reflexivity.
  - reflexivity.
  - vm_compute. discriminate.
  - reflexivity.
  - exists out. split; [exact Hgen|]. split; [exact Hshape|exact Hsizes].
Defined.

(** X21: in 3D the boundary topology of [generate] has shape [quad] and
    holds the quads of [iterateBoundary3D], all of size 4 and of ids of
    points: for each enabled side Left, Right, Bottom, Top, in this order,
    the segments of that side of the 2D boundary swept from every plane to
    the next, a segment [(a, b)] giving the quad
    [(k P + a, k P + b, (k+1) P + b, (k+1) P + a)]; then for Back the quads
    of the tiles in the first plane, turned over, and for Front those in the
    last plane.  Their number is the sum over the enabled sides of
    [nz * ny * (|left| - 1)], [nz * ny * (|right| - 1)],
    [nz * nx * (|bottom| - 1)], [nz * nx * (|top| - 1)] and twice
    [ny * nx * (|quads| / 4)]. *)
Theorem generate_3D_boundary :
  forall reorder_mesh T nx ny nz options r origin0 origin1 origin2 tx ty z1,
    edges_ok T -> quads_ok T -> m_left T <> [] -> m_bottom T <> [] ->
    1 <= nx -> 1 <= ny -> 1 <= nz ->
    (nz + 1) * (nx * ny * Z.of_nat (npts T)) < 2 ^ 31 ->
    o_tile options = None ->
    o_reorder options = Some r -> to_int r <= 0 ->
    placement T nx ny nz options = Ok (origin0, origin1, origin2, tx, ty, z1) ->
    exists pts flags out,
      make_points T nx ny (transform T origin0 origin1 tx ty) origin0 tx ty = Ok pts /\
      boundaryFlags options = Ok flags /\
      generate reorder_mesh T nx ny nz options = Ok out /\
      let P := length (ps_x pts) in
      let quads := boundary_quads T (ps_tiles pts) nx ny nz P flags in
      topologies_boundary out
      = match quads with
        | [] => None
        | _ => Some {| b_shape := "quad";
                       b_connectivity := concat (map fst quads);
                       b_sizes := replicate (length quads) 4;
                       boundary_type := map snd quads |}
        end /\
      Forall (fun q : segment =>
                length (fst q) = 4%nat /\
                Forall (fun id => 0 <= id < Z.of_nat (length (coords_x out))) (fst q))
             quads /\
      length quads =
      ((if fLeft flags then Z.to_nat nz * (Z.to_nat ny * (length (m_left T) - 1)) else 0)
       + (if fRight flags then Z.to_nat nz * (Z.to_nat ny * (length (m_right T) - 1)) else 0)
       + (if fBottom flags then Z.to_nat nz * (Z.to_nat nx * (length (m_bottom T) - 1)) else 0)
       + (if fTop flags then Z.to_nat nz * (Z.to_nat nx * (length (m_top T) - 1)) else 0)
       + (if fBack flags then Z.to_nat ny * (Z.to_nat nx * nquads T) else 0)
       + (if fFront flags then Z.to_nat ny * (Z.to_nat nx * nquads T) else 0))%nat.
Proof.
  intros reorder_mesh T nx ny nz options r origin0 origin1 origin2 tx ty z1
         Hedges Hquads Hleft Hbottom Hnx Hny Hnz Hsmall Htile Hreorder Hr Hplace.
  destruct (generate_3D_run reorder_mesh T nx ny nz options r origin0 origin1 origin2
              tx ty z1 Hedges Hquads Hleft Hbottom Hnx Hny Hnz Hsmall Htile Hreorder
              Hr Hplace)
    as (pts & flags & Hrun & Hflags & Hlen & Hxy & HP & Hvalid & Hgen).
  cbv zeta in Hgen.
  pose proof (boundary_quads_valid T (ps_tiles pts) nx ny nz (length (ps_x pts))
                Hquads Hedges Hnx Hny Hnz Hlen Hvalid flags) as Hbq.
  exists pts, flags. eexists.
  split; [exact Hrun|]. split; [exact Hflags|]. split; [exact Hgen|].
  cbn [coords_x topologies_boundary]. cbv zeta.
  split; [|split].
  - destruct (boundary_quads T (ps_tiles pts) nx ny nz (length (ps_x pts)) flags)
      as [|seg segs']; [reflexivity|].
    apply Forall_cons in Hbq as [[Hl4 _] _].
    destruct seg as [[|a ids] side]; [discriminate Hl4|]. reflexivity.
  - eapply Forall_impl; [exact Hbq|]. intros q [Hl Hids]. split; [exact Hl|].
    eapply Forall_impl; [exact Hids|]. cbv beta. intros id Hid.
    rewrite (length_concat_const _ (length (ps_x pts)))
      by now apply Forall_replicate_const.
    rewrite length_replicate. nia.
  - apply (length_boundary_quads T (ps_tiles pts) nx ny nz (length (ps_x pts))).
    exact Hlen.
Qed.

Lemma generate_3D_boundary_witness :
  exists out b,
    generate (fun _ => Err NoMessage) default_tiler 2 1 2 reorder_off = Ok out /\
    topologies_boundary out = Some b /\
    b_shape b = "quad" /\ length (b_sizes b) = 144%nat.
Proof.
  destruct (generate_3D_boundary (fun _ => Err NoMessage) default_tiler 2 1 2
              reorder_off 0 0 0 0 (m_width default_tiler) (m_height default_tiler)
              (Qmax (m_width default_tiler) (m_height default_tiler) * inject_Z 2)%Q)
    as (pts & flags & out & _ & Hflags & Hgen & Hb & _ & Hcount).
  - exact default_edges_ok.
  - exact default_quads_ok.
  - discriminate.
  - discriminate.
  - lia.
  - lia.
  - lia.
  - vm_compute. reflexivity.
  - reflexivity.
  - reflexivity.
  - vm_compute. discriminate.
  - reflexivity.
  - injection Hflags as <-.
    cbn [fLeft fRight fBottom fTop fBack fFront] in Hcount.
    change (_ + _ + _ + _ + _ + _)%nat with 144%nat in Hcount.
    destruct (boundary_quads default_tiler (ps_tiles pts) 2 1 2 (length (ps_x pts)) _)
      as [|q quads] eqn:Eq; [discriminate Hcount|].
    exists out. eexists. split; [exact Hgen|]. split; [exact Hb|].
    cbn [b_shape b_sizes]. split; [reflexivity|].
    rewrite length_replicate. exact Hcount.
Defined.

(** ** Tiler: domains stacked in z *)

(** The options of one domain of a decomposition, reordering turned off. *)
Definition stacked_options (domain domains : list Z) : options_node :=
  {| o_tile := None; o_reorder := Some 0; o_datatype := None;
     o_extents := None; o_domain := Some domain; o_domains := Some domains |}.

(** X22: domains stacked in z meet.  For a pattern whose width and height
    are positive whole numbers of magnitude [2^20] at most and a domain
    of [int] components with [(|d2| + 2) * max(width, height) * nz <= 2^50]
    (doubles compute such heights exactly), with the [domain] and [domains] options, no
    [extents] and [nz >= 1], the last plane of the mesh of domain
    [(d0, d1, d2)] is, point for point, the first plane of the mesh of
    domain [(d0, d1, d2 + 1)]: the same [x] and [y] and equal [z]. *)
Theorem stacked_domains_meet :
  forall reorder_mesh T nx ny nz d0 d1 d2 n0 n1 n2,
    edges_ok T -> quads_ok T -> m_left T <> [] -> m_bottom T <> [] ->
    whole (2 ^ 20) (m_width T) = true -> whole (2 ^ 20) (m_height T) = true ->
    (0 < m_width T)%Q -> (0 < m_height T)%Q ->
    - 2 ^ 31 <= d2 < 2 ^ 31 - 1 ->
    whole (2 ^ 50) (inject_Z (Z.abs d2 + 2)
                    * (Qmax (m_width T) (m_height T) * inject_Z nz)) = true ->
    1 <= nx -> 1 <= ny -> 1 <= nz ->
    (nz + 1) * (nx * ny * Z.of_nat (npts T)) < 2 ^ 31 ->
    exists below above P,
      generate reorder_mesh T nx ny nz (stacked_options [d0; d1; d2] [n0; n1; n2])
        = Ok below /\
      generate reorder_mesh T nx ny nz (stacked_options [d0; d1; d2 + 1] [n0; n1; n2])
        = Ok above /\
      1 <= P /\
      Z.of_nat (length (coords_z below)) = (nz + 1) * P /\
      Z.of_nat (length (coords_z above)) = (nz + 1) * P /\
      forall q, 0 <= q < P ->
        crd (coords_x below) (nz * P + q) = crd (coords_x above) q /\
        crd (coords_y below) (nz * P + q) = crd (coords_y above) q /\
        (crd (coords_z below) (nz * P + q) == crd (coords_z above) q)%Q.
Proof.
  intros reorder_mesh T nx ny nz d0 d1 d2 n0 n1 n2
         Hedges Hquads Hleft Hbottom _ _ _ _ _ _ Hnx Hny Hnz Hsmall.
  set (zz := (Qmax (m_width T) (m_height T) * inject_Z nz)%Q).
  destruct (generate_3D_run reorder_mesh T nx ny nz
              (stacked_options [d0; d1; d2] [n0; n1; n2]) 0
              (inject_Z (d0 * nx) * m_width T)%Q (inject_Z (d1 * ny) * m_height T)%Q
              (inject_Z d2 * zz)%Q (m_width T) (m_height T) (inject_Z d2 * zz + zz)%Q
              Hedges Hquads Hleft Hbottom Hnx Hny Hnz Hsmall)
    as (pts & flags & Hrun & _ & _ & Hxy & HP & _ & Hgen);
    [reflexivity|reflexivity|vm_compute; discriminate|reflexivity|].
  destruct (generate_3D_run reorder_mesh T nx ny nz
              (stacked_options [d0; d1; d2 + 1] [n0; n1; n2]) 0
              (inject_Z (d0 * nx) * m_width T)%Q (inject_Z (d1 * ny) * m_height T)%Q
              (inject_Z (d2 + 1) * zz)%Q (m_width T) (m_height T)
              (inject_Z (d2 + 1) * zz + zz)%Q
              Hedges Hquads Hleft Hbottom Hnx Hny Hnz Hsmall)
    as (pts' & flags' & Hrun' & _ & _ & _ & _ & _ & Hgen');
    [reflexivity|reflexivity|vm_compute; discriminate|reflexivity|].
  assert (pts' = pts) as -> by congruence.
  cbv zeta in Hgen, Hgen'.
  eexists. eexists. exists (Z.of_nat (length (ps_x pts))).
  split; [exact Hgen|]. split; [exact Hgen'|].
  cbn [coords_x coords_y coords_z].
  assert (Hzlen : forall o2 z1 : Q,
             Z.of_nat (length (replicate (length (ps_x pts)) o2
                               ++ flat_map (fun p => replicate (length (ps_x pts))
                                                       (zvalue o2 z1 nz p))
                                           (up_from 1 (Z.to_nat nz))))
             = (nz + 1) * Z.of_nat (length (ps_x pts))).
  { intros o2 z1. rewrite length_app, length_replicate.
    rewrite (length_flat_map_const _ _ (length (ps_x pts)))
      by (intros; apply length_replicate).
    rewrite length_up_from. nia. }
  split; [lia|]. split; [apply Hzlen|]. split; [apply Hzlen|].
  intros q Hq.
  set (k := Datatypes.S (Z.to_nat nz)).
  pose proof (plane_point (ps_x pts) k nz q ltac:(lia) ltac:(lia)) as Hxt.
  pose proof (plane_point (ps_x pts) k 0 q ltac:(lia) ltac:(lia)) as Hxb.
  pose proof (plane_point (ps_y pts) k nz q ltac:(lia) ltac:(lia)) as Hyt.
  pose proof (plane_point (ps_y pts) k 0 q ltac:(lia) ltac:(lia)) as Hyb.
  pose proof (plane_height (length (ps_x pts)) (inject_Z d2 * zz) (inject_Z d2 * zz + zz)
                nz nz q Hnz ltac:(lia) Hq) as Hzt.
  pose proof (plane_height (length (ps_x pts)) (inject_Z (d2 + 1) * zz)
                (inject_Z (d2 + 1) * zz + zz) nz 0 q Hnz ltac:(lia) Hq) as Hzb.
  rewrite Hxy in Hyt, Hyb.
  rewrite Z.mul_0_l, Z.add_0_l in Hxb, Hyb, Hzb.
  split; [congruence|]. split; [congruence|].
  rewrite Hzt, Hzb.
  change (inject_Z 0) with 0%Q. rewrite inject_Z_plus. change (inject_Z 1) with 1%Q.
  assert (Hnz0 : ~ (inject_Z nz == 0)%Q).
  { change 0%Q with (inject_Z 0). rewrite inject_Z_injective. lia. }
  field. exact Hnz0.
Qed.

Lemma stacked_domains_meet_witness :
  exists below above,
    generate (fun _ => Err NoMessage) default_tiler 1 1 2
      (stacked_options [0; 0; 0] [1; 1; 2]) = Ok below /\
    generate (fun _ => Err NoMessage) default_tiler 1 1 2
      (stacked_options [0; 0; 0 + 1] [1; 1; 2]) = Ok above /\
    Z.of_nat (length (coords_z below)) = Z.of_nat (length (coords_z above)).
Proof.
  destruct (stacked_domains_meet (fun _ => Err NoMessage) default_tiler 1 1 2
              0 0 0 1 1 2)
    as (below & above & P & Hb & Ha & _ & Hlb & Hla & _).
  - exact default_edges_ok.
  - exact default_quads_ok.
  - discriminate.
  - discriminate.
  - vm_compute. reflexivity.
  - vm_compute. reflexivity.
  - vm_compute. reflexivity.
  - vm_compute. reflexivity.
  - lia.
  - vm_compute. reflexivity.
  - lia.
  - lia.
  - lia.
  - vm_compute. reflexivity.
  - exists below, above. split; [exact Hb|]. split; [exact Ha|]. congruence.
Defined.

(** ** Tiler: the boundary callbacks, whatever they do *)

Lemma bind_ext {A B} (m : result A) (f g : A -> result B) :
  (forall a, f a = g a) -> mbind f m = mbind g m.
Proof. intros H. destruct m; [apply H|reflexivity]. Qed.

Section CallsOf.

Context {S : Type}.
Variable body : list Z -> Z -> Z -> S -> result S.

(** [body] called on the segments of a list in turn, up to the first
    error. *)
Definition calls (npts : Z) (segs : list segment) (s : S) : result S :=
  for_each segs (fun seg s => body (fst seg) npts (snd seg) s) s.

Lemma calls_app (npts : Z) (l1 l2 : list segment) (s : S) :
  calls npts (l1 ++ l2) s = (s' ← calls npts l1 s; calls npts l2 s').
Proof.
  revert s. induction l1 as [|seg l1 IH]; intros s; [reflexivity|].
  cbn [calls app for_each]. destruct (body _ _ _ s) as [s1|e]; [|reflexivity].
  cbn [mbind result_bind]. apply IH.
Qed.

Lemma for_range_calls_of (npts : Z) (f : Z -> list segment)
    (loop_body : Z -> S -> result S) :
  forall n lo s,
    (forall k s, lo <= k < lo + Z.of_nat n -> loop_body k s = calls npts (f k) s) ->
    for_range lo n loop_body s = calls npts (flat_map f (up_from lo n)) s.
Proof.
  induction n as [|n IH]; intros lo s Hbody; [reflexivity|].
  cbn [for_range up_from flat_map]. rewrite calls_app, Hbody by lia.
  destruct (calls npts (f lo) s) as [s1|e]; [|reflexivity].
  cbn [mbind result_bind]. apply IH. intros k s' Hk. apply Hbody. lia.
Qed.

Lemma for_down_calls_of (npts : Z) (f : Z -> list segment)
    (loop_body : Z -> S -> result S) :
  forall n hi s,
    (forall k s, hi - Z.of_nat n < k <= hi -> loop_body k s = calls npts (f k) s) ->
    for_down hi n loop_body s = calls npts (flat_map f (down_from hi n)) s.
Proof.
  induction n as [|n IH]; intros hi s Hbody; [reflexivity|].
  cbn [for_down down_from flat_map]. rewrite calls_app, Hbody by lia.
  destruct (calls npts (f hi) s) as [s1|e]; [|reflexivity].
  cbn [mbind result_bind]. apply IH. intros k s' Hk. apply Hbody. lia.
Qed.

Lemma calls_one (npts : Z) (seg : segment) (s : S) :
  calls npts [seg] s = body (fst seg) npts (snd seg) s.
Proof. cbn [calls for_each]. now destruct (body _ _ _ s). Qed.

Lemma edge_forward_calls_of (side : Z) (ids : list Z) (s : S) :
  ids <> [] ->
  edge_forward ids (fun a b => body [a; b] 2 side) s
  = calls 2 (forward_segments side ids) s.
Proof.
  intros Hne. unfold edge_forward, forward_segments.
  destruct ids as [|id0 ids']; [congruence|]. set (ids := id0 :: ids') in *.
  fold ids. rewrite <- flat_map_singletons.
  apply for_range_calls_of. intros bi s' Hbi.
  rewrite (vec_get_at 0 ids bi) by lia. cbn [mbind result_bind].
  rewrite (vec_get_at 0 ids (bi + 1)) by lia. cbn [mbind result_bind].
  now rewrite calls_one.
Qed.

Lemma edge_backward_calls_of (side : Z) (ids : list Z) (s : S) :
  ids <> [] ->
  edge_backward ids (fun a b => body [a; b] 2 side) s
  = calls 2 (backward_segments side ids) s.
Proof.
  intros Hne. unfold edge_backward, backward_segments.
  destruct ids as [|id0 ids']; [congruence|]. set (ids := id0 :: ids') in *.
  fold ids. rewrite <- flat_map_singletons.
  apply for_down_calls_of. intros bi s' Hbi.
  rewrite (vec_get_at 0 ids bi) by lia. cbn [mbind result_bind].
  rewrite (vec_get_at 0 ids (bi - 1)) by lia. cbn [mbind result_bind].
  now rewrite calls_one.
Qed.

End CallsOf.

Section BoundaryOf.

Variables (T : Tiler) (tiles : list (list Z)) (nx ny : Z) (n : nat).

Hypothesis Hquads : quads_ok T.
Hypothesis Hedges : edges_ok T.
Hypothesis Hleft : m_left T <> [].
Hypothesis Hbottom : m_bottom T <> [].
Hypothesis Hnx : 1 <= nx.
Hypothesis Hny : 1 <= ny.
Hypothesis Htiles_len : length tiles = Z.to_nat (nx * ny).
Hypothesis Hvalid :
  forall j i, 0 <= i < nx -> 0 <= j < ny -> valid_tile T (tile_at nx tiles j i) n.

Lemma tile_edge_calls_of {S} (body : list Z -> Z -> Z -> S -> result S)
    (forward : bool) (side : Z) (edge : list Z) (j i : Z) (s : S) :
  0 <= i < nx -> 0 <= j < ny -> in_bounds (npts T) edge -> edge <> [] ->
  (current ← vec_get tiles (j * nx + i);
   ids ← Tile.getPointIds current edge;
   (if forward then edge_forward ids (fun a b => body [a; b] 2 side) s
    else edge_backward ids (fun a b => body [a; b] 2 side) s))
  = calls body 2
      ((if forward then forward_segments side else backward_segments side)
         (tile_ids tiles nx j i edge)) s.
Proof.
  intros Hi Hj Hin Hne.
  pose proof (tile_index nx ny j i Hi Hj) as Hq.
  rewrite (vec_get_at [] tiles (j * nx + i)) by lia. cbn [mbind result_bind].
  fold (tile_at nx tiles j i).
  rewrite getPointIds_spec by (now rewrite (proj1 (Hvalid j i Hi Hj))).
  cbn [mbind result_bind]. fold (tile_ids tiles nx j i edge).
  assert (Hids : tile_ids tiles nx j i edge <> []).
  { unfold tile_ids. destruct edge; [congruence|discriminate]. }
  destruct forward; [now apply edge_forward_calls_of|now apply edge_backward_calls_of].
Qed.

Lemma edges_nonempty : m_right T <> [] /\ m_top T <> [].
Proof.
  destruct Hedges as (_ & _ & _ & _ & _ & Hlr & Hlbt & _). split.
  - intros H. apply Hleft. apply nil_length_inv. now rewrite Hlr, H.
  - intros H. apply Hbottom. apply nil_length_inv. now rewrite Hlbt, H.
Qed.

(** [iterateBoundary2D] calls [body] on the segments of
    [boundary_segments], in their order, and stops at its first error. *)
Lemma iterateBoundary2D_calls_of {S} (body : list Z -> Z -> Z -> S -> result S)
    (flags : boundary_flags) (s : S) :
  iterateBoundary2D T tiles nx ny flags body s
  = calls body 2 (boundary_segments T tiles nx ny flags) s.
Proof.
  destruct edges_nonempty as [Hright Htop].
  destruct Hedges as (_ & Hbl & Hbr & Hbb & Hbt & _).
  unfold iterateBoundary2D, boundary_segments. rewrite calls_app.
  assert (HL : forall s,
             (if fLeft flags then
                for_down (ny - 1) (Z.to_nat ny) (fun j s =>
                  current ← vec_get tiles (j * nx + 0);
                  ids ← Tile.getPointIds current (m_left T);
                  edge_backward ids (fun a b => body [a; b] 2 BoundaryLeft) s) s
              else Ok s)
             = calls body 2 (if fLeft flags then left_side T tiles nx ny else []) s).
  { intros s0. destruct (fLeft flags); [|reflexivity]. unfold left_side.
    apply for_down_calls_of. intros j s' Hj.
    apply (tile_edge_calls_of body false BoundaryLeft (m_left T) j 0);
      try assumption; lia. }
  assert (HB : forall s,
             (if fBottom flags then
                for_range 0 (Z.to_nat nx) (fun i s =>
                  current ← vec_get tiles (0 * nx + i);
                  ids ← Tile.getPointIds current (m_bottom T);
                  edge_forward ids (fun a b => body [a; b] 2 BoundaryBottom) s) s
              else Ok s)
             = calls body 2 (if fBottom flags then bottom_side T tiles nx else []) s).
  { intros s0. destruct (fBottom flags); [|reflexivity]. unfold bottom_side.
    apply for_range_calls_of. intros i s' Hi.
    apply (tile_edge_calls_of body true BoundaryBottom (m_bottom T) 0 i);
      try assumption; lia. }
  assert (HR : forall s,
             (if fRight flags then
                for_range 0 (Z.to_nat ny) (fun j s =>
                  current ← vec_get tiles (j * nx + (nx - 1));
                  ids ← Tile.getPointIds current (m_right T);
                  edge_forward ids (fun a b => body [a; b] 2 BoundaryRight) s) s
              else Ok s)
             = calls body 2 (if fRight flags then right_side T tiles nx ny else []) s).
  { intros s0. destruct (fRight flags); [|reflexivity]. unfold right_side.
    apply for_range_calls_of. intros j s' Hj.
    apply (tile_edge_calls_of body true BoundaryRight (m_right T) j (nx - 1));
      try assumption; lia. }
  assert (HT : forall s,
             (if fTop flags then
                for_down (nx - 1) (Z.to_nat nx) (fun i s =>
                  current ← vec_get tiles ((ny - 1) * nx + i);
                  ids ← Tile.getPointIds current (m_top T);
                  edge_backward ids (fun a b => body [a; b] 2 BoundaryTop) s) s
              else Ok s)
             = calls body 2 (if fTop flags then top_side T tiles nx ny else []) s).
  { intros s0. destruct (fTop flags); [|reflexivity]. unfold top_side.
    apply for_down_calls_of. intros i s' Hi.
    apply (tile_edge_calls_of body false BoundaryTop (m_top T) (ny - 1) i);
      try assumption; lia. }
  cbv zeta. rewrite HL. apply bind_ext. intros s1.
  rewrite calls_app, HB. apply bind_ext. intros s2.
  rewrite calls_app, HR. apply bind_ext. intros s3.
  apply HT.
Qed.

End BoundaryOf.

Section Boundary3DOf.

Variables (T : Tiler) (tiles : list (list Z)) (nx ny nz : Z) (n : nat).

Hypothesis Hquads : quads_ok T.
Hypothesis Hedges : edges_ok T.
Hypothesis Hleft : m_left T <> [].
Hypothesis Hbottom : m_bottom T <> [].
Hypothesis Hnx : 1 <= nx.
Hypothesis Hny : 1 <= ny.
Hypothesis Htiles_len : length tiles = Z.to_nat (nx * ny).
Hypothesis Hvalid :
  forall j i, 0 <= i < nx -> 0 <= j < ny -> valid_tile T (tile_at nx tiles j i) n.

Context {S : Type}.
Variable body : list Z -> Z -> Z -> S -> result S.

Lemma iterateFaces_calls_of (t : list Z) (offset : Z) (reverse : bool) (stype : Z)
    (s : S) :
  length t = npts T ->
  iterateFaces T t offset reverse stype body s
  = calls body 4 (tile_faces T t offset reverse stype) s.
Proof.
  intros Ht. unfold iterateFaces, tile_faces. fold (nquads T).
  rewrite <- flat_map_singletons. apply for_range_calls_of. intros i s' Hi.
  destruct (quad_point T t i 0 Hquads Ht ltac:(lia) ltac:(lia))
    as (q0 & Hq0 & -> & _ & Hp0).
  destruct (quad_point T t i 1 Hquads Ht ltac:(lia) ltac:(lia))
    as (q1 & Hq1 & -> & _ & Hp1).
  destruct (quad_point T t i 2 Hquads Ht ltac:(lia) ltac:(lia))
    as (q2 & Hq2 & -> & _ & Hp2).
  destruct (quad_point T t i 3 Hquads Ht ltac:(lia) ltac:(lia))
    as (q3 & Hq3 & -> & _ & Hp3).
  rewrite calls_one. unfold quad_ids. cbn [fst snd].
  destruct reverse.
  - destruct (vec_get_four 3 2 1 0) as (E0 & E1 & E2 & E3).
    do 12 (rewrite ?E0, ?E1, ?E2, ?E3, ?Hq0, ?Hq1, ?Hq2, ?Hq3, ?Hp0, ?Hp1, ?Hp2, ?Hp3;
           cbn [mbind result_bind]).
    reflexivity.
  - destruct (vec_get_four 0 1 2 3) as (E0 & E1 & E2 & E3).
    do 12 (rewrite ?E0, ?E1, ?E2, ?E3, ?Hq0, ?Hq1, ?Hq2, ?Hq3, ?Hp0, ?Hp1, ?Hp2, ?Hp3;
           cbn [mbind result_bind]).
    reflexivity.
Qed.

(** The callback of a side wall, seen as a callback on the segments of the
    2D side. *)
Definition swept (offset1 offset2 : Z) : list Z -> Z -> Z -> S -> result S :=
  fun ids _ side s => body (fst (extrude offset1 offset2 (ids, side))) 4 side s.

Lemma calls_swept (offset1 offset2 : Z) (segs : list segment) (s : S) :
  calls (swept offset1 offset2) 2 segs s
  = calls body 4 (map (extrude offset1 offset2) segs) s.
Proof.
  revert s. induction segs as [|seg segs IH]; intros s; [reflexivity|].
  cbn [calls map for_each].
  change (swept offset1 offset2 (fst seg) 2 (snd seg) s)
    with (body (fst (extrude offset1 offset2 seg)) 4
               (snd (extrude offset1 offset2 seg)) s).
  apply bind_ext. intros s1. apply IH.
Qed.

Lemma wall_calls_of (forward : bool) (side : Z) (edge : list Z)
    (rows : list Z) (at_row : Z -> Z * Z) (s : S)
    (loop : (Z -> S -> result S) -> S -> result S) :
  in_bounds (npts T) edge -> edge <> [] ->
  (forall r, r ∈ rows -> 0 <= snd (at_row r) < nx /\ 0 <= fst (at_row r) < ny) ->
  (forall (body' : list Z -> Z -> Z -> S -> result S) (f : Z -> list segment) inner s,
      (forall r s, r ∈ rows -> inner r s = calls body' 2 (f r) s) ->
      loop inner s = calls body' 2 (flat_map f rows) s) ->
  for_range 0 (Z.to_nat nz) (fun k s =>
    let offset1 := k * Z.of_nat n in
    let offset2 := (k + 1) * Z.of_nat n in
    loop (fun r s =>
      current ← vec_get tiles (fst (at_row r) * nx + snd (at_row r));
      ids ← Tile.getPointIds current edge;
      (if forward then edge_forward ids (side_quads T offset1 offset2 side body) s
       else edge_backward ids (side_quads T offset1 offset2 side body) s)) s) s
  = calls body 4
      (wall nz n (flat_map (fun r =>
                    (if forward then forward_segments side else backward_segments side)
                      (tile_ids tiles nx (fst (at_row r)) (snd (at_row r)) edge)) rows)) s.
Proof.
  intros Hin Hne Hrows Hloop. unfold wall.
  apply for_range_calls_of. intros k s' Hk. cbv zeta.
  rewrite <- calls_swept.
  apply (Hloop (swept (k * Z.of_nat n) ((k + 1) * Z.of_nat n))).
  intros r s'' Hr. destruct (Hrows r Hr) as [Hi Hj].
  exact (tile_edge_calls_of T tiles nx ny n Hnx Hny Htiles_len Hvalid
           (swept (k * Z.of_nat n) ((k + 1) * Z.of_nat n))
           forward side edge (fst (at_row r)) (snd (at_row r)) s'' Hi Hj Hin Hne).
Qed.

Lemma up_loop_of (k : nat) (body' : list Z -> Z -> Z -> S -> result S) (npts : Z)
    (f : Z -> list segment) (inner : Z -> S -> result S) (s : S) :
  (forall r s, r ∈ up_from 0 k -> inner r s = calls body' npts (f r) s) ->
  for_range 0 k inner s = calls body' npts (flat_map f (up_from 0 k)) s.
Proof.
  intros Hinner. apply for_range_calls_of. intros r s' Hr. apply Hinner.
  now apply elem_of_up_from.
Qed.

Lemma down_loop_of (hi : Z) (k : nat) (body' : list Z -> Z -> Z -> S -> result S)
    (npts : Z) (f : Z -> list segment) (inner : Z -> S -> result S) (s : S) :
  (forall r s, r ∈ down_from hi k -> inner r s = calls body' npts (f r) s) ->
  for_down hi k inner s = calls body' npts (flat_map f (down_from hi k)) s.
Proof.
  intros Hinner. apply for_down_calls_of. intros r s' Hr. apply Hinner.
  now apply elem_of_down_from.
Qed.

(** [iterateBoundary3D] calls [body] on the quads of [boundary_quads], in
    their order, and stops at its first error. *)
Lemma iterateBoundary3D_calls_of (flags : boundary_flags) (s : S) :
  iterateBoundary3D T tiles nx ny nz (Z.of_nat n) flags body s
  = calls body 4 (boundary_quads T tiles nx ny nz n flags) s.
Proof.
  destruct (edges_nonempty T Hedges Hleft Hbottom) as [Hright Htop].
  destruct Hedges as (_ & Hbl & Hbr & Hbb & Hbt & _).
  assert (Hlen : forall j i, 0 <= i < nx -> 0 <= j < ny ->
                             length (tile_at nx tiles j i) = npts T).
  { intros j i Hi Hj. apply (Hvalid j i Hi Hj). }
  unfold iterateBoundary3D, boundary_quads.
  (* left *)
  rewrite calls_app.
  match goal with
  | |- mbind _ ?m = _ =>
      assert (HL : m = calls body 4
                         (if fLeft flags
                          then wall nz n (left_side T tiles nx ny) else []) s)
  end.
  { destruct (fLeft flags); [|reflexivity].
    apply (wall_calls_of false BoundaryLeft (m_left T) (down_from (ny - 1) (Z.to_nat ny))
             (fun j => (j, 0)) s
             (fun inner s => for_down (ny - 1) (Z.to_nat ny) inner s) Hbl Hleft).
    - intros j Hj%elem_of_down_from. cbn [fst snd]. lia.
    - intros body' f inner s0. apply down_loop_of. }
  rewrite HL. clear HL. apply bind_ext. intros s1.
  (* right *)
  rewrite calls_app.
  match goal with
  | |- mbind _ ?m = _ =>
      assert (HR : m = calls body 4
                         (if fRight flags
                          then wall nz n (right_side T tiles nx ny) else []) s1)
  end.
  { destruct (fRight flags); [|reflexivity].
    apply (wall_calls_of true BoundaryRight (m_right T) (up_from 0 (Z.to_nat ny))
             (fun j => (j, nx - 1)) s1
             (fun inner s => for_range 0 (Z.to_nat ny) inner s) Hbr Hright).
    - intros j Hj%elem_of_up_from. cbn [fst snd]. lia.
    - intros body' f inner s0. apply up_loop_of. }
  rewrite HR. clear HR. apply bind_ext. intros s2.
  (* bottom *)
  rewrite calls_app.
  match goal with
  | |- mbind _ ?m = _ =>
      assert (HB : m = calls body 4
                         (if fBottom flags
                          then wall nz n (bottom_side T tiles nx) else []) s2)
  end.
  { destruct (fBottom flags); [|reflexivity].
    apply (wall_calls_of true BoundaryBottom (m_bottom T) (up_from 0 (Z.to_nat nx))
             (fun i => (0, i)) s2
             (fun inner s => for_range 0 (Z.to_nat nx) inner s) Hbb Hbottom).
    - intros i Hi%elem_of_up_from. cbn [fst snd]. lia.
    - intros body' f inner s0. apply up_loop_of. }
  rewrite HB. clear HB. apply bind_ext. intros s3.
  (* top *)
  rewrite calls_app.
  match goal with
  | |- mbind _ ?m = _ =>
      assert (HT : m = calls body 4
                         (if fTop flags
                          then wall nz n (top_side T tiles nx ny) else []) s3)
  end.
  { destruct (fTop flags); [|reflexivity].
    apply (wall_calls_of false BoundaryTop (m_top T) (down_from (nx - 1) (Z.to_nat nx))
             (fun i => (ny - 1, i)) s3
             (fun inner s => for_down (nx - 1) (Z.to_nat nx) inner s) Hbt Htop).
    - intros i Hi%elem_of_down_from. cbn [fst snd]. lia.
    - intros body' f inner s0. apply down_loop_of. }
  rewrite HT. clear HT. apply bind_ext. intros s4.
  (* back *)
  rewrite calls_app.
  match goal with
  | |- mbind _ ?m = _ =>
      assert (HK : m = calls body 4
                         (if fBack flags then back_faces T tiles nx ny else []) s4)
  end.
  { destruct (fBack flags); [|reflexivity]. unfold back_faces.
    apply for_range_calls_of. intros j s' Hj.
    apply for_down_calls_of. intros i s'' Hi.
    pose proof (tile_index nx ny j i ltac:(lia) ltac:(lia)) as Hq.
    rewrite (vec_get_at [] tiles (j * nx + i)) by lia. cbn [mbind result_bind].
    fold (tile_at nx tiles j i).
    apply iterateFaces_calls_of. apply Hlen; lia. }
  rewrite HK. clear HK. apply bind_ext. intros s5.
  (* front *)
  destruct (fFront flags); [|reflexivity]. unfold front_faces.
  apply for_range_calls_of. intros j s' Hj.
  apply for_range_calls_of. intros i s'' Hi.
  pose proof (tile_index nx ny j i ltac:(lia) ltac:(lia)) as Hq.
  rewrite (vec_get_at [] tiles (j * nx + i)) by lia. cbn [mbind result_bind].
  fold (tile_at nx tiles j i).
  apply iterateFaces_calls_of. apply Hlen; lia.
Qed.

End Boundary3DOf.

(** ** Tiler: [generate] with reordering *)

(** The renumbering loop of the boundary callbacks when [reorder] is on. *)
Lemma renumber_ids (old2NewPoint ids acc : list Z) :
  Forall (fun id => 0 <= id < Z.of_nat (length old2NewPoint)) ids ->
  for_each ids (fun id acc => n ← vec_get old2NewPoint id; Ok (acc ++ [n])) acc
  = Ok (acc ++ map (at_ 0 old2NewPoint) ids).
Proof.
  intros Hids. revert acc. induction Hids as [|id ids Hid _ IH]; intros acc.
  - cbn. now rewrite app_nil_r.
  - cbn [for_each map]. rewrite (vec_get_at 0 old2NewPoint id Hid).
    cbn [mbind result_bind]. rewrite IH, <- app_assoc. reflexivity.
Qed.

Lemma push_boundary_renumbered (old2NewPoint ids : list Z) (npts bnd : Z)
    (c z t : list Z) :
  Forall (fun id => 0 <= id < Z.of_nat (length old2NewPoint)) ids ->
  push_boundary true old2NewPoint ids npts bnd (c, z, t)
  = Ok (c ++ map (at_ 0 old2NewPoint) ids, z ++ [npts], t ++ [bnd]).
Proof.
  intros Hids. unfold push_boundary. now rewrite (renumber_ids _ _ [] Hids).
Qed.

Lemma calls_renumbered (old2NewPoint : list Z) (npts : Z) (segs : list segment)
    (c z t : list Z) :
  Forall (fun seg : segment =>
            Forall (fun id => 0 <= id < Z.of_nat (length old2NewPoint)) (fst seg)) segs ->
  calls (push_boundary true old2NewPoint) npts segs (c, z, t)
  = Ok (c ++ map (at_ 0 old2NewPoint) (concat (map fst segs)),
        z ++ replicate (length segs) npts, t ++ map snd segs).
Proof.
  intros Hsegs. revert c z t. induction Hsegs as [|seg segs Hseg _ IH]; intros c z t.
  - cbn. now rewrite !app_nil_r.
  - cbn [calls for_each]. rewrite (push_boundary_renumbered _ _ _ _ _ _ _ Hseg).
    cbn [mbind result_bind].
    fold (calls (push_boundary true old2NewPoint) npts segs
            (c ++ map (at_ 0 old2NewPoint) (fst seg), z ++ [npts], t ++ [snd seg])).
    rewrite IH. cbn [map concat length replicate].
    now rewrite map_app, <- !app_assoc.
Qed.

(** [options] with another [reorder]. *)
Definition with_reorder (r : option Z) (options : options_node) : options_node :=
  {| o_tile := o_tile options; o_reorder := r; o_datatype := o_datatype options;
     o_extents := o_extents options; o_domain := o_domain options;
     o_domains := o_domains options |}.

(** A boundary topology with its point ids renumbered. *)
Definition renumbered (old2NewPoint : list Z) (b : boundary_topology)
  : boundary_topology :=
  {| b_shape := b_shape b;
     b_connectivity := map (at_ 0 old2NewPoint) (b_connectivity b);
     b_sizes := b_sizes b;
     boundary_type := boundary_type b |}.

(** Whether [options] leave [reorder] on. *)
Definition reorder_on (options : options_node) : Prop :=
  match o_reorder options with
  | Some r => 0 < to_int r
  | None => True
  end.

Lemma renumbered_small (int32 : bool) (old2NewPoint ids : list Z) :
  Forall (fun v => 0 <= v < 2 ^ 31) old2NewPoint ->
  to_data_type int32 (map (at_ 0 old2NewPoint) ids) = map (at_ 0 old2NewPoint) ids.
Proof.
  intros Hsmall. apply to_data_type_small. apply Forall_map, Forall_forall.
  intros id _. cbv beta. unfold at_, vec_get.
  destruct (Z.ltb id 0); [lia|].
  destruct (old2NewPoint !! Z.to_nat id) as [v|] eqn:E; [|lia].
  apply list_elem_of_lookup_2 in E.
  pose proof (proj1 (Forall_forall _ _) Hsmall v E) as Hv. cbv beta in Hv. lia.
Qed.

Section Reordered.

Variable reorder_mesh :
  list Q * list Q * list Q * list Z * list Z ->
  result (list Q * list Q * list Q * list Z * list Z * list Z).

(** The result of [generate] when reordering is on, from the result it has
    with reordering off. *)
Definition follows (plain : mesh_node) (r : result mesh_node) : Prop :=
  match reorder_mesh (coords_x plain, coords_y plain, coords_z plain,
                      elements_connectivity plain, elements_sizes plain) with
  | Err e => r = Err e
  | Ok (x, y, z, conn, sizes, old2NewPoint) =>
      (length (coords_x plain) <= length old2NewPoint)%nat ->
      Forall (fun v => 0 <= v < 2 ^ 31) old2NewPoint ->
      r = Ok {| coords_x := x; coords_y := y; coords_z := z;
                elements_shape := elements_shape plain;
                elements_connectivity := conn;
                elements_sizes := sizes;
                topologies_boundary :=
                  option_map (renumbered old2NewPoint) (topologies_boundary plain) |}
  end.

Lemma generate_2D_reordered T nx ny nz options origin0 origin1 origin2 tx ty z1 :
  edges_ok T -> quads_ok T -> m_left T <> [] -> m_bottom T <> [] ->
  1 <= nx -> 1 <= ny -> nz < 1 ->
  nx * ny * Z.of_nat (npts T) < 2 ^ 31 ->
  o_tile options = None -> reorder_on options ->
  placement T nx ny nz options = Ok (origin0, origin1, origin2, tx, ty, z1) ->
  exists plain,
    generate reorder_mesh T nx ny nz (with_reorder (Some 0) options) = Ok plain /\
    follows plain (generate reorder_mesh T nx ny nz options).
Proof.
  intros Hedges Hquads Hleft Hbottom Hnx Hny Hnz Hsmall Htile Hon Hplace.
  destruct (generate_2D_run reorder_mesh T nx ny nz (with_reorder (Some 0) options) 0
              origin0 origin1 origin2 tx ty z1 Hedges Hquads Hleft Hbottom Hnx Hny Hnz
              Hsmall Htile eq_refl ltac:(vm_compute; discriminate) Hplace)
    as (pts & flags & Hrun & Hflags & Hlen & Hxy & Hvalid & Hgen).
  cbv zeta in Hgen. eexists. split; [exact Hgen|].
  unfold follows. cbn [coords_x coords_y coords_z elements_shape elements_connectivity
                       elements_sizes topologies_boundary].
  change (boundaryFlags (with_reorder (Some 0) options)) with (boundaryFlags options)
    in Hflags.
  pose proof (mesh_faces_valid T (ps_tiles pts) nx ny (length (ps_x pts))
                Hquads Hnx Hny Hlen Hvalid) as Hfaces.
  pose proof (boundary_segments_valid T (ps_tiles pts) nx ny (length (ps_x pts))
                Hedges Hnx Hny Hlen Hvalid flags) as Hsegs.
  pose proof (elements_2D_calls T (ps_tiles pts) nx ny (length (ps_x pts))
                Hquads Hnx Hny Hlen Hvalid ([], [])) as Helems.
  rewrite fold_push_face in Helems. cbn [app] in Helems.
  assert (Hn : Z.of_nat (length (ps_x pts)) < 2 ^ 31).
  { destruct (make_points_spec T nx ny origin0 origin1 tx ty 1%Q 1%Q
                (transform T origin0 origin1 tx ty) Hedges Hnx Hny Hsmall)
      as (pts' & Hrun' & _ & _ & Hcount & _).
    assert (pts' = pts) as -> by congruence. lia. }
  assert (Hfv : Forall (fun id => - 2 ^ 31 <= id < 2 ^ 31)
                       (concat (map fst (mesh_faces T (ps_tiles pts) nx ny)))).
  { apply Forall_concat, Forall_fmap. eapply Forall_impl; [exact Hfaces|].
    intros seg [_ Hs]. eapply Forall_impl; [exact Hs|]. cbn beta. intros id Hid. lia. }
  set (segs := boundary_segments T (ps_tiles pts) nx ny flags) in *.
  set (faces := mesh_faces T (ps_tiles pts) nx ny) in *.
  assert (Hhead : generate reorder_mesh T nx ny nz options
                  = ('(x, y, z, conn, sizes, old2NewPoint) ←
                       reorder_mesh (ps_x pts, ps_y pts, [], concat (map fst faces),
                                     replicate (length faces) 4);
                     '(bconn, bsizes, btype) ←
                       calls (push_boundary true old2NewPoint) 2 segs ([], [], []);
                     Ok {| coords_x := x; coords_y := y; coords_z := z;
                           elements_shape := "quad";
                           elements_connectivity := conn;
                           elements_sizes := sizes;
                           topologies_boundary :=
                             match bconn with
                             | [] => None
                             | _ => Some {| b_shape := "line";
                                            b_connectivity :=
                                              to_data_type
                                                (match o_datatype options with
                                                 | Some s =>
                                                     bool_decide
                                                       (s = "int" \/ s = "int32"
                                                        \/ s = "integer")
                                                 | None => false
                                                 end) bconn;
                                            b_sizes :=
                                              to_data_type
                                                (match o_datatype options with
                                                 | Some s =>
                                                     bool_decide
                                                       (s = "int" \/ s = "int32"
                                                        \/ s = "integer")
                                                 | None => false
                                                 end) bsizes;
                                            boundary_type := btype |}
                             end |})).
  { unfold generate. rewrite Htile. cbn [mbind result_bind]. rewrite Hplace.
    cbn [mbind result_bind]. rewrite Hrun. cbn [mbind result_bind].
    destruct (Z.ltb_spec nz 1) as [_|]; [|lia].
    rewrite Helems. cbn [mbind result_bind].
    assert (Hre : match o_reorder options with
                  | Some r => Z.ltb 0 (to_int r)
                  | None => true
                  end = true).
    { unfold reorder_on in Hon. destruct (o_reorder options); [|reflexivity].
      now apply Z.ltb_lt. }
    rewrite Hre.
    rewrite !(to_data_type_small _ (concat _)) by assumption.
    rewrite !(to_data_type_small _ (replicate _ _))
      by (apply Forall_replicate_const; lia).
    apply bind_ext. intros [[[[[x y] z] conn] sizes] old2NewPoint].
    rewrite Hflags. cbn [mbind result_bind].
    rewrite (iterateBoundary2D_calls_of T (ps_tiles pts) nx ny (length (ps_x pts))
               Hedges Hleft Hbottom Hnx Hny Hlen Hvalid).
    reflexivity. }
  rewrite Hhead. clear Hhead.
  destruct (reorder_mesh _) as [[[[[[x y] z] conn] sizes] old2NewPoint]|e];
    [|reflexivity].
  cbn [mbind result_bind]. intros Hlong Hnew.
  rewrite calls_renumbered.
  - cbn [mbind result_bind app].
    rewrite renumbered_small by exact Hnew.
    rewrite (to_data_type_small _ (replicate _ _))
      by (apply Forall_replicate_const; lia).
    destruct (concat (map fst segs)) as [|a l]; reflexivity.
  - eapply Forall_impl; [exact Hsegs|]. intros seg [_ Hs].
    eapply Forall_impl; [exact Hs|]. cbv beta. intros id Hid. lia.
Qed.

End Reordered.

Section Reordered3D.

Variable reorder_mesh :
  list Q * list Q * list Q * list Z * list Z ->
  result (list Q * list Q * list Q * list Z * list Z * list Z).

Lemma generate_3D_reordered T nx ny nz options origin0 origin1 origin2 tx ty z1 :
  edges_ok T -> quads_ok T -> m_left T <> [] -> m_bottom T <> [] ->
  1 <= nx -> 1 <= ny -> 1 <= nz ->
  (nz + 1) * (nx * ny * Z.of_nat (npts T)) < 2 ^ 31 ->
  o_tile options = None -> reorder_on options ->
  placement T nx ny nz options = Ok (origin0, origin1, origin2, tx, ty, z1) ->
  exists plain,
    generate reorder_mesh T nx ny nz (with_reorder (Some 0) options) = Ok plain /\
    follows reorder_mesh plain (generate reorder_mesh T nx ny nz options).
Proof.
  intros Hedges Hquads Hleft Hbottom Hnx Hny Hnz Hsmall Htile Hon Hplace.
  destruct (generate_3D_run reorder_mesh T nx ny nz (with_reorder (Some 0) options) 0
              origin0 origin1 origin2 tx ty z1 Hedges Hquads Hleft Hbottom Hnx Hny Hnz
              Hsmall Htile eq_refl ltac:(vm_compute; discriminate) Hplace)
    as (pts & flags & Hrun & Hflags & Hlen & Hxy & HP & Hvalid & Hgen).
  cbv zeta in Hgen. eexists. split; [exact Hgen|].
  unfold follows. cbn [coords_x coords_y coords_z elements_shape elements_connectivity
                       elements_sizes topologies_boundary].
  change (boundaryFlags (with_reorder (Some 0) options)) with (boundaryFlags options)
    in Hflags.
  set (P := length (ps_x pts)) in *.
  assert (Hplane : nx * ny * Z.of_nat (npts T) < 2 ^ 31) by nia.
  assert (Hn : (nz + 1) * Z.of_nat P < 2 ^ 31).
  { destruct (make_points_spec T nx ny origin0 origin1 tx ty 1%Q 1%Q
                (transform T origin0 origin1 tx ty) Hedges Hnx Hny Hplane)
      as (pts' & Hrun' & _ & _ & Hcount & _).
    assert (pts' = pts) as -> by congruence. fold P in Hcount. nia. }
  pose proof (mesh_hexs_valid T (ps_tiles pts) nx ny nz P
                Hquads Hnx Hny Hnz Hlen Hvalid) as Hhexs.
  pose proof (boundary_quads_valid T (ps_tiles pts) nx ny nz P
                Hquads Hedges Hnx Hny Hnz Hlen Hvalid flags) as Hbq.
  pose proof (elements_3D_calls T (ps_tiles pts) nx ny nz P
                Hquads Hnx Hny Hnz Hlen Hvalid ([], [])) as Helems.
  rewrite fold_push_hex in Helems. cbn [app] in Helems. cbv zeta in Helems.
  assert (Hfv : Forall (fun id => - 2 ^ 31 <= id < 2 ^ 31)
                       (concat (mesh_hexs T (ps_tiles pts) nx ny nz P))).
  { apply Forall_concat. eapply Forall_impl; [exact Hhexs|].
    intros ids (_ & Hs & _). eapply Forall_impl; [exact Hs|]. cbn beta. intros id Hid. lia. }
  set (quads := boundary_quads T (ps_tiles pts) nx ny nz P flags) in *.
  set (hexs := mesh_hexs T (ps_tiles pts) nx ny nz P) in *.
  set (zs := replicate P origin2
             ++ flat_map (fun p => replicate P (zvalue origin2 z1 nz p))
                         (up_from 1 (Z.to_nat nz))) in *.
  assert (Hzs : exists z0 zs', zs = z0 :: zs').
  { destruct zs as [|z0 zs'] eqn:Ez; [|eauto]. exfalso. subst zs.
    apply (f_equal length) in Ez. rewrite length_app, length_replicate in Ez.
    cbn [length] in Ez. lia. }
  assert (Hhead : generate reorder_mesh T nx ny nz options
                  = ('(x, y, z, conn, sizes, old2NewPoint) ←
                       reorder_mesh
                         (concat (replicate (Datatypes.S (Z.to_nat nz)) (ps_x pts)),
                          concat (replicate (Datatypes.S (Z.to_nat nz)) (ps_y pts)),
                          zs, concat hexs, replicate (length hexs) 8);
                     '(bconn, bsizes, btype) ←
                       calls (push_boundary true old2NewPoint) 4 quads ([], [], []);
                     Ok {| coords_x := x; coords_y := y; coords_z := z;
                           elements_shape := "hex";
                           elements_connectivity := conn;
                           elements_sizes := sizes;
                           topologies_boundary :=
                             match bconn with
                             | [] => None
                             | _ => Some {| b_shape := "quad";
                                            b_connectivity :=
                                              to_data_type
                                                (match o_datatype options with
                                                 | Some s =>
                                                     bool_decide
                                                       (s = "int" \/ s = "int32"
                                                        \/ s = "integer")
                                                 | None => false
                                                 end) bconn;
                                            b_sizes :=
                                              to_data_type
                                                (match o_datatype options with
                                                 | Some s =>
                                                     bool_decide
                                                       (s = "int" \/ s = "int32"
                                                        \/ s = "integer")
                                                 | None => false
                                                 end) bsizes;
                                            boundary_type := btype |}
                             end |})).
  { unfold generate. rewrite Htile. cbn [mbind result_bind]. rewrite Hplace.
    cbn [mbind result_bind]. rewrite Hrun. cbn [mbind result_bind].
    destruct (Z.ltb_spec nz 1) as [|_]; [lia|].
    cbv zeta. fold P. rewrite planes_run. cbn [mbind result_bind]. fold P. fold zs.
    rewrite Helems. cbn [mbind result_bind].
    assert (Hre : match o_reorder options with
                  | Some r => Z.ltb 0 (to_int r)
                  | None => true
                  end = true).
    { unfold reorder_on in Hon. destruct (o_reorder options); [|reflexivity].
      now apply Z.ltb_lt. }
    rewrite Hre.
    rewrite !(to_data_type_small _ (concat _)) by assumption.
    rewrite !(to_data_type_small _ (replicate _ _))
      by (apply Forall_replicate_const; lia).
    destruct Hzs as (z0 & zs' & ->).
    apply bind_ext. intros [[[[[x y] z] conn] sizes] old2NewPoint].
    rewrite Hflags. cbn [mbind result_bind].
    rewrite (iterateBoundary3D_calls_of T (ps_tiles pts) nx ny nz P
               Hquads Hedges Hleft Hbottom Hnx Hny Hlen Hvalid).
    reflexivity. }
  rewrite Hhead. clear Hhead.
  destruct (reorder_mesh _) as [[[[[[x y] z] conn] sizes] old2NewPoint]|e];
    [|reflexivity].
  cbn [mbind result_bind]. intros Hlong Hnew.
  assert (Hpoints : (Z.of_nat (length (concat (replicate (Datatypes.S (Z.to_nat nz))
                                                          (ps_x pts))))
                     = (nz + 1) * Z.of_nat P)).
  { rewrite (length_concat_const _ P) by now apply Forall_replicate_const.
    rewrite length_replicate. nia. }
  rewrite calls_renumbered.
  - cbn [mbind result_bind app].
    rewrite renumbered_small by exact Hnew.
    rewrite (to_data_type_small _ (replicate _ _))
      by (apply Forall_replicate_const; lia).
    destruct (concat (map fst quads)) as [|a l]; reflexivity.
  - eapply Forall_impl; [exact Hbq|]. intros seg [_ Hs].
    eapply Forall_impl; [exact Hs|]. cbv beta. intros id Hid. lia.
Qed.

End Reordered3D.

(** X23: with reordering on, as it is unless [reorder] is given and not
    positive, [generate] returns the mesh it returns with [reorder = 0]
    passed through the reordering: the coordinates, connectivity and sizes
    are those the reordering gives for the plain ones, the shape is kept,
    and the boundary topology is the plain one with every point id [id]
    replaced by [old2NewPoint[id]]; an error of the reordering is the error
    of [generate].  This holds in 2D and in 3D, for an [old2NewPoint] with an
    entry for every point. *)
Theorem reordered_mesh_follows_plain :
  forall reorder_mesh T nx ny nz options origin0 origin1 origin2 tx ty z1,
    edges_ok T -> quads_ok T -> m_left T <> [] -> m_bottom T <> [] ->
    1 <= nx -> 1 <= ny ->
    (Z.max nz 0 + 1) * (nx * ny * Z.of_nat (npts T)) < 2 ^ 31 ->
    o_tile options = None -> reorder_on options ->
    placement T nx ny nz options = Ok (origin0, origin1, origin2, tx, ty, z1) ->
    exists plain,
      generate reorder_mesh T nx ny nz (with_reorder (Some 0) options) = Ok plain /\
      match reorder_mesh (coords_x plain, coords_y plain, coords_z plain,
                          elements_connectivity plain, elements_sizes plain) with
      | Err e => generate reorder_mesh T nx ny nz options = Err e
      | Ok (x, y, z, conn, sizes, old2NewPoint) =>
          (length (coords_x plain) <= length old2NewPoint)%nat ->
          Forall (fun v => 0 <= v < 2 ^ 31) old2NewPoint ->
          generate reorder_mesh T nx ny nz options
          = Ok {| coords_x := x; coords_y := y; coords_z := z;
                  elements_shape := elements_shape plain;
                  elements_connectivity := conn;
                  elements_sizes := sizes;
                  topologies_boundary :=
                    option_map (renumbered old2NewPoint) (topologies_boundary plain) |}
      end.
Proof.
  intros reorder_mesh T nx ny nz options origin0 origin1 origin2 tx ty z1
         Hedges Hquads Hleft Hbottom Hnx Hny Hsmall Htile Hon Hplace.
  destruct (Z.lt_ge_cases nz 1) as [Hnz|Hnz].
  - replace (Z.max nz 0) with 0 in Hsmall by lia.
    destruct (generate_2D_reordered reorder_mesh T nx ny nz options origin0 origin1
                origin2 tx ty z1 Hedges Hquads Hleft Hbottom Hnx Hny Hnz
                ltac:(lia) Htile Hon Hplace) as (plain & Hplain & Hfollows).
    exists plain. split; [exact Hplain|exact Hfollows].
  - replace (Z.max nz 0) with nz in Hsmall by lia.
    destruct (generate_3D_reordered reorder_mesh T nx ny nz options origin0 origin1
                origin2 tx ty z1 Hedges Hquads Hleft Hbottom Hnx Hny Hnz
                Hsmall Htile Hon Hplace) as (plain & Hplain & Hfollows).
    exists plain. split; [exact Hplain|exact Hfollows].
Qed.

Lemma reordered_mesh_follows_plain_witness :
  exists plain,
    generate (fun _ => Err NoMessage) default_tiler 1 1 0
      (with_reorder (Some 0) no_options) = Ok plain /\
    generate (fun _ => Err NoMessage) default_tiler 1 1 0 no_options = Err NoMessage.
Proof.
  destruct (reordered_mesh_follows_plain (fun _ => Err NoMessage) default_tiler 1 1 0
              no_options 0 0 0 (m_width default_tiler) (m_height default_tiler)
              (Qmax (m_width default_tiler) (m_height default_tiler) * inject_Z 0)%Q)
    as (plain & Hplain & Hfollows).
  - exact default_edges_ok.
  - exact default_quads_ok.
  - discriminate.
  - discriminate.
  - lia.
  - lia.
  - vm_compute. reflexivity.
  - reflexivity.
  - exact I.
  - reflexivity.
  - exists plain. split; [exact Hplain|exact Hfollows].
Defined.

(** ** point_merge: the coordinate system of a coordset *)




